(** * Microservice decomposition metrics: the calculation engine

    A shallow embedding of [MicroserviceMetricsCalculator.calculate_metrics]
    and [calculate_scheme_metrics] of [metrics_calculator.py], and the
    properties of the metrics they emit.

    Python [int]s are [Z].  The values Python computes with [/] are
    [float]s; the engine is written once over an arithmetic [PyNum] and
    run in two of them: IEEE binary64 ([PrimFloat.float], what the
    interpreter computes) and exact rationals ([Qc], the arithmetic of the
    formulas).  Dictionaries looked up by key are [gmap]s, Python [set]s
    are [gset]s, the scheme dictionary, which is iterated in insertion
    order, is an association list, [print] appends to a log, and a raised
    exception is a value of [exn]. *)

From Stdlib Require Import ZArith QArith Qcanon Floats Lia Ascii.
From stdpp Require Import gmap strings list fin_maps pretty.

#[local] Open Scope Z_scope.

(** ** Exceptions *)

(** The exceptions the engine raises, with their message; the last two
    are those of an object that has not the expected keys or shape. *)
Inductive exn :=
| ValueError (msg : string)
| ZeroDivisionError (msg : string)
| OverflowError (msg : string)
| KeyError (msg : string)
| TypeError (msg : string).

Definition str (e : exn) : string :=
  match e with
  | ValueError msg => msg
  | ZeroDivisionError msg => msg
  | OverflowError msg => msg
  | KeyError msg => msg
  | TypeError msg => msg
  end.

#[export] Instance exn_eq_dec : EqDecision exn.
Proof. solve_decision. Defined.

(** ** Numbers *)

(** What the engine asks of its numbers: the promotion of an [int], the four
    operations, the strict comparison used by [min], and [a / b] on two
    [int]s, which can raise. *)
Class PyNum (R : Type) := {
  of_int : Z -> R;
  num_add : R -> R -> R;
  num_sub : R -> R -> R;
  num_mul : R -> R -> R;
  num_div : R -> R -> R;
  num_ltb : R -> R -> bool;
  int_div : Z -> Z -> exn + R
}.

Declare Scope num_scope.
Delimit Scope num_scope with num.
Infix "+" := num_add : num_scope.
Infix "-" := num_sub : num_scope.
Infix "*" := num_mul : num_scope.
Infix "/" := num_div : num_scope.
Infix "<?" := num_ltb : num_scope.

(** [min(a, b)] of Python: the first argument unless the second is
    strictly smaller. *)
Definition pymin {R} `{PyNum R} (a b : R) : R :=
  if (b <? a)%num then b else a.

(** Python's [sum(xs)]: additions from the left, starting at the int 0. *)
Definition pysum {R} `{PyNum R} (xs : list R) : R :=
  fold_left num_add xs (of_int 0).

(** Exact rationals: the quotient of two ints is their quotient. *)
#[export] Instance Qc_PyNum : PyNum Qc := {|
  of_int z := Q2Qc (inject_Z z);
  num_add := Qcplus;
  num_sub := Qcminus;
  num_mul := Qcmult;
  num_div := Qcdiv;
  num_ltb x y := match (x ?= y)%Qc with Lt => true | _ => false end;
  int_div a b :=
    if b =? 0 then inl (ZeroDivisionError "division by zero")
    else inr (Q2Qc (inject_Z a) / Q2Qc (inject_Z b))%Qc
|}.

(** [float(z)]: the double nearest to [z], ties to even. *)
Definition float_of_int (z : Z) : float :=
  SF2Prim (binary_normalize prec emax z 0 false).

(** An int as an unrounded binary number, mantissa [|z|] and exponent 0. *)
Definition int_SF (z : Z) : spec_float :=
  match z with
  | Z0 => S754_zero false
  | Zpos m => S754_finite false m 0
  | Zneg m => S754_finite true m 0
  end.

(** [a / b] on two ints in binary64: the double nearest to the exact
    quotient, ties to even.  Below 2^53 in magnitude both ints are doubles
    and the quotient is the IEEE division of the two, which rounds once;
    beyond, the quotient is rounded from the two ints themselves, and a
    quotient that rounds out of the range of the doubles raises. *)
Definition float_int_div (a b : Z) : exn + float :=
  if b =? 0 then inl (ZeroDivisionError "division by zero")
  else if (Z.abs a <? 2 ^ 53) && (Z.abs b <? 2 ^ 53)
  then inr (PrimFloat.div (float_of_int a) (float_of_int b))
  else match SFdiv prec emax (int_SF a) (int_SF b) with
       | S754_infinity _ =>
           inl (OverflowError "integer division result too large for a float")
       | q => inr (SF2Prim q)
       end.

(** IEEE binary64.  [of_int a / of_int b] is Python's [a / b] on ints
    whenever both convert exactly (magnitudes up to 2^53), as the counts of
    the engine do; [int_div] is [a / b] on any two ints. *)
#[export] Instance float_PyNum : PyNum float := {|
  of_int := float_of_int;
  num_add := PrimFloat.add;
  num_sub := PrimFloat.sub;
  num_mul := PrimFloat.mul;
  num_div := PrimFloat.div;
  num_ltb := PrimFloat.ltb;
  int_div := float_int_div
|}.

(** ** Data model *)

(** [self.operations[name]]: the attribute identifiers an operation reads
    and writes, as the loader appended them (duplicates are possible). *)
Record operation := { read : list string; write : list string }.

(** One entry of [scheme_data["services"]]. *)
Record service := { name : string; use_cases : list string }.

(** The attributes of the calculator that the engine reads. *)
Record calculator := {
  entities : gmap string (list string);
  operations : gmap string operation;
  op_type_map : gmap string string;
  op_weights : gmap string Z;
  schemes : list (string * list service)
}.

(** The weight table [__init__] falls back to. *)
Definition default_op_weights : gmap string Z :=
  <["Create"%string := 4]> (<["Update"%string := 3]>
    (<["Delete"%string := 2]> (<["Read"%string := 1]> ∅))).

(** An entry of [operation_details] as the scoring loop appends it. *)
Module Detail.
Record t (R : Type) := mk {
  Operation : string; IPR : Z; OPR : Z; FP : Z; CP : Z; OT : Z; DGS : R
}.
Arguments mk {R}. Arguments Operation {R}. Arguments IPR {R}.
Arguments OPR {R}. Arguments FP {R}. Arguments CP {R}.
Arguments OT {R}. Arguments DGS {R}.
End Detail.

(** The same entry once the grading loop has stored ["FGS"] and
    ["SGM_Operation"] in it. *)
Module Graded.
Record t (R : Type) := mk {
  detail : Detail.t R; FGS : R; SGM_Operation : R
}.
Arguments mk {R}. Arguments detail {R}. Arguments FGS {R}.
Arguments SGM_Operation {R}.
End Graded.

(** A row of the detailed result collection. *)
Module Row.
Record t (R : Type) := mk {
  Scheme : string; Service : string; NOO : Z; LCOM : R; SGM : R;
  MF : Z; M : Z; F : Z; Operation : string; IPR : Z; OPR : Z;
  FP : Z; CP : Z; OT : Z; O : Z; DGS : R; FGS : R; SGM_Operation : R
}.
Arguments mk {R}. Arguments Scheme {R}. Arguments Service {R}.
Arguments NOO {R}. Arguments LCOM {R}. Arguments SGM {R}.
Arguments MF {R}. Arguments M {R}. Arguments F {R}.
Arguments Operation {R}. Arguments IPR {R}. Arguments OPR {R}.
Arguments FP {R}. Arguments CP {R}. Arguments OT {R}. Arguments O {R}.
Arguments DGS {R}. Arguments FGS {R}. Arguments SGM_Operation {R}.
End Row.

(** The [scheme_metrics] dictionary. *)
Module SchemeMetrics.
Record t (R : Type) := mk { ALCOM : R; ASGM : R; Max_NOO : Z }.
Arguments mk {R}. Arguments ALCOM {R}. Arguments ASGM {R}.
Arguments Max_NOO {R}.
End SchemeMetrics.

(** A row of the scheme summary; [NOO_max] is the key ["NOO(max)"]. *)
Module Summary.
Record t (R : Type) := mk { Scheme : string; ALCOM : R; ASGM : R; NOO_max : Z }.
Arguments mk {R}. Arguments Scheme {R}. Arguments ALCOM {R}.
Arguments ASGM {R}. Arguments NOO_max {R}.
End Summary.

(** [len] of a list and of a set, as Python ints. *)
Definition len {A} (l : list A) : Z := Z.of_nat (length l).
Definition card (s : gset string) : Z := Z.of_nat (size s).

(** ** The engine *)

(** The four accumulators of the aggregation loop. *)
Record params := {
  all_params : gset string;
  param_access_count : gmap string Z;
  read_params : gset string;
  write_params : gset string
}.

Definition no_params : params :=
  {| all_params := ∅; param_access_count := ∅;
     read_params := ∅; write_params := ∅ |}.

(** [param_access_count[param] += 1] on a [defaultdict(int)]. *)
Definition incr (param : string) (c : gmap string Z) : gmap string Z :=
  <[param := default 0 (c !! param) + 1]> c.

(** One turn of [for param in self.operations[uc]["read"]]. *)
Definition add_read (p : params) (param : string) : params :=
  {| all_params := all_params p ∪ {[param]};
     param_access_count := incr param (param_access_count p);
     read_params := read_params p ∪ {[param]};
     write_params := write_params p |}.

(** One turn of [for param in self.operations[uc]["write"]]. *)
Definition add_write (p : params) (param : string) : params :=
  {| all_params := all_params p ∪ {[param]};
     param_access_count := incr param (param_access_count p);
     read_params := read_params p;
     write_params := write_params p ∪ {[param]} |}.

Definition warn_no_use_cases (svc : string) : string :=
  ("Warning: Service " ++ svc ++ " has no use cases")%string.

Definition warn_unknown (uc : string) : string :=
  ("Warning: Operation '" ++ uc ++ "' definition not found")%string.

(** [sum(param_access_count.values())]. *)
Definition sum_values (c : gmap string Z) : Z :=
  map_fold (fun _ v acc => acc + v) 0 c.

(** [lcom = 1 - (mf_sum / (m * f)) if m * f > 0 else 0]. *)
Definition lcom_of {R} `{PyNum R} (mf_sum m f : Z) : R :=
  if 0 <? m * f then (of_int 1 - of_int mf_sum / of_int (m * f))%num
  else of_int 0.

(** [fp = len(read_params) if read_params else 1], and likewise [cp]. *)
Definition floor1 (s : gset string) : Z :=
  if decide (s = ∅) then 1 else card s.

(** [dgs = min(1.0, (ipr/max(1, fp) + opr/max(1, cp)))]. *)
Definition dgs_of {R} `{PyNum R} (ipr opr fp cp : Z) : R :=
  pymin (of_int 1)
        (of_int ipr / of_int (Z.max 1 fp) + of_int opr / of_int (Z.max 1 cp))%num.

(** [fgs = op["OT"] / service_weight if service_weight > 0 else 0]: the
    quotient of two ints of the weight table, which raises when it is too
    large for a double. *)
Definition fgs_of {R} `{PyNum R} (ot service_weight : Z) : exn + R :=
  if 0 <? service_weight then int_div ot service_weight
  else inr (of_int 0).

Section Engine.
Context {R : Type} `{PyNum R}.
Variable self : calculator.

(** Aggregation loop, one use case: an unknown name is reported and
    skipped, a known one has its reads and then its writes recorded. *)
Definition scan_use_case (st : params * list string) (uc : string)
  : params * list string :=
  match operations self !! uc with
  | None => (st.1, st.2 ++ [warn_unknown uc])
  | Some op => (fold_left add_write (write op) (fold_left add_read (read op) st.1), st.2)
  end.

(** The weight [ot] of a use case: its type, ["Read"] when unmapped, looked
    up in the weight table, 1 when absent. *)
Definition op_weight (uc : string) : Z :=
  default 1 (op_weights self !! default "Read"%string (op_type_map self !! uc)).

(** Scoring loop, one use case: unknown names are skipped silently. *)
Definition score_use_case (p : params) (st : Z * list (Detail.t R)) (uc : string)
  : Z * list (Detail.t R) :=
  match operations self !! uc with
  | None => st
  | Some op =>
      let ot := op_weight uc in
      let service_weight := st.1 + ot in
      let uc_read : gset string := list_to_set (read op) in
      let uc_write : gset string := list_to_set (write op) in
      let ipr := card uc_read in
      let opr := card uc_write in
      let fp := floor1 (read_params p) in
      let cp := floor1 (write_params p) in
      let dgs := dgs_of ipr opr fp cp in
      (service_weight,
       st.2 ++ [Detail.mk uc ipr opr fp cp ot dgs])
  end.

(** Grading loop, one entry: store FGS and SGM_Operation, add to [sgm].
    The loop is left by the first quotient that raises. *)
Definition grade (service_weight : Z) (st : exn + R * list (Graded.t R))
    (op : Detail.t R) : exn + R * list (Graded.t R) :=
  match st with
  | inl e => inl e
  | inr (sgm, graded) =>
      match fgs_of (Detail.OT op) service_weight with
      | inl e => inl e
      | inr fgs =>
          let sgm_operation := (Detail.DGS op * fgs)%num in
          inr ((sgm + sgm_operation)%num,
               graded ++ [Graded.mk op fgs sgm_operation])
      end
  end.

(** The row appended to [results] for one graded entry. *)
Definition emit (scheme_name service_name : string) (noo : Z) (lcom sgm : R)
    (mf_sum m f service_weight : Z) (g : Graded.t R) : Row.t R :=
  let op := Graded.detail g in
  Row.mk scheme_name service_name noo lcom sgm mf_sum m f
         (Detail.Operation op) (Detail.IPR op) (Detail.OPR op)
         (Detail.FP op) (Detail.CP op) (Detail.OT op) service_weight
         (Detail.DGS op) (Graded.FGS g) (Graded.SGM_Operation g).

(** What the body of [for service in services] computes for a service with
    use cases, and the exception that ended it, if any. *)
Record service_run := {
  run_rows : list (Row.t R);
  run_lcom : R;
  run_sgm : R;
  run_noo : Z;
  run_log : list string;
  run_raised : option exn
}.

Definition run_service (scheme_name : string) (svc : service) : service_run :=
  let noo := len (use_cases svc) in
  let '(p, log) := fold_left scan_use_case (use_cases svc) (no_params, []) in
  let mf_sum := sum_values (param_access_count p) in
  let m := noo in
  let f := card (all_params p) in
  let lcom := lcom_of mf_sum m f in
  let '(service_weight, operation_details) :=
    fold_left (score_use_case p) (use_cases svc) (0, []) in
  match fold_left (grade service_weight) operation_details (inr (of_int 0, [])) with
  | inr (sgm, graded) =>
      {| run_rows := map (emit scheme_name (name svc) noo lcom sgm mf_sum m f
                               service_weight) graded;
         run_lcom := lcom; run_sgm := sgm; run_noo := noo; run_log := log;
         run_raised := None |}
  | inl e =>
      (* the grading loop raised: no row was appended, [sgm] is not read *)
      {| run_rows := []; run_lcom := lcom; run_sgm := of_int 0; run_noo := noo;
         run_log := log; run_raised := Some e |}
  end.

(** State of the loop over services: [results], the three entries of
    [scheme_metrics], the log, and the exception that ended the loop, if
    any. *)
Record scheme_state := {
  results : list (Row.t R);
  acc_ALCOM : R;
  acc_ASGM : R;
  acc_Max_NOO : Z;
  printed : list string;
  raised : option exn
}.

Definition scheme_start : scheme_state :=
  {| results := []; acc_ALCOM := of_int 0; acc_ASGM := of_int 0;
     acc_Max_NOO := 0; printed := []; raised := None |}.

(** One turn of [for service in services]; once an exception is raised no
    further turn is taken. *)
Definition process_service (scheme_name : string) (st : scheme_state) (svc : service)
  : scheme_state :=
  match raised st with
  | Some _ => st
  | None =>
      match use_cases svc with
      | [] =>
          {| results := results st; acc_ALCOM := acc_ALCOM st;
             acc_ASGM := acc_ASGM st; acc_Max_NOO := acc_Max_NOO st;
             printed := printed st ++ [warn_no_use_cases (name svc)];
             raised := None |}
      | _ :: _ =>
          let r := run_service scheme_name svc in
          match run_raised r with
          | Some e =>
              {| results := results st; acc_ALCOM := acc_ALCOM st;
                 acc_ASGM := acc_ASGM st;
                 acc_Max_NOO := Z.max (acc_Max_NOO st) (run_noo r);
                 printed := printed st ++ run_log r;
                 raised := Some e |}
          | None =>
              {| results := results st ++ run_rows r;
                 acc_ALCOM := (acc_ALCOM st + run_lcom r)%num;
                 acc_ASGM := (acc_ASGM st + run_sgm r)%num;
                 acc_Max_NOO := Z.max (acc_Max_NOO st) (run_noo r);
                 printed := printed st ++ run_log r;
                 raised := None |}
          end
      end
  end.

(** [calculate_scheme_metrics(scheme_name, services)]: the raised
    exception or the returned pair, and what was printed. *)
Definition calculate_scheme_metrics (scheme_name : string) (services : list service)
  : (exn + list (Row.t R) * SchemeMetrics.t R) * list string :=
  match services with
  | [] => (inl (ValueError "No services defined for this scheme"), [])
  | _ :: _ =>
      let service_count := len services in
      let st := fold_left (process_service scheme_name) services scheme_start in
      let averaged (x : R) :=
        if 0 <? service_count then (x / of_int service_count)%num else x in
      match raised st with
      | Some e => (inl e, printed st)
      | None =>
          (inr (results st,
                SchemeMetrics.mk (averaged (acc_ALCOM st)) (averaged (acc_ASGM st))
                                 (acc_Max_NOO st)),
           printed st)
      end
  end.

(** State of the loop over schemes. *)
Record batch_state := {
  all_results : list (Row.t R);
  scheme_summary : list (Summary.t R);
  batch_log : list string
}.

(** One turn of [for scheme_name, scheme_data in self.schemes.items()],
    with its [try] / [except Exception]. *)
Definition process_scheme (st : batch_state) (item : string * list service)
  : batch_state :=
  let '(scheme_name, services) := item in
  let log := batch_log st ++ [("Calculating metrics for scheme: " ++ scheme_name)%string] in
  match calculate_scheme_metrics scheme_name services with
  | (inr (scheme_results, scheme_metrics), out) =>
      {| all_results := all_results st ++ scheme_results;
         scheme_summary := scheme_summary st ++
           [Summary.mk scheme_name (SchemeMetrics.ALCOM scheme_metrics)
                       (SchemeMetrics.ASGM scheme_metrics)
                       (SchemeMetrics.Max_NOO scheme_metrics)];
         batch_log := log ++ out |}
  | (inl e, out) =>
      {| all_results := all_results st; scheme_summary := scheme_summary st;
         batch_log := log ++ out ++
           [("Error processing scheme " ++ scheme_name ++ ": " ++ str e)%string] |}
  end.

(** [calculate_metrics()]: the two collections the data frames are built
    from, and what was printed. *)
Definition calculate_metrics : list (Row.t R) * list (Summary.t R) * list string :=
  match schemes self with
  | [] => ([], [], ["Warning: No decomposition schemes available"%string])
  | _ :: _ =>
      let st := fold_left process_scheme (schemes self)
                  {| all_results := []; scheme_summary := []; batch_log := [] |} in
      (all_results st, scheme_summary st, batch_log st)
  end.

End Engine.

(** ** Views of the loops *)

(** Sum of a list of ints. *)
Definition zsum (l : list Z) : Z := foldr Z.add 0 l.

Section Views.
Variable self : calculator.

(** The use cases that have an entry in the operations catalogue, those
    that have none, and the entries found, all in list order. *)
Definition known (ucs : list string) : list string :=
  filter (fun uc => is_Some (operations self !! uc)) ucs.

Definition unknown (ucs : list string) : list string :=
  filter (fun uc => ¬ is_Some (operations self !! uc)) ucs.

Definition known_ops (ucs : list string) : list operation :=
  omap (fun uc => operations self !! uc) ucs.

(** Every attribute access of the known use cases: per use case its reads,
    then its writes. *)
Definition accesses (ucs : list string) : list string :=
  flat_map (fun op => read op ++ write op) (known_ops ucs).

Definition reads (ucs : list string) : list string :=
  flat_map read (known_ops ucs).

Definition writes (ucs : list string) : list string :=
  flat_map write (known_ops ucs).

(** The use-case lists that the loop over services does not skip. *)
Definition processed (services : list service) : list service :=
  filter (fun svc => use_cases svc ≠ []) services.

(** What a known use case adds to the accumulators. *)
Definition record_op (p : params) (op : operation) : params :=
  fold_left add_write (write op) (fold_left add_read (read op) p).

(** The accumulators a service's use cases leave behind. *)
Definition service_params (ucs : list string) : params :=
  fold_left record_op (known_ops ucs) no_params.

End Views.

Section Entries.
Context {R : Type} `{PyNum R}.
Variable self : calculator.

(** The entry the scoring loop appends for a known use case. *)
Definition detail_of (p : params) (uc : string) (op : operation) : Detail.t R :=
  let ipr := card (list_to_set (read op)) in
  let opr := card (list_to_set (write op)) in
  let fp := floor1 (read_params p) in
  let cp := floor1 (write_params p) in
  Detail.mk uc ipr opr fp cp (op_weight self uc) (dgs_of ipr opr fp cp).

Definition details (p : params) (ucs : list string) : list (Detail.t R) :=
  omap (fun uc => detail_of p uc <$> operations self !! uc) ucs.

(** The exception an FGS quotient raises, if any, and its value when it
    raises none. *)
Definition fgs_raised (ot service_weight : Z) : option exn :=
  match fgs_of (R:=R) ot service_weight with
  | inl e => Some e
  | inr _ => None
  end.

Definition fgs_value (ot service_weight : Z) : R :=
  match fgs_of ot service_weight with
  | inl _ => of_int 0
  | inr fgs => fgs
  end.

(** An entry once graded against the service weight. *)
Definition graded_of (service_weight : Z) (op : Detail.t R) : Graded.t R :=
  let fgs := fgs_value (Detail.OT op) service_weight in
  Graded.mk op fgs (Detail.DGS op * fgs)%num.

(** The weight of a service: the weights of its known use cases. *)
Definition service_weight_of (ucs : list string) : Z :=
  zsum (map (op_weight self) (known self ucs)).

(** The graded entries of a service. *)
Definition service_graded (ucs : list string) : list (Graded.t R) :=
  map (graded_of (service_weight_of ucs)) (details (service_params self ucs) ucs).

(** The exception that ends the body of a service: that of the first known
    use case whose FGS quotient raises. *)
Definition service_raised (ucs : list string) : option exn :=
  head (omap (fun uc => fgs_raised (op_weight self uc) (service_weight_of ucs))
             (known self ucs)).

(** The exception that ends a scheme with services: that of its first
    service whose body raises. *)
Definition scheme_raised (services : list service) : option exn :=
  head (omap (fun svc => service_raised (use_cases svc)) services).

(** What the loop prints for one service. *)
Definition service_log (svc : service) : list string :=
  match use_cases svc with
  | [] => [warn_no_use_cases (name svc)]
  | ucs => map warn_unknown (unknown self ucs)
  end.

(** The runs of the services of a scheme that have use cases. *)
Definition runs (scheme_name : string) (services : list service)
  : list (service_run (R:=R)) :=
  map (run_service self scheme_name) (processed services).

(** What one scheme adds to the two collections and to the output: nothing
    but output when the call raises. *)
Definition returned_rows (item : string * list service) : list (Row.t R) :=
  match calculate_scheme_metrics self item.1 item.2 with
  | (inr (scheme_results, _), _) => scheme_results
  | (inl _, _) => []
  end.

Definition returned_summary (item : string * list service) : list (Summary.t R) :=
  match calculate_scheme_metrics self item.1 item.2 with
  | (inr (_, scheme_metrics), _) =>
      [Summary.mk item.1 (SchemeMetrics.ALCOM scheme_metrics)
                  (SchemeMetrics.ASGM scheme_metrics)
                  (SchemeMetrics.Max_NOO scheme_metrics)]
  | (inl _, _) => []
  end.

Definition error_line (scheme_name : string) (e : exn) : string :=
  ("Error processing scheme " ++ scheme_name ++ ": " ++ str e)%string.

Definition scheme_output (item : string * list service) : list string :=
  ("Calculating metrics for scheme: " ++ item.1)%string
  :: match calculate_scheme_metrics (R:=R) self item.1 item.2 with
     | (inr _, out) => out
     | (inl e, out) => out ++ [error_line item.1 e]
     end.

End Entries.


(** The rational a double stands for (0 for infinities and NaN). *)
Definition exact (x : float) : Q :=
  match Prim2SF x with
  | S754_finite s m e => (inject_Z (cond_Zopp s (Z.pos m)) * 2 ^ e)%Q
  | _ => 0%Q
  end.

(** ** Calls on an instance *)

(** The two methods run on objects: the instance, the dictionaries and
    lists its attributes refer to, and the lists, sets and dictionaries the
    methods create.  An object is reached through a reference, two
    references to the same object are aliases, and an update through one is
    seen through the other.  Strings, ints and numbers are immutable and
    stand for themselves.  A reference is the position of its object in the
    store. *)
Abbreviation ref := nat.

Section Objects.
Context {R : Type} `{PyNum R}.

(** The mutable objects, by the shape the methods give or expect of them. *)
Inductive object :=
| Instance (entities operations op_type_map op_weights schemes : ref)
| PyDict (items : list (string * ref))
| StrDict (m : gmap string string)
| IntDict (m : gmap string Z)
| StrList (items : list string)
| PyList (items : list ref)
| PySet (s : gset string)
| OperationEntry (read write : ref)
| ServiceEntry (name : string) (use_cases : ref)
| SchemeEntry (services : ref)
| DetailEntry (d : Detail.t R) (fgs sgm_operation : option R)
| RowEntry (r : Row.t R)
| MetricsEntry (m : SchemeMetrics.t R)
| SummaryEntry (s : Summary.t R).

(** The objects allocated so far, a reference being the position of its
    object, and the lines printed so far. *)
Record world := { heap : list object; stdout : list string }.

(** A statement or an expression: from a world to what it raises or
    evaluates to, and the world it leaves. *)
Definition prog (A : Type) : Type := world -> (exn + A) * world.

Definition ret {A} (a : A) : prog A := fun w => (inr a, w).

Definition bind {A B} (c : prog A) (k : A -> prog B) : prog B :=
  fun w => match c w with
           | (inr a, w') => k a w'
           | (inl e, w') => (inl e, w')
           end.

Definition raise {A} (e : exn) : prog A := fun w => (inl e, w).

Definition lift {A} (r : exn + A) : prog A := fun w => (r, w).

Definition print (line : string) : prog unit :=
  fun w => (inr tt, {| heap := heap w; stdout := stdout w ++ [line] |}).

(** A new object. *)
Definition new (o : object) : prog ref :=
  fun w => (inr (length (heap w)), {| heap := heap w ++ [o]; stdout := stdout w |}).

(** The object behind a reference. *)
Definition get (r : ref) : prog object :=
  fun w => match heap w !! r with
           | Some o => (inr o, w)
           | None => (inl (TypeError "no such object"), w)
           end.

(** An update in place: every alias sees it. *)
Definition put (r : ref) (o : object) : prog unit :=
  fun w => (inr tt, {| heap := <[r := o]> (heap w); stdout := stdout w |}).

(** [try: c except Exception as e: handler(e)]; what [c] did before it
    raised stays done. *)
Definition try_except {A} (c : prog A) (handler : exn -> prog A) : prog A :=
  fun w => match c w with
           | (inl e, w') => handler e w'
           | (inr a, w') => (inr a, w')
           end.

(** [for a in l: body(a)], over a list that the body does not change. *)
Fixpoint for_each {A} (l : list A) (body : A -> prog unit) : prog unit :=
  match l with
  | [] => ret tt
  | a :: l => bind (body a) (fun _ => for_each l body)
  end.

(** The same for a body that rebinds a local name to an immutable value. *)
Fixpoint for_fold {A S} (l : list A) (s : S) (body : S -> A -> prog S) : prog S :=
  match l with
  | [] => ret s
  | a :: l => bind (body s a) (fun s' => for_fold l s' body)
  end.

End Objects.

Arguments object R : clear implicits.
Arguments world R : clear implicits.
Arguments prog R A : clear implicits.

Notation "x <- c ;; k" := (bind c (fun x => k))
  (at level 100, c at next level, right associativity,
   format "'[v' x  <-  c ;;  '/' k ']'").
Notation "c ;; k" := (bind c (fun _ => k))
  (at level 100, right associativity, format "'[v' c ;;  '/' k ']'").

(** [d[k]] and [k in d] on a dictionary kept in insertion order. *)
Fixpoint assoc {V} (k : string) (items : list (string * V)) : option V :=
  match items with
  | [] => None
  | (k', v) :: items => if decide (k' = k) then Some v else assoc k items
  end.

Section Methods.
Context {R : Type} `{PyNum R}.

Definition type_error {A} : prog R A := raise (TypeError "unexpected object").

(** Reading an object of an expected shape. *)
Definition get_dict (r : ref) : prog R (list (string * ref)) :=
  o <- get r ;; match o with PyDict items => ret items | _ => type_error end.

Definition get_strs (r : ref) : prog R (list string) :=
  o <- get r ;; match o with StrList items => ret items | _ => type_error end.

Definition get_list (r : ref) : prog R (list ref) :=
  o <- get r ;; match o with PyList items => ret items | _ => type_error end.

Definition get_set (r : ref) : prog R (gset string) :=
  o <- get r ;; match o with PySet s => ret s | _ => type_error end.

Definition get_counts (r : ref) : prog R (gmap string Z) :=
  o <- get r ;; match o with IntDict m => ret m | _ => type_error end.

Definition get_metrics (r : ref) : prog R (SchemeMetrics.t R) :=
  o <- get r ;; match o with MetricsEntry m => ret m | _ => type_error end.

Definition get_detail (r : ref) : prog R (Detail.t R * option R * option R) :=
  o <- get r ;;
  match o with DetailEntry d fgs sgm_operation => ret (d, fgs, sgm_operation)
          | _ => type_error end.

(** [entry[key]] of a key that may not have been stored yet. *)
Definition stored {A} (key : string) (v : option A) : prog R A :=
  match v with
  | Some a => ret a
  | None => raise (KeyError ("'" ++ key ++ "'"))
  end.

(** [l.append(x)], [l.extend(xs)], [s.add(x)] and [c[k] += 1]. *)
Definition list_append (l : ref) (x : ref) : prog R unit :=
  items <- get_list l ;; put l (PyList (items ++ [x])).

Definition list_extend (l : ref) (xs : list ref) : prog R unit :=
  items <- get_list l ;; put l (PyList (items ++ xs)).

Definition set_add (s : ref) (x : string) : prog R unit :=
  elements <- get_set s ;; put s (PySet (elements ∪ {[x]})).

Definition count_incr (c : ref) (k : string) : prog R unit :=
  counts <- get_counts c ;; put c (IntDict (incr k counts)).

(** The attributes of [self] that the two methods read. *)
Definition self_operations (self : ref) : prog R (list (string * ref)) :=
  o <- get self ;;
  match o with
  | Instance _ operations _ _ _ => get_dict operations
  | _ => type_error
  end.

Definition self_op_type_map (self : ref) : prog R (gmap string string) :=
  o <- get self ;;
  match o with
  | Instance _ _ op_type_map _ _ =>
      o <- get op_type_map ;;
      match o with StrDict m => ret m | _ => type_error end
  | _ => type_error
  end.

Definition self_op_weights (self : ref) : prog R (gmap string Z) :=
  o <- get self ;;
  match o with
  | Instance _ _ _ op_weights _ => get_counts op_weights
  | _ => type_error
  end.

Definition self_schemes (self : ref) : prog R (list (string * ref)) :=
  o <- get self ;;
  match o with
  | Instance _ _ _ _ schemes => get_dict schemes
  | _ => type_error
  end.

(** [uc in self.operations], [self.operations[uc]["read"]] and
    [self.operations[uc]["write"]]. *)
Definition has_operation (self : ref) (uc : string) : prog R bool :=
  operations <- self_operations self ;;
  ret (bool_decide (is_Some (assoc uc operations))).

Definition operation_entry (self : ref) (uc : string) : prog R (ref * ref) :=
  operations <- self_operations self ;;
  match assoc uc operations with
  | None => raise (KeyError ("'" ++ uc ++ "'"))
  | Some entry =>
      o <- get entry ;;
      match o with OperationEntry rd wr => ret (rd, wr) | _ => type_error end
  end.

Definition operation_read (self : ref) (uc : string) : prog R (list string) :=
  entry <- operation_entry self uc ;; get_strs entry.1.

Definition operation_write (self : ref) (uc : string) : prog R (list string) :=
  entry <- operation_entry self uc ;; get_strs entry.2.

(** The body of the two inner loops of the aggregation: [params] is
    [read_params] in the first and [write_params] in the second. *)
Definition record_access (all_params param_access_count params : ref)
    (param : string) : prog R unit :=
  set_add all_params param ;;
  count_incr param_access_count param ;;
  set_add params param.

(** The body of the aggregation loop. *)
Definition aggregate (self all_params param_access_count read_params write_params : ref)
    (uc : string) : prog R unit :=
  known <- has_operation self uc ;;
  if negb known then print (warn_unknown uc)
  else
    reads <- operation_read self uc ;;
    for_each reads (record_access all_params param_access_count read_params) ;;
    writes <- operation_write self uc ;;
    for_each writes (record_access all_params param_access_count write_params).

(** The body of the scoring loop; it rebinds [service_weight]. *)
Definition score (self read_params write_params operation_details : ref)
    (service_weight : Z) (uc : string) : prog R Z :=
  known <- has_operation self uc ;;
  if negb known then ret service_weight
  else
    types <- self_op_type_map self ;;
    let op_type := default "Read"%string (types !! uc) in
    weights <- self_op_weights self ;;
    let ot := default 1 (weights !! op_type) in
    let service_weight := service_weight + ot in
    reads <- operation_read self uc ;;
    uc_read <- new (PySet (list_to_set reads)) ;;
    writes <- operation_write self uc ;;
    uc_write <- new (PySet (list_to_set writes)) ;;
    uc_read_elements <- get_set uc_read ;;
    let ipr := card uc_read_elements in
    uc_write_elements <- get_set uc_write ;;
    let opr := card uc_write_elements in
    read_elements <- get_set read_params ;;
    let fp := floor1 read_elements in
    write_elements <- get_set write_params ;;
    let cp := floor1 write_elements in
    let dgs := dgs_of ipr opr fp cp in
    entry <- new (DetailEntry (Detail.mk uc ipr opr fp cp ot dgs) None None) ;;
    list_append operation_details entry ;;
    ret service_weight.

(** The body of the grading loop; it stores two keys in the entry and
    rebinds [sgm]. *)
Definition grade_entry (service_weight : Z) (sgm : R) (op : ref) : prog R R :=
  entry <- get_detail op ;;
  fgs <- lift (fgs_of (Detail.OT entry.1.1) service_weight) ;;
  entry <- get_detail op ;;
  put op (DetailEntry entry.1.1 (Some fgs) entry.2) ;;
  entry <- get_detail op ;;
  put op (DetailEntry entry.1.1 entry.1.2 (Some (Detail.DGS entry.1.1 * fgs)%num)) ;;
  entry <- get_detail op ;;
  sgm_operation <- stored "SGM_Operation" entry.2 ;;
  ret (sgm + sgm_operation)%num.

(** The body of the loop that adds to [results]. *)
Definition emit_entry (results : ref) (scheme_name service_name : string) (noo : Z)
    (lcom sgm : R) (mf_sum m f service_weight : Z) (op : ref) : prog R unit :=
  entry <- get_detail op ;;
  fgs <- stored "FGS" entry.1.2 ;;
  sgm_operation <- stored "SGM_Operation" entry.2 ;;
  row <- new (RowEntry (emit scheme_name service_name noo lcom sgm mf_sum m f
                             service_weight
                             (Graded.mk entry.1.1 fgs sgm_operation))) ;;
  list_append results row.

(** The body of [for service in services]. *)
Definition service_body (self results scheme_metrics : ref) (scheme_name : string)
    (service : ref) : prog R unit :=
  o <- get service ;;
  match o with
  | ServiceEntry service_name use_cases_ref =>
      use_cases <- get_strs use_cases_ref ;;
      match use_cases with
      | [] => print (warn_no_use_cases service_name)
      | _ :: _ =>
          let noo := len use_cases in
          sm <- get_metrics scheme_metrics ;;
          put scheme_metrics
            (MetricsEntry (SchemeMetrics.mk (SchemeMetrics.ALCOM sm) (SchemeMetrics.ASGM sm)
                                            (Z.max (SchemeMetrics.Max_NOO sm) noo))) ;;
          all_params <- new (PySet ∅) ;;
          param_access_count <- new (IntDict ∅) ;;
          read_params <- new (PySet ∅) ;;
          write_params <- new (PySet ∅) ;;
          for_each use_cases
            (aggregate self all_params param_access_count read_params write_params) ;;
          counts <- get_counts param_access_count ;;
          let mf_sum := sum_values counts in
          let m := noo in
          params <- get_set all_params ;;
          let f := card params in
          let lcom := lcom_of mf_sum m f in
          operation_details <- new (PyList []) ;;
          service_weight <-
            for_fold use_cases 0 (score self read_params write_params operation_details) ;;
          ops <- get_list operation_details ;;
          sgm <- for_fold ops (of_int 0) (grade_entry service_weight) ;;
          ops <- get_list operation_details ;;
          for_each ops (emit_entry results scheme_name service_name noo lcom sgm
                                   mf_sum m f service_weight) ;;
          sm <- get_metrics scheme_metrics ;;
          put scheme_metrics
            (MetricsEntry (SchemeMetrics.mk (SchemeMetrics.ALCOM sm + lcom)%num
                                            (SchemeMetrics.ASGM sm)
                                            (SchemeMetrics.Max_NOO sm))) ;;
          sm <- get_metrics scheme_metrics ;;
          put scheme_metrics
            (MetricsEntry (SchemeMetrics.mk (SchemeMetrics.ALCOM sm)
                                            (SchemeMetrics.ASGM sm + sgm)%num
                                            (SchemeMetrics.Max_NOO sm)))
      end
  | _ => type_error
  end.

(** [self.calculate_scheme_metrics(scheme_name, services)]: the two
    objects it returns. *)
Definition calculate_scheme_metrics_on (self : ref) (scheme_name : string)
    (services : ref) : prog R (ref * ref) :=
  service_list <- get_list services ;;
  match service_list with
  | [] => raise (ValueError "No services defined for this scheme")
  | _ :: _ =>
      results <- new (PyList []) ;;
      scheme_metrics <-
        new (MetricsEntry (SchemeMetrics.mk (of_int 0) (of_int 0) 0)) ;;
      let service_count := len service_list in
      for_each service_list (service_body self results scheme_metrics scheme_name) ;;
      (if 0 <? service_count
       then
         sm <- get_metrics scheme_metrics ;;
         put scheme_metrics
           (MetricsEntry (SchemeMetrics.mk
                            (SchemeMetrics.ALCOM sm / of_int service_count)%num
                            (SchemeMetrics.ASGM sm) (SchemeMetrics.Max_NOO sm))) ;;
         sm <- get_metrics scheme_metrics ;;
         put scheme_metrics
           (MetricsEntry (SchemeMetrics.mk
                            (SchemeMetrics.ALCOM sm)
                            (SchemeMetrics.ASGM sm / of_int service_count)%num
                            (SchemeMetrics.Max_NOO sm)))
       else ret tt) ;;
      ret (results, scheme_metrics)
  end.

(** [pd.DataFrame(l)] of a list of row dictionaries: the rows by value. *)
Definition rows_frame (l : ref) : prog R (list (Row.t R)) :=
  entries <- get_list l ;;
  for_fold entries [] (fun rows entry =>
    o <- get entry ;;
    match o with RowEntry r => ret (rows ++ [r]) | _ => type_error end).

Definition summary_frame (l : ref) : prog R (list (Summary.t R)) :=
  entries <- get_list l ;;
  for_fold entries [] (fun rows entry =>
    o <- get entry ;;
    match o with SummaryEntry s => ret (rows ++ [s]) | _ => type_error end).

(** The body of the [try] in [calculate_metrics]. *)
Definition scheme_body (self all_results scheme_summary : ref) (scheme_name : string)
    (scheme_data : ref) : prog R unit :=
  print ("Calculating metrics for scheme: " ++ scheme_name) ;;
  o <- get scheme_data ;;
  match o with
  | SchemeEntry services =>
      returned <- calculate_scheme_metrics_on self scheme_name services ;;
      scheme_results <- get_list returned.1 ;;
      list_extend all_results scheme_results ;;
      sm <- get_metrics returned.2 ;;
      row <- new (SummaryEntry (Summary.mk scheme_name (SchemeMetrics.ALCOM sm)
                                           (SchemeMetrics.ASGM sm)
                                           (SchemeMetrics.Max_NOO sm))) ;;
      list_append scheme_summary row
  | _ => type_error
  end.

(** [self.calculate_metrics()]: the two data frames. *)
Definition calculate_metrics_on (self : ref)
  : prog R (list (Row.t R) * list (Summary.t R)) :=
  all_results <- new (PyList []) ;;
  scheme_summary <- new (PyList []) ;;
  schemes <- self_schemes self ;;
  match schemes with
  | [] =>
      print "Warning: No decomposition schemes available" ;;
      ret ([], [])
  | _ :: _ =>
      for_each schemes (fun item =>
        try_except (scheme_body self all_results scheme_summary item.1 item.2)
                   (fun e => print (error_line item.1 e))) ;;
      rows <- rows_frame all_results ;;
      summary <- summary_frame scheme_summary ;;
      ret (rows, summary)
  end.

(** The calculator an instance stands for: its five attributes by value. *)
Definition strs_at (h : list (object R)) (r : ref) : option (list string) :=
  match h !! r with Some (StrList items) => Some items | _ => None end.

Definition operation_at (h : list (object R)) (r : ref) : option operation :=
  match h !! r with
  | Some (OperationEntry rd wr) =>
      match strs_at h rd, strs_at h wr with
      | Some reads, Some writes => Some {| read := reads; write := writes |}
      | _, _ => None
      end
  | _ => None
  end.

Definition service_at (h : list (object R)) (r : ref) : option service :=
  match h !! r with
  | Some (ServiceEntry service_name ucs) =>
      match strs_at h ucs with
      | Some use_cases => Some {| name := service_name; use_cases := use_cases |}
      | None => None
      end
  | _ => None
  end.

Definition services_at (h : list (object R)) (r : ref) : option (list service) :=
  match h !! r with
  | Some (PyList items) => mapM (service_at h) items
  | _ => None
  end.

Definition scheme_at (h : list (object R)) (r : ref) : option (list service) :=
  match h !! r with
  | Some (SchemeEntry services) => services_at h services
  | _ => None
  end.

Definition dict_at {A} (h : list (object R)) (value_at : ref -> option A) (r : ref)
  : option (list (string * A)) :=
  match h !! r with
  | Some (PyDict items) =>
      mapM (fun item => match value_at item.2 with
                        | Some a => Some (item.1, a)
                        | None => None
                        end) items
  | _ => None
  end.

Definition calculator_at (h : list (object R)) (self : ref) : option calculator :=
  match h !! self with
  | Some (Instance e o t w s) =>
      match dict_at h (strs_at h) e, dict_at h (operation_at h) o,
            h !! t, h !! w, dict_at h (scheme_at h) s with
      | Some ents, Some ops, Some (StrDict types), Some (IntDict weights), Some schs =>
          Some {| entities := list_to_map ents; operations := list_to_map ops;
                  op_type_map := types; op_weights := weights; schemes := schs |}
      | _, _, _, _, _ => None
      end
  | _ => None
  end.

End Methods.

(** *** Views of the store *)

Section Store.
Context {R : Type} `{PyNum R}.
Implicit Types (h : list (object R)) (r : ref).

(** From [h] to [h'] no object was lost, and every object of [h] outside
    [fp] is as it was. *)
Definition frame (fp : list ref) h h' : Prop :=
  (length h <= length h')%nat
  /\ forall r o, h !! r = Some o -> r ∉ fp -> h' !! r = Some o.

(** Every object of [h0], the store when the call began, is in [h] as it
    was. *)
Definition base h0 h : Prop := forall r o, h0 !! r = Some o -> h !! r = Some o.

(** A reference to an object created since [h0]. *)
Definition fresh h0 r : Prop := (length h0 <= r)%nat.

(** The four accumulators, as objects. *)
Definition params_at h (ap pc rp wp : ref) (p : params) : Prop :=
  h !! ap = Some (PySet (all_params p))
  /\ h !! pc = Some (IntDict (param_access_count p))
  /\ h !! rp = Some (PySet (read_params p))
  /\ h !! wp = Some (PySet (write_params p)).

(** The entries of [operation_details], as objects. *)
Definition details_at h (refs : list ref) (ds : list (Detail.t R)) : Prop :=
  Forall2 (fun r d => h !! r = Some (DetailEntry d None None)) refs ds.

(** The entries once graded, and the rows of [results], as objects. *)
Definition graded_at h (refs : list ref) (gs : list (Graded.t R)) : Prop :=
  Forall2 (fun r g => h !! r = Some (DetailEntry (Graded.detail g)
                                                 (Some (Graded.FGS g))
                                                 (Some (Graded.SGM_Operation g))))
          refs gs.

Definition rows_at h (refs : list ref) (rows : list (Row.t R)) : Prop :=
  Forall2 (fun r row => h !! r = Some (RowEntry row)) refs rows.

(** [results] and [scheme_metrics], as objects. *)
Definition state_at h (res sm : ref) (st : scheme_state (R:=R)) : Prop :=
  exists rrefs,
    h !! res = Some (PyList rrefs)
    /\ rows_at h rrefs (results st)
    /\ h !! sm = Some (MetricsEntry (SchemeMetrics.mk (acc_ALCOM st) (acc_ASGM st)
                                                      (acc_Max_NOO st))).

Definition summaries_at h (refs : list ref) (l : list (Summary.t R)) : Prop :=
  Forall2 (fun r s => h !! r = Some (SummaryEntry s)) refs l.

(** [all_results] and [scheme_summary], as objects. *)
Definition batch_at h (ar ss : ref) (st : batch_state (R:=R)) : Prop :=
  exists arefs srefs,
    h !! ar = Some (PyList arefs)
    /\ rows_at h arefs (all_results st)
    /\ h !! ss = Some (PyList srefs)
    /\ summaries_at h srefs (scheme_summary st).

End Store.

(** ** Example inputs *)

Module Scenario.

Definition order_entities : gmap string (list string) :=
  <["Order"%string := ["Order.id"; "Order.status"]%string]> ∅.

Definition order_operations : gmap string operation :=
  <["CreateOrder"%string :=
      {| read := []; write := ["Order.id"; "Order.status"]%string |}]>
    (<["GetOrder"%string :=
        {| read := ["Order.id"; "Order.status"]%string; write := [] |}]> ∅).

Definition order_types : gmap string string :=
  <["CreateOrder"%string := "Create"%string]> (<["GetOrder"%string := "Read"%string]> ∅).

Definition OrderService : service :=
  {| name := "OrderService"; use_cases := ["CreateOrder"; "GetOrder"]%string |}.

(** The calculator loaded with the catalogue and one scheme. *)
Definition calc (scheme_name : string) : calculator :=
  {| entities := order_entities; operations := order_operations;
     op_type_map := order_types; op_weights := default_op_weights;
     schemes := [(scheme_name, [OrderService])] |}.

(** The rows and the scheme metrics expected of it. *)
Definition expected_rows {R} `{PyNum R} (scheme_name : string) : list (Row.t R) :=
  [ {| Row.Scheme := scheme_name; Row.Service := "OrderService";
       Row.NOO := 2; Row.LCOM := of_int 0; Row.SGM := of_int 1;
       Row.MF := 4; Row.M := 2; Row.F := 2;
       Row.Operation := "CreateOrder"; Row.IPR := 0; Row.OPR := 2;
       Row.FP := 2; Row.CP := 2; Row.OT := 4; Row.O := 5;
       Row.DGS := of_int 1; Row.FGS := (of_int 4 / of_int 5)%num;
       Row.SGM_Operation := (of_int 4 / of_int 5)%num |};
    {| Row.Scheme := scheme_name; Row.Service := "OrderService";
       Row.NOO := 2; Row.LCOM := of_int 0; Row.SGM := of_int 1;
       Row.MF := 4; Row.M := 2; Row.F := 2;
       Row.Operation := "GetOrder"; Row.IPR := 2; Row.OPR := 0;
       Row.FP := 2; Row.CP := 2; Row.OT := 1; Row.O := 5;
       Row.DGS := of_int 1; Row.FGS := (of_int 1 / of_int 5)%num;
       Row.SGM_Operation := (of_int 1 / of_int 5)%num |} ].

Definition expected_metrics {R} `{PyNum R} : SchemeMetrics.t R :=
  {| SchemeMetrics.ALCOM := of_int 0; SchemeMetrics.ASGM := of_int 1;
     SchemeMetrics.Max_NOO := 2 |}.

End Scenario.

(** Ten read-only operations in one service. *)
Module TenReads.

Definition names : list string :=
  ["Get0"; "Get1"; "Get2"; "Get3"; "Get4"; "Get5"; "Get6"; "Get7"; "Get8"; "Get9"]%string.

Definition Reports : service := {| name := "Reports"; use_cases := names |}.

Definition calc : calculator :=
  {| entities := <["Order"%string := ["Order.id"]%string]> ∅;
     operations :=
       list_to_map (map (fun n => (n, {| read := ["Order.id"%string]; write := [] |})) names);
     op_type_map := ∅;
     op_weights := default_op_weights;
     schemes := [("S"%string, [Reports])] |}.

End TenReads.

(** A service that names an operation missing from the catalogue. *)
Module Ghost.

Definition Orders : service :=
  {| name := "Orders"; use_cases := ["CreateOrder"; "Ghost"]%string |}.

Definition calc : calculator :=
  {| entities := Scenario.order_entities; operations := Scenario.order_operations;
     op_type_map := Scenario.order_types; op_weights := default_op_weights;
     schemes := [("S"%string, [Orders])] |}.

(** The only row it yields, in binary64. *)
Definition row : Row.t float :=
  {| Row.Scheme := "S"; Row.Service := "Orders";
     Row.NOO := 2; Row.LCOM := 0.5%float; Row.SGM := 1%float;
     Row.MF := 2; Row.M := 2; Row.F := 2;
     Row.Operation := "CreateOrder"; Row.IPR := 0; Row.OPR := 2;
     Row.FP := 1; Row.CP := 2; Row.OT := 4; Row.O := 4;
     Row.DGS := 1%float; Row.FGS := 1%float;
     Row.SGM_Operation := 1%float |}.

End Ghost.

(** A batch of two schemes, the first without services. *)
Module Mixed.

Definition calc : calculator :=
  {| entities := Scenario.order_entities; operations := Scenario.order_operations;
     op_type_map := Scenario.order_types; op_weights := default_op_weights;
     schemes := [("Empty"%string, []); ("S"%string, [Scenario.OrderService])] |}.

End Mixed.

(** A service with an operation that reads one of the two attributes the
    service reads, and one that reads both and writes the only attribute
    the service writes. *)
Module Partial.

Definition catalogue : gmap string operation :=
  <["ReadId"%string := {| read := ["Order.id"%string]; write := [] |}]>
    (<["Touch"%string :=
        {| read := ["Order.id"; "Order.status"]%string;
           write := ["Order.status"%string] |}]> ∅).

Definition Orders : service :=
  {| name := "Orders"; use_cases := ["ReadId"; "Touch"]%string |}.

Definition calc : calculator :=
  {| entities := Scenario.order_entities; operations := catalogue;
     op_type_map := ∅; op_weights := default_op_weights;
     schemes := [("S"%string, [Orders])] |}.

(** The rows and the metrics it yields, in binary64: the uncapped sum is
    1/2 + 0/1 on the first row and 2/2 + 1/1 on the second. *)
Definition rows : list (Row.t float) :=
  [ {| Row.Scheme := "S"; Row.Service := "Orders";
       Row.NOO := 2; Row.LCOM := 0%float; Row.SGM := 0.75%float;
       Row.MF := 4; Row.M := 2; Row.F := 2;
       Row.Operation := "ReadId"; Row.IPR := 1; Row.OPR := 0;
       Row.FP := 2; Row.CP := 1; Row.OT := 1; Row.O := 2;
       Row.DGS := 0.5%float; Row.FGS := 0.5%float;
       Row.SGM_Operation := 0.25%float |};
    {| Row.Scheme := "S"; Row.Service := "Orders";
       Row.NOO := 2; Row.LCOM := 0%float; Row.SGM := 0.75%float;
       Row.MF := 4; Row.M := 2; Row.F := 2;
       Row.Operation := "Touch"; Row.IPR := 2; Row.OPR := 1;
       Row.FP := 2; Row.CP := 1; Row.OT := 1; Row.O := 2;
       Row.DGS := 1%float; Row.FGS := 0.5%float;
       Row.SGM_Operation := 0.5%float |} ].

Definition metrics : SchemeMetrics.t float :=
  {| SchemeMetrics.ALCOM := 0%float; SchemeMetrics.ASGM := 0.75%float;
     SchemeMetrics.Max_NOO := 2 |}.

End Partial.

(** The order scenario with a weight beyond 2^53. *)
Module Heavy.

Definition weights : gmap string Z :=
  <["Create"%string := 2 ^ 53 + 1]> (<["Read"%string := 1]> ∅).

Definition calc : calculator :=
  {| entities := Scenario.order_entities; operations := Scenario.order_operations;
     op_type_map := Scenario.order_types; op_weights := weights;
     schemes := [("S"%string, [Scenario.OrderService])] |}.

(** The rows it yields, in binary64: (2^53+1)/(2^53+2) rounds to 1 - 2^-53
    and 1/(2^53+2) to 2^-53 - 2^-105. *)
Definition rows : list (Row.t float) :=
  [ {| Row.Scheme := "S"; Row.Service := "OrderService";
       Row.NOO := 2; Row.LCOM := 0%float; Row.SGM := 1%float;
       Row.MF := 4; Row.M := 2; Row.F := 2;
       Row.Operation := "CreateOrder"; Row.IPR := 0; Row.OPR := 2;
       Row.FP := 2; Row.CP := 2; Row.OT := 2 ^ 53 + 1; Row.O := 2 ^ 53 + 2;
       Row.DGS := 1%float; Row.FGS := 0x1.fffffffffffffp-1%float;
       Row.SGM_Operation := 0x1.fffffffffffffp-1%float |};
    {| Row.Scheme := "S"; Row.Service := "OrderService";
       Row.NOO := 2; Row.LCOM := 0%float; Row.SGM := 1%float;
       Row.MF := 4; Row.M := 2; Row.F := 2;
       Row.Operation := "GetOrder"; Row.IPR := 2; Row.OPR := 0;
       Row.FP := 2; Row.CP := 2; Row.OT := 1; Row.O := 2 ^ 53 + 2;
       Row.DGS := 1%float; Row.FGS := 0x1.ffffffffffffep-54%float;
       Row.SGM_Operation := 0x1.ffffffffffffep-54%float |} ].

End Heavy.

(** Weights of opposite signs beyond the range of the doubles: the weight
    of the order service is 1 and the quotient 2^1024 / 1 is too large for
    a double, while a service of [GetOrder] alone has a negative weight. *)
Module Huge.

Definition weights : gmap string Z :=
  <["Create"%string := 2 ^ 1024]> (<["Read"%string := 1 - 2 ^ 1024]> ∅).

Definition Reader : service :=
  {| name := "Reader"; use_cases := ["GetOrder"%string] |}.

Definition calc : calculator :=
  {| entities := Scenario.order_entities; operations := Scenario.order_operations;
     op_type_map := Scenario.order_types; op_weights := weights;
     schemes := [("S"%string, [Scenario.OrderService]); ("T"%string, [Reader])] |}.

End Huge.

(** Four operations that read the same attribute, of the types Delete,
    Create, Update and Read in this order, in one service. *)
Module Uneven.

Definition names : list string := ["Drop"; "Make"; "Fix"; "Get"]%string.

Definition Orders : service := {| name := "Orders"; use_cases := names |}.

Definition calc : calculator :=
  {| entities := <["Order"%string := ["Order.id"]%string]> ∅;
     operations :=
       list_to_map (map (fun n => (n, {| read := ["Order.id"%string]; write := [] |})) names);
     op_type_map :=
       <["Drop"%string := "Delete"%string]>
         (<["Make"%string := "Create"%string]>
            (<["Fix"%string := "Update"%string]>
               (<["Get"%string := "Read"%string]> ∅)));
     op_weights := default_op_weights;
     schemes := [("S"%string, [Orders])] |}.

End Uneven.

(** An instance in the store: the order catalogue, and two schemes that
    share one scheme object.  The list of the two attribute identifiers is
    at once the entity's list, what [CreateOrder] writes and what
    [GetOrder] reads, and the empty list is what the one reads and the
    other writes. *)
Module Resident.

Definition objects {R} : list (object R) :=
  [ StrList ["Order.id"; "Order.status"]%string;
    StrList [];
    OperationEntry 1%nat 0%nat;
    OperationEntry 0%nat 1%nat;
    PyDict [("Order"%string, 0%nat)];
    PyDict [("CreateOrder"%string, 2%nat); ("GetOrder"%string, 3%nat)];
    StrDict Scenario.order_types;
    IntDict default_op_weights;
    StrList ["CreateOrder"; "GetOrder"]%string;
    ServiceEntry "OrderService" 8%nat;
    PyList [9%nat];
    SchemeEntry 10%nat;
    PyDict [("S"%string, 11%nat); ("T"%string, 11%nat)];
    Instance 4%nat 5%nat 6%nat 7%nat 12%nat ].

Definition self : ref := 13%nat.

Definition start {R} : world R := {| heap := objects; stdout := [] |}.

(** The calculator it stands for. *)
Definition calc : calculator :=
  {| entities := Scenario.order_entities; operations := Scenario.order_operations;
     op_type_map := Scenario.order_types; op_weights := default_op_weights;
     schemes := [("S"%string, [Scenario.OrderService]);
                 ("T"%string, [Scenario.OrderService])] |}.

End Resident.

(** A service whose two use cases are both missing from the catalogue,
    next to the order service. *)
Module Strangers.

Definition Lost : service :=
  {| name := "Lost"; use_cases := ["Ghost"; "Phantom"; "Ghost"]%string |}.

Definition calc : calculator :=
  {| entities := Scenario.order_entities; operations := Scenario.order_operations;
     op_type_map := Scenario.order_types; op_weights := default_op_weights;
     schemes := [("S"%string, [Scenario.OrderService; Lost])] |}.

End Strangers.

(** Equal rationals are equal: closes the [Qc] fields of two computed
    records. *)
Ltac qc_fields :=
  repeat match goal with
         | |- @eq Qc _ _ => apply Qc_is_canon; reflexivity
         | |- _ => reflexivity
         | |- _ => f_equal
         end.

(** ** Further views *)

(** No known use case of the list names an attribute twice among its reads
    and writes. *)
Definition no_repeats (self : calculator) (ucs : list string) : Prop :=
  Forall (fun uc => forall op, operations self !! uc = Some op ->
                               NoDup (read op ++ write op)) ucs.

(** No weight of the table is negative. *)
Definition weights_nonneg (self : calculator) : Prop :=
  map_Forall (fun _ w => 0 <= w) (op_weights self).

(** A row under another service name and service-level SGM. *)
Definition retag {R} (service_name : string) (sgm : R) (r : Row.t R) : Row.t R :=
  {| Row.Scheme := Row.Scheme r; Row.Service := service_name; Row.NOO := Row.NOO r;
     Row.LCOM := Row.LCOM r; Row.SGM := sgm; Row.MF := Row.MF r; Row.M := Row.M r;
     Row.F := Row.F r; Row.Operation := Row.Operation r; Row.IPR := Row.IPR r;
     Row.OPR := Row.OPR r; Row.FP := Row.FP r; Row.CP := Row.CP r;
     Row.OT := Row.OT r; Row.O := Row.O r; Row.DGS := Row.DGS r;
     Row.FGS := Row.FGS r; Row.SGM_Operation := Row.SGM_Operation r |}.

(** A row recounted for a use-case list of another length. *)
Definition recount {R} `{PyNum R} (noo : Z) (r : Row.t R) : Row.t R :=
  {| Row.Scheme := Row.Scheme r; Row.Service := Row.Service r; Row.NOO := noo;
     Row.LCOM := lcom_of (Row.MF r) noo (Row.F r); Row.SGM := Row.SGM r;
     Row.MF := Row.MF r; Row.M := noo;
     Row.F := Row.F r; Row.Operation := Row.Operation r; Row.IPR := Row.IPR r;
     Row.OPR := Row.OPR r; Row.FP := Row.FP r; Row.CP := Row.CP r;
     Row.OT := Row.OT r; Row.O := Row.O r; Row.DGS := Row.DGS r;
     Row.FGS := Row.FGS r; Row.SGM_Operation := Row.SGM_Operation r |}.

(** An item of the scheme dictionary whose call returns: it has services
    and no FGS quotient of any of them raises. *)
Definition returning {R} `{PyNum R} (self : calculator)
    (item : string * list service) : Prop :=
  item.2 ≠ [] /\ scheme_raised (R:=R) self item.2 = None.

#[export] Instance returning_dec {R} `{PyNum R} (self : calculator)
    (item : string * list service) : Decision (returning (R:=R) self item).
Proof. unfold returning. apply _. Defined.

(** The calculator with another scheme dictionary. *)
Definition with_schemes (self : calculator) (l : list (string * list service))
  : calculator :=
  {| entities := entities self; operations := operations self;
     op_type_map := op_type_map self; op_weights := op_weights self;
     schemes := l |}.

(** ** The loaders *)

(** The loaders work on what [json.load] and [yaml.safe_load] return.  A
    document is given with the keys the loaders look at, each present or
    absent, and with values of the JSON type the loaders expect there
    (strings, lists, objects); other keys are ignored by the code.  The
    files are valid UTF-8, and a file that cannot be decoded is outside the
    model, except among the scheme files, whose [json.JSONDecodeError] the
    code catches. *)

(** [f"{entity}.{attr}"]. *)
Definition qualify (entity attr : string) : string :=
  entity +:+ "." +:+ attr.

(** An element of [data["entities"]]. *)
Module EntityDoc.
Record t := { name : option string; nanoentities : option (list string) }.
End EntityDoc.

(** An element of [op["database_access"]]. *)
Module AccessDoc.
Record t := {
  entity_name : option string;
  read_attributes : option (list string);
  write_attributes : option (list string)
}.
End AccessDoc.

(** An element of [data["operations"]]. *)
Module OperationDoc.
Record t := { name : option string; database_access : option (list AccessDoc.t) }.
End OperationDoc.

(** An element of [data["services"]]. *)
Module ServiceDoc.
Record t := { name : option string }.
End ServiceDoc.

(** A scheme document. *)
Module SchemeDoc.
Record t := {
  services : option (list ServiceDoc.t);
  useCaseResponsibility : option (gmap string (list string))
}.
End SchemeDoc.

(** The configuration document. *)
Module ConfigDoc.
Record t := {
  entities_file : option string;
  operations_file : option string;
  schemes_dir : option string;
  op_type_map : option (gmap string string);
  op_weights : option (gmap string Z)
}.
End ConfigDoc.

(** What a loader can raise. *)
Inductive load_exn :=
| Raised (e : exn)
| FileNotFoundError (msg : string)
| NotADirectoryError (msg : string).

Definition load_str (e : load_exn) : string :=
  match e with
  | Raised e => str e
  | FileNotFoundError msg => msg
  | NotADirectoryError msg => msg
  end.

(** *** Entities *)

(** The loop of [_parse_entities] from a given dictionary on; the first
    incomplete entity raises. *)
Fixpoint parse_entity_list (data_entities : list EntityDoc.t)
    (entities : gmap string (list string)) : exn + gmap string (list string) :=
  match data_entities with
  | [] => inr entities
  | entity :: rest =>
      match EntityDoc.name entity, EntityDoc.nanoentities entity with
      | Some full_name, Some attrs =>
          parse_entity_list rest (<[full_name := map (qualify full_name) attrs]> entities)
      | _, _ => inl (ValueError "Incomplete entity definition")
      end
  end.

(** [_parse_entities(data)], with [data_entities] the value under
    ["entities"], if any: the raised exception or the catalogue, and what was
    printed. *)
Definition _parse_entities (data_entities : option (list EntityDoc.t))
  : (exn + gmap string (list string)) * list string :=
  match data_entities with
  | None => (inl (ValueError "Missing 'entities' key in entity file"), [])
  | Some l =>
      match parse_entity_list l ∅ with
      | inl e => (inl e, [])
      | inr entities =>
          (inr entities, ["Loaded " +:+ pretty (size entities) +:+ " entities"])
      end
  end.

(** [load_entities()]: [file] is what the entity file holds once decoded,
    by the first attempt or by the second one that skips a byte-order mark,
    [None] when the path does not exist. *)
Definition load_entities (entity_file : string)
    (file : option (option (list EntityDoc.t)))
  : (load_exn + gmap string (list string)) * list string :=
  match file with
  | None => (inl (FileNotFoundError ("Entity file not found: " +:+ entity_file)), [])
  | Some data =>
      let log := ["Loading entity file: " +:+ entity_file] in
      match _parse_entities data with
      | (inl e, out) => (inl (Raised e), log ++ out)
      | (inr entities, out) => (inr entities, log ++ out)
      end
  end.

(** *** Operations *)

(** One turn of [for access in op.get("database_access", [])]. *)
Definition add_access (entry : operation) (access : AccessDoc.t) : operation :=
  match AccessDoc.entity_name access with
  | None => entry
  | Some entity =>
      let extended :=
        match AccessDoc.read_attributes access with
        | Some attrs => {| read := read entry ++ map (qualify entity) attrs;
                           write := write entry |}
        | None => entry
        end in
      match AccessDoc.write_attributes access with
      | Some attrs => {| read := read extended;
                         write := write extended ++ map (qualify entity) attrs |}
      | None => extended
      end
  end.

(** One turn of [for op in data["operations"]]: the entry of [op_name] is
    started afresh and then extended. *)
Definition add_operation (operations : gmap string operation) (op : OperationDoc.t)
  : gmap string operation :=
  match OperationDoc.name op with
  | None => operations
  | Some op_name =>
      <[op_name := fold_left add_access (default [] (OperationDoc.database_access op))
                             {| read := []; write := [] |}]> operations
  end.

(** [load_operations()]: [file] is what the operations file holds, [None]
    when the path does not exist, and in it the value under ["operations"],
    if any. *)
Definition load_operations (ops_file : string)
    (file : option (option (list OperationDoc.t)))
  : (load_exn + gmap string operation) * list string :=
  match file with
  | None => (inl (FileNotFoundError ("Operations file not found: " +:+ ops_file)), [])
  | Some data =>
      let log := ["Loading operations file: " +:+ ops_file] in
      match data with
      | None =>
          (inl (Raised (ValueError "Missing 'operations' key in operations file")), log)
      | Some data_operations =>
          let operations := fold_left add_operation data_operations ∅ in
          (inr operations,
           log ++ ["Loaded " +:+ pretty (size operations) +:+ " operations"])
      end
  end.

(** *** Schemes *)

(** What reading one [*.json] file of the schemes directory gives: the
    document, or the [json.JSONDecodeError] of the first attempt. *)
Inductive read_result :=
| Parsed (data : SchemeDoc.t)
| JSONDecodeError (msg : string).

(** A file of the directory: its path, its name without directory and
    extension, and its content. *)
Record scheme_file := {
  file_path : string;
  stem : string;
  content : read_result
}.

(** [d[k] = v] on a dictionary kept in insertion order. *)
Definition dict_set {V} (k : string) (v : V) (d : list (string * V))
  : list (string * V) :=
  if decide (k ∈ map fst d)
  then map (fun kv => if decide (kv.1 = k) then (k, v) else kv) d
  else d ++ [(k, v)].

(** The service appended for one element of [data["services"]], none when
    it has no name. *)
Definition service_of (data : SchemeDoc.t) (svc : ServiceDoc.t) : option service :=
  match ServiceDoc.name svc with
  | None => None
  | Some service_name =>
      let use_cases :=
        match SchemeDoc.useCaseResponsibility data with
        | Some responsibility => default [] (responsibility !! service_name)
        | None => []
        end in
      Some {| name := service_name; use_cases := use_cases |}
  end.

(** One turn of [for file_path in json_files]. *)
Definition load_file (st : list (string * list service) * list string)
    (f : scheme_file) : list (string * list service) * list string :=
  match content f with
  | JSONDecodeError msg =>
      (st.1, st.2 ++ ["Error parsing JSON file " +:+ file_path f +:+ ": " +:+ msg])
  | Parsed data =>
      match SchemeDoc.services data with
      | None => (st.1, st.2 ++ ["Warning: Missing 'services' key in " +:+ file_path f])
      | Some data_services =>
          let services := omap (service_of data) data_services in
          (dict_set (stem f) services st.1,
           st.2 ++ ["Loaded scheme: " +:+ stem f +:+ " ("
                    +:+ pretty (length services) +:+ " services)"])
      end
  end.

(** [load_schemes()]: [dir] lists the [*.json] files of the directory,
    [None] when the path does not exist. *)
Definition load_schemes (scheme_dir : string) (dir : option (list scheme_file))
  : (load_exn + list (string * list service)) * list string :=
  match dir with
  | None =>
      (inl (NotADirectoryError ("Schemes directory not found: " +:+ scheme_dir)), [])
  | Some json_files =>
      let log := ["Loading schemes directory: " +:+ scheme_dir] in
      match json_files with
      | [] => (inr [], log ++ ["Warning: No JSON files found in " +:+ scheme_dir])
      | _ :: _ =>
          let st := fold_left load_file json_files ([], log) in
          (inr st.1, st.2)
      end
  end.

(** *** Configuration and construction *)

(** [load_config(path)]: [file] is what the configuration file holds, [None]
    when the path does not exist. *)
Definition load_config (path : string) (file : option ConfigDoc.t)
  : load_exn + ConfigDoc.t :=
  match file with
  | None => inl (FileNotFoundError ("Config file not found: " +:+ path))
  | Some config =>
      match ConfigDoc.entities_file config, ConfigDoc.operations_file config,
            ConfigDoc.schemes_dir config with
      | None, _, _ =>
          inl (Raised (ValueError "Missing required key in config: entities_file"))
      | Some _, None, _ =>
          inl (Raised (ValueError "Missing required key in config: operations_file"))
      | Some _, Some _, None =>
          inl (Raised (ValueError "Missing required key in config: schemes_dir"))
      | Some _, Some _, Some _ => inr config
      end
  end.

(** The files the constructor reads, by path. *)
Record files := {
  config_at : string -> option ConfigDoc.t;
  entities_at : string -> option (option (list EntityDoc.t));
  operations_at : string -> option (option (list OperationDoc.t));
  schemes_at : string -> option (list scheme_file)
}.

(** [__init__(config_path)]: the exception raised again after its message
    is printed, or the instance.  The three paths are read from the
    configuration [load_config] returned, which has the three keys. *)
Definition init (fs : files) (config_path : string)
  : (load_exn + calculator) * list string :=
  let failed (e : load_exn) (log : list string) :=
    (inl e, log ++ ["Initialization failed: " +:+ load_str e]) in
  match load_config config_path (config_at fs config_path) with
  | inl e => failed e []
  | inr config =>
      let entity_file := default EmptyString (ConfigDoc.entities_file config) in
      let ops_file := default EmptyString (ConfigDoc.operations_file config) in
      let scheme_dir := default EmptyString (ConfigDoc.schemes_dir config) in
      match load_entities entity_file (entities_at fs entity_file) with
      | (inl e, log1) => failed e log1
      | (inr entities, log1) =>
          match load_operations ops_file (operations_at fs ops_file) with
          | (inl e, log2) => failed e (log1 ++ log2)
          | (inr operations, log2) =>
              let op_type_map := default ∅ (ConfigDoc.op_type_map config) in
              match load_schemes scheme_dir (schemes_at fs scheme_dir) with
              | (inl e, log3) => failed e (log1 ++ log2 ++ log3)
              | (inr schemes, log3) =>
                  let op_weights :=
                    default default_op_weights (ConfigDoc.op_weights config) in
                  (inr {| entities := entities; operations := operations;
                          op_type_map := op_type_map; op_weights := op_weights;
                          schemes := schemes |},
                   log1 ++ log2 ++ log3 ++ ["Configuration loaded successfully!"])
              end
          end
      end
  end.

(** *** Export *)

(** The operating system as [export_to_excel] uses it: [os.path.exists],
    [os.path.dirname], [os.path.splitext], and whether [os.makedirs] and
    writing a workbook succeed ([None]) or raise (the message). *)
Record os := {
  path_exists : string -> bool;
  dirname : string -> string;
  splitext : string -> string * string;
  makedirs_raises : string -> option string;
  writer_raises : string -> option string
}.

(** What a call does besides returning: lines printed, directories
    created, and the sheets written (['Detailed Analysis'] to the first
    workbook, ['Scheme Summary'] to the second). *)
Inductive action (R : Type) :=
| Printed (line : string)
| MadeDirs (dir : string)
| DetailedWritten (path : string) (frame : list (Row.t R))
| SummaryWritten (path : string) (frame : list (Summary.t R)).
Arguments Printed {R}.
Arguments MadeDirs {R}.
Arguments DetailedWritten {R}.
Arguments SummaryWritten {R}.

(** [export_to_excel(output_file)]: the pair of paths returned, [None] for
    [(None, None)], and what was done. *)
Definition export_to_excel {R} `{PyNum R} (sys : os) (self : calculator)
    (output_file : string) : option (string * string) * list (action R) :=
  let '(detailed, summary, log) := calculate_metrics self in
  let done := map Printed log in
  let failed (msg : string) (done : list (action R)) :=
    (None, done ++ [Printed ("Excel export failed: " +:+ msg)]) in
  if bool_decide (detailed = []) || bool_decide (summary = [])
  then (None, done ++ [Printed "Warning: No data to export"])
  else
    let output_dir :=
      if decide (dirname sys output_file = EmptyString) then "."
      else dirname sys output_file in
    let made :=
      if path_exists sys output_dir then inr done
      else match makedirs_raises sys output_dir with
           | Some msg => inl msg
           | None => inr (done ++ [MadeDirs output_dir;
                                   Printed ("Created output directory: " +:+ output_dir)])
           end in
    match made with
    | inl msg => failed msg done
    | inr done =>
        let '(base_name, ext) := splitext sys output_file in
        let detailed_output := base_name +:+ "_detailed" +:+ ext in
        let summary_output := base_name +:+ "_summary" +:+ ext in
        match writer_raises sys detailed_output with
        | Some msg => failed msg done
        | None =>
            let done := done ++ [DetailedWritten detailed_output detailed;
                                 Printed ("Detailed analysis exported to "
                                          +:+ detailed_output)] in
            match writer_raises sys summary_output with
            | Some msg => failed msg done
            | None =>
                (Some (detailed_output, summary_output),
                 done ++ [SummaryWritten summary_output summary;
                          Printed ("Scheme summary exported to " +:+ summary_output)])
            end
        end
    end.

(** *** Views of the documents *)

(** An entity that has both keys. *)
Definition complete (entity : EntityDoc.t) : Prop :=
  is_Some (EntityDoc.name entity) /\ is_Some (EntityDoc.nanoentities entity).

(** A name without a dot. *)
Fixpoint dot_free (s : string) : bool :=
  match s with
  | EmptyString => true
  | String c rest => negb (Ascii.eqb c "."%char) && dot_free rest
  end.

(** The identifiers one access adds to the reads and to the writes of its
    operation. *)
Definition access_reads (access : AccessDoc.t) : list string :=
  match AccessDoc.entity_name access, AccessDoc.read_attributes access with
  | Some entity, Some attrs => map (qualify entity) attrs
  | _, _ => []
  end.

Definition access_writes (access : AccessDoc.t) : list string :=
  match AccessDoc.entity_name access, AccessDoc.write_attributes access with
  | Some entity, Some attrs => map (qualify entity) attrs
  | _, _ => []
  end.

(** The scheme a file yields, none when it is malformed or has no
    ["services"]. *)
Definition scheme_of (f : scheme_file) : option (string * list service) :=
  match content f with
  | Parsed data =>
      match SchemeDoc.services data with
      | Some data_services => Some (stem f, omap (service_of data) data_services)
      | None => None
      end
  | JSONDecodeError _ => None
  end.

(** What one file does to the dictionary of schemes. *)
Definition set_scheme (d : list (string * list service)) (f : scheme_file)
  : list (string * list service) :=
  match scheme_of f with
  | Some (k, v) => dict_set k v d
  | None => d
  end.

(** ** Example files *)

(** The order scenario as files on disk. *)
Module Documents.

Definition entity_docs : list EntityDoc.t :=
  [ {| EntityDoc.name := Some "Order"%string;
       EntityDoc.nanoentities := Some ["id"; "status"]%string |} ].

(** The same entity defined twice, the first time with other attributes. *)
Definition stale_entity : EntityDoc.t :=
  {| EntityDoc.name := Some "Order"%string;
     EntityDoc.nanoentities := Some ["old"]%string |}.

(** An entity without ["nanoentities"]. *)
Definition partial_entity : EntityDoc.t :=
  {| EntityDoc.name := Some "Customer"%string; EntityDoc.nanoentities := None |}.

Definition create_order : OperationDoc.t :=
  {| OperationDoc.name := Some "CreateOrder"%string;
     OperationDoc.database_access :=
       Some [ {| AccessDoc.entity_name := Some "Order"%string;
                 AccessDoc.read_attributes := None;
                 AccessDoc.write_attributes := Some ["id"; "status"]%string |} ] |}.

Definition get_order : OperationDoc.t :=
  {| OperationDoc.name := Some "GetOrder"%string;
     OperationDoc.database_access :=
       Some [ {| AccessDoc.entity_name := Some "Order"%string;
                 AccessDoc.read_attributes := Some ["id"; "status"]%string;
                 AccessDoc.write_attributes := None |} ] |}.

(** An earlier definition of [GetOrder], and an operation without a name. *)
Definition stale_get_order : OperationDoc.t :=
  {| OperationDoc.name := Some "GetOrder"%string;
     OperationDoc.database_access :=
       Some [ {| AccessDoc.entity_name := Some "Order"%string;
                 AccessDoc.read_attributes := Some ["old"]%string;
                 AccessDoc.write_attributes := Some ["old"]%string |} ] |}.

Definition nameless : OperationDoc.t :=
  {| OperationDoc.name := None; OperationDoc.database_access := None |}.

Definition operation_docs : list OperationDoc.t :=
  [stale_get_order; create_order; nameless; get_order].

Definition order_scheme : SchemeDoc.t :=
  {| SchemeDoc.services := Some [ {| ServiceDoc.name := Some "OrderService"%string |} ];
     SchemeDoc.useCaseResponsibility :=
       Some (<["OrderService"%string := ["CreateOrder"; "GetOrder"]%string]> ∅) |}.

(** A scheme that names its services and nothing else. *)
Definition bare_scheme : SchemeDoc.t :=
  {| SchemeDoc.services :=
       Some [ {| ServiceDoc.name := Some "Orders"%string |};
              {| ServiceDoc.name := None |};
              {| ServiceDoc.name := Some "Billing"%string |} ];
     SchemeDoc.useCaseResponsibility := None |}.

Definition bare_file : scheme_file :=
  {| file_path := "schemes/bare.json"; stem := "bare"; content := Parsed bare_scheme |}.

(** A directory with a malformed file, the order scheme, and a document
    without ["services"]. *)
Definition scheme_files : list scheme_file :=
  [ {| file_path := "schemes/broken.json"; stem := "broken";
       content := JSONDecodeError "Expecting value: line 1 column 1 (char 0)" |};
    {| file_path := "schemes/S.json"; stem := "S"; content := Parsed order_scheme |};
    {| file_path := "schemes/notes.json"; stem := "notes";
       content := Parsed {| SchemeDoc.services := None;
                            SchemeDoc.useCaseResponsibility := None |} |} ].

Definition config : ConfigDoc.t :=
  {| ConfigDoc.entities_file := Some "entities.json"%string;
     ConfigDoc.operations_file := Some "operations.yaml"%string;
     ConfigDoc.schemes_dir := Some "schemes"%string;
     ConfigDoc.op_type_map := Some Scenario.order_types;
     ConfigDoc.op_weights := None |}.

Definition disk : files :=
  {| config_at := fun path =>
       if String.eqb path "config.yaml" then Some config else None;
     entities_at := fun path =>
       if String.eqb path "entities.json" then Some (Some entity_docs) else None;
     operations_at := fun path =>
       if String.eqb path "operations.yaml" then Some (Some operation_docs) else None;
     schemes_at := fun path =>
       if String.eqb path "schemes" then Some scheme_files else None |}.

(** The same files under another configuration document. *)
Definition disk_with (cfg : ConfigDoc.t) : files :=
  {| config_at := fun path =>
       if String.eqb path "config.yaml" then Some cfg else None;
     entities_at := entities_at disk;
     operations_at := operations_at disk;
     schemes_at := schemes_at disk |}.

(** A configuration with a weight table that has Create only, and the
    instance it gives. *)
Definition weighted_config : ConfigDoc.t :=
  {| ConfigDoc.entities_file := Some "entities.json"%string;
     ConfigDoc.operations_file := Some "operations.yaml"%string;
     ConfigDoc.schemes_dir := Some "schemes"%string;
     ConfigDoc.op_type_map := Some Scenario.order_types;
     ConfigDoc.op_weights := Some (<["Create"%string := 10]> ∅) |}.

Definition weighted_calc : calculator :=
  {| entities := Scenario.order_entities; operations := Scenario.order_operations;
     op_type_map := Scenario.order_types;
     op_weights := <["Create"%string := 10]> ∅;
     schemes := [("S"%string, [Scenario.OrderService])] |}.

(** A configuration without type map and with a table that weighs a Read
    7, and the instance it gives. *)
Definition untyped_config : ConfigDoc.t :=
  {| ConfigDoc.entities_file := Some "entities.json"%string;
     ConfigDoc.operations_file := Some "operations.yaml"%string;
     ConfigDoc.schemes_dir := Some "schemes"%string;
     ConfigDoc.op_type_map := None;
     ConfigDoc.op_weights :=
       Some (<["Create"%string := 10]> (<["Read"%string := 7]> ∅)) |}.

Definition untyped_calc : calculator :=
  {| entities := Scenario.order_entities; operations := Scenario.order_operations;
     op_type_map := ∅;
     op_weights := <["Create"%string := 10]> (<["Read"%string := 7]> ∅);
     schemes := [("S"%string, [Scenario.OrderService])] |}.

(** What constructing the calculator from [disk] prints. *)
Definition printed : list string :=
  [ "Loading entity file: entities.json";
    "Loaded 1 entities";
    "Loading operations file: operations.yaml";
    "Loaded 2 operations";
    "Loading schemes directory: schemes";
    "Error parsing JSON file schemes/broken.json: Expecting value: line 1 column 1 (char 0)";
    "Loaded scheme: S (1 services)";
    "Warning: Missing 'services' key in schemes/notes.json";
    "Configuration loaded successfully!" ]%string.

(** An operating system where the output directory exists and every
    workbook can be written, as it answers for
    ["results/microservices_metrics.xlsx"]. *)
Definition plain_os : os :=
  {| path_exists := fun _ => true;
     dirname := fun _ => "results"%string;
     splitext := fun _ => ("results/microservices_metrics", ".xlsx")%string;
     makedirs_raises := fun _ => None;
     writer_raises := fun _ => None |}.

(** The same with a summary workbook that cannot be written. *)
Definition locked_os : os :=
  {| path_exists := fun _ => true;
     dirname := fun _ => "results"%string;
     splitext := fun _ => ("results/microservices_metrics", ".xlsx")%string;
     makedirs_raises := fun _ => None;
     writer_raises := fun path =>
       if String.eqb path "results/microservices_metrics_summary.xlsx"
       then Some "[Errno 13] Permission denied"%string else None |}.

End Documents.

(** A service whose only operation accesses nothing. *)
Module Ping.

Definition Health : service := {| name := "Health"; use_cases := ["Ping"]%string |}.

Definition calc : calculator :=
  {| entities := ∅;
     operations := <["Ping"%string := {| read := []; write := [] |}]> ∅;
     op_type_map := ∅; op_weights := default_op_weights;
     schemes := [("S"%string, [Health])] |}.

Definition expected_rows {R} `{PyNum R} : list (Row.t R) :=
  [ {| Row.Scheme := "S"; Row.Service := "Health";
       Row.NOO := 1; Row.LCOM := of_int 0; Row.SGM := of_int 0;
       Row.MF := 0; Row.M := 1; Row.F := 0;
       Row.Operation := "Ping"; Row.IPR := 0; Row.OPR := 0;
       Row.FP := 1; Row.CP := 1; Row.OT := 1; Row.O := 1;
       Row.DGS := of_int 0; Row.FGS := of_int 1;
       Row.SGM_Operation := of_int 0 |} ].

Definition expected_metrics {R} `{PyNum R} : SchemeMetrics.t R :=
  {| SchemeMetrics.ALCOM := of_int 0; SchemeMetrics.ASGM := of_int 0;
     SchemeMetrics.Max_NOO := 1 |}.

End Ping.

(** A scheme none of whose use cases is in the catalogue. *)
Module Unknowns.

Definition calc : calculator :=
  {| entities := Scenario.order_entities; operations := Scenario.order_operations;
     op_type_map := Scenario.order_types; op_weights := default_op_weights;
     schemes := [("S"%string, [Strangers.Lost])] |}.

End Unknowns.

(** * Properties *)

(** ** What the loops compute *)

(** *** The access counter *)

Lemma sum_values_incr (param : string) (c : gmap string Z) :
  sum_values (incr param c) = sum_values c + 1.
Proof.
  unfold sum_values, incr.
  assert (Hcomm : forall (m : gmap string Z) (j1 j2 : string) (z1 z2 y : Z),
             j1 ≠ j2 -> m !! j1 = Some z1 -> m !! j2 = Some z2 ->
             y + z2 + z1 = y + z1 + z2) by (intros; lia).
  destruct (c !! param) as [v|] eqn:Hc; simpl.
  - rewrite <- insert_delete_eq.
    rewrite map_fold_insert_L; [| apply Hcomm | apply lookup_delete_eq].
    rewrite (map_fold_delete_L _ _ param v c); [lia | apply Hcomm | exact Hc].
  - rewrite map_fold_insert_L; [lia | apply Hcomm | exact Hc].
Qed.

Lemma sum_values_empty : sum_values ∅ = 0.
Proof. apply map_fold_empty. Qed.

(** *** The two inner loops *)

Lemma len_app {A} (l1 l2 : list A) : len (l1 ++ l2) = len l1 + len l2.
Proof. unfold len. rewrite length_app. lia. Qed.

(** Induction along a loop over [l] that starts from the accumulators [p]. *)
Ltac loop_induction l p :=
  revert p; induction l as [|? l IH]; intros p; simpl; [|rewrite IH; simpl].

Ltac grows_by_union :=
  [> symmetry; apply (right_id_L ∅ (∪)) | now rewrite (assoc_L (∪))].

Ltac grows_by_length :=
  [> unfold len; simpl; lia
   | rewrite sum_values_incr; unfold len; simpl length; lia].

Lemma reads_all (l : list string) (p : params) :
  all_params (fold_left add_read l p) = all_params p ∪ list_to_set l.
Proof. loop_induction l p; grows_by_union. Qed.

Lemma reads_read (l : list string) (p : params) :
  read_params (fold_left add_read l p) = read_params p ∪ list_to_set l.
Proof. loop_induction l p; grows_by_union. Qed.

Lemma reads_write (l : list string) (p : params) :
  write_params (fold_left add_read l p) = write_params p.
Proof. loop_induction l p; done. Qed.

Lemma reads_count (l : list string) (p : params) :
  sum_values (param_access_count (fold_left add_read l p))
  = sum_values (param_access_count p) + len l.
Proof. loop_induction l p; grows_by_length. Qed.

Lemma writes_all (l : list string) (p : params) :
  all_params (fold_left add_write l p) = all_params p ∪ list_to_set l.
Proof. loop_induction l p; grows_by_union. Qed.

Lemma writes_read (l : list string) (p : params) :
  read_params (fold_left add_write l p) = read_params p.
Proof. loop_induction l p; done. Qed.

Lemma writes_write (l : list string) (p : params) :
  write_params (fold_left add_write l p) = write_params p ∪ list_to_set l.
Proof. loop_induction l p; grows_by_union. Qed.

Lemma writes_count (l : list string) (p : params) :
  sum_values (param_access_count (fold_left add_write l p))
  = sum_values (param_access_count p) + len l.
Proof. loop_induction l p; grows_by_length. Qed.

(** *** Views of a use-case list *)

Section ViewFacts.
Variable self : calculator.

Lemma known_cons_Some uc ucs op :
  operations self !! uc = Some op ->
  known self (uc :: ucs) = uc :: known self ucs
  /\ unknown self (uc :: ucs) = unknown self ucs
  /\ known_ops self (uc :: ucs) = op :: known_ops self ucs.
Proof.
  intros Hop. unfold known, unknown, known_ops. simpl. rewrite Hop.
  rewrite filter_cons_True by (rewrite Hop; eauto).
  rewrite filter_cons_False by (rewrite Hop; intros Hn; apply Hn; eauto).
  done.
Qed.

Lemma known_cons_None uc ucs :
  operations self !! uc = None ->
  known self (uc :: ucs) = known self ucs
  /\ unknown self (uc :: ucs) = uc :: unknown self ucs
  /\ known_ops self (uc :: ucs) = known_ops self ucs.
Proof.
  intros Hop. unfold known, unknown, known_ops. simpl. rewrite Hop.
  rewrite filter_cons_False by (rewrite Hop; intros [? ?]; discriminate).
  rewrite filter_cons_True by (rewrite Hop; intros [? ?]; discriminate).
  done.
Qed.

Lemma known_all_unknown ucs :
  Forall (fun uc => operations self !! uc = None) ucs ->
  known self ucs = [] /\ unknown self ucs = ucs /\ known_ops self ucs = [].
Proof.
  induction 1 as [|uc ucs Huc _ (IH1 & IH2 & IH3)]; [done|].
  destruct (known_cons_None uc ucs Huc) as (-> & -> & ->).
  now rewrite IH1, IH2, IH3.
Qed.

(** *** The aggregation loop *)

Lemma scan_fold ucs p log :
  fold_left (scan_use_case self) ucs (p, log)
  = (fold_left record_op (known_ops self ucs) p, log ++ map warn_unknown (unknown self ucs)).
Proof.
  revert p log. induction ucs as [|uc ucs IH]; intros p log.
  - simpl. now rewrite app_nil_r.
  - cbn [fold_left]. unfold scan_use_case at 2. cbn [fst snd].
    destruct (operations self !! uc) as [op|] eqn:Huc.
    + destruct (known_cons_Some uc ucs op Huc) as (_ & -> & ->).
      rewrite IH. reflexivity.
    + destruct (known_cons_None uc ucs Huc) as (_ & -> & ->).
      rewrite IH. simpl. now rewrite <- app_assoc.
Qed.

Lemma record_all ops p :
  all_params (fold_left record_op ops p)
  = all_params p ∪ list_to_set (flat_map (fun op => read op ++ write op) ops).
Proof.
  revert p. induction ops as [|op ops IH]; intros p; simpl.
  - symmetry. apply (right_id_L ∅ (∪)).
  - rewrite IH. unfold record_op. rewrite writes_all, reads_all.
    rewrite !list_to_set_app_L. now rewrite !(assoc_L (∪)).
Qed.

Lemma record_read ops p :
  read_params (fold_left record_op ops p)
  = read_params p ∪ list_to_set (flat_map read ops).
Proof.
  revert p. induction ops as [|op ops IH]; intros p; simpl.
  - symmetry. apply (right_id_L ∅ (∪)).
  - rewrite IH. unfold record_op. rewrite writes_read, reads_read.
    rewrite list_to_set_app_L. now rewrite !(assoc_L (∪)).
Qed.

Lemma record_write ops p :
  write_params (fold_left record_op ops p)
  = write_params p ∪ list_to_set (flat_map write ops).
Proof.
  revert p. induction ops as [|op ops IH]; intros p; simpl.
  - symmetry. apply (right_id_L ∅ (∪)).
  - rewrite IH. unfold record_op. rewrite writes_write, reads_write.
    rewrite list_to_set_app_L. now rewrite !(assoc_L (∪)).
Qed.

Lemma record_count ops p :
  sum_values (param_access_count (fold_left record_op ops p))
  = sum_values (param_access_count p)
    + len (flat_map (fun op => read op ++ write op) ops).
Proof.
  revert p. induction ops as [|op ops IH]; intros p; simpl.
  - unfold len; simpl; lia.
  - rewrite IH. unfold record_op. rewrite writes_count, reads_count.
    rewrite !len_app. lia.
Qed.

Lemma service_all_params ucs :
  all_params (service_params self ucs) = list_to_set (accesses self ucs).
Proof. unfold service_params. rewrite record_all. apply (left_id_L ∅ (∪)). Qed.

Lemma service_read_params ucs :
  read_params (service_params self ucs) = list_to_set (reads self ucs).
Proof. unfold service_params. rewrite record_read. apply (left_id_L ∅ (∪)). Qed.

Lemma service_write_params ucs :
  write_params (service_params self ucs) = list_to_set (writes self ucs).
Proof. unfold service_params. rewrite record_write. apply (left_id_L ∅ (∪)). Qed.

Lemma service_mf_sum ucs :
  sum_values (param_access_count (service_params self ucs)) = len (accesses self ucs).
Proof.
  unfold service_params. rewrite record_count. simpl.
  rewrite sum_values_empty. reflexivity.
Qed.

End ViewFacts.

Section LoopFacts.
Context {R : Type} `{PyNum R}.
Variable self : calculator.

(** *** The scoring loop *)

Lemma score_fold p ucs w ds :
  fold_left (score_use_case self p) ucs (w, ds)
  = (w + zsum (map (op_weight self) (known self ucs)), ds ++ details self p ucs).
Proof.
  revert w ds. induction ucs as [|uc ucs IH]; intros w ds.
  - simpl. rewrite app_nil_r. f_equal. unfold zsum; simpl; lia.
  - cbn [fold_left]. unfold score_use_case at 2. cbn [fst snd].
    unfold details. cbn [omap list_omap].
    destruct (operations self !! uc) as [op|] eqn:Huc.
    + destruct (known_cons_Some self uc ucs op Huc) as (-> & _ & _).
      rewrite IH. simpl. rewrite <- app_assoc. f_equal. lia.
    + destruct (known_cons_None self uc ucs Huc) as (-> & _ & _).
      rewrite IH. reflexivity.
Qed.

Lemma details_OT p ucs :
  map Detail.OT (details self p ucs) = map (op_weight self) (known self ucs).
Proof.
  induction ucs as [|uc ucs IH]; [done|].
  unfold details. cbn [omap list_omap].
  destruct (operations self !! uc) as [op|] eqn:Huc.
  - destruct (known_cons_Some self uc ucs op Huc) as (-> & _ & _).
    simpl. f_equal. exact IH.
  - destruct (known_cons_None self uc ucs Huc) as (-> & _ & _). exact IH.
Qed.

Lemma details_Operation p ucs :
  map Detail.Operation (details self p ucs) = known self ucs.
Proof.
  induction ucs as [|uc ucs IH]; [done|].
  unfold details. cbn [omap list_omap].
  destruct (operations self !! uc) as [op|] eqn:Huc.
  - destruct (known_cons_Some self uc ucs op Huc) as (-> & _ & _).
    simpl. f_equal. exact IH.
  - destruct (known_cons_None self uc ucs Huc) as (-> & _ & _). exact IH.
Qed.

Lemma elem_of_details p ucs d :
  d ∈ details self p ucs ->
  exists uc op, uc ∈ ucs /\ operations self !! uc = Some op /\ d = detail_of self p uc op.
Proof.
  unfold details. rewrite list_elem_of_omap. intros (uc & Huc & Hd).
  destruct (operations self !! uc) as [op|] eqn:Hop; [|discriminate].
  exists uc, op. simpl in Hd. now inversion Hd.
Qed.

Lemma details_all_unknown p ucs :
  Forall (fun uc => operations self !! uc = None) ucs -> details self p ucs = [].
Proof.
  induction 1 as [|uc ucs Huc _ IH]; [done|].
  unfold details. cbn [omap list_omap]. rewrite Huc. exact IH.
Qed.

(** *** The grading loop *)

Lemma fgs_not_raised (ot w : Z) :
  fgs_raised (R:=R) ot w = None -> fgs_of ot w = inr (fgs_value ot w).
Proof.
  unfold fgs_raised, fgs_value. now destruct (fgs_of ot w).
Qed.

Lemma fgs_of_raised (ot w : Z) e :
  fgs_of (R:=R) ot w = inl e <-> fgs_raised (R:=R) ot w = Some e.
Proof.
  unfold fgs_raised. destruct (fgs_of ot w); split; congruence.
Qed.

Lemma grade_fold_raised w (ds : list (Detail.t R)) e :
  fold_left (grade w) ds (inl e) = inl e.
Proof. induction ds as [|d ds IH]; [done|exact IH]. Qed.

Lemma grade_fold w (ds : list (Detail.t R)) s gs :
  fold_left (grade w) ds (inr (s, gs))
  = match head (omap (fun d => fgs_raised (R:=R) (Detail.OT d) w) ds) with
    | Some e => inl e
    | None =>
        inr (fold_left num_add (map Graded.SGM_Operation (map (graded_of w) ds)) s,
             gs ++ map (graded_of w) ds)
    end.
Proof.
  revert s gs. induction ds as [|d ds IH]; intros s gs.
  - simpl. now rewrite app_nil_r.
  - cbn [fold_left omap list_omap map].
    assert (Hstep : grade w (inr (s, gs)) d
                    = match fgs_of (Detail.OT d) w with
                      | inl e => inl e
                      | inr fgs =>
                          inr ((s + Detail.DGS d * fgs)%num,
                               gs ++ [Graded.mk d fgs (Detail.DGS d * fgs)%num])
                      end) by reflexivity.
    rewrite Hstep. clear Hstep.
    assert (Hgraded : graded_of w d
                      = Graded.mk d (fgs_value (Detail.OT d) w)
                                  (Detail.DGS d * fgs_value (Detail.OT d) w)%num)
      by reflexivity.
    rewrite Hgraded. clear Hgraded. unfold fgs_raised at 1, fgs_value.
    destruct (fgs_of (Detail.OT d) w) as [e|fgs].
    + cbn [head]. apply grade_fold_raised.
    + rewrite IH. destruct (head _); [done|].
      cbn [fold_left Graded.SGM_Operation]. now rewrite <- app_assoc.
Qed.

Lemma details_raised p ucs w :
  omap (fun d => fgs_raised (R:=R) (Detail.OT d) w) (details (R:=R) self p ucs)
  = omap (fun uc => fgs_raised (R:=R) (op_weight self uc) w) (known self ucs).
Proof.
  induction ucs as [|uc ucs IH]; [done|].
  unfold details. cbn [omap list_omap].
  destruct (operations self !! uc) as [op|] eqn:Huc.
  - destruct (known_cons_Some self uc ucs op Huc) as (-> & _ & _).
    cbn [fmap option_fmap option_map omap list_omap detail_of Detail.OT].
    fold (details self p ucs). rewrite IH. reflexivity.
  - destruct (known_cons_None self uc ucs Huc) as (-> & _ & _). exact IH.
Qed.

Lemma head_omap_None {A B} (f : A -> option B) (l : list A) :
  head (omap f l) = None <-> Forall (fun a => f a = None) l.
Proof.
  induction l as [|a l IH]; [split; [constructor|done]|].
  cbn [omap list_omap]. destruct (f a) as [b|] eqn:Hf.
  - split; [done|]. intros Hall. apply Forall_cons in Hall as [Ha _]. congruence.
  - rewrite IH. split; [now constructor|]. intros Hall.
    now apply Forall_cons in Hall as [_ Hall].
Qed.

Lemma head_omap_Some {A B} (f : A -> option B) (l : list A) b :
  head (omap f l) = Some b -> exists a, a ∈ l /\ f a = Some b.
Proof.
  induction l as [|a l IH]; [done|].
  cbn [omap list_omap]. destruct (f a) as [b'|] eqn:Hf.
  - intros [= ->]. exists a. split; [apply list_elem_of_here|exact Hf].
  - intros Hb. destruct (IH Hb) as (a' & Hin & Ha').
    exists a'. split; [now apply list_elem_of_further|exact Ha'].
Qed.

(** *** One service *)

Lemma run_service_eq scheme_name svc :
  let ucs := use_cases svc in
  let mf_sum := len (accesses self ucs) in
  let f := card (list_to_set (accesses self ucs)) in
  let lcom := lcom_of mf_sum (len ucs) f in
  let sgm := pysum (map Graded.SGM_Operation (service_graded self ucs)) in
  run_service self scheme_name svc
  = match service_raised (R:=R) self ucs with
    | None =>
        {| run_rows := map (emit scheme_name (name svc) (len ucs) lcom sgm mf_sum
                                 (len ucs) f (service_weight_of self ucs))
                           (service_graded self ucs);
           run_lcom := lcom; run_sgm := sgm; run_noo := len ucs;
           run_log := map warn_unknown (unknown self ucs); run_raised := None |}
    | Some e =>
        {| run_rows := []; run_lcom := lcom; run_sgm := of_int 0;
           run_noo := len ucs;
           run_log := map warn_unknown (unknown self ucs); run_raised := Some e |}
    end.
Proof.
  intros ucs mf_sum f lcom sgm. unfold run_service.
  rewrite scan_fold. fold (service_params self (use_cases svc)).
  rewrite score_fold. cbn [app]. rewrite Z.add_0_l.
  fold (service_weight_of self (use_cases svc)).
  rewrite grade_fold, details_raised.
  rewrite service_mf_sum, service_all_params.
  change (head (omap _ (known self (use_cases svc))))
    with (service_raised (R:=R) self (use_cases svc)).
  subst ucs mf_sum f lcom sgm.
  destruct (service_raised self (use_cases svc)); reflexivity.
Qed.

(** A run that does not raise. *)
Lemma run_service_ok scheme_name svc :
  service_raised (R:=R) self (use_cases svc) = None ->
  let ucs := use_cases svc in
  let mf_sum := len (accesses self ucs) in
  let f := card (list_to_set (accesses self ucs)) in
  let lcom := lcom_of mf_sum (len ucs) f in
  let sgm := pysum (map Graded.SGM_Operation (service_graded self ucs)) in
  run_service self scheme_name svc
  = {| run_rows := map (emit scheme_name (name svc) (len ucs) lcom sgm mf_sum
                             (len ucs) f (service_weight_of self ucs))
                       (service_graded self ucs);
       run_lcom := lcom; run_sgm := sgm; run_noo := len ucs;
       run_log := map warn_unknown (unknown self ucs); run_raised := None |}.
Proof. intros Hok. cbv zeta. rewrite run_service_eq. now rewrite Hok. Qed.

Lemma run_raised_eq scheme_name svc :
  run_raised (run_service self scheme_name svc)
  = service_raised (R:=R) self (use_cases svc).
Proof. rewrite run_service_eq. now destruct (service_raised self (use_cases svc)). Qed.

Lemma run_lcom_eq scheme_name svc :
  run_lcom (run_service (R:=R) self scheme_name svc)
  = lcom_of (len (accesses self (use_cases svc))) (len (use_cases svc))
            (card (list_to_set (accesses self (use_cases svc)))).
Proof. rewrite run_service_eq. now destruct (service_raised self (use_cases svc)). Qed.

Lemma run_log_eq scheme_name svc :
  run_log (run_service (R:=R) self scheme_name svc)
  = map warn_unknown (unknown self (use_cases svc)).
Proof. rewrite run_service_eq. now destruct (service_raised self (use_cases svc)). Qed.

(** A run with rows has not raised. *)
Lemma run_rows_not_raised scheme_name svc r :
  r ∈ run_rows (run_service self scheme_name svc) ->
  service_raised (R:=R) self (use_cases svc) = None.
Proof.
  rewrite run_service_eq.
  destruct (service_raised self (use_cases svc)); [|done].
  intros Hr. now apply elem_of_nil in Hr.
Qed.

Lemma service_raised_nil : service_raised (R:=R) self [] = None.
Proof. reflexivity. Qed.

(** No quotient of a service that does not raise raises. *)
Lemma service_not_raised ucs uc :
  service_raised (R:=R) self ucs = None ->
  uc ∈ known self ucs ->
  fgs_raised (R:=R) (op_weight self uc) (service_weight_of self ucs) = None.
Proof.
  unfold service_raised. rewrite head_omap_None, Forall_forall.
  intros Hall Huc. exact (Hall uc Huc).
Qed.

(** *** The loop over services *)

Lemma process_skipped scheme_name st svc :
  raised st = None ->
  use_cases svc = [] ->
  process_service self scheme_name st svc
  = {| results := results st; acc_ALCOM := acc_ALCOM st; acc_ASGM := acc_ASGM st;
       acc_Max_NOO := acc_Max_NOO st;
       printed := printed st ++ [warn_no_use_cases (name svc)];
       raised := None |}.
Proof. intros Hst Hu. unfold process_service. now rewrite Hst, Hu. Qed.

Lemma process_run scheme_name st svc :
  raised st = None ->
  use_cases svc ≠ [] ->
  service_raised (R:=R) self (use_cases svc) = None ->
  process_service self scheme_name st svc
  = let r := run_service self scheme_name svc in
    {| results := results st ++ run_rows r;
       acc_ALCOM := (acc_ALCOM st + run_lcom r)%num;
       acc_ASGM := (acc_ASGM st + run_sgm r)%num;
       acc_Max_NOO := Z.max (acc_Max_NOO st) (run_noo r);
       printed := printed st ++ run_log r;
       raised := None |}.
Proof.
  intros Hst Hu Hok. unfold process_service. rewrite Hst.
  rewrite run_raised_eq, Hok. now destruct (use_cases svc).
Qed.

Lemma process_raised scheme_name st svc e :
  raised st = None ->
  service_raised (R:=R) self (use_cases svc) = Some e ->
  raised (process_service self scheme_name st svc) = Some e.
Proof.
  intros Hst Hraised. unfold process_service. rewrite Hst.
  destruct (use_cases svc) as [|uc ucs] eqn:Hu.
  - rewrite service_raised_nil in Hraised. discriminate Hraised.
  - rewrite run_raised_eq, Hu, Hraised. reflexivity.
Qed.

Lemma services_fold_raised scheme_name services st e :
  raised st = Some e ->
  fold_left (process_service self scheme_name) services st = st.
Proof.
  intros Hst. induction services as [|svc services IH]; [done|].
  cbn [fold_left]. unfold process_service at 2. rewrite Hst. exact IH.
Qed.

Lemma services_fold scheme_name services st :
  raised st = None ->
  scheme_raised (R:=R) self services = None ->
  let runs := map (run_service self scheme_name) (processed services) in
  fold_left (process_service self scheme_name) services st
  = {| results := results st ++ flat_map run_rows runs;
       acc_ALCOM := fold_left num_add (map run_lcom runs) (acc_ALCOM st);
       acc_ASGM := fold_left num_add (map run_sgm runs) (acc_ASGM st);
       acc_Max_NOO := fold_left Z.max (map run_noo runs) (acc_Max_NOO st);
       printed := printed st ++ flat_map (service_log self) services;
       raised := None |}.
Proof.
  revert st. induction services as [|svc services IH]; intros st Hst Hok.
  - simpl. rewrite !app_nil_r. destruct st. simpl in Hst. now rewrite Hst.
  - unfold scheme_raised in Hok. apply head_omap_None in Hok.
    apply Forall_cons in Hok as [Hsvc Hrest].
    apply head_omap_None in Hrest. fold (scheme_raised (R:=R) self services) in Hrest.
    cbn [fold_left]. unfold processed.
    destruct (decide (use_cases svc = [])) as [Hu|Hu].
    + rewrite filter_cons_False by (intros Hn; now apply Hn).
      rewrite process_skipped by assumption.
      rewrite IH by (try reflexivity; exact Hrest). simpl.
      unfold service_log at 2. rewrite Hu. now rewrite <- app_assoc.
    + rewrite filter_cons_True by exact Hu.
      rewrite process_run by assumption.
      rewrite IH by (try reflexivity; exact Hrest). simpl.
      rewrite <- !app_assoc. do 2 f_equal.
      unfold service_log at 2. rewrite run_log_eq.
      now destruct (use_cases svc).
Qed.

(** The loop ends with the exception of the first service that raises. *)
Lemma services_fold_raise scheme_name services st e :
  raised st = None ->
  scheme_raised (R:=R) self services = Some e ->
  raised (fold_left (process_service self scheme_name) services st) = Some e.
Proof.
  revert st. induction services as [|svc services IH]; intros st Hst Hraise;
    [discriminate Hraise|].
  unfold scheme_raised in Hraise. cbn [omap list_omap] in Hraise.
  cbn [fold_left].
  destruct (service_raised self (use_cases svc)) as [e'|] eqn:Hsvc.
  - cbn [head] in Hraise. injection Hraise as ->.
    rewrite (services_fold_raised _ _ _ e); now apply process_raised.
  - apply IH; [|exact Hraise].
    destruct (decide (use_cases svc = [])) as [Hu|Hu].
    + now rewrite process_skipped.
    + now rewrite process_run.
Qed.

End LoopFacts.

(** ** One scheme *)

Section SchemeFacts.
Context {R : Type} `{PyNum R}.
Variable self : calculator.

Lemma len_pos {A} (l : list A) : l ≠ [] -> (0 <? len l) = true.
Proof. destruct l; [done|]. intros _. unfold len. simpl length. apply Z.ltb_lt. lia. Qed.

(** A scheme with services none of which raises returns normally, with the
    rows of its runs in order, the sums of their LCOM and SGM divided by the
    number of services, and the largest NOO among them. *)
Lemma calculate_scheme_metrics_eq scheme_name services :
  services ≠ [] ->
  scheme_raised (R:=R) self services = None ->
  calculate_scheme_metrics self scheme_name services
  = (inr (flat_map run_rows (runs self scheme_name services),
          SchemeMetrics.mk
            (pysum (map run_lcom (runs self scheme_name services)) / of_int (len services))%num
            (pysum (map run_sgm (runs self scheme_name services)) / of_int (len services))%num
            (fold_left Z.max (map run_noo (runs self scheme_name services)) 0)),
     flat_map (service_log self) services).
Proof.
  intros Hne Hok. unfold calculate_scheme_metrics.
  destruct services as [|svc services]; [done|].
  rewrite (len_pos (svc :: services) Hne).
  rewrite services_fold by (try reflexivity; exact Hok). reflexivity.
Qed.

(** A scheme one of whose services raises raises the same exception. *)
Lemma calculate_scheme_metrics_raise scheme_name services e :
  scheme_raised (R:=R) self services = Some e ->
  exists out, calculate_scheme_metrics self scheme_name services = (inl e, out).
Proof.
  intros Hraise. unfold calculate_scheme_metrics.
  destruct services as [|svc services]; [discriminate Hraise|].
  rewrite (services_fold_raise self scheme_name (svc :: services) scheme_start e)
    by (try reflexivity; exact Hraise).
  now eexists.
Qed.

Lemma calculate_scheme_metrics_inv scheme_name services rows sm out :
  calculate_scheme_metrics self scheme_name services = (inr (rows, sm), out) ->
  services ≠ []
  /\ rows = flat_map run_rows (runs self scheme_name services)
  /\ sm = SchemeMetrics.mk
            (pysum (map run_lcom (runs self scheme_name services)) / of_int (len services))%num
            (pysum (map run_sgm (runs self scheme_name services)) / of_int (len services))%num
            (fold_left Z.max (map run_noo (runs self scheme_name services)) 0)
  /\ out = flat_map (service_log self) services.
Proof.
  intros Hcall. destruct services as [|svc services]; [discriminate|].
  destruct (scheme_raised (R:=R) self (svc :: services)) as [e|] eqn:Hraise.
  - destruct (calculate_scheme_metrics_raise scheme_name _ e Hraise) as [out' Hfail].
    rewrite Hfail in Hcall. discriminate Hcall.
  - rewrite calculate_scheme_metrics_eq in Hcall by done.
    now inversion Hcall.
Qed.

(** A scheme that returned has raised in none of its services. *)
Lemma returned_not_raised scheme_name services rows sm out :
  calculate_scheme_metrics self scheme_name services = (inr (rows, sm), out) ->
  scheme_raised (R:=R) self services = None.
Proof.
  intros Hcall.
  destruct (scheme_raised (R:=R) self services) as [e|] eqn:Hraise; [|done].
  destruct (calculate_scheme_metrics_raise scheme_name _ e Hraise) as [out' Hfail].
  rewrite Hfail in Hcall. discriminate Hcall.
Qed.

Lemma returned_service_ok scheme_name services rows sm out svc :
  calculate_scheme_metrics self scheme_name services = (inr (rows, sm), out) ->
  svc ∈ services ->
  service_raised (R:=R) self (use_cases svc) = None.
Proof.
  intros Hcall Hsvc. apply returned_not_raised in Hcall.
  unfold scheme_raised in Hcall. rewrite head_omap_None, Forall_forall in Hcall.
  exact (Hcall svc Hsvc).
Qed.

(** Every emitted row belongs to the run of a service of the scheme. *)
Lemma row_origin scheme_name services rows sm out r :
  calculate_scheme_metrics self scheme_name services = (inr (rows, sm), out) ->
  r ∈ rows ->
  exists svc, svc ∈ services /\ use_cases svc ≠ []
              /\ r ∈ run_rows (run_service self scheme_name svc).
Proof.
  intros Hcall Hr.
  apply calculate_scheme_metrics_inv in Hcall as (_ & -> & _ & _).
  apply list_elem_of_In, in_flat_map in Hr as (run & Hrun & Hr).
  apply list_elem_of_In, list_elem_of_fmap in Hrun as (svc & -> & Hsvc).
  unfold processed in Hsvc. apply list_elem_of_filter in Hsvc as [Hu Hsvc].
  exists svc. split; [exact Hsvc|]. split; [exact Hu|].
  now apply list_elem_of_In.
Qed.

(** ... and conversely. *)
Lemma row_emitted scheme_name services rows sm out svc r :
  calculate_scheme_metrics self scheme_name services = (inr (rows, sm), out) ->
  svc ∈ services ->
  r ∈ run_rows (run_service self scheme_name svc) ->
  r ∈ rows.
Proof.
  intros Hcall Hsvc Hr.
  apply calculate_scheme_metrics_inv in Hcall as (_ & -> & _ & _).
  apply list_elem_of_In, in_flat_map. exists (run_service self scheme_name svc).
  split; [|now apply list_elem_of_In].
  apply list_elem_of_In, list_elem_of_fmap. exists svc. split; [done|].
  unfold processed. apply list_elem_of_filter. split; [|exact Hsvc].
  intros Hu. rewrite run_service_eq in Hr.
  destruct (service_raised self (use_cases svc)); cbn [run_rows] in Hr;
    [now apply elem_of_nil in Hr|].
  unfold service_graded in Hr. rewrite Hu in Hr. simpl in Hr.
  now apply elem_of_nil in Hr.
Qed.

(** The rows of one run, field by field. *)
Lemma run_row scheme_name svc r :
  r ∈ run_rows (run_service self scheme_name svc) ->
  let ucs := use_cases svc in
  exists uc op,
    uc ∈ ucs /\ operations self !! uc = Some op
    /\ Row.Scheme r = scheme_name /\ Row.Service r = name svc
    /\ Row.Operation r = uc
    /\ Row.NOO r = len ucs /\ Row.M r = len ucs
    /\ Row.MF r = len (accesses self ucs)
    /\ Row.F r = card (list_to_set (accesses self ucs))
    /\ Row.LCOM r = lcom_of (Row.MF r) (Row.M r) (Row.F r)
    /\ Row.LCOM r = run_lcom (run_service self scheme_name svc)
    /\ Row.IPR r = card (list_to_set (read op))
    /\ Row.OPR r = card (list_to_set (write op))
    /\ Row.FP r = floor1 (list_to_set (reads self ucs))
    /\ Row.CP r = floor1 (list_to_set (writes self ucs))
    /\ Row.DGS r = dgs_of (Row.IPR r) (Row.OPR r) (Row.FP r) (Row.CP r)
    /\ Row.OT r = op_weight self uc
    /\ Row.O r = service_weight_of self ucs
    /\ fgs_of (Row.OT r) (Row.O r) = inr (Row.FGS r)
    /\ Row.SGM_Operation r = (Row.DGS r * Row.FGS r)%num
    /\ Row.SGM r = run_sgm (run_service self scheme_name svc).
Proof.
  intros Hr. pose proof (run_rows_not_raised self _ _ _ Hr) as Hok. revert Hr.
  rewrite (run_service_ok self scheme_name svc Hok).
  cbn [run_rows run_sgm run_lcom]. intros Hr.
  apply list_elem_of_fmap in Hr as (g & -> & Hg).
  unfold service_graded in Hg.
  apply list_elem_of_fmap in Hg as (d & -> & Hd).
  apply elem_of_details in Hd as (uc & op & Huc & Hop & ->).
  exists uc, op. cbn.
  rewrite service_read_params, service_write_params.
  assert (Hknown : uc ∈ known self (use_cases svc)).
  { unfold known. apply list_elem_of_filter. split; [now rewrite Hop|exact Huc]. }
  rewrite (fgs_not_raised _ _ (service_not_raised self _ _ Hok Hknown)).
  repeat split; done.
Qed.

End SchemeFacts.

(** ** Facts of the two arithmetics *)

(** *** Exact rationals *)

Lemma Qc_of_int_add (a b : Z) :
  of_int (R:=Qc) (a + b) = (of_int a + of_int b)%Qc.
Proof.
  apply Qc_is_canon. simpl. rewrite !Qred_correct, inject_Z_plus. reflexivity.
Qed.

Lemma Qc_of_int_nonzero (n : Z) : n ≠ 0 -> of_int (R:=Qc) n ≠ 0%Qc.
Proof.
  intros Hn Heq. apply Hn.
  assert (Hq : (inject_Z n == 0)%Q).
  { rewrite <- (Qred_correct (inject_Z n)), <- (Qred_correct 0).
    change (Qred (inject_Z n)) with (this (of_int (R:=Qc) n)).
    now rewrite Heq. }
  unfold Qeq in Hq. simpl in Hq. lia.
Qed.

Lemma Qc_div_same (x : Qc) : x ≠ 0%Qc -> (x / x)%Qc = 1%Qc.
Proof. intros Hx. unfold Qcdiv. now apply Qcmult_inv_r. Qed.

Lemma Qc_pymin_le (x : Qc) : (pymin (of_int 1) x <= 1)%Qc.
Proof.
  unfold pymin. cbn [num_ltb Qc_PyNum of_int].
  change (Q2Qc (inject_Z 1)) with 1%Qc.
  destruct (x ?= 1)%Qc eqn:Hc.
  - apply Qcle_refl.
  - apply Qclt_le_weak. exact Hc.
  - apply Qcle_refl.
Qed.

(** The shares [ot / w] of a list of weights add up to [sum / w]. *)
Lemma Qc_shares_from (w : Z) (ots : list Z) (acc : Qc) :
  fold_left Qcplus (map (fun ot => (of_int ot / of_int w)%Qc) ots) acc
  = (acc + of_int (zsum ots) / of_int w)%Qc.
Proof.
  revert acc. induction ots as [|ot ots IH]; intros acc; cbn [map fold_left zsum foldr].
  - change (of_int (R:=Qc) 0) with 0%Qc. unfold Qcdiv. ring.
  - rewrite IH. fold (zsum ots). rewrite Qc_of_int_add. unfold Qcdiv. ring.
Qed.

Lemma Qc_shares (w : Z) (ots : list Z) :
  pysum (R:=Qc) (map (fun ot => (of_int ot / of_int w)%num) ots)
  = (of_int (zsum ots) / of_int w)%Qc.
Proof.
  unfold pysum. cbn [num_add num_div Qc_PyNum]. rewrite Qc_shares_from.
  change (of_int (R:=Qc) 0) with 0%Qc. ring.
Qed.

(** *** Binary64 *)

Lemma float_pymin_le (x : float) :
  (pymin (of_int 1) x <=? of_int 1)%float = true.
Proof.
  unfold pymin. cbn [num_ltb float_PyNum of_int].
  destruct (x <? float_of_int 1)%float eqn:Hlt; [|reflexivity].
  rewrite ltb_spec in Hlt. rewrite leb_spec.
  unfold SFltb in Hlt. unfold SFleb.
  destruct (SFcompare (Prim2SF x) (Prim2SF (float_of_int 1))) as [[| |]|];
    done.
Qed.



(** Ints below 2^53 convert to finite doubles without rounding. *)
Lemma digits2_pos_size (p : positive) : digits2_pos p = Pos.size p.
Proof. induction p; simpl; congruence. Qed.

Lemma digits2_pos_iter (p k : positive) :
  digits2_pos (Pos.iter xO p k) = (digits2_pos p + k)%positive.
Proof.
  induction k using Pos.peano_ind.
  - simpl. lia.
  - rewrite Pos.iter_succ. simpl. rewrite IHk. lia.
Qed.

Lemma digits2_pos_bound (p : positive) :
  Z.pos p < 2 ^ 53 -> Z.pos (digits2_pos p) <= 53.
Proof.
  intros Hp. rewrite digits2_pos_size.
  pose proof (Pos.size_le p) as Hle.
  destruct (Z_le_gt_dec (Z.pos (Pos.size p)) 53) as [|Hgt]; [assumption|exfalso].
  assert (H54 : 2 ^ 54 <= 2 ^ Z.pos (Pos.size p)) by (apply Z.pow_le_mono_r; lia).
  assert (Hz : 2 ^ Z.pos (Pos.size p) <= Z.pos p~0).
  { rewrite <- Pos2Z.inj_pow. apply Pos2Z.pos_le_pos. exact Hle. }
  rewrite Pos2Z.inj_xO in Hz. lia.
Qed.

Lemma binary_round_aux_exact (m : positive) (e : Z) :
  digits2_pos m = 53%positive -> -1074 <= e <= 971 ->
  binary_round_aux prec emax false (Z.pos m) e loc_Exact = S754_finite false m e.
Proof.
  intros Hm He. unfold binary_round_aux.
  assert (Hshr : shr_fexp prec emax (Z.pos m) e loc_Exact
                 = ({| shr_m := Z.pos m; shr_r := false; shr_s := false |}, e)).
  { unfold shr_fexp. cbn [Zdigits2]. rewrite Hm.
    replace (fexp prec emax (53 + e) - e) with 0
      by (unfold fexp, emin, prec, emax; lia).
    reflexivity. }
  rewrite Hshr. cbn [shr_m loc_of_shr_record round_nearest_even].
  rewrite Hshr. cbn [shr_m].
  replace (e <=? emax - prec) with true; [reflexivity|].
  symmetry. apply Z.leb_le. unfold emax, prec. lia.
Qed.

Lemma binary_normalize_exact (p : positive) :
  Z.pos p < 2 ^ 53 ->
  exists m e, binary_normalize prec emax (Z.pos p) 0 false = S754_finite false m e
              /\ valid_binary (S754_finite false m e) = true.
Proof.
  intros Hlt. pose proof (digits2_pos_bound p Hlt) as Hd.
  unfold binary_normalize, binary_round.
  set (d := digits2_pos p) in *.
  rewrite Z.add_0_r.
  assert (Hfexp : fexp prec emax (Z.pos d) = Z.pos d - 53)
    by (unfold fexp, emin, prec, emax; lia).
  rewrite Hfexp. unfold shl_align. rewrite Z.sub_0_r.
  assert (Hvalid : forall m e, digits2_pos m = 53%positive -> -1074 <= e <= 971 ->
            valid_binary (S754_finite false m e) = true).
  { intros m e Hm He. unfold valid_binary, bounded, canonical_mantissa.
    rewrite Hm. apply andb_true_intro. split.
    - apply Z.eqb_eq. unfold fexp, emin, prec, emax. lia.
    - apply Z.leb_le. unfold emax, prec. lia. }
  destruct (Z.pos d - 53) as [|k|k] eqn:Hk; try lia.
  - assert (Hm : digits2_pos p = 53%positive) by (fold d; lia).
    exists p, 0. split; [apply binary_round_aux_exact; [exact Hm | lia]|].
    apply Hvalid; [exact Hm | lia].
  - assert (Hm : digits2_pos (Pos.iter xO p k) = 53%positive).
    { rewrite digits2_pos_iter. fold d. lia. }
    exists (Pos.iter xO p k), (Z.neg k).
    split; [apply binary_round_aux_exact; [exact Hm | lia]|].
    apply Hvalid; [exact Hm | lia].
Qed.

Lemma float_of_int_finite (n : Z) :
  0 < n < 2 ^ 53 ->
  exists m e, Prim2SF (float_of_int n) = S754_finite false m e.
Proof.
  intros [Hpos Hlt]. destruct n as [|p|p]; try lia.
  destruct (binary_normalize_exact p Hlt) as (m & e & Hn & Hv).
  exists m, e. unfold float_of_int. rewrite Hn. now apply Prim2SF_SF2Prim.
Qed.


(** *** LCOM and DGS in the two arithmetics *)



Lemma Qc_dgs_le (ipr opr fp cp : Z) : (dgs_of (R:=Qc) ipr opr fp cp <= 1)%Qc.
Proof. apply Qc_pymin_le. Qed.

Lemma float_dgs_le (ipr opr fp cp : Z) :
  (dgs_of (R:=float) ipr opr fp cp <=? 1)%float = true.
Proof. apply float_pymin_le. Qed.

Lemma floor1_max (s : gset string) : floor1 s = Z.max 1 (card s).
Proof.
  unfold floor1, card. destruct (decide (s = ∅)) as [->|Hs].
  - rewrite size_empty. reflexivity.
  - assert (size s ≠ 0%nat).
    { intros H0. apply size_empty_inv in H0. now apply leibniz_equiv in H0. }
    lia.
Qed.

(** ** The order scenario *)

(** C1: on the order scenario (catalogue [Order: id, status]; [CreateOrder]
    writing and [GetOrder] reading both attributes; types Create and Read;
    default weights; the single service [OrderService]), whatever the scheme
    is called, [calculate_scheme_metrics] returns exactly the two expected
    rows (NOO=2, M=2, F=2, MF=4, LCOM=0, O=5; CreateOrder: IPR=0, OPR=2, FP=2,
    CP=2, DGS=1, FGS=SGM_Operation=4/5; GetOrder: IPR=2, OPR=0, FP=2, CP=2,
    DGS=1, FGS=SGM_Operation=1/5; SGM=1) and the metrics ALCOM=0, ASGM=1,
    Max_NOO=2, and prints nothing, and [calculate_metrics] returns these rows
    and the one summary row ALCOM=0, ASGM=1, NOO(max)=2; this both in
    binary64, where 4/5 and 1/5 are the nearest doubles, and in exact
    arithmetic. *)
Theorem order_scenario_metrics (scheme_name : string) :
  calculate_scheme_metrics (R:=float) (Scenario.calc scheme_name) scheme_name
    [Scenario.OrderService]
  = (inr (Scenario.expected_rows scheme_name, Scenario.expected_metrics), [])
  /\ calculate_scheme_metrics (R:=Qc) (Scenario.calc scheme_name) scheme_name
       [Scenario.OrderService]
     = (inr (Scenario.expected_rows scheme_name, Scenario.expected_metrics), [])
  /\ (calculate_metrics (R:=float) (Scenario.calc scheme_name)).1
     = (Scenario.expected_rows scheme_name,
        [Summary.mk scheme_name (of_int 0) (of_int 1) 2])
  /\ (calculate_metrics (R:=Qc) (Scenario.calc scheme_name)).1
     = (Scenario.expected_rows scheme_name,
        [Summary.mk scheme_name (of_int 0) (of_int 1) 2]).
Proof.
  split; [|split; [|split]].
  - vm_compute. reflexivity.
  - vm_compute. qc_fields.
  - vm_compute. reflexivity.
  - vm_compute. qc_fields.
Qed.

(** The two shares of the scenario as doubles: 0.8 and 0.2 to the nearest. *)
Remark scenario_shares :
  (of_int (R:=float) 4 / of_int 5)%num = 0x1.999999999999ap-1%float
  /\ (of_int (R:=float) 1 / of_int 5)%num = 0x1.999999999999ap-3%float.
Proof. split; vm_compute; reflexivity. Qed.

(** ** Cohesion *)

(** The scenario again, under a fixed scheme name, for use at concrete
    inputs. *)
Lemma scenario_float :
  calculate_scheme_metrics (R:=float) (Scenario.calc "S") "S" [Scenario.OrderService]
  = (inr (Scenario.expected_rows "S", Scenario.expected_metrics), []).
Proof. vm_compute. reflexivity. Qed.

Lemma scenario_Qc :
  calculate_scheme_metrics (R:=Qc) (Scenario.calc "S") "S" [Scenario.OrderService]
  = (inr (Scenario.expected_rows "S", Scenario.expected_metrics), []).
Proof. vm_compute. qc_fields. Qed.





(** ** Data granularity *)

Lemma Qc_ltb_true (x y : Qc) : (x <? y)%num = true -> (x < y)%Qc.
Proof.
  cbn [num_ltb Qc_PyNum]. unfold Qclt.
  destruct (x ?= y)%Qc eqn:Hc; [discriminate|intros _|discriminate].
  revert Hc. unfold Qccompare. now rewrite Qlt_alt.
Qed.

Lemma Qc_ltb_false (x y : Qc) : (x <? y)%num = false -> (y <= x)%Qc.
Proof.
  cbn [num_ltb Qc_PyNum]. intros Hc. apply Qcnot_lt_le. intros Hlt.
  unfold Qclt in Hlt. rewrite Qlt_alt in Hlt. unfold Qccompare in Hc.
  now rewrite Hlt in Hc.
Qed.

Lemma partial_float :
  calculate_scheme_metrics (R:=float) Partial.calc "S" [Partial.Orders]
  = (inr (Partial.rows, Partial.metrics), []).
Proof. vm_compute. reflexivity. Qed.

(** C3: every emitted row has IPR and OPR equal to the numbers of distinct
    attributes its operation reads and writes, FP and CP equal to the
    numbers of distinct attributes the known use cases of its service read
    and write, floored at 1, and DGS equal to
    IPR/max(1,FP) + OPR/max(1,CP) when this sum is below 1 and to 1
    otherwise, in any arithmetic.  In exact arithmetic the DGS is the sum
    when the sum is less than 1 and 1 when it is at least 1, hence at most
    1; in binary64 it is at most 1.0. *)
Theorem dgs_capped :
  (forall (R : Type) (HR : PyNum R) (self : calculator) (scheme_name : string)
          (services : list service) rows sm out (r : Row.t R),
      calculate_scheme_metrics self scheme_name services = (inr (rows, sm), out) ->
      r ∈ rows ->
      exists svc op,
        svc ∈ services /\ Row.Service r = name svc
        /\ operations self !! Row.Operation r = Some op
        /\ Row.IPR r = card (list_to_set (read op))
        /\ Row.OPR r = card (list_to_set (write op))
        /\ Row.FP r = Z.max 1 (card (list_to_set (reads self (use_cases svc))))
        /\ Row.CP r = Z.max 1 (card (list_to_set (writes self (use_cases svc))))
        /\ let total :=
             (of_int (Row.IPR r) / of_int (Z.max 1 (Row.FP r))
              + of_int (Row.OPR r) / of_int (Z.max 1 (Row.CP r)))%num in
           Row.DGS r = if (total <? of_int 1)%num then total else of_int 1)
  /\ (forall (self : calculator) (scheme_name : string) (services : list service)
             rows sm out (r : Row.t Qc),
         calculate_scheme_metrics self scheme_name services = (inr (rows, sm), out) ->
         r ∈ rows ->
         let total :=
           (of_int (Row.IPR r) / of_int (Z.max 1 (Row.FP r))
            + of_int (Row.OPR r) / of_int (Z.max 1 (Row.CP r)))%Qc in
         (total < 1 -> Row.DGS r = total)%Qc
         /\ (1 <= total -> Row.DGS r = 1)%Qc
         /\ (Row.DGS r <= 1)%Qc)
  /\ (forall (self : calculator) (scheme_name : string) (services : list service)
             rows sm out (r : Row.t float),
         calculate_scheme_metrics self scheme_name services = (inr (rows, sm), out) ->
         r ∈ rows -> (Row.DGS r <=? 1)%float = true).
Proof.
  split; [|split].
  - intros R HR self scheme_name services rows sm out r Hcall Hr.
    destruct (row_origin self _ _ _ _ _ _ Hcall Hr) as (svc & Hsvc & _ & Hrun).
    destruct (run_row self _ _ _ Hrun)
      as (uc & op & _ & Hop & _ & Hname & Huc & _ & _ & _ & _ & _ & _
          & HI & HO & HFP & HCP & HD & _).
    exists svc, op. rewrite Huc, <- !floor1_max.
    repeat split; try assumption.
  - intros self scheme_name services rows sm out r Hcall Hr total.
    destruct (row_origin self _ _ _ _ _ _ Hcall Hr) as (svc & _ & _ & Hrun).
    destruct (run_row self _ _ _ Hrun)
      as (uc & op & _ & _ & _ & _ & _ & _ & _ & _ & _ & _ & _
          & _ & _ & _ & _ & HD & _).
    assert (Hdgs : Row.DGS r = if (total <? of_int 1)%num then total else of_int 1)
      by exact HD.
    split; [|split].
    + intros Hlt. rewrite Hdgs.
      destruct (total <? of_int 1)%num eqn:Hc; [reflexivity|].
      apply Qc_ltb_false in Hc. exfalso. exact (Qclt_not_le _ _ Hlt Hc).
    + intros Hge. rewrite Hdgs.
      destruct (total <? of_int 1)%num eqn:Hc; [|reflexivity].
      apply Qc_ltb_true in Hc. exfalso. exact (Qclt_not_le _ _ Hc Hge).
    + rewrite HD. apply Qc_dgs_le.
  - intros self scheme_name services rows sm out r Hcall Hr.
    destruct (row_origin self _ _ _ _ _ _ Hcall Hr) as (svc & _ & _ & Hrun).
    destruct (run_row self _ _ _ Hrun)
      as (uc & op & _ & _ & _ & _ & _ & _ & _ & _ & _ & _ & _
          & _ & _ & _ & _ & HD & _).
    rewrite HD. apply float_dgs_le.
Qed.

(** The service whose operations read [Order.id], and read both attributes
    and write [Order.status]: FP = 2 and CP = 1 on both rows; the sum is
    1/2 + 0/1 on the first, whose DGS is 0.5, and 2/2 + 1/1 on the second,
    whose DGS is capped at 1.0. *)
Lemma dgs_capped_witness :
  Forall (fun r : Row.t float =>
            Row.FP r = 2 /\ Row.CP r = 1
            /\ (let total :=
                  (of_int (Row.IPR r) / of_int (Z.max 1 (Row.FP r))
                   + of_int (Row.OPR r) / of_int (Z.max 1 (Row.CP r)))%num in
                Row.DGS r = if (total <? of_int 1)%num then total else of_int 1)
            /\ (Row.DGS r <=? 1)%float = true) Partial.rows
  /\ map Row.DGS Partial.rows = [0.5; 1]%float.
Proof.
  split; [|reflexivity]. apply Forall_forall. intros r Hr.
  destruct (proj1 dgs_capped float _ _ _ _ _ _ _ r partial_float Hr)
    as (svc & op & Hsvc & _ & _ & _ & _ & HFP & HCP & HD).
  apply list_elem_of_singleton in Hsvc as ->.
  split; [exact HFP|]. split; [exact HCP|]. split; [exact HD|].
  exact (proj2 (proj2 dgs_capped) _ _ _ _ _ _ r partial_float Hr).
Defined.

(** ** Shares of the service weight *)

(** In exact arithmetic no quotient raises. *)
Lemma Qc_fgs_of (ot w : Z) :
  fgs_of (R:=Qc) ot w
  = inr (if 0 <? w then (of_int ot / of_int w)%num else of_int 0).
Proof.
  unfold fgs_of. destruct (0 <? w) eqn:Hw; [|reflexivity].
  apply Z.ltb_lt in Hw. cbn [int_div Qc_PyNum].
  destruct (w =? 0) eqn:H0; [apply Z.eqb_eq in H0; lia|reflexivity].
Qed.

Lemma Qc_fgs_value (ot w : Z) :
  fgs_value (R:=Qc) ot w
  = if 0 <? w then (of_int ot / of_int w)%num else of_int 0.
Proof. unfold fgs_value. now rewrite Qc_fgs_of. Qed.

Lemma Qc_fgs_raised (ot w : Z) : fgs_raised (R:=Qc) ot w = None.
Proof. unfold fgs_raised. now rewrite Qc_fgs_of. Qed.

Lemma Qc_service_raised (self : calculator) (ucs : list string) :
  service_raised (R:=Qc) self ucs = None.
Proof.
  unfold service_raised. apply head_omap_None, Forall_forall.
  intros uc _. apply Qc_fgs_raised.
Qed.

Lemma Qc_scheme_raised (self : calculator) (services : list service) :
  scheme_raised (R:=Qc) self services = None.
Proof.
  unfold scheme_raised. apply head_omap_None, Forall_forall.
  intros svc _. apply Qc_service_raised.
Qed.

(** In binary64 no quotient of two ints below 2^53 raises, and it is the
    quotient of the two doubles. *)
Lemma float_fgs_of (ot w : Z) :
  Z.abs ot < 2 ^ 53 -> w < 2 ^ 53 ->
  fgs_of (R:=float) ot w
  = inr (if 0 <? w then (of_int ot / of_int w)%num else of_int 0).
Proof.
  intros Hot Hw. unfold fgs_of. destruct (0 <? w) eqn:Hpos; [|reflexivity].
  apply Z.ltb_lt in Hpos. cbn [int_div float_PyNum]. unfold float_int_div.
  destruct (w =? 0) eqn:H0; [apply Z.eqb_eq in H0; lia|].
  replace (Z.abs ot <? 2 ^ 53) with true by (symmetry; now apply Z.ltb_lt).
  replace (Z.abs w <? 2 ^ 53) with true by (symmetry; apply Z.ltb_lt; lia).
  reflexivity.
Qed.

Lemma float_fgs_raised (ot w : Z) :
  Z.abs ot < 2 ^ 53 -> w < 2 ^ 53 -> fgs_raised (R:=float) ot w = None.
Proof. intros Hot Hw. unfold fgs_raised. now rewrite float_fgs_of. Qed.

Section ShareFacts.
Context {R : Type} `{PyNum R}.
Variable self : calculator.

Lemma rows_FGS scheme_name svc :
  service_raised (R:=R) self (use_cases svc) = None ->
  map Row.FGS (run_rows (run_service self scheme_name svc))
  = map (fun ot => fgs_value ot (service_weight_of self (use_cases svc)))
        (map (op_weight self) (known self (use_cases svc))).
Proof.
  intros Hok. rewrite (run_service_ok self _ _ Hok).
  cbn [run_rows]. unfold service_graded.
  rewrite <- (details_OT self (service_params self (use_cases svc))).
  rewrite !map_map. reflexivity.
Qed.

Lemma rows_OT scheme_name svc :
  service_raised (R:=R) self (use_cases svc) = None ->
  map Row.OT (run_rows (run_service (R:=R) self scheme_name svc))
  = map (op_weight self) (known self (use_cases svc)).
Proof.
  intros Hok. rewrite (run_service_ok self _ _ Hok).
  cbn [run_rows]. unfold service_graded.
  rewrite <- (details_OT (R:=R) self (service_params self (use_cases svc))).
  rewrite !map_map. reflexivity.
Qed.

Lemma rows_SGM_Operation scheme_name svc :
  run_sgm (run_service self scheme_name svc)
  = pysum (map Row.SGM_Operation (run_rows (run_service (R:=R) self scheme_name svc))).
Proof.
  rewrite run_service_eq.
  destruct (service_raised self (use_cases svc)); [reflexivity|].
  cbn [run_rows run_sgm]. now rewrite map_map.
Qed.

End ShareFacts.

(** In exact arithmetic the shares of a positive service weight add up
    to 1. *)
Lemma Qc_fgs_total (self : calculator) (scheme_name : string) (svc : service) :
  0 < service_weight_of self (use_cases svc) ->
  pysum (map Row.FGS (run_rows (run_service (R:=Qc) self scheme_name svc))) = 1%Qc.
Proof.
  intros Hw. rewrite rows_FGS by apply Qc_service_raised.
  rewrite (map_ext _ (fun ot => of_int ot / of_int (service_weight_of self (use_cases svc)))%num).
  2:{ intros ot. rewrite Qc_fgs_value.
      now replace (0 <? service_weight_of self (use_cases svc)) with true
        by (symmetry; now apply Z.ltb_lt). }
  rewrite Qc_shares. fold (service_weight_of self (use_cases svc)).
  apply Qc_div_same, Qc_of_int_nonzero. lia.
Qed.

(** C4 (as amended): for a service of a scheme that returned, every row of
    its run is emitted and carries O = the sum of OT over these rows, FGS =
    what [OT / O] on the two ints returned when O > 0 and 0 otherwise,
    SGM_Operation = DGS * FGS, and SGM = the sum of SGM_Operation over these
    rows, added in emission order from 0, in any arithmetic.  In exact
    arithmetic FGS is the quotient OT/O and the FGS of a service with
    positive weight add up to 1.  In binary64 FGS is the quotient of the two
    doubles when OT and O are below 2^53 in magnitude, and otherwise the
    exact quotient of the two ints rounded once, which is finite. *)
Theorem fgs_shares :
  (forall (R : Type) (HR : PyNum R) (self : calculator) (scheme_name : string)
          (services : list service) rows sm out (svc : service),
      calculate_scheme_metrics self scheme_name services = (inr (rows, sm), out) ->
      svc ∈ services ->
      let rs : list (Row.t R) := run_rows (run_service self scheme_name svc) in
      Forall (fun r =>
                r ∈ rows
                /\ Row.O r = zsum (map Row.OT rs)
                /\ (if 0 <? Row.O r
                    then int_div (Row.OT r) (Row.O r) = inr (Row.FGS r)
                    else Row.FGS r = of_int 0)
                /\ Row.SGM_Operation r = (Row.DGS r * Row.FGS r)%num
                /\ Row.SGM r = pysum (map Row.SGM_Operation rs)) rs)
  /\ (forall (self : calculator) (scheme_name : string) (services : list service)
             rows sm out (svc : service),
         calculate_scheme_metrics (R:=Qc) self scheme_name services
         = (inr (rows, sm), out) ->
         svc ∈ services ->
         let rs : list (Row.t Qc) := run_rows (run_service self scheme_name svc) in
         Forall (fun r => 0 < Row.O r ->
                          Row.FGS r = (of_int (Row.OT r) / of_int (Row.O r))%Qc) rs
         /\ (0 < zsum (map Row.OT rs) -> pysum (map Row.FGS rs) = 1%Qc))
  /\ (forall (self : calculator) (scheme_name : string) (services : list service)
             rows sm out (r : Row.t float),
         calculate_scheme_metrics (R:=float) self scheme_name services
         = (inr (rows, sm), out) ->
         r ∈ rows ->
         0 < Row.O r ->
         (Z.abs (Row.OT r) < 2 ^ 53 -> Row.O r < 2 ^ 53 ->
          Row.FGS r = (float_of_int (Row.OT r) / float_of_int (Row.O r))%float)
         /\ (2 ^ 53 <= Z.abs (Row.OT r) \/ 2 ^ 53 <= Row.O r ->
             Row.FGS r
             = SF2Prim (SFdiv prec emax (int_SF (Row.OT r)) (int_SF (Row.O r)))
             /\ forall s, SFdiv prec emax (int_SF (Row.OT r)) (int_SF (Row.O r))
                          ≠ S754_infinity s)).
Proof.
  split; [|split].
  - intros R HR self scheme_name services rows sm out svc Hcall Hsvc rs.
    pose proof (returned_service_ok self _ _ _ _ _ svc Hcall Hsvc) as Hok.
    apply Forall_forall. intros r Hr.
    destruct (run_row self _ _ _ Hr)
      as (uc & op & _ & _ & _ & _ & _ & _ & _ & _ & _ & _ & _
          & _ & _ & _ & _ & _ & _ & HO & HFGS & HSO & HSGM).
    split; [exact (row_emitted self _ _ _ _ _ _ _ Hcall Hsvc Hr)|].
    split; [subst rs; now rewrite rows_OT|].
    split.
    { unfold fgs_of in HFGS. destruct (0 <? Row.O r); [exact HFGS|].
      now injection HFGS as <-. }
    split; [exact HSO|].
    rewrite HSGM. apply rows_SGM_Operation.
  - intros self scheme_name services rows sm out svc _ _ rs. split.
    + apply Forall_forall. intros r Hr Hpos.
      destruct (run_row self _ _ _ Hr)
        as (uc & op & _ & _ & _ & _ & _ & _ & _ & _ & _ & _ & _
            & _ & _ & _ & _ & _ & _ & _ & HFGS & _).
      rewrite Qc_fgs_of in HFGS. injection HFGS as <-.
      now replace (0 <? Row.O r) with true by (symmetry; now apply Z.ltb_lt).
    + intros Hw. subst rs. rewrite rows_OT in Hw by apply Qc_service_raised.
      now apply Qc_fgs_total.
  - intros self scheme_name services rows sm out r Hcall Hr Hpos.
    destruct (row_origin self _ _ _ _ _ _ Hcall Hr) as (svc & _ & _ & Hrun).
    destruct (run_row self _ _ _ Hrun)
      as (uc & op & _ & _ & _ & _ & _ & _ & _ & _ & _ & _ & _
          & _ & _ & _ & _ & _ & _ & _ & HFGS & _).
    unfold fgs_of in HFGS.
    replace (0 <? Row.O r) with true in HFGS by (symmetry; now apply Z.ltb_lt).
    cbn [int_div float_PyNum] in HFGS. unfold float_int_div in HFGS.
    destruct (Row.O r =? 0) eqn:H0; [apply Z.eqb_eq in H0; lia|].
    rewrite (Z.abs_eq (Row.O r)) in HFGS by lia.
    split.
    + intros Hot Ho.
      replace (Z.abs (Row.OT r) <? 2 ^ 53) with true in HFGS
        by (symmetry; now apply Z.ltb_lt).
      replace (Row.O r <? 2 ^ 53) with true in HFGS
        by (symmetry; now apply Z.ltb_lt).
      now injection HFGS as <-.
    + intros Hbig.
      replace ((Z.abs (Row.OT r) <? 2 ^ 53) && (Row.O r <? 2 ^ 53)) with false
        in HFGS.
      2:{ symmetry. apply andb_false_iff.
          destruct Hbig as [Hbig|Hbig]; [left|right]; apply Z.ltb_ge; exact Hbig. }
      destruct (SFdiv prec emax (int_SF (Row.OT r)) (int_SF (Row.O r)));
        try discriminate HFGS; injection HFGS as <-; split; try reflexivity;
        intros s0; discriminate.
Qed.

Lemma heavy_float :
  calculate_scheme_metrics (R:=float) Heavy.calc "S" [Scenario.OrderService]
  = (inr (Heavy.rows, Scenario.expected_metrics), []).
Proof. vm_compute. reflexivity. Qed.

(** On the order scenario 4/5 + 1/5 = 1 in exact arithmetic, and in
    binary64 each FGS is the quotient of the two doubles; with the weight
    2^53 + 1 the FGS are the quotients of the ints 2^53 + 1 and 1 by
    2^53 + 2 rounded once, 1 - 2^-53 and 2^-53 - 2^-105. *)
Lemma fgs_shares_witness :
  pysum (map Row.FGS (run_rows (run_service (R:=Qc) (Scenario.calc "S") "S"
                                            Scenario.OrderService))) = 1%Qc
  /\ Forall (fun r : Row.t float =>
               Row.FGS r = (float_of_int (Row.OT r) / float_of_int (Row.O r))%float)
            (Scenario.expected_rows "S")
  /\ Forall (fun r : Row.t float =>
               Row.FGS r
               = SF2Prim (SFdiv prec emax (int_SF (Row.OT r)) (int_SF (Row.O r))))
            Heavy.rows
  /\ map Row.FGS Heavy.rows = [0x1.fffffffffffffp-1; 0x1.ffffffffffffep-54]%float.
Proof.
  split; [|split; [|split; [|reflexivity]]].
  - refine (proj2 (proj1 (proj2 fgs_shares) (Scenario.calc "S") "S"
                     [Scenario.OrderService] _ _ _ Scenario.OrderService
                     scenario_Qc _) _).
    + apply list_elem_of_here.
    + rewrite rows_OT by apply Qc_service_raised. vm_compute. reflexivity.
  - apply Forall_forall. intros r Hr.
    refine (proj1 (proj2 (proj2 fgs_shares) _ _ _ _ _ _ r scenario_float Hr _) _ _);
      apply list_elem_of_In in Hr; simpl in Hr;
      destruct Hr as [<-|[<-|[]]]; cbn; lia.
  - apply Forall_forall. intros r Hr.
    refine (proj1 (proj2 (proj2 (proj2 fgs_shares) _ _ _ _ _ _ r heavy_float Hr _)
                     _));
      apply list_elem_of_In in Hr; simpl in Hr;
      destruct Hr as [<-|[<-|[]]]; cbn; lia.
Defined.

(** C4 (as stated) fails in binary64: ten operations of weight 1 each get
    FGS = 0.1, the double nearest to 1/10; added in emission order these
    give 0.9999999999999999, which is also the SGM on the rows since every
    DGS is 1.0, and added exactly they give 1 + 2^-54. *)
Lemma fgs_sum_not_one :
  exists rows sm,
    calculate_scheme_metrics (R:=float) TenReads.calc "S" [TenReads.Reports]
    = (inr (rows, sm), [])
    /\ Forall (fun r => Row.O r = 10 /\ Row.OT r = 1 /\ Row.FGS r = (1 / 10)%float
                         /\ Row.DGS r = 1%float /\ Row.SGM r ≠ 1%float) rows
    /\ length rows = 10%nat
    /\ pysum (map Row.FGS rows) ≠ 1%float
    /\ ~ (fold_left Qplus (map exact (map Row.FGS rows)) 0 == 1)%Q.
Proof.
  eexists _, _. split; [vm_compute; reflexivity|].
  split.
  { repeat (constructor; [repeat split; try reflexivity; vm_compute; discriminate|]).
    constructor. }
  split; [reflexivity|].
  split.
  - vm_compute. intros Heq. discriminate Heq.
  - vm_compute. intros Heq. discriminate Heq.
Qed.

(** C5 (as amended): on every emitted row, OT is the weight of the row's
    operation (its type looked up in the type map, ["Read"] when absent; the
    weight looked up in the weight table, 1 when absent), and O is the sum of
    these weights over the use cases of the service that have an entry in
    the operations catalogue, which is the sum of OT over the rows of the
    service. *)
Theorem service_weight_known (R : Type) (HR : PyNum R) (self : calculator)
    (scheme_name : string) (services : list service) rows sm out (r : Row.t R) :
  calculate_scheme_metrics self scheme_name services = (inr (rows, sm), out) ->
  r ∈ rows ->
  exists svc,
    svc ∈ services /\ Row.Service r = name svc
    /\ Row.OT r = default 1 (op_weights self
                               !! default "Read"%string
                                    (op_type_map self !! Row.Operation r))
    /\ Row.O r = zsum (map (op_weight self)
                           (filter (fun uc => is_Some (operations self !! uc))
                                   (use_cases svc)))
    /\ Row.O r = zsum (map Row.OT (run_rows (run_service (R:=R) self scheme_name svc))).
Proof.
  intros Hcall Hr.
  destruct (row_origin self _ _ _ _ _ _ Hcall Hr) as (svc & Hsvc & _ & Hrun).
  destruct (run_row self _ _ _ Hrun)
    as (uc & op & _ & _ & _ & Hname & Huc & _ & _ & _ & _ & _ & _
        & _ & _ & _ & _ & _ & HOT & HO & _).
  exists svc. rewrite Huc. repeat split; try assumption.
  now rewrite rows_OT by exact (returned_service_ok self _ _ _ _ _ svc Hcall Hsvc).
Qed.

(** With [CreateOrder] and an unknown name in one service the row has
    O = 4 = OT. *)
Lemma service_weight_known_witness :
  exists svc,
    svc ∈ [Ghost.Orders]
    /\ Row.Service Ghost.row = name svc
    /\ Row.OT Ghost.row
       = default 1 (op_weights Ghost.calc
                      !! default "Read"%string
                           (op_type_map Ghost.calc !! Row.Operation Ghost.row))
    /\ Row.O Ghost.row
       = zsum (map (op_weight Ghost.calc)
                   (filter (fun uc => is_Some (operations Ghost.calc !! uc))
                           (use_cases svc)))
    /\ Row.O Ghost.row
       = zsum (map Row.OT (run_rows (run_service (R:=float) Ghost.calc "S" svc))).
Proof.
  refine (service_weight_known float _ Ghost.calc "S" [Ghost.Orders]
            [Ghost.row] _ _ Ghost.row _ _).
  - vm_compute. reflexivity.
  - apply list_elem_of_here.
Defined.

(** C5 (as stated) fails: the unknown use case is skipped before its weight
    is added, so the row carries O = 4, while the weights of all use cases
    of the list, the unmapped one counting as a Read, add up to 5. *)
Lemma service_weight_skips_unknown :
  exists rows sm out,
    calculate_scheme_metrics (R:=float) Ghost.calc "S" [Ghost.Orders]
    = (inr (rows, sm), out)
    /\ rows = [Ghost.row]
    /\ zsum (map (op_weight Ghost.calc) (use_cases Ghost.Orders)) = 5
    /\ Forall (fun r => Row.O r = 4) rows
    /\ exists r, r ∈ rows
                 /\ Row.O r ≠ zsum (map (op_weight Ghost.calc) (use_cases Ghost.Orders)).
Proof.
  eexists _, _, _. split; [vm_compute; reflexivity|].
  split; [reflexivity|]. split; [reflexivity|]. split; [repeat constructor|].
  eexists. split; [apply list_elem_of_here|]. vm_compute. discriminate.
Qed.

(** ** Scheme totals *)

Lemma Qc_sum_skipped (f : service -> Qc) (services : list service) (acc : Qc) :
  fold_left Qcplus
    (map (fun svc => if decide (use_cases svc = []) then 0%Qc else f svc) services) acc
  = fold_left Qcplus (map f (processed services)) acc.
Proof.
  revert acc. induction services as [|svc services IH]; intros acc; [done|].
  unfold processed. cbn [map fold_left].
  destruct (decide (use_cases svc = [])) as [Hu|Hu].
  - rewrite filter_cons_False by (intros Hn; now apply Hn).
    rewrite IH. f_equal. ring.
  - rewrite filter_cons_True by exact Hu. cbn [map fold_left]. apply IH.
Qed.

Lemma run_noo_len {R} `{PyNum R} (self : calculator) (scheme_name : string)
    (svc : service) :
  run_noo (run_service (R:=R) self scheme_name svc) = len (use_cases svc).
Proof. rewrite run_service_eq. now destruct (service_raised self (use_cases svc)). Qed.

Lemma fold_max_ge_acc (l : list Z) (acc : Z) : acc <= fold_left Z.max l acc.
Proof.
  revert acc. induction l as [|x l IH]; intros acc; simpl; [lia|].
  specialize (IH (Z.max acc x)). lia.
Qed.

Lemma fold_max_ge (l : list Z) (acc x : Z) : x ∈ l -> x <= fold_left Z.max l acc.
Proof.
  revert acc. induction l as [|y l IH]; intros acc Hx.
  - now apply elem_of_nil in Hx.
  - apply elem_of_cons in Hx as [->|Hx]; simpl.
    + pose proof (fold_max_ge_acc l (Z.max acc y)). lia.
    + now apply IH.
Qed.

Lemma fold_max_in (l : list Z) (acc : Z) :
  fold_left Z.max l acc = acc \/ fold_left Z.max l acc ∈ l.
Proof.
  revert acc. induction l as [|y l IH]; intros acc; simpl; [now left|].
  destruct (IH (Z.max acc y)) as [Heq|Hin].
  - rewrite Heq. destruct (Z.max_spec acc y) as [[_ ->]|[_ ->]].
    + right. apply list_elem_of_here.
    + now left.
  - right. now apply list_elem_of_further.
Qed.

(** In exact arithmetic every scheme with services returns; in binary64 it
    does when the weights of its use cases and of its services are below
    2^53. *)
Lemma Qc_scheme_returns (self : calculator) (scheme_name : string)
    (services : list service) :
  services ≠ [] ->
  exists rows sm out,
    calculate_scheme_metrics (R:=Qc) self scheme_name services = (inr (rows, sm), out).
Proof.
  intros Hne. eexists _, _, _.
  apply calculate_scheme_metrics_eq; [exact Hne|apply Qc_scheme_raised].
Qed.

Lemma float_scheme_raised (self : calculator) (services : list service) :
  (forall svc uc, svc ∈ services -> uc ∈ use_cases svc ->
                  Z.abs (op_weight self uc) < 2 ^ 53) ->
  (forall svc, svc ∈ services -> service_weight_of self (use_cases svc) < 2 ^ 53) ->
  scheme_raised (R:=float) self services = None.
Proof.
  intros Hot Hw. unfold scheme_raised. apply head_omap_None, Forall_forall.
  intros svc Hsvc. unfold service_raised. apply head_omap_None, Forall_forall.
  intros uc Huc. apply float_fgs_raised; [|now apply Hw].
  apply (Hot svc uc Hsvc). unfold known in Huc.
  now apply list_elem_of_filter in Huc as [_ Huc].
Qed.

Lemma float_scheme_returns (self : calculator) (scheme_name : string)
    (services : list service) :
  services ≠ [] ->
  (forall svc uc, svc ∈ services -> uc ∈ use_cases svc ->
                  Z.abs (op_weight self uc) < 2 ^ 53) ->
  (forall svc, svc ∈ services -> service_weight_of self (use_cases svc) < 2 ^ 53) ->
  exists rows sm out,
    calculate_scheme_metrics (R:=float) self scheme_name services
    = (inr (rows, sm), out).
Proof.
  intros Hne Hot Hw. eexists _, _, _.
  apply calculate_scheme_metrics_eq; [exact Hne|now apply float_scheme_raised].
Qed.

(** C6: when a scheme returns, it has at least one service, and its ALCOM
    and ASGM are the sums, from 0 and in service order, of the LCOM and SGM
    of the services that have use cases (the values their rows carry),
    divided by the number of all declared services, in any arithmetic; in
    exact arithmetic this is the sum over all services, a skipped one
    counting 0, over their number.  A scheme with at least one service
    returns in exact arithmetic, and in binary64 when the weights of its use
    cases and of its services are below 2^53. *)
Theorem scheme_averages :
  (forall (R : Type) (HR : PyNum R) (self : calculator) (scheme_name : string)
          (services : list service) rows sm out,
      calculate_scheme_metrics (R:=R) self scheme_name services
      = (inr (rows, sm), out) ->
      let ran := map (run_service self scheme_name)
                     (filter (fun svc => use_cases svc ≠ []) services) in
      0 < len services
      /\ SchemeMetrics.ALCOM sm
         = (pysum (map run_lcom ran) / of_int (len services))%num
      /\ SchemeMetrics.ASGM sm
         = (pysum (map run_sgm ran) / of_int (len services))%num
      /\ Forall (fun run =>
                   Forall (fun r => r ∈ rows /\ Row.LCOM r = run_lcom run
                                    /\ Row.SGM r = run_sgm run)
                          (run_rows run)) ran)
  /\ (forall (self : calculator) (scheme_name : string) (services : list service)
             rows sm out,
         calculate_scheme_metrics (R:=Qc) self scheme_name services
         = (inr (rows, sm), out) ->
         SchemeMetrics.ALCOM sm
         = (pysum (map (fun svc =>
                          if decide (use_cases svc = []) then 0
                          else run_lcom (run_service self scheme_name svc))
                       services)
            / of_int (len services))%Qc
         /\ SchemeMetrics.ASGM sm
            = (pysum (map (fun svc =>
                             if decide (use_cases svc = []) then 0
                             else run_sgm (run_service self scheme_name svc))
                          services)
               / of_int (len services))%Qc)
  /\ (forall (self : calculator) (scheme_name : string) (services : list service),
         services ≠ [] ->
         (exists rows sm out,
             calculate_scheme_metrics (R:=Qc) self scheme_name services
             = (inr (rows, sm), out))
         /\ ((forall svc uc, svc ∈ services -> uc ∈ use_cases svc ->
                             Z.abs (op_weight self uc) < 2 ^ 53) ->
             (forall svc, svc ∈ services ->
                          service_weight_of self (use_cases svc) < 2 ^ 53) ->
             exists rows sm out,
               calculate_scheme_metrics (R:=float) self scheme_name services
               = (inr (rows, sm), out))).
Proof.
  split; [|split].
  - intros R HR self scheme_name services rows sm out Hcall ran.
    pose proof (calculate_scheme_metrics_inv self _ _ _ _ _ Hcall)
      as (Hne & Hrows & Hsm & _).
    split; [apply Z.ltb_lt; now apply len_pos|].
    split; [now rewrite Hsm|]. split; [now rewrite Hsm|].
    apply Forall_forall. intros run Hrun. apply Forall_forall. intros r Hr.
    subst ran. apply list_elem_of_fmap in Hrun as (svc & -> & Hsvc).
    apply list_elem_of_filter in Hsvc as [_ Hsvc].
    destruct (run_row self _ _ _ Hr)
      as (uc & op & _ & _ & _ & _ & _ & _ & _ & _ & _ & _ & HL & _ & _ & _ & _
          & _ & _ & _ & _ & _ & HS).
    split; [exact (row_emitted self _ _ _ _ _ _ _ Hcall Hsvc Hr)|].
    now split.
  - intros self scheme_name services rows sm out Hcall.
    pose proof (calculate_scheme_metrics_inv self _ _ _ _ _ Hcall)
      as (_ & _ & -> & _).
    cbn [SchemeMetrics.ALCOM SchemeMetrics.ASGM]. unfold pysum, runs.
    cbn [num_add num_div Qc_PyNum].
    rewrite (Qc_sum_skipped (fun svc => run_lcom (run_service self scheme_name svc))).
    rewrite (Qc_sum_skipped (fun svc => run_sgm (run_service self scheme_name svc))).
    rewrite !map_map. split; reflexivity.
  - intros self scheme_name services Hne.
    split; [now apply Qc_scheme_returns|]. now apply float_scheme_returns.
Qed.

(** The order scenario next to a service without use cases returns, in
    exact arithmetic and, the weights being at most 5, in binary64; the
    sums are those of the order service alone, divided by 2. *)
Lemma scheme_averages_witness :
  (exists rows sm out,
     calculate_scheme_metrics (R:=Qc) (Scenario.calc "S") "S"
       [Scenario.OrderService; {| name := "Idle"; use_cases := [] |}]
     = (inr (rows, sm), out)
     /\ SchemeMetrics.ALCOM sm
        = (pysum (map (fun svc =>
                         if decide (use_cases svc = []) then 0
                         else run_lcom (run_service (Scenario.calc "S") "S" svc))
                      [Scenario.OrderService; {| name := "Idle"; use_cases := [] |}])
           / of_int (len [Scenario.OrderService; {| name := "Idle"; use_cases := [] |}]))%Qc
     /\ SchemeMetrics.ASGM sm
        = (pysum (map (fun svc =>
                         if decide (use_cases svc = []) then 0
                         else run_sgm (run_service (Scenario.calc "S") "S" svc))
                      [Scenario.OrderService; {| name := "Idle"; use_cases := [] |}])
           / of_int (len [Scenario.OrderService; {| name := "Idle"; use_cases := [] |}]))%Qc)
  /\ (exists rows sm out,
        calculate_scheme_metrics (R:=float) (Scenario.calc "S") "S"
          [Scenario.OrderService; {| name := "Idle"; use_cases := [] |}]
        = (inr (rows, sm), out)
        /\ SchemeMetrics.ASGM sm
           = (pysum [run_sgm (run_service (Scenario.calc "S") "S"
                                Scenario.OrderService)]
              / of_int 2)%num).
Proof.
  destruct (proj2 (proj2 scheme_averages) (Scenario.calc "S") "S"
              [Scenario.OrderService; {| name := "Idle"; use_cases := [] |}])
    as [(rows & sm & out & Hcall) Hfloat]; [discriminate|].
  split.
  - exists rows, sm, out. split; [exact Hcall|].
    exact (proj1 (proj2 scheme_averages) _ _ _ _ _ _ Hcall).
  - destruct Hfloat as (frows & fsm & fout & Hfcall).
    + intros svc uc Hsvc Huc.
      apply list_elem_of_In in Hsvc. simpl in Hsvc.
      destruct Hsvc as [<-|[<-|[]]]; apply list_elem_of_In in Huc; simpl in Huc;
        [|destruct Huc]. destruct Huc as [<-|[<-|[]]]; vm_compute; reflexivity.
    + intros svc Hsvc. apply list_elem_of_In in Hsvc. simpl in Hsvc.
      destruct Hsvc as [<-|[<-|[]]]; vm_compute; reflexivity.
    + exists frows, fsm, fout. split; [exact Hfcall|].
      exact (proj1 (proj2 (proj2 (proj1 scheme_averages float _ _ _ _ _ _ _
                                    Hfcall)))).
Defined.

(** No service of a scheme has more use cases than Max_NOO. *)
Lemma max_noo_upper {R} `{PyNum R} (self : calculator) (scheme_name : string)
    (services : list service) rows sm out (svc : service) :
  calculate_scheme_metrics (R:=R) self scheme_name services = (inr (rows, sm), out) ->
  svc ∈ services -> len (use_cases svc) <= SchemeMetrics.Max_NOO sm.
Proof.
  intros Hcall Hsvc.
  pose proof (calculate_scheme_metrics_inv self _ _ _ _ _ Hcall)
    as (Hne & _ & -> & _).
  cbn [SchemeMetrics.Max_NOO]. unfold runs. rewrite map_map.
  rewrite (map_ext _ (fun svc => len (use_cases svc)))
    by (intros svc'; apply run_noo_len).
  destruct (decide (use_cases svc = [])) as [Hu|Hu].
  - rewrite Hu. apply fold_max_ge_acc.
  - apply fold_max_ge. apply list_elem_of_fmap.
    exists svc. split; [done|]. unfold processed.
    apply list_elem_of_filter. now split.
Qed.

(** C7: when a scheme returns, its Max_NOO is the largest length of a
    use-case list among its services: no service has a longer list, and
    some service has a list of exactly that length (so Max_NOO is 0 when all
    lists are empty); unknown names count like any other. *)
Theorem max_noo (R : Type) (HR : PyNum R) (self : calculator)
    (scheme_name : string) (services : list service) rows sm out :
  calculate_scheme_metrics (R:=R) self scheme_name services = (inr (rows, sm), out) ->
  (forall svc, svc ∈ services -> len (use_cases svc) <= SchemeMetrics.Max_NOO sm)
  /\ (exists svc, svc ∈ services /\ SchemeMetrics.Max_NOO sm = len (use_cases svc))
  /\ (Forall (fun svc => use_cases svc = []) services -> SchemeMetrics.Max_NOO sm = 0).
Proof.
  intros Hcall.
  pose proof (calculate_scheme_metrics_inv self _ _ _ _ _ Hcall)
    as (Hne & _ & Hsm & _).
  match goal with |- ?ub /\ ?attained /\ _ => cut (ub /\ attained) end.
  { intros [Hub (svc & Hsvc & Hmax)]. split; [exact Hub|].
    split; [now exists svc|]. intros Hall.
    rewrite Hmax. rewrite Forall_forall in Hall. now rewrite (Hall svc Hsvc). }
  split; [intros svc Hsvc; exact (max_noo_upper self _ _ _ _ _ svc Hcall Hsvc)|].
  rewrite Hsm. cbn [SchemeMetrics.Max_NOO]. unfold runs. rewrite map_map.
  rewrite (map_ext _ (fun svc => len (use_cases svc)))
    by (intros svc; apply run_noo_len).
  set (noos := map (fun svc => len (use_cases svc)) (processed services)).
  destruct (fold_max_in noos 0) as [Heq|Hin].
  - destruct (processed services) as [|svc0 rest] eqn:Hp.
    + destruct services as [|svc services]; [done|].
      exists svc. split; [apply list_elem_of_here|].
      destruct (decide (use_cases svc = [])) as [Hu|Hu]; [now rewrite Hu|].
      unfold processed in Hp. rewrite filter_cons_True in Hp by exact Hu.
      discriminate.
    + exfalso.
      assert (Hsvc0 : svc0 ∈ processed services)
        by (rewrite Hp; apply list_elem_of_here).
      unfold processed in Hsvc0. apply list_elem_of_filter in Hsvc0 as [Hu _].
      assert (Hge : len (use_cases svc0) <= fold_left Z.max noos 0).
      { apply fold_max_ge. subst noos. simpl. apply list_elem_of_here. }
      rewrite Heq in Hge. unfold len in Hge.
      destruct (use_cases svc0); [done|]. simpl in Hge. lia.
  - subst noos. apply list_elem_of_fmap in Hin as (svc & Heq & Hsvc).
    unfold processed in Hsvc. apply list_elem_of_filter in Hsvc as [_ Hsvc].
    exists svc. now split.
Qed.

Lemma strangers_float :
  exists rows sm out,
    calculate_scheme_metrics (R:=float) Strangers.calc "S"
      [Scenario.OrderService; Strangers.Lost]
    = (inr (rows, sm), out)
    /\ SchemeMetrics.ASGM sm = 0.5%float
    /\ SchemeMetrics.Max_NOO sm = 3.
Proof. eexists _, _, _. split; [vm_compute; reflexivity|]. now split. Qed.

(** The scheme of the order service and the unknown-only service returns,
    and its Max_NOO is 3, the length of the longer list. *)
Lemma max_noo_witness :
  exists rows sm out,
    calculate_scheme_metrics (R:=float) Strangers.calc "S"
      [Scenario.OrderService; Strangers.Lost]
    = (inr (rows, sm), out)
    /\ SchemeMetrics.Max_NOO sm = 3
    /\ (forall svc, svc ∈ [Scenario.OrderService; Strangers.Lost] ->
                    len (use_cases svc) <= SchemeMetrics.Max_NOO sm)
    /\ (exists svc, svc ∈ [Scenario.OrderService; Strangers.Lost]
                    /\ SchemeMetrics.Max_NOO sm = len (use_cases svc))
    /\ (Forall (fun svc => use_cases svc = [])
               [Scenario.OrderService; Strangers.Lost] ->
        SchemeMetrics.Max_NOO sm = 0).
Proof.
  destruct strangers_float as (rows & sm & out & Hcall & _ & Hmax).
  exists rows, sm, out. split; [exact Hcall|]. split; [exact Hmax|].
  exact (max_noo float _ Strangers.calc "S" _ rows sm out Hcall).
Defined.

(** ** The batch *)

Section BatchFacts.
Context {R : Type} `{PyNum R}.
Variable self : calculator.

Lemma schemes_fold (items : list (string * list service)) (st : batch_state) :
  fold_left (process_scheme self) items st
  = {| all_results := all_results st ++ flat_map (returned_rows self) items;
       scheme_summary := scheme_summary st ++ flat_map (returned_summary self) items;
       batch_log := batch_log st ++ flat_map (scheme_output self) items |}.
Proof.
  revert st. induction items as [|[scheme_name services] items IH]; intros st.
  - simpl. rewrite !app_nil_r. now destruct st.
  - cbn [fold_left flat_map]. rewrite IH. clear IH.
    unfold process_scheme, returned_rows, returned_summary, scheme_output, error_line.
    cbn [fst snd].
    destruct (calculate_scheme_metrics self scheme_name services)
      as [[e|[scheme_results scheme_metrics]] out]; cbn.
    + rewrite <- !app_assoc. reflexivity.
    + rewrite <- !app_assoc. reflexivity.
Qed.

Lemma calculate_metrics_eq :
  schemes self ≠ [] ->
  calculate_metrics self
  = (flat_map (returned_rows self) (schemes self),
     flat_map (returned_summary self) (schemes self),
     flat_map (scheme_output self) (schemes self)).
Proof.
  intros Hne. unfold calculate_metrics.
  destruct (schemes self) as [|item items] eqn:Hs; [done|].
  rewrite schemes_fold. reflexivity.
Qed.

End BatchFacts.

Lemma fgs_raised_None {R} `{PyNum R} (ot w : Z) :
  fgs_raised (R:=R) ot w = None
  <-> (0 < w -> exists fgs : R, int_div ot w = inr fgs).
Proof.
  unfold fgs_raised, fgs_of. destruct (0 <? w) eqn:Hw.
  - apply Z.ltb_lt in Hw. destruct (int_div ot w) as [e|fgs]; split.
    + discriminate.
    + intros Hdiv. now destruct (Hdiv Hw).
    + intros _ _. now exists fgs.
    + reflexivity.
  - apply Z.ltb_ge in Hw. split; [intros _ Hpos; lia|reflexivity].
Qed.

(** A scheme with services returns exactly when none of the FGS quotients of
    its known use cases raises. *)
Lemma scheme_returns_iff {R} `{PyNum R} (self : calculator) (scheme_name : string)
    (services : list service) :
  services ≠ [] ->
  (exists rows sm out,
      calculate_scheme_metrics (R:=R) self scheme_name services
      = (inr (rows, sm), out))
  <-> Forall (fun svc =>
                Forall (fun uc =>
                          0 < service_weight_of self (use_cases svc) ->
                          exists fgs : R,
                            int_div (op_weight self uc)
                                    (service_weight_of self (use_cases svc))
                            = inr fgs)
                       (known self (use_cases svc))) services.
Proof.
  intros Hne.
  assert (Hiff : scheme_raised (R:=R) self services = None
                 <-> Forall (fun svc =>
                       Forall (fun uc =>
                                 0 < service_weight_of self (use_cases svc) ->
                                 exists fgs : R,
                                   int_div (op_weight self uc)
                                           (service_weight_of self (use_cases svc))
                                   = inr fgs)
                              (known self (use_cases svc))) services).
  { unfold scheme_raised. rewrite head_omap_None. apply Forall_iff. intros svc.
    unfold service_raised. rewrite head_omap_None. apply Forall_iff. intros uc.
    apply fgs_raised_None. }
  rewrite <- Hiff. split.
  - intros (rows & sm & out & Hcall). exact (returned_not_raised self _ _ _ _ _ Hcall).
  - intros Hok. eexists _, _, _. now apply calculate_scheme_metrics_eq.
Qed.

(** C8: [calculate_scheme_metrics] on an empty service list raises the
    ValueError and returns nothing.  A scheme whose call returned adds its
    rows and one summary row; a scheme whose call raised, whatever the
    exception, adds to neither and has its error line printed, and the
    schemes before and after it are processed all the same:
    [calculate_metrics] returns, in scheme order, the rows and the summary
    rows of the calls that returned.  A scheme with services returns
    exactly when none of the quotients OT / service_weight of its known use
    cases raises.  With no schemes at all both collections are empty. *)
Theorem batch_isolation (R : Type) (HR : PyNum R) (self : calculator) :
  (forall scheme_name,
      calculate_scheme_metrics (R:=R) self scheme_name []
      = (inl (ValueError "No services defined for this scheme"), [])
      /\ returned_rows (R:=R) self (scheme_name, []) = []
      /\ returned_summary (R:=R) self (scheme_name, []) = [])
  /\ (forall scheme_name services rows sm out,
        calculate_scheme_metrics (R:=R) self scheme_name services
        = (inr (rows, sm), out) ->
        returned_rows self (scheme_name, services) = rows
        /\ returned_summary self (scheme_name, services)
           = [Summary.mk scheme_name (SchemeMetrics.ALCOM sm)
                         (SchemeMetrics.ASGM sm) (SchemeMetrics.Max_NOO sm)])
  /\ (forall scheme_name services e out,
        calculate_scheme_metrics (R:=R) self scheme_name services = (inl e, out) ->
        returned_rows (R:=R) self (scheme_name, services) = []
        /\ returned_summary (R:=R) self (scheme_name, services) = []
        /\ ((scheme_name, services) ∈ schemes self ->
            error_line scheme_name e ∈ (calculate_metrics (R:=R) self).2))
  /\ (forall scheme_name services,
        services ≠ [] ->
        (exists rows sm out,
            calculate_scheme_metrics (R:=R) self scheme_name services
            = (inr (rows, sm), out))
        <-> Forall (fun svc =>
                      Forall (fun uc =>
                                0 < service_weight_of self (use_cases svc) ->
                                exists fgs : R,
                                  int_div (op_weight self uc)
                                          (service_weight_of self (use_cases svc))
                                  = inr fgs)
                             (known self (use_cases svc))) services)
  /\ (calculate_metrics (R:=R) self).1.1 = flat_map (returned_rows self) (schemes self)
  /\ (calculate_metrics (R:=R) self).1.2 = flat_map (returned_summary self) (schemes self)
  /\ (schemes self = [] ->
        (calculate_metrics (R:=R) self).1.1 = []
        /\ (calculate_metrics (R:=R) self).1.2 = []).
Proof.
  split; [|split; [|split; [|split; [|split; [|split]]]]].
  - intros scheme_name. repeat split.
  - intros scheme_name services rows sm out Hcall.
    unfold returned_rows, returned_summary. cbn [fst snd].
    now rewrite Hcall.
  - intros scheme_name services e out Hcall.
    unfold returned_rows, returned_summary. cbn [fst snd]. rewrite Hcall.
    split; [reflexivity|]. split; [reflexivity|]. intros Hin.
    rewrite calculate_metrics_eq
      by (intros Hs; rewrite Hs in Hin; now apply elem_of_nil in Hin).
    cbn [snd]. apply list_elem_of_In, in_flat_map.
    exists (scheme_name, services). split; [now apply list_elem_of_In|].
    unfold scheme_output. cbn [fst snd]. rewrite Hcall. right.
    apply in_or_app. right. now left.
  - intros scheme_name services Hne. now apply scheme_returns_iff.
  - destruct (schemes self) as [|item items] eqn:Hs.
    + unfold calculate_metrics. now rewrite Hs.
    + rewrite calculate_metrics_eq by now rewrite Hs. now rewrite Hs.
  - destruct (schemes self) as [|item items] eqn:Hs.
    + unfold calculate_metrics. now rewrite Hs.
    + rewrite calculate_metrics_eq by now rewrite Hs. now rewrite Hs.
  - intros Hs. unfold calculate_metrics. now rewrite Hs.
Qed.

Lemma huge_float :
  calculate_scheme_metrics (R:=float) Huge.calc "S" [Scenario.OrderService]
  = (inl (OverflowError "integer division result too large for a float"), [])
  /\ exists rows sm,
       calculate_scheme_metrics (R:=float) Huge.calc "T" [Huge.Reader]
       = (inr (rows, sm), [])
       /\ length rows = 1%nat.
Proof.
  split; [vm_compute; reflexivity|].
  eexists _, _. split; [vm_compute; reflexivity|reflexivity].
Qed.

(** In the mixed batch only the second scheme yields rows and a summary
    row, and the first one's error line is printed.  With the weights
    2^1024 and 1 - 2^1024 the scheme of the order service raises
    OverflowError, adds nothing and has its error line printed, and the
    scheme after it yields its row and its summary row. *)
Lemma batch_isolation_witness :
  ((calculate_metrics (R:=float) Mixed.calc).1.1 = Scenario.expected_rows "S"
   /\ (calculate_metrics (R:=float) Mixed.calc).1.2
      = [Summary.mk "S" 0%float 1%float 2]
   /\ "Error processing scheme Empty: No services defined for this scheme"%string
      ∈ (calculate_metrics (R:=float) Mixed.calc).2)
  /\ (returned_rows (R:=float) Huge.calc ("S"%string, [Scenario.OrderService]) = []
      /\ returned_summary (R:=float) Huge.calc ("S"%string, [Scenario.OrderService]) = []
      /\ "Error processing scheme S: integer division result too large for a float"%string
         ∈ (calculate_metrics (R:=float) Huge.calc).2
      /\ length (calculate_metrics (R:=float) Huge.calc).1.1 = 1%nat
      /\ map Summary.Scheme (calculate_metrics (R:=float) Huge.calc).1.2
         = ["T"%string]).
Proof.
  split.
  - destruct (batch_isolation float _ Mixed.calc)
      as (Hempty & _ & Hraise & _ & Hrows & Hsummary & _).
    split; [rewrite Hrows; vm_compute; reflexivity|].
    split; [rewrite Hsummary; vm_compute; reflexivity|].
    destruct (Hraise "Empty"%string [] _ _ (proj1 (Hempty "Empty"%string)))
      as (_ & _ & Herr).
    apply Herr. apply list_elem_of_here.
  - destruct (batch_isolation float _ Huge.calc)
      as (_ & Hreturn & Hraise & _ & Hrows & Hsummary & _).
    destruct huge_float as (HS & rows & sm & HT & Hlen).
    destruct (Hraise "S"%string _ _ _ HS) as (Hr & Hs & Herr).
    destruct (Hreturn "T"%string _ _ _ _ HT) as (Hr' & Hs').
    split; [exact Hr|]. split; [exact Hs|].
    split; [apply Herr, list_elem_of_here|].
    rewrite Hrows, Hsummary.
    change (schemes Huge.calc)
      with [("S"%string, [Scenario.OrderService]); ("T"%string, [Huge.Reader])].
    cbn [flat_map]. rewrite Hr, Hs, Hr', Hs', !app_nil_r. cbn [app].
    split; [exact Hlen|reflexivity].
Defined.

(** ** Calls on an instance *)

(** *** Running statements *)

Section Runs.
Context {R : Type} `{PyNum R}.
Implicit Types (w : world R) (h : list (object R)) (r : ref).

Lemma bind_inr {A B} (c : prog R A) (k : A -> prog R B) w a w1 :
  c w = (inr a, w1) -> bind c k w = k a w1.
Proof. intros Hc. unfold bind. now rewrite Hc. Qed.

Lemma bind_inl {A B} (c : prog R A) (k : A -> prog R B) w e w1 :
  c w = (inl e, w1) -> bind c k w = (inl e, w1).
Proof. intros Hc. unfold bind. now rewrite Hc. Qed.

Lemma get_run r w o : heap w !! r = Some o -> get r w = (inr o, w).
Proof. intros Hr. unfold get. now rewrite Hr. Qed.

Lemma get_dict_run r w items :
  heap w !! r = Some (PyDict items) -> get_dict r w = (inr items, w).
Proof. intros Hr. unfold get_dict. now rewrite (bind_inr _ _ _ _ _ (get_run _ _ _ Hr)). Qed.

Lemma get_strs_run r w items :
  heap w !! r = Some (StrList items) -> get_strs r w = (inr items, w).
Proof. intros Hr. unfold get_strs. now rewrite (bind_inr _ _ _ _ _ (get_run _ _ _ Hr)). Qed.

Lemma get_list_run r w items :
  heap w !! r = Some (PyList items) -> get_list r w = (inr items, w).
Proof. intros Hr. unfold get_list. now rewrite (bind_inr _ _ _ _ _ (get_run _ _ _ Hr)). Qed.

Lemma get_set_run r w s :
  heap w !! r = Some (PySet s) -> get_set r w = (inr s, w).
Proof. intros Hr. unfold get_set. now rewrite (bind_inr _ _ _ _ _ (get_run _ _ _ Hr)). Qed.

Lemma get_counts_run r w m :
  heap w !! r = Some (IntDict m) -> get_counts r w = (inr m, w).
Proof. intros Hr. unfold get_counts. now rewrite (bind_inr _ _ _ _ _ (get_run _ _ _ Hr)). Qed.

Lemma get_metrics_run r w m :
  heap w !! r = Some (MetricsEntry m) -> get_metrics r w = (inr m, w).
Proof. intros Hr. unfold get_metrics. now rewrite (bind_inr _ _ _ _ _ (get_run _ _ _ Hr)). Qed.

Lemma get_detail_run r w d fgs sgm_operation :
  heap w !! r = Some (DetailEntry d fgs sgm_operation) ->
  get_detail r w = (inr (d, fgs, sgm_operation), w).
Proof. intros Hr. unfold get_detail. now rewrite (bind_inr _ _ _ _ _ (get_run _ _ _ Hr)). Qed.

Lemma list_append_run l x w items :
  heap w !! l = Some (PyList items) ->
  list_append l x w
  = (inr tt, {| heap := <[l := PyList (items ++ [x])]> (heap w); stdout := stdout w |}).
Proof.
  intros Hl. unfold list_append.
  now rewrite (bind_inr _ _ _ _ _ (get_list_run _ _ _ Hl)).
Qed.

Lemma list_extend_run l xs w items :
  heap w !! l = Some (PyList items) ->
  list_extend l xs w
  = (inr tt, {| heap := <[l := PyList (items ++ xs)]> (heap w); stdout := stdout w |}).
Proof.
  intros Hl. unfold list_extend.
  now rewrite (bind_inr _ _ _ _ _ (get_list_run _ _ _ Hl)).
Qed.

Lemma set_add_run s x w elements :
  heap w !! s = Some (PySet elements) ->
  set_add s x w
  = (inr tt, {| heap := <[s := PySet (elements ∪ {[x]})]> (heap w); stdout := stdout w |}).
Proof.
  intros Hs. unfold set_add.
  now rewrite (bind_inr _ _ _ _ _ (get_set_run _ _ _ Hs)).
Qed.

Lemma count_incr_run c k w counts :
  heap w !! c = Some (IntDict counts) ->
  count_incr c k w
  = (inr tt, {| heap := <[c := IntDict (incr k counts)]> (heap w); stdout := stdout w |}).
Proof.
  intros Hc. unfold count_incr.
  now rewrite (bind_inr _ _ _ _ _ (get_counts_run _ _ _ Hc)).
Qed.

(** *** What a statement leaves as it was *)


Lemma frame_refl fp h : frame fp h h.
Proof. split; [lia|auto]. Qed.

Lemma frame_new fp h o : frame fp h (h ++ [o]).
Proof.
  split; [rewrite length_app; lia|].
  intros r o' Hr _. now apply lookup_app_l_Some.
Qed.

Lemma frame_put fp h r o : r ∈ fp -> frame fp h (<[r := o]> h).
Proof.
  intros Hin. split; [rewrite length_insert; lia|].
  intros r' o' Hr Hnot. rewrite list_lookup_insert_ne; [exact Hr|].
  intros ->. now apply Hnot.
Qed.

(** A later statement may also change what was allocated since [h]. *)
Lemma frame_step fp fp' h h1 h2 :
  frame fp h h1 -> frame fp' h1 h2 ->
  (forall r, r ∈ fp' -> r ∈ fp \/ (length h <= r)%nat) ->
  frame fp h h2.
Proof.
  intros [Hlen1 Hkeep1] [Hlen2 Hkeep2] Hfp. split; [lia|].
  intros r o Hr Hnot. apply Hkeep2; [now apply Hkeep1|].
  intros Hin. destruct (Hfp r Hin) as [Hold|Hnew]; [now apply Hnot|].
  apply lookup_lt_Some in Hr. lia.
Qed.

Lemma frame_weaken fp fp' h h' :
  frame fp h h' -> (forall r, r ∈ fp -> r ∈ fp') -> frame fp' h h'.
Proof.
  intros [Hlen Hkeep] Hsub. split; [exact Hlen|].
  intros r o Hr Hnot. apply Hkeep; [exact Hr|]. intros Hin. now apply Hnot, Hsub.
Qed.

Lemma frame_lookup fp h h' r o :
  frame fp h h' -> h !! r = Some o -> r ∉ fp -> h' !! r = Some o.
Proof. intros [_ Hkeep]. apply Hkeep. Qed.

Lemma frame_length fp h h' : frame fp h h' -> (length h <= length h')%nat.
Proof. now intros [? _]. Qed.

End Runs.

(** *** Reading the instance *)

Section Reading.
Context {R : Type} `{PyNum R}.
Implicit Types (w : world R) (h : list (object R)) (r : ref).

Lemma dict_at_items {A} h (value_at : ref -> option A) r l :
  dict_at h value_at r = Some l ->
  exists items,
    h !! r = Some (PyDict items)
    /\ Forall2 (fun item kv => item.1 = kv.1 /\ value_at item.2 = Some kv.2) items l.
Proof.
  unfold dict_at. intros Hl. destruct (h !! r) as [[]|]; try discriminate Hl.
  eexists. split; [reflexivity|].
  apply mapM_Some_1 in Hl. eapply Forall2_impl; [exact Hl|].
  intros item kv. cbn beta. destruct (value_at item.2); [|discriminate].
  intros [= <-]. now split.
Qed.

Lemma assoc_items {A} (value_at : ref -> option A) items l k :
  Forall2 (fun item kv => item.1 = kv.1 /\ value_at item.2 = Some kv.2) items l ->
  match assoc k items with
  | None => (list_to_map l : gmap string A) !! k = None
  | Some r => exists a, value_at r = Some a
                        /\ (list_to_map l : gmap string A) !! k = Some a
  end.
Proof.
  induction 1 as [|[k' r] [k'' a] items l [Hk Hv] _ IH]; [apply lookup_empty|].
  cbn in Hk, Hv. subst k''. cbn [assoc list_to_map foldr].
  destruct (decide (k' = k)) as [->|Hne].
  - exists a. split; [exact Hv|]. apply lookup_insert_eq.
  - rewrite lookup_insert_ne by exact Hne. exact IH.
Qed.

Lemma strs_at_entry h r items :
  strs_at h r = Some items -> h !! r = Some (StrList items).
Proof.
  unfold strs_at. intros Hl. destruct (h !! r) as [[]|]; try discriminate Hl.
  now injection Hl as ->.
Qed.

Lemma operation_at_entry h r op :
  operation_at h r = Some op ->
  exists rd wr,
    h !! r = Some (OperationEntry rd wr)
    /\ h !! rd = Some (StrList (read op)) /\ h !! wr = Some (StrList (write op)).
Proof.
  unfold operation_at. intros Hl.
  destruct (h !! r) as [[| | | | | | |rd wr| | | | | |]|]; try discriminate Hl.
  destruct (strs_at h rd) as [reads|] eqn:Hrd; [|discriminate Hl].
  destruct (strs_at h wr) as [writes|] eqn:Hwr; [|discriminate Hl].
  injection Hl as <-. eexists _, _. split; [reflexivity|].
  split; now apply strs_at_entry.
Qed.

Lemma service_at_entry h r svc :
  service_at h r = Some svc ->
  exists ucs,
    h !! r = Some (ServiceEntry (name svc) ucs)
    /\ h !! ucs = Some (StrList (use_cases svc)).
Proof.
  unfold service_at. intros Hl.
  destruct (h !! r) as [[| | | | | | | |service_name ur| | | | |]|];
    try discriminate Hl.
  destruct (strs_at h ur) as [ucs|] eqn:Hucs; [|discriminate Hl].
  injection Hl as <-. eexists. split; [reflexivity|]. now apply strs_at_entry.
Qed.

Lemma scheme_at_entry h r services :
  scheme_at h r = Some services ->
  exists sr items,
    h !! r = Some (SchemeEntry sr)
    /\ h !! sr = Some (PyList items)
    /\ Forall2 (fun item svc => service_at h item = Some svc) items services.
Proof.
  unfold scheme_at, services_at. intros Hl.
  destruct (h !! r) as [[| | | | | | | | |sr| | | |]|]; try discriminate Hl.
  destruct (h !! sr) as [[]|] eqn:Hsr; try discriminate Hl.
  eexists _, _. split; [reflexivity|]. split; [exact Hsr|].
  now apply mapM_Some_1.
Qed.

Section Resident.
Variables (h0 : list (object R)) (self : ref) (c : calculator).
Hypothesis Hc : calculator_at h0 self = Some c.


Lemma base_start : base h0 h0.
Proof. now intros r o. Qed.

Lemma base_frame fp h h' :
  base h0 h -> frame fp h h' -> Forall (fresh h0) fp -> base h0 h'.
Proof.
  intros Hbase Hframe Hfresh r o Hr.
  apply (frame_lookup fp h); [exact Hframe|now apply Hbase|].
  intros Hin. rewrite Forall_forall in Hfresh. specialize (Hfresh r Hin).
  apply lookup_lt_Some in Hr. unfold fresh in Hfresh. lia.
Qed.

Lemma resident_instance :
  exists e o t wt s ents ops,
    h0 !! self = Some (Instance e o t wt s)
    /\ dict_at h0 (strs_at h0) e = Some ents
    /\ dict_at h0 (operation_at h0) o = Some ops
    /\ h0 !! t = Some (StrDict (op_type_map c))
    /\ h0 !! wt = Some (IntDict (op_weights c))
    /\ dict_at h0 (scheme_at h0) s = Some (schemes c)
    /\ entities c = list_to_map ents
    /\ operations c = list_to_map ops.
Proof.
  pose proof Hc as Hself. unfold calculator_at in Hself.
  destruct (h0 !! self) as [[e o t wt s| | | | | | | | | | | | |]|] eqn:Hi;
    try discriminate Hself.
  destruct (dict_at h0 (strs_at h0) e) as [ents|] eqn:He; [|discriminate Hself].
  destruct (dict_at h0 (operation_at h0) o) as [ops|] eqn:Ho; [|discriminate Hself].
  destruct (h0 !! t) as [[]|] eqn:Ht; try discriminate Hself.
  destruct (h0 !! wt) as [[]|] eqn:Hwt; try discriminate Hself.
  destruct (dict_at h0 (scheme_at h0) s) as [schs|] eqn:Hs; [|discriminate Hself].
  injection Hself as <-. cbn. now exists e, o, t, wt, s, ents, ops.
Qed.

Lemma self_operations_run w :
  base h0 (heap w) ->
  exists items,
    self_operations self w = (inr items, w)
    /\ forall uc,
         match assoc uc items with
         | None => operations c !! uc = None
         | Some entry => exists op, operation_at h0 entry = Some op
                                    /\ operations c !! uc = Some op
         end.
Proof.
  intros Hbase.
  destruct resident_instance
    as (e & o & t & wt & s & ents & ops & Hself & _ & Hops & _ & _ & _ & _ & Heq).
  destruct (dict_at_items _ _ _ _ Hops) as (items & Ho & Hitems).
  exists items. split.
  - unfold self_operations.
    rewrite (bind_inr _ _ _ _ _ (get_run _ _ _ (Hbase _ _ Hself))).
    exact (get_dict_run _ _ _ (Hbase _ _ Ho)).
  - intros uc. rewrite Heq. exact (assoc_items _ _ _ uc Hitems).
Qed.

Lemma has_operation_run w uc :
  base h0 (heap w) ->
  has_operation self uc w = (inr (bool_decide (is_Some (operations c !! uc))), w).
Proof.
  intros Hbase. destruct (self_operations_run w Hbase) as (items & Hrun & Hitems).
  unfold has_operation. rewrite (bind_inr _ _ _ _ _ Hrun). unfold ret.
  do 2 f_equal. specialize (Hitems uc).
  destruct (assoc uc items) as [entry|].
  - destruct Hitems as (op & _ & ->).
    rewrite !bool_decide_true; eauto.
  - rewrite Hitems. rewrite !bool_decide_false; [done| |]; now intros [? ?].
Qed.

Lemma operation_entry_run w uc op :
  base h0 (heap w) ->
  operations c !! uc = Some op ->
  exists rd wr,
    operation_entry self uc w = (inr (rd, wr), w)
    /\ heap w !! rd = Some (StrList (read op))
    /\ heap w !! wr = Some (StrList (write op)).
Proof.
  intros Hbase Hop. destruct (self_operations_run w Hbase) as (items & Hrun & Hitems).
  specialize (Hitems uc). unfold operation_entry.
  rewrite (bind_inr _ _ _ _ _ Hrun).
  destruct (assoc uc items) as [entry|]; [|now rewrite Hitems in Hop].
  destruct Hitems as (op' & Hentry & Hop'). rewrite Hop in Hop'. injection Hop' as <-.
  destruct (operation_at_entry _ _ _ Hentry) as (rd & wr & He & Hrd & Hwr).
  exists rd, wr.
  rewrite (bind_inr _ _ _ _ _ (get_run _ _ _ (Hbase _ _ He))).
  split; [reflexivity|]. split; now apply Hbase.
Qed.

Lemma operation_read_run w uc op :
  base h0 (heap w) ->
  operations c !! uc = Some op ->
  operation_read self uc w = (inr (read op), w).
Proof.
  intros Hbase Hop.
  destruct (operation_entry_run w uc op Hbase Hop) as (rd & wr & Hrun & Hrd & _).
  unfold operation_read. rewrite (bind_inr _ _ _ _ _ Hrun).
  exact (get_strs_run _ _ _ Hrd).
Qed.

Lemma operation_write_run w uc op :
  base h0 (heap w) ->
  operations c !! uc = Some op ->
  operation_write self uc w = (inr (write op), w).
Proof.
  intros Hbase Hop.
  destruct (operation_entry_run w uc op Hbase Hop) as (rd & wr & Hrun & _ & Hwr).
  unfold operation_write. rewrite (bind_inr _ _ _ _ _ Hrun).
  exact (get_strs_run _ _ _ Hwr).
Qed.

Lemma self_op_type_map_run w :
  base h0 (heap w) -> self_op_type_map self w = (inr (op_type_map c), w).
Proof.
  intros Hbase.
  destruct resident_instance
    as (e & o & t & wt & s & ents & ops & Hself & _ & _ & Ht & _).
  unfold self_op_type_map.
  rewrite (bind_inr _ _ _ _ _ (get_run _ _ _ (Hbase _ _ Hself))).
  now rewrite (bind_inr _ _ _ _ _ (get_run _ _ _ (Hbase _ _ Ht))).
Qed.

Lemma self_op_weights_run w :
  base h0 (heap w) -> self_op_weights self w = (inr (op_weights c), w).
Proof.
  intros Hbase.
  destruct resident_instance
    as (e & o & t & wt & s & ents & ops & Hself & _ & _ & _ & Hwt & _).
  unfold self_op_weights.
  rewrite (bind_inr _ _ _ _ _ (get_run _ _ _ (Hbase _ _ Hself))).
  exact (get_counts_run _ _ _ (Hbase _ _ Hwt)).
Qed.

Lemma self_schemes_run w :
  base h0 (heap w) ->
  exists items,
    self_schemes self w = (inr items, w)
    /\ Forall2 (fun item kv => item.1 = kv.1 /\ scheme_at h0 item.2 = Some kv.2)
               items (schemes c).
Proof.
  intros Hbase.
  destruct resident_instance
    as (e & o & t & wt & s & ents & ops & Hself & _ & _ & _ & _ & Hs & _).
  destruct (dict_at_items _ _ _ _ Hs) as (items & Hd & Hitems).
  exists items. split; [|exact Hitems].
  unfold self_schemes.
  rewrite (bind_inr _ _ _ _ _ (get_run _ _ _ (Hbase _ _ Hself))).
  exact (get_dict_run _ _ _ (Hbase _ _ Hd)).
Qed.

End Resident.
End Reading.

(** *** The loops of one service *)

Lemma lookup_new {A} (l : list A) (x : A) : (l ++ [x]) !! length l = Some x.
Proof. now apply list_lookup_middle. Qed.

Ltac heap_len :=
  repeat first [rewrite length_app | rewrite length_insert]; cbn [length].

Ltac heap_find :=
  cbn [heap stdout];
  repeat first
    [ eassumption
    | apply lookup_new
    | rewrite list_lookup_insert_ne by (heap_len; lia)
    | apply list_lookup_insert_eq; heap_len;
      first [lia | eapply lookup_lt_Some; eassumption]
    | apply lookup_app_l_Some ].



Lemma NoDup_four (a b c d : ref) :
  NoDup [a; b; c; d] -> a ≠ b /\ a ≠ c /\ a ≠ d /\ b ≠ c /\ b ≠ d /\ c ≠ d.
Proof. rewrite !NoDup_cons, !not_elem_of_cons. tauto. Qed.

Section Aggregation.
Context {R : Type} `{PyNum R}.
Variables (h0 : list (object R)) (self : ref) (c : calculator).
Hypothesis Hc : calculator_at h0 self = Some c.
Implicit Types (w : world R) (h : list (object R)) (r : ref).


Lemma record_access_run ap pc tg param w A C T :
  heap w !! ap = Some (PySet A) ->
  heap w !! pc = Some (IntDict C) ->
  heap w !! tg = Some (PySet T) ->
  ap ≠ pc -> ap ≠ tg -> pc ≠ tg ->
  record_access ap pc tg param w
  = (inr tt,
     {| heap := <[tg := PySet (T ∪ {[param]})]>
                  (<[pc := IntDict (incr param C)]>
                     (<[ap := PySet (A ∪ {[param]})]> (heap w)));
        stdout := stdout w |}).
Proof.
  intros Hap Hpc Htg H1 H2 H3. unfold record_access.
  rewrite (bind_inr _ _ _ _ _ (set_add_run _ _ _ _ Hap)).
  erewrite bind_inr by (apply count_incr_run; heap_find).
  erewrite set_add_run by heap_find. reflexivity.
Qed.

Lemma frame_record ap pc rp wp tg h (o1 o2 o3 : object R) :
  tg ∈ [ap; pc; rp; wp] ->
  frame [ap; pc; rp; wp] h (<[tg := o3]> (<[pc := o2]> (<[ap := o1]> h))).
Proof.
  intros Htg. split; [rewrite !length_insert; lia|].
  intros r o Hr Hnot.
  rewrite !list_lookup_insert_ne; [exact Hr | | |]; intros ->; apply Hnot;
    [apply list_elem_of_here | apply list_elem_of_further, list_elem_of_here | exact Htg].
Qed.

Lemma read_loop ap pc rp wp reads :
  NoDup [ap; pc; rp; wp] ->
  forall w p,
    params_at (heap w) ap pc rp wp p ->
    exists w',
      for_each reads (record_access ap pc rp) w = (inr tt, w')
      /\ stdout w' = stdout w
      /\ frame [ap; pc; rp; wp] (heap w) (heap w')
      /\ params_at (heap w') ap pc rp wp (fold_left add_read reads p).
Proof.
  intros Hnd.
  destruct (NoDup_four _ _ _ _ Hnd) as (N1 & N2 & N3 & N4 & N5 & N6).
  induction reads as [|param reads IH]; intros w p (Hap & Hpc & Hrp & Hwp).
  - exists w. split; [reflexivity|]. split; [reflexivity|].
    split; [apply frame_refl|]. now repeat split.
  - cbn [for_each fold_left].
    rewrite (bind_inr _ _ _ _ _
               (record_access_run ap pc rp param w _ _ _ Hap Hpc Hrp N1 N2 N4)).
    match goal with
    | |- context [for_each reads _ ?w1] =>
        destruct (IH w1 (add_read p param)) as (w' & Hrun & Hout & Hframe & Hat)
    end.
    { cbn [add_read all_params param_access_count read_params write_params].
      repeat split; heap_find. }
    exists w'. split; [exact Hrun|]. split; [exact Hout|]. split; [|exact Hat].
    eapply frame_step; [|exact Hframe|now left].
    apply frame_record. apply list_elem_of_further, list_elem_of_further, list_elem_of_here.
Qed.

Lemma write_loop ap pc rp wp writes :
  NoDup [ap; pc; rp; wp] ->
  forall w p,
    params_at (heap w) ap pc rp wp p ->
    exists w',
      for_each writes (record_access ap pc wp) w = (inr tt, w')
      /\ stdout w' = stdout w
      /\ frame [ap; pc; rp; wp] (heap w) (heap w')
      /\ params_at (heap w') ap pc rp wp (fold_left add_write writes p).
Proof.
  intros Hnd.
  destruct (NoDup_four _ _ _ _ Hnd) as (N1 & N2 & N3 & N4 & N5 & N6).
  induction writes as [|param writes IH]; intros w p (Hap & Hpc & Hrp & Hwp).
  - exists w. split; [reflexivity|]. split; [reflexivity|].
    split; [apply frame_refl|]. now repeat split.
  - cbn [for_each fold_left].
    rewrite (bind_inr _ _ _ _ _
               (record_access_run ap pc wp param w _ _ _ Hap Hpc Hwp N1 N3 N5)).
    match goal with
    | |- context [for_each writes _ ?w1] =>
        destruct (IH w1 (add_write p param)) as (w' & Hrun & Hout & Hframe & Hat)
    end.
    { cbn [add_write all_params param_access_count read_params write_params].
      repeat split; heap_find. }
    exists w'. split; [exact Hrun|]. split; [exact Hout|]. split; [|exact Hat].
    eapply frame_step; [|exact Hframe|now left].
    apply frame_record. do 3 apply list_elem_of_further. apply list_elem_of_here.
Qed.

(** One turn of the aggregation loop is one [scan_use_case]. *)
Lemma aggregate_run ap pc rp wp uc :
  NoDup [ap; pc; rp; wp] ->
  Forall (fresh h0) [ap; pc; rp; wp] ->
  forall w p out log,
    base h0 (heap w) ->
    params_at (heap w) ap pc rp wp p ->
    stdout w = out ++ log ->
    exists w',
      aggregate self ap pc rp wp uc w = (inr tt, w')
      /\ stdout w' = out ++ (scan_use_case c (p, log) uc).2
      /\ frame [ap; pc; rp; wp] (heap w) (heap w')
      /\ params_at (heap w') ap pc rp wp (scan_use_case c (p, log) uc).1.
Proof.
  intros Hnd Hfresh w p out log Hbase Hat Hout. unfold aggregate.
  rewrite (bind_inr _ _ _ _ _ (has_operation_run h0 self c Hc w uc Hbase)).
  unfold scan_use_case. cbn [fst snd].
  destruct (operations c !! uc) as [op|] eqn:Hop.
  - rewrite bool_decide_true by eauto. cbn [negb].
    rewrite (bind_inr _ _ _ _ _ (operation_read_run h0 self c Hc w uc op Hbase Hop)).
    destruct (read_loop ap pc rp wp (read op) Hnd w p Hat)
      as (w1 & Hrun1 & Hout1 & Hframe1 & Hat1).
    rewrite (bind_inr _ _ _ _ _ Hrun1).
    assert (Hbase1 : base h0 (heap w1)) by exact (base_frame h0 _ _ _ Hbase Hframe1 Hfresh).
    rewrite (bind_inr _ _ _ _ _ (operation_write_run h0 self c Hc w1 uc op Hbase1 Hop)).
    destruct (write_loop ap pc rp wp (write op) Hnd w1 _ Hat1)
      as (w2 & Hrun2 & Hout2 & Hframe2 & Hat2).
    exists w2. split; [exact Hrun2|]. cbn [fst snd].
    split; [now rewrite Hout2, Hout1|]. split; [|exact Hat2].
    eapply frame_step; [exact Hframe1|exact Hframe2|now left].
  - rewrite bool_decide_false by (now intros [? ?]). cbn [negb].
    eexists. split; [reflexivity|]. cbn [heap stdout fst snd].
    split; [now rewrite Hout, app_assoc|]. split; [apply frame_refl|exact Hat].
Qed.

(** The aggregation loop computes what [scan_use_case] folds to. *)
Lemma aggregate_loop ap pc rp wp ucs :
  NoDup [ap; pc; rp; wp] ->
  Forall (fresh h0) [ap; pc; rp; wp] ->
  forall w p out log,
    base h0 (heap w) ->
    params_at (heap w) ap pc rp wp p ->
    stdout w = out ++ log ->
    exists w',
      for_each ucs (aggregate self ap pc rp wp) w = (inr tt, w')
      /\ stdout w' = out ++ (fold_left (scan_use_case c) ucs (p, log)).2
      /\ frame [ap; pc; rp; wp] (heap w) (heap w')
      /\ params_at (heap w') ap pc rp wp (fold_left (scan_use_case c) ucs (p, log)).1.
Proof.
  intros Hnd Hfresh.
  induction ucs as [|uc ucs IH]; intros w p out log Hbase Hat Hout.
  - exists w. split; [reflexivity|]. split; [exact Hout|].
    split; [apply frame_refl|exact Hat].
  - cbn [for_each fold_left].
    destruct (aggregate_run ap pc rp wp uc Hnd Hfresh w p out log Hbase Hat Hout)
      as (w1 & Hrun1 & Hout1 & Hframe1 & Hat1).
    rewrite (bind_inr _ _ _ _ _ Hrun1).
    destruct (scan_use_case c (p, log) uc) as [p1 log1]. cbn [fst snd] in *.
    destruct (IH w1 p1 out log1 (base_frame h0 _ _ _ Hbase Hframe1 Hfresh) Hat1 Hout1)
      as (w' & Hrun & Hout' & Hframe & Hat').
    exists w'. split; [exact Hrun|]. split; [exact Hout'|]. split; [|exact Hat'].
    eapply frame_step; [exact Hframe1|exact Hframe|now left].
Qed.

End Aggregation.

Section Scoring.
Context {R : Type} `{PyNum R}.
Variables (h0 : list (object R)) (self : ref) (c : calculator).
Hypothesis Hc : calculator_at h0 self = Some c.
Implicit Types (w : world R) (h : list (object R)) (r : ref).


Lemma Forall2_frame {A} (f : A -> object R) fp h h' refs (xs : list A) :
  frame fp h h' ->
  (forall q, q ∈ fp -> q ∉ refs) ->
  Forall2 (fun r x => h !! r = Some (f x)) refs xs ->
  Forall2 (fun r x => h' !! r = Some (f x)) refs xs.
Proof.
  intros Hframe Hnot Hall. induction Hall as [|r x refs xs Hr _ IH]; [constructor|].
  constructor.
  - apply (frame_lookup _ _ _ _ _ Hframe Hr). intros Hin.
    apply (Hnot r Hin). apply list_elem_of_here.
  - apply IH. intros q Hq Hin. apply (Hnot q Hq). now apply list_elem_of_further.
Qed.

(** A reference to an object of another shape is none of [refs]. *)
Lemma Forall2_other {A} (f : A -> object R) h refs (xs : list A) q o :
  Forall2 (fun r x => h !! r = Some (f x)) refs xs ->
  h !! q = Some o -> (forall x, o ≠ f x) -> q ∉ refs.
Proof.
  intros Hall Hq Ho Hin. induction Hall as [|r x refs xs Hr _ IH].
  - now apply elem_of_nil in Hin.
  - apply elem_of_cons in Hin as [->|Hin]; [|now apply IH].
    cbn beta in Hr. rewrite Hq in Hr. injection Hr as Heq. now apply (Ho x).
Qed.

Lemma Forall2_lookup_lt {A} (f : A -> object R) h refs (xs : list A) :
  Forall2 (fun r x => h !! r = Some (f x)) refs xs ->
  Forall (fun r => (r < length h)%nat) refs.
Proof.
  induction 1 as [|r x refs xs Hr _ IH]; constructor; [|exact IH].
  exact (lookup_lt_Some _ _ _ Hr).
Qed.

(** One turn of the scoring loop is one [score_use_case]. *)
Lemma score_run rp wp od uc p (k : nat) :
  forall w service_weight refs ds,
    base h0 (heap w) ->
    heap w !! rp = Some (PySet (read_params p)) ->
    heap w !! wp = Some (PySet (write_params p)) ->
    heap w !! od = Some (PyList refs) ->
    details_at (heap w) refs ds ->
    NoDup refs ->
    (k <= length (heap w))%nat -> Forall (fun r => (k <= r)%nat) refs ->
    exists w' refs',
      score self rp wp od service_weight uc w
      = (inr (score_use_case c p (service_weight, ds) uc).1, w')
      /\ stdout w' = stdout w
      /\ frame [od] (heap w) (heap w')
      /\ heap w' !! od = Some (PyList refs')
      /\ details_at (heap w') refs' (score_use_case c p (service_weight, ds) uc).2
      /\ NoDup refs' /\ Forall (fun r => (k <= r)%nat) refs'.
Proof.
  intros w service_weight refs ds Hbase Hrp Hwp Hl Hds Hnd Hk Hfr.
  unfold score.
  rewrite (bind_inr _ _ _ _ _ (has_operation_run h0 self c Hc w uc Hbase)).
  unfold score_use_case. cbn [fst snd].
  destruct (operations c !! uc) as [op|] eqn:Hop.
  2:{ rewrite bool_decide_false by (now intros [? ?]). cbn [negb].
      exists w, refs. split; [reflexivity|]. split; [reflexivity|].
      split; [apply frame_refl|]. now repeat split. }
  rewrite bool_decide_true by eauto. cbn [negb].
  rewrite (bind_inr _ _ _ _ _ (self_op_type_map_run h0 self c Hc w Hbase)).
  rewrite (bind_inr _ _ _ _ _ (self_op_weights_run h0 self c Hc w Hbase)).
  rewrite (bind_inr _ _ _ _ _ (operation_read_run h0 self c Hc w uc op Hbase Hop)).
  pose proof (lookup_lt_Some _ _ _ Hrp) as Lrp.
  pose proof (lookup_lt_Some _ _ _ Hwp) as Lwp.
  pose proof (lookup_lt_Some _ _ _ Hl) as Lod.
  pose proof (Forall2_lookup_lt _ _ _ _ Hds) as Lrefs.
  set (o1 := PySet (list_to_set (read op)) : object R).
  set (o2 := PySet (list_to_set (write op)) : object R).
  set (w1 := {| heap := heap w ++ [o1]; stdout := stdout w |}).
  assert (Hnew1 : new o1 w = (inr (length (heap w)), w1)) by reflexivity.
  rewrite (bind_inr _ _ _ _ _ Hnew1).
  assert (Hbase1 : base h0 (heap w1)).
  { intros r o Hr. apply lookup_app_l_Some. now apply Hbase. }
  rewrite (bind_inr _ _ _ _ _ (operation_write_run h0 self c Hc w1 uc op Hbase1 Hop)).
  set (w2 := {| heap := heap w1 ++ [o2]; stdout := stdout w1 |}).
  assert (Hnew2 : new o2 w1 = (inr (length (heap w1)), w2)) by reflexivity.
  rewrite (bind_inr _ _ _ _ _ Hnew2).
  erewrite (bind_inr _ _ w2) by (apply get_set_run; subst w2 w1 o1; heap_find).
  erewrite (bind_inr _ _ w2) by (apply get_set_run; subst w2 w1 o2; heap_find).
  erewrite (bind_inr _ _ w2) by (apply get_set_run; subst w2 w1; heap_find).
  erewrite (bind_inr _ _ w2) by (apply get_set_run; subst w2 w1; heap_find).
  match goal with
  | |- context [bind (new ?o) _ w2] =>
      set (o3 := o);
      set (w3 := {| heap := heap w2 ++ [o3]; stdout := stdout w2 |});
      assert (Hnew3 : new o3 w2 = (inr (length (heap w2)), w3)) by reflexivity
  end.
  rewrite (bind_inr _ _ _ _ _ Hnew3).
  erewrite (bind_inr _ _ w3)
    by (apply (list_append_run _ _ _ refs); subst w3 w2 w1; heap_find).
  unfold ret. eexists _, (refs ++ [length (heap w2)]).
  split; [reflexivity|]. subst w3 w2 w1. cbn [heap stdout].
  split; [reflexivity|].
  assert (Hframe : frame [od] (heap w)
                     (<[od := PyList (refs ++ [length ((heap w ++ [o1]) ++ [o2])])]>
                        (((heap w ++ [o1]) ++ [o2]) ++ [o3]))).
  { split; [heap_len; lia|]. intros r o Hr Hnot.
    rewrite not_elem_of_cons in Hnot. destruct Hnot as [Hnot _].
    rewrite list_lookup_insert_ne by congruence.
    do 3 apply lookup_app_l_Some. exact Hr. }
  split; [exact Hframe|].
  split; [heap_find|].
  assert (Hnotin : forall q, q ∈ [od] -> q ∉ refs).
  { intros q Hq. apply list_elem_of_singleton in Hq as ->.
    exact (Forall2_other (fun d => DetailEntry d None None) _ _ _ _ _ Hds Hl
             ltac:(discriminate)). }
  split.
  { apply Forall2_app.
    - exact (Forall2_frame (fun d => DetailEntry d None None) _ _ _ _ _
               Hframe Hnotin Hds).
    - constructor; [|constructor]. subst o3. heap_find. }
  split.
  - apply NoDup_app. split; [exact Hnd|]. split; [|apply NoDup_singleton].
    intros r Hr Hin. apply list_elem_of_singleton in Hin.
    rewrite Forall_forall in Lrefs. specialize (Lrefs r Hr).
    revert Hin. heap_len. lia.
  - apply Forall_app. split; [exact Hfr|]. constructor; [|constructor].
    heap_len. lia.
Qed.

(** The scoring loop computes what [score_use_case] folds to. *)
Lemma score_loop rp wp od p (k : nat) ucs :
  fresh h0 od ->
  forall w service_weight refs ds,
    base h0 (heap w) ->
    heap w !! rp = Some (PySet (read_params p)) ->
    heap w !! wp = Some (PySet (write_params p)) ->
    heap w !! od = Some (PyList refs) ->
    details_at (heap w) refs ds ->
    NoDup refs ->
    (k <= length (heap w))%nat -> Forall (fun r => (k <= r)%nat) refs ->
    exists w' refs',
      for_fold ucs service_weight (score self rp wp od) w
      = (inr (fold_left (score_use_case c p) ucs (service_weight, ds)).1, w')
      /\ stdout w' = stdout w
      /\ frame [od] (heap w) (heap w')
      /\ heap w' !! od = Some (PyList refs')
      /\ details_at (heap w') refs' (fold_left (score_use_case c p) ucs (service_weight, ds)).2
      /\ NoDup refs' /\ Forall (fun r => (k <= r)%nat) refs'.
Proof.
  intros Hod.
  induction ucs as [|uc ucs IH]; intros w sw refs ds Hbase Hrp Hwp Hl Hds Hnd Hk Hfr.
  - exists w, refs. split; [reflexivity|]. split; [reflexivity|].
    split; [apply frame_refl|]. now repeat split.
  - cbn [for_fold fold_left].
    destruct (score_run rp wp od uc p k w sw refs ds Hbase Hrp Hwp Hl Hds Hnd Hk Hfr)
      as (w1 & refs1 & Hrun1 & Hout1 & Hframe1 & Hl1 & Hds1 & Hnd1 & Hfr1).
    rewrite (bind_inr _ _ _ _ _ Hrun1).
    destruct (score_use_case c p (sw, ds) uc) as [sw1 ds1]. cbn [fst snd] in *.
    assert (Hod_rp : rp ∉ [od])
      by (rewrite not_elem_of_cons; split; [intros ->; congruence|apply not_elem_of_nil]).
    assert (Hod_wp : wp ∉ [od])
      by (rewrite not_elem_of_cons; split; [intros ->; congruence|apply not_elem_of_nil]).
    pose proof (frame_length _ _ _ Hframe1) as Hlen1.
    destruct (IH w1 sw1 refs1 ds1) as (w' & refs' & Hrun & Hout & Hframe & Hrest);
      try assumption; try lia.
    { apply (base_frame h0 [od] (heap w)); [exact Hbase|exact Hframe1|].
      constructor; [exact Hod|constructor]. }
    { exact (frame_lookup _ _ _ _ _ Hframe1 Hrp Hod_rp). }
    { exact (frame_lookup _ _ _ _ _ Hframe1 Hwp Hod_wp). }
    exists w', refs'. split; [exact Hrun|]. split; [now rewrite Hout|].
    split; [|exact Hrest].
    eapply frame_step; [exact Hframe1|exact Hframe|now left].
Qed.


(** One turn of the grading loop is one [grade]. *)
Lemma grade_entry_run service_weight sgm op d w :
  heap w !! op = Some (DetailEntry d None None) ->
  match fgs_of (Detail.OT d) service_weight with
  | inl e => grade_entry service_weight sgm op w = (inl e, w)
  | inr fgs =>
      grade_entry service_weight sgm op w
      = (inr (sgm + Detail.DGS d * fgs)%num,
         {| heap := <[op := DetailEntry d (Some fgs) (Some (Detail.DGS d * fgs)%num)]>
                      (heap w);
            stdout := stdout w |})
  end.
Proof.
  intros Hop. pose proof (lookup_lt_Some _ _ _ Hop) as Lop. unfold grade_entry.
  rewrite (bind_inr _ _ _ _ _ (get_detail_run _ _ _ _ _ Hop)). cbn [fst snd].
  destruct (fgs_of (Detail.OT d) service_weight) as [e|fgs]; [reflexivity|].
  assert (Hlift : lift (R:=R) (inr fgs) w = (inr fgs, w)) by reflexivity.
  rewrite (bind_inr _ _ _ _ _ Hlift).
  rewrite (bind_inr _ _ _ _ _ (get_detail_run _ _ _ _ _ Hop)). cbn [fst snd].
  set (w1 := {| heap := <[op := DetailEntry d (Some fgs) None]> (heap w);
                stdout := stdout w |}).
  assert (Hput1 : put op (DetailEntry d (Some fgs) None) w = (inr tt, w1)) by reflexivity.
  rewrite (bind_inr _ _ _ _ _ Hput1).
  assert (Hop1 : heap w1 !! op = Some (DetailEntry d (Some fgs) None))
    by (subst w1; heap_find).
  rewrite (bind_inr _ _ _ _ _ (get_detail_run _ _ _ _ _ Hop1)). cbn [fst snd].
  set (w2 := {| heap := <[op := DetailEntry d (Some fgs) (Some (Detail.DGS d * fgs)%num)]>
                          (heap w1);
                stdout := stdout w1 |}).
  assert (Hput2 : put op (DetailEntry d (Some fgs) (Some (Detail.DGS d * fgs)%num)) w1
                  = (inr tt, w2)) by reflexivity.
  rewrite (bind_inr _ _ _ _ _ Hput2).
  assert (Hop2 : heap w2 !! op
                 = Some (DetailEntry d (Some fgs) (Some (Detail.DGS d * fgs)%num)))
    by (subst w2 w1; heap_find).
  rewrite (bind_inr _ _ _ _ _ (get_detail_run _ _ _ _ _ Hop2)). cbn [fst snd stored].
  unfold ret, bind. subst w2 w1. cbn [heap stdout].
  now rewrite list_insert_insert_eq.
Qed.

(** The grading loop computes what [grade] folds to, and stops where it
    raises. *)
Lemma grade_loop service_weight refs :
  forall ds w sgm gs,
    details_at (heap w) refs ds ->
    NoDup refs ->
    exists w',
      stdout w' = stdout w
      /\ frame refs (heap w) (heap w')
      /\ match fold_left (grade service_weight) ds (inr (sgm, gs)) with
         | inl e =>
             for_fold refs sgm (grade_entry service_weight) w = (inl e, w')
         | inr (sgm', gs') =>
             for_fold refs sgm (grade_entry service_weight) w = (inr sgm', w')
             /\ exists graded, gs' = gs ++ graded /\ graded_at (heap w') refs graded
         end.
Proof.
  induction refs as [|op refs IH]; intros ds w sgm gs Hds Hnd.
  - apply Forall2_nil_inv_l in Hds as ->. exists w.
    split; [reflexivity|]. split; [apply frame_refl|].
    cbn [fold_left for_fold]. split; [reflexivity|].
    exists []. split; [now rewrite app_nil_r|constructor].
  - apply Forall2_cons_inv_l in Hds as (d & ds' & Hop & Hds & ->).
    apply NoDup_cons in Hnd as [Hnotin Hnd].
    cbn [fold_left for_fold]. unfold grade at 2.
    pose proof (grade_entry_run service_weight sgm op d w Hop) as Hrun1.
    destruct (fgs_of (Detail.OT d) service_weight) as [e|fgs].
    + exists w. split; [reflexivity|]. split; [apply frame_refl|].
      rewrite grade_fold_raised. now apply bind_inl.
    + rewrite (bind_inr _ _ _ _ _ Hrun1).
      set (g := Graded.mk d fgs (Detail.DGS d * fgs)%num).
      set (w1 := {| heap := <[op := DetailEntry d (Some fgs) (Some (Detail.DGS d * fgs)%num)]>
                              (heap w);
                    stdout := stdout w |}).
      assert (Hframe1 : frame (op :: refs) (heap w) (heap w1))
        by (apply frame_put, list_elem_of_here).
      destruct (IH ds' w1 (sgm + Detail.DGS d * fgs)%num (gs ++ [g]))
        as (w' & Hout & Hframe & Hrest); [|exact Hnd|].
      { apply (Forall2_frame (fun d => DetailEntry d None None) [op] (heap w));
          [apply frame_put, list_elem_of_here| |exact Hds].
        intros q Hq. now apply list_elem_of_singleton in Hq as ->. }
      exists w'. split; [exact Hout|].
      split.
      { eapply frame_step; [exact Hframe1|exact Hframe|].
        intros r Hr. left. now apply list_elem_of_further. }
      destruct (fold_left (grade service_weight) ds' (inr _)) as [e|[sgm' gs']];
        [exact Hrest|].
      destruct Hrest as (Hrun & graded & -> & Hgraded).
      split; [exact Hrun|]. exists (g :: graded).
      split; [now rewrite <- app_assoc|].
      constructor; [|exact Hgraded].
      apply (frame_lookup refs (heap w1)); [exact Hframe| |exact Hnotin].
      subst w1 g. cbn [heap Graded.detail Graded.FGS Graded.SGM_Operation].
      apply list_lookup_insert_eq. exact (lookup_lt_Some _ _ _ Hop).
Qed.

(** The loop that adds to [results] appends one row per graded entry. *)
Lemma emit_loop res scheme_name service_name noo lcom sgm mf_sum m f service_weight refs :
  forall gs w rrefs rows,
    graded_at (heap w) refs gs ->
    heap w !! res = Some (PyList rrefs) ->
    rows_at (heap w) rrefs rows ->
    exists w' rrefs',
      for_each refs (emit_entry res scheme_name service_name noo lcom sgm mf_sum m f
                                service_weight) w
      = (inr tt, w')
      /\ stdout w' = stdout w
      /\ frame [res] (heap w) (heap w')
      /\ heap w' !! res = Some (PyList rrefs')
      /\ rows_at (heap w') rrefs'
           (rows ++ map (emit scheme_name service_name noo lcom sgm mf_sum m f
                              service_weight) gs).
Proof.
  induction refs as [|op refs IH]; intros gs w rrefs rows Hgs Hres Hrows.
  - apply Forall2_nil_inv_l in Hgs as ->. exists w, rrefs.
    split; [reflexivity|]. split; [reflexivity|]. split; [apply frame_refl|].
    split; [exact Hres|]. cbn [map]. now rewrite app_nil_r.
  - apply Forall2_cons_inv_l in Hgs as (g & gs' & Hop & Hgs & ->).
    cbn [for_each map]. unfold emit_entry at 1.
    pose proof (lookup_lt_Some _ _ _ Hres) as Lres.
    assert (Hone : exists w1,
               emit_entry res scheme_name service_name noo lcom sgm mf_sum m f
                          service_weight op w = (inr tt, w1)
               /\ stdout w1 = stdout w
               /\ frame [res] (heap w) (heap w1)
               /\ heap w1 !! res = Some (PyList (rrefs ++ [length (heap w)]))
               /\ heap w1 !! length (heap w)
                  = Some (RowEntry (emit scheme_name service_name noo lcom sgm mf_sum m f
                                         service_weight g))).
    { unfold emit_entry.
      rewrite (bind_inr _ _ _ _ _ (get_detail_run _ _ _ _ _ Hop)). cbn [fst snd stored].
      unfold ret at 1 2. unfold bind at 1 2.
      destruct g as [d fgs sgm_operation].
      cbn [Graded.detail Graded.FGS Graded.SGM_Operation].
      match goal with
      | |- context [bind (new ?o) _ w] =>
          set (o1 := o);
          set (w1 := {| heap := heap w ++ [o1]; stdout := stdout w |});
          assert (Hnew : new o1 w = (inr (length (heap w)), w1)) by reflexivity
      end.
      rewrite (bind_inr _ _ _ _ _ Hnew).
      erewrite (list_append_run _ _ w1 rrefs) by (subst w1; heap_find).
      eexists. split; [reflexivity|]. subst w1. cbn [heap stdout].
      split; [reflexivity|]. split.
      - split; [heap_len; lia|]. intros r o Hr Hnot.
        rewrite not_elem_of_cons in Hnot. destruct Hnot as [Hnot _].
        rewrite list_lookup_insert_ne by congruence. now apply lookup_app_l_Some.
      - split; heap_find. }
    destruct Hone as (w1 & Hrun1 & Hout1 & Hframe1 & Hres1 & Hrow1).
    fold (emit_entry res scheme_name service_name noo lcom sgm mf_sum m f
                     service_weight op).
    rewrite (bind_inr _ _ _ _ _ Hrun1).
    assert (Hres_refs : forall q, q ∈ [res] -> q ∉ refs).
    { intros q Hq. apply list_elem_of_singleton in Hq as ->.
      exact (Forall2_other _ _ _ _ _ _ Hgs Hres ltac:(discriminate)). }
    assert (Hres_rrefs : forall q, q ∈ [res] -> q ∉ rrefs).
    { intros q Hq. apply list_elem_of_singleton in Hq as ->.
      exact (Forall2_other _ _ _ _ _ _ Hrows Hres ltac:(discriminate)). }
    destruct (IH gs' w1 (rrefs ++ [length (heap w)])
                 (rows ++ [emit scheme_name service_name noo lcom sgm mf_sum m f
                                service_weight g]))
      as (w' & rrefs' & Hrun & Hout & Hframe & Hres' & Hrows').
    { exact (Forall2_frame _ _ _ _ _ _ Hframe1 Hres_refs Hgs). }
    { exact Hres1. }
    { apply Forall2_app; [|constructor; [exact Hrow1|constructor]].
      exact (Forall2_frame _ _ _ _ _ _ Hframe1 Hres_rrefs Hrows). }
    exists w', rrefs'. split; [exact Hrun|]. split; [now rewrite Hout|].
    split; [eapply frame_step; [exact Hframe1|exact Hframe|now left]|].
    split; [exact Hres'|]. now rewrite <- app_assoc in Hrows'.
Qed.

End Scoring.

Section Schemes.
Context {R : Type} `{PyNum R}.
Variables (h0 : list (object R)) (self : ref) (c : calculator).
Hypothesis Hc : calculator_at h0 self = Some c.
Implicit Types (w : world R) (h : list (object R)) (r : ref).


Lemma base_length h : base h0 h -> (length h0 <= length h)%nat.
Proof.
  intros Hbase. destruct (decide (length h0 <= length h)%nat) as [|Hlt]; [done|].
  destruct (lookup_lt_is_Some_2 h0 (length h)) as [o Ho]; [lia|].
  apply Hbase in Ho. apply lookup_lt_Some in Ho. lia.
Qed.

(** [run_service] by its three folds. *)
Lemma run_service_folds scheme_name svc :
  let scanned := fold_left (scan_use_case c) (use_cases svc) (no_params, []) in
  let noo := len (use_cases svc) in
  let mf_sum := sum_values (param_access_count scanned.1) in
  let f := card (all_params scanned.1) in
  let lcom := lcom_of (R:=R) mf_sum noo f in
  let scored := fold_left (score_use_case (R:=R) c scanned.1) (use_cases svc) (0, []) in
  run_service c scheme_name svc
  = match fold_left (grade scored.1) scored.2 (inr (of_int 0, [])) with
    | inr (sgm, graded) =>
        {| run_rows := map (emit scheme_name (name svc) noo lcom sgm mf_sum noo f
                                 scored.1) graded;
           run_lcom := lcom; run_sgm := sgm; run_noo := noo; run_log := scanned.2;
           run_raised := None |}
    | inl e =>
        {| run_rows := []; run_lcom := lcom; run_sgm := of_int 0; run_noo := noo;
           run_log := scanned.2; run_raised := Some e |}
    end.
Proof.
  cbv zeta. unfold run_service.
  destruct (fold_left (scan_use_case c) (use_cases svc) (no_params, [])) as [p log].
  cbn [fst snd].
  destruct (fold_left (score_use_case c p) (use_cases svc) (0, [])) as [sw ds].
  reflexivity.
Qed.

(** One turn of the loop over services is one [process_service]. *)
Lemma service_body_run res sm scheme_name service svc :
  fresh h0 res -> fresh h0 sm ->
  service_at h0 service = Some svc ->
  forall w st out,
    base h0 (heap w) ->
    raised st = None ->
    state_at (heap w) res sm st ->
    stdout w = out ++ printed st ->
    exists w',
      service_body self res sm scheme_name service w
      = (match raised (process_service c scheme_name st svc) with
         | Some e => inl e
         | None => inr tt
         end, w')
      /\ stdout w' = out ++ printed (process_service c scheme_name st svc)
      /\ frame [res; sm] (heap w) (heap w')
      /\ (raised (process_service c scheme_name st svc) = None ->
          state_at (heap w') res sm (process_service c scheme_name st svc)).
Proof.
  intros Fres Fsm Hsvc w st out Hbase Hst (rrefs & Hres & Hrows & Hsm) Hout.
  destruct (service_at_entry _ _ _ Hsvc) as (ur & Hentry & Hucs).
  unfold service_body.
  rewrite (bind_inr _ _ _ _ _ (get_run _ _ _ (Hbase _ _ Hentry))).
  rewrite (bind_inr _ _ _ _ _ (get_strs_run _ _ _ (Hbase _ _ Hucs))).
  unfold process_service. rewrite Hst.
  remember (use_cases svc) as ul eqn:Hul.
  destruct ul as [|uc ucs].
  { eexists. split; [reflexivity|]. cbn [heap stdout printed raised results
                                        acc_ALCOM acc_ASGM acc_Max_NOO].
    split; [now rewrite Hout, app_assoc|]. split; [apply frame_refl|].
    intros _. now exists rrefs. }
  assert (Hne : use_cases svc ≠ []) by (now rewrite <- Hul).
  rewrite !Hul. rewrite Hul in Hucs. clear uc ucs Hul.
  pose proof (lookup_lt_Some _ _ _ Hres) as Lres.
  pose proof (lookup_lt_Some _ _ _ Hsm) as Lsm.
  assert (Nres : res ≠ sm) by (intros ->; congruence).
  rewrite (bind_inr _ _ _ _ _ (get_metrics_run _ _ _ Hsm)).
  cbn [SchemeMetrics.ALCOM SchemeMetrics.ASGM SchemeMetrics.Max_NOO].
  set (noo := len (use_cases svc)).
  set (w1 := {| heap := <[sm := MetricsEntry
                                 (SchemeMetrics.mk (acc_ALCOM st) (acc_ASGM st)
                                                   (Z.max (acc_Max_NOO st) noo))]>
                          (heap w);
                stdout := stdout w |}).
  match goal with
  | |- context [bind (put sm ?o) _ w] =>
      assert (Hput1 : put sm o w = (inr tt, w1)) by reflexivity
  end.
  rewrite (bind_inr _ _ _ _ _ Hput1).
  set (w2 := {| heap := heap w1 ++ [PySet ∅]; stdout := stdout w1 |}).
  assert (Hnew2 : new (PySet ∅) w1 = (inr (length (heap w1)), w2)) by reflexivity.
  rewrite (bind_inr _ _ _ _ _ Hnew2).
  set (w3 := {| heap := heap w2 ++ [IntDict ∅]; stdout := stdout w2 |}).
  assert (Hnew3 : new (IntDict ∅) w2 = (inr (length (heap w2)), w3)) by reflexivity.
  rewrite (bind_inr _ _ _ _ _ Hnew3).
  set (w4 := {| heap := heap w3 ++ [PySet ∅]; stdout := stdout w3 |}).
  assert (Hnew4 : new (PySet ∅) w3 = (inr (length (heap w3)), w4)) by reflexivity.
  rewrite (bind_inr _ _ _ _ _ Hnew4).
  set (w5 := {| heap := heap w4 ++ [PySet ∅]; stdout := stdout w4 |}).
  assert (Hnew5 : new (PySet ∅) w4 = (inr (length (heap w4)), w5)) by reflexivity.
  rewrite (bind_inr _ _ _ _ _ Hnew5).
  set (n := length (heap w)).
  assert (Eap : length (heap w1) = n) by (subst w1 n; cbn [heap]; heap_len; lia).
  assert (Epc : length (heap w2) = S n) by (subst w2; cbn [heap]; heap_len; rewrite Eap; lia).
  assert (Erp : length (heap w3) = S (S n)) by (subst w3; cbn [heap]; heap_len; rewrite Epc; lia).
  assert (Ewp : length (heap w4) = S (S (S n))) by (subst w4; cbn [heap]; heap_len; rewrite Erp; lia).
  rewrite Eap, Epc, Erp, Ewp.
  assert (Hframe5 : frame [sm] (heap w) (heap w5)).
  { subst w5 w4 w3 w2 w1. cbn [heap]. split; [heap_len; lia|].
    intros r o Hr Hnot. rewrite !not_elem_of_cons in Hnot.
    do 4 apply lookup_app_l_Some. rewrite list_lookup_insert_ne by (intros ->; tauto).
    exact Hr. }
  assert (Hframe15 : frame [] (heap w1) (heap w5)).
  { subst w5 w4 w3 w2. cbn [heap]. split; [heap_len; lia|].
    intros r o Hr _. now do 4 apply lookup_app_l_Some. }
  assert (Hn0 : (length h0 <= n)%nat) by (subst n; now apply base_length).
  assert (Hbase5 : base h0 (heap w5)).
  { apply (base_frame h0 [sm] (heap w)); [exact Hbase|exact Hframe5|].
    repeat constructor; assumption. }
  assert (Hat5 : params_at (heap w5) n (S n) (S (S n)) (S (S (S n))) no_params).
  { unfold params_at. cbn [no_params all_params param_access_count read_params write_params].
    rewrite <- Eap at 1. rewrite <- Epc at 1. rewrite <- Erp at 1. rewrite <- Ewp.
    subst w5 w4 w3 w2. cbn [heap]. repeat split; heap_find. }
  assert (Hnd : NoDup [n; S n; S (S n); S (S (S n))]).
  { repeat (apply NoDup_cons; split;
            [rewrite ?not_elem_of_cons; repeat split; try lia; apply not_elem_of_nil|]).
    apply NoDup_nil_2. }
  assert (Hfresh : Forall (fresh h0) [n; S n; S (S n); S (S (S n))]).
  { repeat constructor; unfold fresh; lia. }
  destruct (aggregate_loop h0 self c Hc n (S n) (S (S n)) (S (S (S n)))
              (use_cases svc) Hnd Hfresh w5 no_params (out ++ printed st) []
              Hbase5 Hat5)
    as (w6 & Hrun6 & Hout6 & Hframe6 & Hap6 & Hpc6 & Hrp6 & Hwp6).
  { subst w5 w4 w3 w2 w1. cbn [stdout]. now rewrite Hout, app_nil_r. }
  rewrite (bind_inr _ _ _ _ _ Hrun6).
  rewrite (run_service_folds scheme_name svc). cbv zeta.
  set (scanned := fold_left (scan_use_case c) (use_cases svc) (no_params, [])) in *.
  fold noo.
  rewrite (bind_inr _ _ _ _ _ (get_counts_run _ _ _ Hpc6)).
  rewrite (bind_inr _ _ _ _ _ (get_set_run _ _ _ Hap6)).
  set (mf_sum := sum_values (param_access_count scanned.1)).
  set (f := card (all_params scanned.1)).
  set (lcom := lcom_of (R:=R) mf_sum noo f).
  assert (Hbase6 : base h0 (heap w6))
    by exact (base_frame h0 _ _ _ Hbase5 Hframe6 Hfresh).
  set (w7 := {| heap := heap w6 ++ [PyList []]; stdout := stdout w6 |}).
  assert (Hnew7 : new (PyList []) w6 = (inr (length (heap w6)), w7)) by reflexivity.
  rewrite (bind_inr _ _ _ _ _ Hnew7).
  set (od := length (heap w6)).
  assert (Llen5 : length (heap w5) = S (S (S (S n))))
    by (subst w5; cbn [heap]; heap_len; rewrite Ewp; lia).
  pose proof (frame_length _ _ _ Hframe6) as Llen6. fold od in Llen6.
  assert (Fod : fresh h0 od) by (unfold fresh; lia).
  assert (Hbase7 : base h0 (heap w7)).
  { intros r o Hr. apply lookup_app_l_Some. now apply Hbase6. }
  assert (Llen7 : (n <= length (heap w7))%nat)
    by (subst w7; cbn [heap]; heap_len; lia).
  destruct (score_loop h0 self c Hc (S (S n)) (S (S (S n))) od scanned.1 n
              (use_cases svc) Fod w7 0 [] [] Hbase7)
    as (w8 & drefs & Hrun8 & Hout8 & Hframe8 & Hod8 & Hds8 & Hnd8 & Hfr8).
  { subst w7. heap_find. }
  { subst w7. heap_find. }
  { subst w7 od. heap_find. }
  { constructor. }
  { constructor. }
  { exact Llen7. }
  { constructor. }
  rewrite (bind_inr _ _ _ _ _ Hrun8).
  set (scored := fold_left (score_use_case c scanned.1) (use_cases svc) (0, [])) in *.
  rewrite (bind_inr _ _ _ _ _ (get_list_run _ _ _ Hod8)).
  destruct (grade_loop scored.1 drefs scored.2 w8 (of_int 0) [] Hds8 Hnd8)
    as (w9 & Hout9 & Hframe9 & Hrun9).
  assert (Hstdout9 : stdout w9 = out ++ printed st ++ scanned.2).
  { rewrite Hout9, Hout8. subst w7. cbn [stdout]. rewrite Hout6.
    now rewrite <- app_assoc. }
  (* what the turn left as it was, up to the grading loop *)
  assert (Hdrefs : forall r, r ∈ drefs -> r ∈ ([] : list nat) \/ (length (heap w1) <= r)%nat).
  { intros r Hr. right. rewrite Forall_forall in Hfr8. rewrite Eap. now apply Hfr8. }
  assert (Hf19 : frame [] (heap w1) (heap w9)).
  { eapply frame_step; [|exact Hframe9|exact Hdrefs].
    eapply frame_step; [|exact Hframe8|].
    2:{ intros r Hr. right. apply list_elem_of_singleton in Hr as ->. rewrite Eap. lia. }
    eapply frame_step; [|apply (frame_new [] (heap w6) (PyList []))|].
    2:{ intros r Hr. now apply elem_of_nil in Hr. }
    eapply frame_step; [exact Hframe15|exact Hframe6|].
    intros r Hr. right. rewrite Eap.
    rewrite !elem_of_cons, elem_of_nil in Hr. lia. }
  assert (Hf9 : frame [sm] (heap w) (heap w9)).
  { eapply frame_step; [|exact Hf19|].
    - subst w1. cbn [heap]. apply frame_put, list_elem_of_here.
    - intros r Hr. now apply elem_of_nil in Hr. }
  assert (Hsm9 : heap w9 !! sm
                 = Some (MetricsEntry (SchemeMetrics.mk (acc_ALCOM st) (acc_ASGM st)
                                                        (Z.max (acc_Max_NOO st) noo)))).
  { apply (frame_lookup [] (heap w1)); [exact Hf19| |apply not_elem_of_nil].
    subst w1. heap_find. }
  assert (Hnot_sm : res ∉ [sm])
    by (rewrite not_elem_of_cons; split; [exact Nres|apply not_elem_of_nil]).
  assert (Hnot_res : sm ∉ [res])
    by (rewrite not_elem_of_cons; split; [congruence|apply not_elem_of_nil]).
  assert (Hres9 : heap w9 !! res = Some (PyList rrefs))
    by exact (frame_lookup _ _ _ _ _ Hf9 Hres Hnot_sm).
  assert (Hrows9 : rows_at (heap w9) rrefs (results st)).
  { apply (Forall2_frame RowEntry [sm] (heap w)); [exact Hf9| |exact Hrows].
    intros q Hq. apply list_elem_of_singleton in Hq as ->.
    exact (Forall2_other RowEntry _ _ _ _ _ Hrows Hsm ltac:(discriminate)). }
  destruct (fold_left (grade scored.1) scored.2 (inr (of_int 0, []))) as [e|[sgm gs]].
  - exists w9. cbn [raised run_raised printed run_log].
    split; [now apply bind_inl|]. split; [exact Hstdout9|].
    split; [|intros Hcontra; discriminate Hcontra].
    apply (frame_weaken [sm]); [exact Hf9|].
    intros r Hr. now apply list_elem_of_further.
  - destruct Hrun9 as (Hrun9 & graded & Hgs & Hgraded). cbn [app] in Hgs. subst gs.
    rewrite (bind_inr _ _ _ _ _ Hrun9).
    assert (Hod9 : heap w9 !! od = Some (PyList drefs)).
    { apply (frame_lookup drefs (heap w8)); [exact Hframe9|exact Hod8|].
      exact (Forall2_other (fun d => DetailEntry d None None) _ _ _ _ _ Hds8 Hod8
               ltac:(discriminate)). }
    rewrite (bind_inr _ _ _ _ _ (get_list_run _ _ _ Hod9)).
    destruct (emit_loop res scheme_name (name svc) noo lcom sgm mf_sum noo f scored.1
                drefs graded w9 rrefs (results st) Hgraded Hres9 Hrows9)
      as (w10 & rrefs' & Hrun10 & Hout10 & Hframe10 & Hres10 & Hrows10).
    rewrite (bind_inr _ _ _ _ _ Hrun10).
    pose proof (frame_lookup _ _ _ _ _ Hframe10 Hsm9 Hnot_res) as Hsm10.
    pose proof (lookup_lt_Some _ _ _ Hsm10) as Lsm10.
    rewrite (bind_inr _ _ _ _ _ (get_metrics_run _ _ _ Hsm10)).
    cbn [SchemeMetrics.ALCOM SchemeMetrics.ASGM SchemeMetrics.Max_NOO].
    match goal with
    | |- context [bind (put sm ?o) _ w10] =>
        set (o11 := o);
        set (w11 := {| heap := <[sm := o11]> (heap w10); stdout := stdout w10 |});
        assert (Hput11 : put sm o11 w10 = (inr tt, w11)) by reflexivity
    end.
    rewrite (bind_inr _ _ _ _ _ Hput11).
    assert (Hsm11 : heap w11 !! sm = Some o11) by (subst w11; heap_find).
    subst o11.
    rewrite (bind_inr _ _ _ _ _ (get_metrics_run _ _ _ Hsm11)).
    cbn [SchemeMetrics.ALCOM SchemeMetrics.ASGM SchemeMetrics.Max_NOO].
    eexists. split; [reflexivity|].
    cbn [raised run_raised printed run_log results run_rows acc_ALCOM acc_ASGM
         acc_Max_NOO run_lcom run_sgm run_noo].
    subst w11. cbn [heap stdout].
    split; [now rewrite Hout10|].
    assert (Hf10 : frame [res; sm] (heap w) (heap w10)).
    { eapply frame_step; [|exact Hframe10|].
      - apply (frame_weaken [sm]); [exact Hf9|].
        intros r Hr. now apply list_elem_of_further.
      - intros r Hr. left. apply list_elem_of_singleton in Hr as ->.
        apply list_elem_of_here. }
    split.
    { eapply frame_step; [exact Hf10| |].
      - eapply frame_step; [apply (frame_put [sm]), list_elem_of_here
                           |apply (frame_put [sm]), list_elem_of_here|now left].
      - intros r Hr. left. now apply list_elem_of_further. }
    intros _. exists rrefs'.
    assert (Hsm_rrefs : sm ∉ rrefs')
      by exact (Forall2_other RowEntry _ _ _ _ _ Hrows10 Hsm10 ltac:(discriminate)).
    split; [heap_find|]. split; [|heap_find].
    apply (Forall2_frame RowEntry [sm] (heap w10)); [| |exact Hrows10].
    + eapply frame_step; [apply (frame_put [sm]), list_elem_of_here
                         |apply (frame_put [sm]), list_elem_of_here|now left].
    + intros q Hq. now apply list_elem_of_singleton in Hq as ->.
Qed.

(** The loop over services computes what [process_service] folds to, and
    stops where it raises. *)
Lemma service_loop res sm scheme_name items services :
  fresh h0 res -> fresh h0 sm ->
  Forall2 (fun item svc => service_at h0 item = Some svc) items services ->
  forall w st out,
    base h0 (heap w) ->
    raised st = None ->
    state_at (heap w) res sm st ->
    stdout w = out ++ printed st ->
    exists w',
      for_each items (service_body self res sm scheme_name) w
      = (match raised (fold_left (process_service c scheme_name) services st) with
         | Some e => inl e
         | None => inr tt
         end, w')
      /\ stdout w'
         = out ++ printed (fold_left (process_service c scheme_name) services st)
      /\ frame [res; sm] (heap w) (heap w')
      /\ (raised (fold_left (process_service c scheme_name) services st) = None ->
          state_at (heap w') res sm
                   (fold_left (process_service c scheme_name) services st)).
Proof.
  intros Fres Fsm Hitems.
  induction Hitems as [|item svc items services Hsvc _ IH];
    intros w st out Hbase Hst Hat Hout.
  - exists w. cbn [for_each fold_left]. rewrite Hst.
    split; [reflexivity|]. split; [exact Hout|]. split; [apply frame_refl|].
    now intros _.
  - cbn [for_each fold_left].
    destruct (service_body_run res sm scheme_name item svc Fres Fsm Hsvc w st out
                Hbase Hst Hat Hout)
      as (w1 & Hrun1 & Hout1 & Hframe1 & Hat1).
    destruct (raised (process_service c scheme_name st svc)) as [e|] eqn:Hraised.
    + exists w1. rewrite (services_fold_raised c scheme_name services _ e Hraised).
      rewrite Hraised. split; [now apply bind_inl|]. split; [exact Hout1|].
      split; [exact Hframe1|]. intros Hcontra. discriminate Hcontra.
    + rewrite (bind_inr _ _ _ _ _ Hrun1).
      assert (Hbase1 : base h0 (heap w1)).
      { apply (base_frame h0 [res; sm] (heap w)); [exact Hbase|exact Hframe1|].
        repeat constructor; assumption. }
      destruct (IH w1 _ out Hbase1 Hraised (Hat1 eq_refl) Hout1)
        as (w' & Hrun & Hout' & Hframe & Hat').
      exists w'. split; [exact Hrun|]. split; [exact Hout'|]. split; [|exact Hat'].
      eapply frame_step; [exact Hframe1|exact Hframe|now left].
Qed.

(** A call of [calculate_scheme_metrics] on the list object [services]
    raises or returns what the method does on the list it stands for;
    what it needs besides its two results it allocates. *)
Lemma calculate_scheme_metrics_on_run scheme_name sr items services :
  Forall2 (fun item svc => service_at h0 item = Some svc) items services ->
  forall w,
    base h0 (heap w) ->
    heap w !! sr = Some (PyList items) ->
    exists w',
      stdout w' = stdout w ++ (calculate_scheme_metrics (R:=R) c scheme_name services).2
      /\ frame [] (heap w) (heap w')
      /\ match (calculate_scheme_metrics (R:=R) c scheme_name services).1 with
         | inl e => calculate_scheme_metrics_on self scheme_name sr w = (inl e, w')
         | inr (rows, metrics) =>
             exists res sm rrefs,
               calculate_scheme_metrics_on self scheme_name sr w = (inr (res, sm), w')
               /\ heap w' !! res = Some (PyList rrefs)
               /\ rows_at (heap w') rrefs rows
               /\ heap w' !! sm = Some (MetricsEntry metrics)
         end.
Proof.
  intros Hitems w Hbase Hsr. unfold calculate_scheme_metrics_on.
  rewrite (bind_inr _ _ _ _ _ (get_list_run _ _ _ Hsr)).
  unfold calculate_scheme_metrics.
  destruct Hitems as [|item svc items services Hsvc Hitems].
  { exists w. cbn [fst snd]. split; [now rewrite app_nil_r|].
    split; [apply frame_refl|reflexivity]. }
  set (all_items := item :: items). set (all_services := svc :: services).
  assert (Hall : Forall2 (fun item svc => service_at h0 item = Some svc)
                         all_items all_services) by now constructor.
  assert (Hcount : len all_items = len all_services).
  { unfold len. now rewrite (Forall2_length _ _ _ Hall). }
  assert (Hpos : (0 <? len all_services) = true).
  { apply Z.ltb_lt. unfold len, all_services. cbn [length]. lia. }
  rewrite Hcount, Hpos.
  set (w1 := {| heap := heap w ++ [PyList []]; stdout := stdout w |}).
  assert (Hnew1 : new (PyList []) w = (inr (length (heap w)), w1)) by reflexivity.
  rewrite (bind_inr _ _ _ _ _ Hnew1).
  set (o2 := MetricsEntry (SchemeMetrics.mk (of_int (R:=R) 0) (of_int 0) 0)).
  set (w2 := {| heap := heap w1 ++ [o2]; stdout := stdout w1 |}).
  assert (Hnew2 : new o2 w1 = (inr (length (heap w1)), w2)) by reflexivity.
  rewrite (bind_inr _ _ _ _ _ Hnew2).
  set (res := length (heap w)). set (sm := length (heap w1)).
  assert (Esm : sm = S res) by (subst sm res w1; cbn [heap]; heap_len; lia).
  pose proof (base_length _ Hbase) as Hlen0. fold res in Hlen0.
  assert (Fres : fresh h0 res) by exact Hlen0.
  assert (Fsm : fresh h0 sm) by (unfold fresh; lia).
  assert (Hbase2 : base h0 (heap w2)).
  { intros r o Hr. subst w2 w1. cbn [heap]. do 2 apply lookup_app_l_Some.
    now apply Hbase. }
  destruct (service_loop res sm scheme_name all_items all_services Fres Fsm Hall
              w2 scheme_start (stdout w) Hbase2 eq_refl)
    as (w3 & Hrun3 & Hout3 & Hframe3 & Hat3).
  { exists []. subst w2 w1 res sm o2. cbn [heap scheme_start results acc_ALCOM
                                            acc_ASGM acc_Max_NOO].
    split; [heap_find|]. split; [constructor|heap_find]. }
  { cbn [scheme_start printed]. now rewrite app_nil_r. }
  set (st := fold_left (process_service c scheme_name) all_services scheme_start) in *.
  assert (Hf3 : frame [] (heap w) (heap w3)).
  { eapply frame_step; [|exact Hframe3|].
    - subst w2 w1. cbn [heap]. split; [heap_len; lia|].
      intros r o Hr _. now do 2 apply lookup_app_l_Some.
    - intros r Hr. right. rewrite !elem_of_cons, elem_of_nil in Hr. lia. }
  destruct (raised st) as [e|] eqn:Hraised.
  - exists w3. cbn [fst snd]. split; [exact Hout3|]. split; [exact Hf3|].
    now apply bind_inl.
  - rewrite (bind_inr _ _ _ _ _ Hrun3).
    destruct (Hat3 eq_refl) as (rrefs & Hres3 & Hrows3 & Hsm3).
    pose proof (lookup_lt_Some _ _ _ Hsm3) as Lsm3.
    cbn [fst snd].
    set (final := MetricsEntry
                    (SchemeMetrics.mk (acc_ALCOM st / of_int (len all_services))%num
                                      (acc_ASGM st / of_int (len all_services))%num
                                      (acc_Max_NOO st))).
    match goal with
    | |- context [bind ?blk (fun _ => ret (res, sm)) w3] =>
        assert (Hblock : exists o4,
                   blk w3 = (inr tt, {| heap := <[sm := final]> (<[sm := o4]> (heap w3));
                                        stdout := stdout w3 |}))
    end.
    { rewrite (bind_inr _ _ _ _ _ (get_metrics_run _ _ _ Hsm3)).
      cbn [SchemeMetrics.ALCOM SchemeMetrics.ASGM SchemeMetrics.Max_NOO].
      match goal with
      | |- context [bind (put sm ?o) _ w3] =>
          set (o4 := o);
          set (w4 := {| heap := <[sm := o4]> (heap w3); stdout := stdout w3 |});
          assert (Hput4 : put sm o4 w3 = (inr tt, w4)) by reflexivity
      end.
      rewrite (bind_inr _ _ _ _ _ Hput4).
      assert (Hsm4 : heap w4 !! sm = Some o4) by (subst w4; heap_find).
      subst o4.
      rewrite (bind_inr _ _ _ _ _ (get_metrics_run _ _ _ Hsm4)).
      eexists. reflexivity. }
    destruct Hblock as (o4 & Hblock).
    rewrite (bind_inr _ _ _ _ _ Hblock).
    exists {| heap := <[sm := final]> (<[sm := o4]> (heap w3)); stdout := stdout w3 |}.
    cbn [heap stdout].
    split; [exact Hout3|].
    assert (Hres_sm : res ≠ sm) by lia.
    assert (Hsm_rrefs : sm ∉ rrefs)
      by exact (Forall2_other RowEntry _ _ _ _ _ Hrows3 Hsm3 ltac:(discriminate)).
    assert (Hputs : frame [sm] (heap w3) (<[sm := final]> (<[sm := o4]> (heap w3)))).
    { eapply frame_step; [apply (frame_put [sm]), list_elem_of_here
                         |apply (frame_put [sm]), list_elem_of_here|now left]. }
    split.
    { eapply frame_step; [exact Hf3|exact Hputs|].
      intros r Hr. right. apply list_elem_of_singleton in Hr as ->. lia. }
    exists res, sm, rrefs. split; [reflexivity|].
    split; [heap_find|]. split; [|heap_find].
    apply (Forall2_frame RowEntry [sm] (heap w3)); [exact Hputs| |exact Hrows3].
    intros q Hq. now apply list_elem_of_singleton in Hq as ->.
Qed.

End Schemes.




(** *** The batch *)

Section Batch.
Context {R : Type} `{PyNum R}.
Variables (h0 : list (object R)) (self : ref) (c : calculator).
Hypothesis Hc : calculator_at h0 self = Some c.
Implicit Types (w : world R) (h : list (object R)) (r : ref).


(** One turn of the loop over schemes, with its [try], is one
    [process_scheme]. *)
Lemma scheme_turn ar ss (item : string * ref) (kv : string * list service) :
  fresh h0 ar -> fresh h0 ss -> ar ≠ ss ->
  item.1 = kv.1 -> scheme_at h0 item.2 = Some kv.2 ->
  forall w st out,
    base h0 (heap w) ->
    batch_at (heap w) ar ss st ->
    stdout w = out ++ batch_log st ->
    exists w',
      try_except (scheme_body self ar ss item.1 item.2)
                 (fun e => print (error_line item.1 e)) w
      = (inr tt, w')
      /\ stdout w' = out ++ batch_log (process_scheme c st kv)
      /\ frame [ar; ss] (heap w) (heap w')
      /\ batch_at (heap w') ar ss (process_scheme c st kv).
Proof.
  intros Far Fss Nar Hname Hscheme w st out Hbase
         (arefs & srefs & Har & Hrows & Hss & Hsums) Hout.
  destruct item as [scheme_name scheme_data]. destruct kv as [scheme_name' services].
  cbn [fst snd] in *. subst scheme_name'.
  destruct (scheme_at_entry _ _ _ Hscheme) as (sr & items & Hentry & Hsr & Hitems).
  set (w1 := {| heap := heap w;
                stdout := stdout w ++ [("Calculating metrics for scheme: " ++ scheme_name)%string] |}).
  assert (Hbase1 : base h0 (heap w1)) by exact Hbase.
  destruct (calculate_scheme_metrics_on_run h0 self c Hc scheme_name sr items services
              Hitems w1 Hbase1 (Hbase _ _ Hsr))
    as (w2 & Hout2 & Hframe2 & Hcall).
  assert (Hbody : scheme_body self ar ss scheme_name scheme_data w
                  = bind (calculate_scheme_metrics_on self scheme_name sr)
                         (fun returned =>
                            scheme_results <- get_list returned.1 ;;
                            list_extend ar scheme_results ;;
                            sm <- get_metrics returned.2 ;;
                            row <- new (SummaryEntry
                                          (Summary.mk scheme_name (SchemeMetrics.ALCOM sm)
                                                      (SchemeMetrics.ASGM sm)
                                                      (SchemeMetrics.Max_NOO sm))) ;;
                            list_append ss row) w1).
  { unfold scheme_body.
    assert (Hprint : print (R:=R) ("Calculating metrics for scheme: " ++ scheme_name)%string w
                     = (inr tt, w1)) by reflexivity.
    rewrite (bind_inr _ _ _ _ _ Hprint).
    now rewrite (bind_inr _ _ _ _ _ (get_run _ _ _ (Hbase1 _ _ Hentry))). }
  unfold try_except. rewrite Hbody. clear Hbody.
  unfold process_scheme.
  destruct (calculate_scheme_metrics c scheme_name services)
    as [[e|[rows metrics]] out_s]; cbn [fst snd] in Hout2, Hcall.
  - rewrite (bind_inl _ _ _ _ _ Hcall).
    eexists. split; [reflexivity|]. cbn [heap stdout batch_log all_results scheme_summary].
    split.
    { rewrite Hout2. subst w1. cbn [stdout]. rewrite Hout.
      unfold error_line. now rewrite <- !app_assoc. }
    split.
    { apply (frame_weaken []); [exact Hframe2|]. intros r Hr. now apply elem_of_nil in Hr. }
    exists arefs, srefs.
    split; [exact (frame_lookup _ _ _ _ _ Hframe2 Har (not_elem_of_nil _))|].
    split.
    { apply (Forall2_frame RowEntry [] (heap w)); [exact Hframe2| |exact Hrows].
      intros q Hq. now apply elem_of_nil in Hq. }
    split; [exact (frame_lookup _ _ _ _ _ Hframe2 Hss (not_elem_of_nil _))|].
    apply (Forall2_frame SummaryEntry [] (heap w)); [exact Hframe2| |exact Hsums].
    intros q Hq. now apply elem_of_nil in Hq.
  - destruct Hcall as (res & sm & rrefs & Hrun & Hres & Hrrows & Hsm).
    rewrite (bind_inr _ _ _ _ _ Hrun). cbn [fst snd].
    rewrite (bind_inr _ _ _ _ _ (get_list_run _ _ _ Hres)).
    pose proof (frame_lookup _ _ _ _ _ Hframe2 Har (not_elem_of_nil _)) as Har2.
    pose proof (frame_lookup _ _ _ _ _ Hframe2 Hss (not_elem_of_nil _)) as Hss2.
    pose proof (lookup_lt_Some _ _ _ Har2) as Lar2.
    pose proof (lookup_lt_Some _ _ _ Hss2) as Lss2.
    pose proof (lookup_lt_Some _ _ _ Hsm) as Lsm.
    assert (Hrows2 : rows_at (heap w2) arefs (all_results st)).
    { apply (Forall2_frame RowEntry [] (heap w)); [exact Hframe2| |exact Hrows].
      intros q Hq. now apply elem_of_nil in Hq. }
    assert (Hsums2 : summaries_at (heap w2) srefs (scheme_summary st)).
    { apply (Forall2_frame SummaryEntry [] (heap w)); [exact Hframe2| |exact Hsums].
      intros q Hq. now apply elem_of_nil in Hq. }
    rewrite (bind_inr _ _ _ _ _ (list_extend_run _ _ _ _ Har2)).
    set (w3 := {| heap := <[ar := PyList (arefs ++ rrefs)]> (heap w2);
                  stdout := stdout w2 |}).
    assert (Nsm : sm ≠ ar) by (intros ->; congruence).
    assert (Hsm3 : heap w3 !! sm = Some (MetricsEntry metrics))
      by (subst w3; heap_find).
    rewrite (bind_inr _ _ _ _ _ (get_metrics_run _ _ _ Hsm3)).
    set (row := SummaryEntry (Summary.mk scheme_name (SchemeMetrics.ALCOM metrics)
                                         (SchemeMetrics.ASGM metrics)
                                         (SchemeMetrics.Max_NOO metrics))).
    set (w4 := {| heap := heap w3 ++ [row]; stdout := stdout w3 |}).
    assert (Hnew4 : new row w3 = (inr (length (heap w3)), w4)) by reflexivity.
    rewrite (bind_inr _ _ _ _ _ Hnew4).
    erewrite (list_append_run _ _ w4 srefs) by (subst w4 w3; heap_find).
    eexists. split; [reflexivity|].
    subst w4 w3. cbn [heap stdout batch_log all_results scheme_summary].
    split.
    { rewrite Hout2. subst w1. cbn [stdout]. rewrite Hout. now rewrite <- !app_assoc. }
    assert (Hputs : frame [ar; ss] (heap w2)
                      (<[ss := PyList (srefs ++ [length (<[ar := PyList (arefs ++ rrefs)]>
                                                           (heap w2))])]>
                         (<[ar := PyList (arefs ++ rrefs)]> (heap w2) ++ [row]))).
    { split; [heap_len; lia|]. intros r o Hr Hnot.
      rewrite !not_elem_of_cons in Hnot. destruct Hnot as (N1 & N2 & _).
      rewrite list_lookup_insert_ne by congruence. apply lookup_app_l_Some.
      rewrite list_lookup_insert_ne by congruence. exact Hr. }
    split.
    { eapply frame_step; [|exact Hputs|now left].
      apply (frame_weaken []); [exact Hframe2|]. intros r Hr. now apply elem_of_nil in Hr. }
    assert (Hkeep : forall {A} (f : A -> object R) refs xs,
               Forall2 (fun r x => heap w2 !! r = Some (f x)) refs xs ->
               (forall x l, f x ≠ PyList l) ->
               Forall2 (fun r x =>
                          (<[ss := PyList (srefs ++ [length (<[ar := PyList (arefs ++ rrefs)]>
                                                               (heap w2))])]>
                             (<[ar := PyList (arefs ++ rrefs)]> (heap w2) ++ [row]))
                          !! r = Some (f x)) refs xs).
    { intros A f refs xs Hall Hf.
      apply (Forall2_frame f [ar; ss] (heap w2)); [exact Hputs| |exact Hall].
      intros q Hq. rewrite !elem_of_cons, elem_of_nil in Hq.
      destruct Hq as [->|[->|[]]].
      - exact (Forall2_other f _ _ _ _ _ Hall Har2 ltac:(intros x Heq; exact (Hf x _ (eq_sym Heq)))).
      - exact (Forall2_other f _ _ _ _ _ Hall Hss2 ltac:(intros x Heq; exact (Hf x _ (eq_sym Heq)))). }
    exists (arefs ++ rrefs), (srefs ++ [length (<[ar := PyList (arefs ++ rrefs)]> (heap w2))]).
    split; [heap_find|].
    split.
    { apply Forall2_app; apply (Hkeep _ RowEntry); try assumption; discriminate. }
    split; [heap_find|].
    apply Forall2_app; [apply (Hkeep _ SummaryEntry); [assumption|discriminate]|].
    constructor; [|constructor]. subst row. heap_find.
Qed.

End Batch.

Section Calls.
Context {R : Type} `{PyNum R}.
Implicit Types (w : world R) (h : list (object R)) (r : ref).

(** The loop over schemes computes what [process_scheme] folds to. *)
Lemma scheme_loop h0 self c (Hc : calculator_at h0 self = Some c) ar ss items kvs :
  fresh h0 ar -> fresh h0 ss -> ar ≠ ss ->
  Forall2 (fun item kv => item.1 = kv.1 /\ scheme_at h0 item.2 = Some kv.2) items kvs ->
  forall w st out,
    base h0 (heap w) ->
    batch_at (heap w) ar ss st ->
    stdout w = out ++ batch_log st ->
    exists w',
      for_each items (fun item =>
        try_except (scheme_body self ar ss item.1 item.2)
                   (fun e => print (error_line item.1 e))) w
      = (inr tt, w')
      /\ stdout w' = out ++ batch_log (fold_left (process_scheme c) kvs st)
      /\ frame [ar; ss] (heap w) (heap w')
      /\ batch_at (heap w') ar ss (fold_left (process_scheme c) kvs st).
Proof.
  intros Far Fss Nar Hitems.
  induction Hitems as [|item kv items kvs [Hname Hscheme] _ IH];
    intros w st out Hbase Hat Hout.
  - exists w. split; [reflexivity|]. split; [exact Hout|].
    split; [apply frame_refl|exact Hat].
  - cbn [for_each fold_left].
    destruct (scheme_turn h0 self c Hc ar ss item kv Far Fss Nar Hname Hscheme
                w st out Hbase Hat Hout)
      as (w1 & Hrun1 & Hout1 & Hframe1 & Hat1).
    rewrite (bind_inr _ _ _ _ _ Hrun1).
    assert (Hbase1 : base h0 (heap w1)).
    { apply (base_frame h0 [ar; ss] (heap w)); [exact Hbase|exact Hframe1|].
      repeat constructor; assumption. }
    destruct (IH w1 _ out Hbase1 Hat1 Hout1) as (w' & Hrun & Hout' & Hframe & Hat').
    exists w'. split; [exact Hrun|]. split; [exact Hout'|]. split; [|exact Hat'].
    eapply frame_step; [exact Hframe1|exact Hframe|now left].
Qed.

(** The data frames hold the rows by value. *)
Lemma rows_frame_run l w refs rows :
  heap w !! l = Some (PyList refs) ->
  rows_at (heap w) refs rows ->
  rows_frame l w = (inr rows, w).
Proof.
  intros Hl Hrows. unfold rows_frame.
  rewrite (bind_inr _ _ _ _ _ (get_list_run _ _ _ Hl)).
  match goal with
  | |- for_fold refs [] ?body w = _ =>
      assert (Hgen : forall acc, for_fold refs acc body w = (inr (acc ++ rows), w))
  end.
  { clear Hl. induction Hrows as [|r row refs rows Hr _ IH]; intros acc.
    - cbn [for_fold]. now rewrite app_nil_r.
    - cbn [for_fold].
      erewrite bind_inr
        by (rewrite (bind_inr _ _ _ _ _ (get_run _ _ _ Hr)); reflexivity).
      rewrite IH. now rewrite <- app_assoc. }
  exact (Hgen []).
Qed.

Lemma summary_frame_run l w refs rows :
  heap w !! l = Some (PyList refs) ->
  summaries_at (heap w) refs rows ->
  summary_frame l w = (inr rows, w).
Proof.
  intros Hl Hrows. unfold summary_frame.
  rewrite (bind_inr _ _ _ _ _ (get_list_run _ _ _ Hl)).
  match goal with
  | |- for_fold refs [] ?body w = _ =>
      assert (Hgen : forall acc, for_fold refs acc body w = (inr (acc ++ rows), w))
  end.
  { clear Hl. induction Hrows as [|r row refs rows Hr _ IH]; intros acc.
    - cbn [for_fold]. now rewrite app_nil_r.
    - cbn [for_fold].
      erewrite bind_inr
        by (rewrite (bind_inr _ _ _ _ _ (get_run _ _ _ Hr)); reflexivity).
      rewrite IH. now rewrite <- app_assoc. }
  exact (Hgen []).
Qed.

(** A call of [calculate_metrics] on an instance returns and prints what
    the method does on the calculator the instance stands for, and leaves
    every object there was as it was. *)
Lemma calculate_metrics_on_run self c w :
  calculator_at (heap w) self = Some c ->
  exists w',
    calculate_metrics_on self w = (inr (calculate_metrics (R:=R) c).1, w')
    /\ stdout w' = stdout w ++ (calculate_metrics (R:=R) c).2
    /\ frame [] (heap w) (heap w').
Proof.
  intros Hc. unfold calculate_metrics_on.
  set (w1 := {| heap := heap w ++ [PyList []]; stdout := stdout w |}).
  assert (Hnew1 : new (PyList []) w = (inr (length (heap w)), w1)) by reflexivity.
  rewrite (bind_inr _ _ _ _ _ Hnew1).
  set (w2 := {| heap := heap w1 ++ [PyList []]; stdout := stdout w1 |}).
  assert (Hnew2 : new (PyList []) w1 = (inr (length (heap w1)), w2)) by reflexivity.
  rewrite (bind_inr _ _ _ _ _ Hnew2).
  set (ar := length (heap w)). set (ss := length (heap w1)).
  assert (Ess : ss = S ar) by (subst ss ar w1; cbn [heap]; heap_len; lia).
  assert (Hbase2 : base (heap w) (heap w2)).
  { intros r o Hr. subst w2 w1. cbn [heap]. now do 2 apply lookup_app_l_Some. }
  assert (Hf2 : frame [] (heap w) (heap w2)).
  { subst w2 w1. cbn [heap]. split; [heap_len; lia|].
    intros r o Hr _. now do 2 apply lookup_app_l_Some. }
  destruct (self_schemes_run (heap w) self c Hc w2 Hbase2) as (items & Hrun & Hitems).
  rewrite (bind_inr _ _ _ _ _ Hrun).
  unfold calculate_metrics.
  destruct Hitems as [|item kv items kvs Hitem Hitems].
  { eexists. split; [reflexivity|]. cbn [heap stdout fst snd].
    split; [reflexivity|exact Hf2]. }
  set (all_items := item :: items). set (all_kvs := kv :: kvs).
  assert (Hall : Forall2 (fun item kv => item.1 = kv.1
                                         /\ scheme_at (heap w) item.2 = Some kv.2)
                         all_items all_kvs) by now constructor.
  destruct (scheme_loop (heap w) self c Hc ar ss all_items all_kvs) with
    (w := w2) (st := {| all_results := @nil (Row.t R); scheme_summary := [];
                        batch_log := [] |}) (out := stdout w)
    as (w3 & Hrun3 & Hout3 & Hframe3 & arefs & srefs & Har & Hrows & Hss & Hsums);
    try (unfold fresh; lia); try assumption.
  { exists [], []. subst w2 w1 ar ss. cbn [heap all_results scheme_summary].
    split; [heap_find|]. split; [constructor|]. split; [heap_find|constructor]. }
  { cbn [batch_log]. now rewrite app_nil_r. }
  rewrite (bind_inr _ _ _ _ _ Hrun3).
  rewrite (bind_inr _ _ _ _ _ (rows_frame_run _ _ _ _ Har Hrows)).
  rewrite (bind_inr _ _ _ _ _ (summary_frame_run _ _ _ _ Hss Hsums)).
  exists w3. split; [reflexivity|]. cbn [fst snd]. split; [exact Hout3|].
  eapply frame_step; [exact Hf2|exact Hframe3|].
  intros r Hr. right. rewrite !elem_of_cons, elem_of_nil in Hr. lia.
Qed.

(** What an instance stands for is read from the objects it reaches: it
    stands for the same calculator as long as these are as they were. *)
Lemma mapM_keep {A B} (f g : A -> option B) (l : list A) (k : list B) :
  (forall x y, f x = Some y -> g x = Some y) ->
  mapM f l = Some k -> mapM g l = Some k.
Proof.
  intros Hfg Hl. apply mapM_Some_2. apply mapM_Some_1 in Hl.
  eapply Forall2_impl; [exact Hl|]. exact Hfg.
Qed.

Section Keep.
Variables h h' : list (object R).
Hypothesis Hkeep : base h h'.

Lemma strs_at_keep r l : strs_at h r = Some l -> strs_at h' r = Some l.
Proof.
  intros Hl. apply strs_at_entry in Hl. unfold strs_at. now rewrite (Hkeep _ _ Hl).
Qed.

Lemma operation_at_keep r op : operation_at h r = Some op -> operation_at h' r = Some op.
Proof.
  intros Hop. destruct (operation_at_entry _ _ _ Hop) as (rd & wr & He & Hrd & Hwr).
  unfold operation_at, strs_at.
  rewrite (Hkeep _ _ He), (Hkeep _ _ Hrd), (Hkeep _ _ Hwr). now destruct op.
Qed.

Lemma service_at_keep r svc : service_at h r = Some svc -> service_at h' r = Some svc.
Proof.
  intros Hsvc. destruct (service_at_entry _ _ _ Hsvc) as (ucs & He & Hucs).
  unfold service_at, strs_at. rewrite (Hkeep _ _ He), (Hkeep _ _ Hucs). now destruct svc.
Qed.

Lemma scheme_at_keep r services :
  scheme_at h r = Some services -> scheme_at h' r = Some services.
Proof.
  intros Hs. destruct (scheme_at_entry _ _ _ Hs) as (sr & items & He & Hsr & Hitems).
  unfold scheme_at, services_at. rewrite (Hkeep _ _ He), (Hkeep _ _ Hsr).
  apply mapM_Some_2. eapply Forall2_impl; [exact Hitems|].
  intros item svc. apply service_at_keep.
Qed.

Lemma dict_at_keep {A} (value_at value_at' : ref -> option A) r l :
  (forall q a, value_at q = Some a -> value_at' q = Some a) ->
  dict_at h value_at r = Some l -> dict_at h' value_at' r = Some l.
Proof.
  intros Hvalue Hl. unfold dict_at in *.
  destruct (h !! r) as [[| items | | | | | | | | | | | |]|] eqn:Hr; try discriminate Hl.
  rewrite (Hkeep _ _ Hr). revert Hl. apply mapM_keep.
  intros item kv. destruct (value_at item.2) as [a|] eqn:Ha; [|discriminate].
  now rewrite (Hvalue _ _ Ha).
Qed.

Lemma calculator_at_keep self c :
  calculator_at h self = Some c -> calculator_at h' self = Some c.
Proof.
  intros Hc.
  destruct (resident_instance h self c Hc)
    as (e & o & t & wt & s & ents & ops & Hself & He & Ho & Ht & Hwt & Hs & Hents & Hops).
  unfold calculator_at.
  rewrite (Hkeep _ _ Hself).
  rewrite (dict_at_keep _ _ _ _ strs_at_keep He).
  rewrite (dict_at_keep _ _ _ _ operation_at_keep Ho).
  rewrite (Hkeep _ _ Ht), (Hkeep _ _ Hwt).
  rewrite (dict_at_keep _ _ _ _ scheme_at_keep Hs).
  rewrite <- Hents, <- Hops. now destruct c.
Qed.

End Keep.

Lemma frame_base h h' : frame [] h h' -> base h h'.
Proof. intros Hframe r o Hr. exact (frame_lookup _ _ _ _ _ Hframe Hr (not_elem_of_nil _)). Qed.

End Calls.

(** C9: a call of [calculate_metrics] on an instance changes no object
    that there was before the call: neither the instance nor any list or
    dictionary its attributes reach, so that the instance stands for the
    same entity catalogue, operations, type map, weight table and schemes
    after the call as before; every update the two methods make is to an
    object created within the call.  The call returns the two collections
    and prints the lines that [calculate_metrics] computes from these five
    attributes, and so does a second call on the same instance: its
    collections are equal to those of the first, element by element. *)
Theorem calculate_metrics_pure (R : Type) (HR : PyNum R) (w : world R) (self : ref)
    (c : calculator) :
  calculator_at (heap w) self = Some c ->
  let first := calculate_metrics_on self w in
  let second := calculate_metrics_on self first.2 in
  (forall r o, heap w !! r = Some o -> heap first.2 !! r = Some o)
  /\ calculator_at (heap first.2) self = Some c
  /\ first.1 = inr (calculate_metrics c).1
  /\ stdout first.2 = stdout w ++ (calculate_metrics (R:=R) c).2
  /\ (forall r o, heap w !! r = Some o -> heap second.2 !! r = Some o)
  /\ calculator_at (heap second.2) self = Some c
  /\ (exists rows summary rows' summary',
         first.1 = inr (rows, summary) /\ second.1 = inr (rows', summary')
         /\ Forall2 eq rows rows' /\ Forall2 eq summary summary')
  /\ stdout second.2 = stdout first.2 ++ (calculate_metrics (R:=R) c).2.
Proof.
  intros Hc first second.
  destruct (calculate_metrics_on_run self c w Hc) as (w1 & Hrun1 & Hout1 & Hframe1).
  pose proof (frame_base _ _ Hframe1) as Hbase1.
  pose proof (calculator_at_keep _ _ Hbase1 _ _ Hc) as Hc1.
  destruct (calculate_metrics_on_run self c w1 Hc1) as (w2 & Hrun2 & Hout2 & Hframe2).
  pose proof (frame_base _ _ Hframe2) as Hbase2.
  subst first second. rewrite Hrun1. cbn [fst snd]. rewrite Hrun2. cbn [fst snd].
  split; [exact Hbase1|]. split; [exact Hc1|]. split; [reflexivity|].
  split; [exact Hout1|].
  split; [intros r o Hr; now apply Hbase2, Hbase1|].
  split; [exact (calculator_at_keep _ _ Hbase2 _ _ Hc1)|].
  split; [|exact Hout2].
  destruct (calculate_metrics c).1 as [rows summary].
  exists rows, summary, rows, summary.
  repeat split; now apply list_eq_Forall2.
Qed.

Lemma resident_float :
  calculator_at (R:=float) (heap Resident.start) Resident.self = Some Resident.calc.
Proof. vm_compute. reflexivity. Qed.

(** On the instance of the example, whose two schemes share one object
    and whose operations share their lists, the fourteen objects are after
    the call what they were, and both calls return the four rows and the
    two summary rows of [calculate_metrics]. *)
Lemma calculate_metrics_pure_witness :
  let first := calculate_metrics_on (R:=float) Resident.self Resident.start in
  let second := calculate_metrics_on (R:=float) Resident.self first.2 in
  (forall r o, Resident.objects !! r = Some o -> heap first.2 !! r = Some o)
  /\ calculator_at (heap first.2) Resident.self = Some Resident.calc
  /\ first.1 = inr (calculate_metrics Resident.calc).1
  /\ (forall r o, Resident.objects !! r = Some o -> heap second.2 !! r = Some o)
  /\ exists rows summary rows' summary',
       first.1 = inr (rows, summary) /\ second.1 = inr (rows', summary')
       /\ Forall2 eq rows rows' /\ Forall2 eq summary summary'.
Proof.
  intros first second.
  destruct (calculate_metrics_pure float _ Resident.start Resident.self Resident.calc
              resident_float)
    as (Hkept & Hsame & Hfirst & _ & Hkept' & _ & Hequal & _).
  split; [exact Hkept|]. split; [exact Hsame|]. split; [exact Hfirst|].
  split; [exact Hkept'|exact Hequal].
Defined.

(** ** Unknown operations *)

(** C10: take a service of a scheme whose use-case list is not empty and
    names no catalogued operation.  Its run raises nothing and yields no
    rows and one warning per name, with an LCOM of 0 and an SGM of 0; one
    turn of the loop over services, taken while nothing was raised, leaves
    [results] as it was, adds these two zeros to the sums and raises
    Max_NOO to at least the length of the list.  When the call on the
    scheme returned, the service is among those summed, the sums are
    divided by the number of all services, and Max_NOO of the scheme is at
    least the length of its list. *)
Theorem unknown_only_service (R : Type) (HR : PyNum R) (self : calculator)
    (scheme_name : string) (services : list service) (svc : service) :
  svc ∈ services ->
  use_cases svc ≠ [] ->
  Forall (fun uc => operations self !! uc = None) (use_cases svc) ->
  let run := run_service (R:=R) self scheme_name svc in
  let ran := map (run_service self scheme_name)
                 (filter (fun svc => use_cases svc ≠ []) services) in
  run_rows run = []
  /\ run_log run = map warn_unknown (use_cases svc)
  /\ run_lcom run = of_int 0
  /\ run_sgm run = of_int 0
  /\ run_raised run = None
  /\ (forall st,
         raised st = None ->
         process_service self scheme_name st svc
         = {| results := results st;
              acc_ALCOM := (acc_ALCOM st + of_int 0)%num;
              acc_ASGM := (acc_ASGM st + of_int 0)%num;
              acc_Max_NOO := Z.max (acc_Max_NOO st) (len (use_cases svc));
              printed := printed st ++ map warn_unknown (use_cases svc);
              raised := None |})
  /\ run ∈ ran
  /\ forall rows sm out,
       calculate_scheme_metrics (R:=R) self scheme_name services
       = (inr (rows, sm), out) ->
       rows = flat_map run_rows ran
       /\ SchemeMetrics.ALCOM sm
          = (pysum (map run_lcom ran) / of_int (len services))%num
       /\ SchemeMetrics.ASGM sm
          = (pysum (map run_sgm ran) / of_int (len services))%num
       /\ len (use_cases svc) <= SchemeMetrics.Max_NOO sm.
Proof.
  intros Hsvc Hne Hunknown run ran.
  destruct (known_all_unknown self _ Hunknown) as (Hk & Hu & Hops).
  assert (Hok : service_raised (R:=R) self (use_cases svc) = None)
    by (unfold service_raised; now rewrite Hk).
  assert (Hrun : run = {| run_rows := []; run_lcom := of_int 0; run_sgm := of_int 0;
                          run_noo := len (use_cases svc);
                          run_log := map warn_unknown (use_cases svc);
                          run_raised := None |}).
  { subst run. rewrite run_service_ok by exact Hok.
    unfold service_graded, accesses, service_weight_of, pysum.
    rewrite Hu, Hk, Hops, details_all_unknown by exact Hunknown.
    cbn [flat_map map zsum foldr fold_left].
    unfold lcom_of. rewrite list_to_set_nil. unfold card. rewrite size_empty.
    rewrite Z.mul_0_r. reflexivity. }
  rewrite Hrun. cbn [run_rows run_log run_lcom run_sgm run_raised].
  do 5 (split; [reflexivity|]).
  split.
  { intros st Hst. rewrite process_run by assumption. fold run. rewrite Hrun.
    cbn. rewrite app_nil_r. reflexivity. }
  split.
  { rewrite <- Hrun. subst run ran. apply list_elem_of_fmap. exists svc.
    split; [done|]. apply list_elem_of_filter. now split. }
  intros rows sm out Hcall.
  pose proof (max_noo_upper self _ _ _ _ _ svc Hcall Hsvc) as Hmax.
  apply calculate_scheme_metrics_inv in Hcall as (_ & -> & -> & _).
  do 3 (split; [reflexivity|]). exact Hmax.
Qed.

(** Next to the order service, the unknown-only service yields no row,
    three warnings, LCOM = SGM = 0, halves ASGM and lifts Max_NOO to 3. *)
Lemma unknown_only_service_witness :
  let run := run_service (R:=float) Strangers.calc "S" Strangers.Lost in
  run_rows run = []
  /\ run_log run = map warn_unknown ["Ghost"; "Phantom"; "Ghost"]%string
  /\ run_lcom run = 0%float
  /\ run_sgm run = 0%float
  /\ exists rows sm out,
       calculate_scheme_metrics (R:=float) Strangers.calc "S"
         [Scenario.OrderService; Strangers.Lost]
       = (inr (rows, sm), out)
       /\ SchemeMetrics.ASGM sm = 0.5%float
       /\ len (use_cases Strangers.Lost) <= SchemeMetrics.Max_NOO sm.
Proof.
  intros run.
  assert (Hin : Strangers.Lost ∈ [Scenario.OrderService; Strangers.Lost])
    by (apply list_elem_of_further, list_elem_of_here).
  assert (Hne : use_cases Strangers.Lost ≠ []) by discriminate.
  assert (Hunknown : Forall (fun uc => operations Strangers.calc !! uc = None)
                            (use_cases Strangers.Lost))
    by (repeat constructor).
  destruct (unknown_only_service float _ Strangers.calc "S" _ Strangers.Lost
              Hin Hne Hunknown)
    as (H1 & H2 & H3 & H4 & _ & _ & _ & Hscheme).
  do 4 (split; [assumption|]).
  destruct strangers_float as (rows & sm & out & Hcall & Hasgm & _).
  destruct (Hscheme rows sm out Hcall) as (_ & _ & _ & Hmax).
  exists rows, sm, out. split; [exact Hcall|]. split; [exact Hasgm|exact Hmax].
Defined.

(** * Further properties *)

(** ** The detail table *)

Section TableFacts.
Context {R : Type} `{PyNum R}.
Variable self : calculator.

Lemma run_rows_skipped scheme_name svc :
  use_cases svc = [] -> run_rows (run_service (R:=R) self scheme_name svc) = [].
Proof.
  intros Hu. rewrite run_service_eq.
  destruct (service_raised self (use_cases svc)); [reflexivity|].
  cbn [run_rows]. unfold service_graded. now rewrite Hu.
Qed.

Lemma flat_map_processed {B} (f : service -> list B) services :
  (forall svc, use_cases svc = [] -> f svc = []) ->
  flat_map f (processed services) = flat_map f services.
Proof.
  intros Hf. induction services as [|svc services IH]; [done|].
  unfold processed. destruct (decide (use_cases svc = [])) as [Hu|Hu].
  - rewrite filter_cons_False by (intros Hn; now apply Hn).
    cbn [flat_map]. rewrite (Hf svc Hu). exact IH.
  - rewrite filter_cons_True by exact Hu. cbn [flat_map]. now f_equal.
Qed.

Lemma rows_keys scheme_name svc :
  service_raised (R:=R) self (use_cases svc) = None ->
  map (fun r => (Row.Scheme r, Row.Service r, Row.Operation r))
      (run_rows (run_service (R:=R) self scheme_name svc))
  = map (fun uc => (scheme_name, name svc, uc)) (known self (use_cases svc)).
Proof.
  intros Hok. rewrite run_service_ok by exact Hok.
  cbn [run_rows]. unfold service_graded.
  rewrite <- (details_Operation self (service_params self (use_cases svc))).
  rewrite !map_map. reflexivity.
Qed.

End TableFacts.

Lemma map_flat_map {A B C} (g : B -> C) (f : A -> list B) (l : list A) :
  map g (flat_map f l) = flat_map (fun a => map g (f a)) l.
Proof. induction l as [|a l IH]; [done|]. simpl. now rewrite map_app, IH. Qed.

Lemma flat_map_fmap {A B C} (f : B -> list C) (h : A -> B) (l : list A) :
  flat_map f (map h l) = flat_map (fun a => f (h a)) l.
Proof. induction l as [|a l IH]; [done|]. simpl. now rewrite IH. Qed.

Lemma flat_map_pointwise {A B} (f g : A -> list B) (l : list A) :
  (forall a, f a = g a) -> flat_map f l = flat_map g l.
Proof. intros Hfg. induction l as [|a l IH]; [done|]. simpl. now rewrite Hfg, IH. Qed.

Lemma flat_map_pointwise_elem {A B} (f g : A -> list B) (l : list A) :
  (forall a, a ∈ l -> f a = g a) -> flat_map f l = flat_map g l.
Proof.
  intros Hfg. induction l as [|a l IH]; [done|]. simpl.
  rewrite Hfg by apply list_elem_of_here.
  rewrite IH; [done|]. intros b Hb. apply Hfg. now apply list_elem_of_further.
Qed.

Lemma processed_elem (services : list service) (svc : service) :
  svc ∈ processed services -> svc ∈ services.
Proof. unfold processed. intros Hsvc. now apply list_elem_of_filter in Hsvc as [_ ?]. Qed.

(** X1 ([calculate_scheme_metrics], the detail table).  When the call on a
    scheme returned, its records are, in order, one per occurrence of a use
    case that has an entry in the operations catalogue: service by service
    in the order of the scheme, use case by use case in the order of the
    list, each with the scheme name, the service name and the use-case
    name.  A name listed twice yields two records, a name without entry
    none. *)
Theorem detail_table_keys (R : Type) (HR : PyNum R) (self : calculator)
    (scheme_name : string) (services : list service) rows sm out :
  calculate_scheme_metrics (R:=R) self scheme_name services = (inr (rows, sm), out) ->
  map (fun r => (Row.Scheme r, Row.Service r, Row.Operation r)) rows
  = flat_map (fun svc =>
                map (fun uc => (scheme_name, name svc, uc))
                    (filter (fun uc => is_Some (operations self !! uc))
                            (use_cases svc)))
             services.
Proof.
  intros Hcall.
  pose proof (fun svc => returned_service_ok self _ _ _ _ _ svc Hcall) as Hok.
  apply calculate_scheme_metrics_inv in Hcall as (_ & -> & _ & _).
  unfold runs. rewrite map_flat_map, flat_map_fmap.
  rewrite (flat_map_pointwise_elem _
             (fun svc => map (fun uc => (scheme_name, name svc, uc))
                             (known self (use_cases svc)))).
  - apply flat_map_processed. intros svc Hu. now rewrite Hu.
  - intros svc Hsvc. apply rows_keys, Hok. now apply processed_elem.
Qed.

(** ** Bounds on the counts *)

Lemma size_union_le (X Y : gset string) : (size (X ∪ Y) <= size X + size Y)%nat.
Proof.
  rewrite size_union_alt.
  assert (size (Y ∖ X) <= size Y)%nat.
  { apply subseteq_size. intros x Hx. now apply elem_of_difference in Hx as [? _]. }
  lia.
Qed.

Lemma card_list_to_set_le (l : list string) : card (list_to_set l) <= len l.
Proof.
  unfold card, len. induction l as [|x l IH].
  { rewrite list_to_set_nil, size_empty. simpl. lia. }
  rewrite list_to_set_cons. pose proof (size_union_le {[x]} (list_to_set l)) as Hle.
  rewrite size_singleton in Hle. simpl length. lia.
Qed.

Lemma card_nonneg (s : gset string) : 0 <= card s.
Proof. unfold card. lia. Qed.

Lemma card_mono (X Y : gset string) : X ⊆ Y -> card X <= card Y.
Proof. intros Hsub. unfold card. apply subseteq_size in Hsub. lia. Qed.

Lemma floor1_ge (s : gset string) : 1 <= floor1 s /\ card s <= floor1 s.
Proof. rewrite floor1_max. lia. Qed.

Section CountFacts.
Variable self : calculator.

Lemma known_ops_elem uc ucs op :
  uc ∈ ucs -> operations self !! uc = Some op -> op ∈ known_ops self ucs.
Proof.
  intros Huc Hop. unfold known_ops. apply list_elem_of_omap. now exists uc.
Qed.

Lemma reads_cover ucs op :
  op ∈ known_ops self ucs ->
  (list_to_set (read op) : gset string) ⊆ list_to_set (reads self ucs).
Proof.
  intros Hop x. rewrite !elem_of_list_to_set. intros Hx.
  unfold reads. apply list_elem_of_In, in_flat_map. exists op.
  split; now apply list_elem_of_In.
Qed.

Lemma writes_cover ucs op :
  op ∈ known_ops self ucs ->
  (list_to_set (write op) : gset string) ⊆ list_to_set (writes self ucs).
Proof.
  intros Hop x. rewrite !elem_of_list_to_set. intros Hx.
  unfold writes. apply list_elem_of_In, in_flat_map. exists op.
  split; now apply list_elem_of_In.
Qed.

Lemma accesses_split ucs :
  (list_to_set (accesses self ucs) : gset string)
  = list_to_set (reads self ucs) ∪ list_to_set (writes self ucs).
Proof.
  unfold accesses, reads, writes.
  induction (known_ops self ucs) as [|op ops IH]; cbn [flat_map].
  - rewrite list_to_set_nil. now rewrite (left_id_L ∅ (∪)).
  - rewrite !list_to_set_app_L, IH. apply set_eq. intros x.
    rewrite !elem_of_union. tauto.
Qed.

End CountFacts.

(** X2 ([calculate_scheme_metrics], the counts of a record).  Every
    record has [NOO >= 1] and [M = NOO], [0 <= IPR <= FP] and
    [0 <= OPR <= CP] with [FP >= 1] and [CP >= 1], [0 <= F <= MF], and
    [F <= FP + CP]. *)
Theorem row_counts_bounded (R : Type) (HR : PyNum R) (self : calculator)
    (scheme_name : string) (services : list service) rows sm out (r : Row.t R) :
  calculate_scheme_metrics self scheme_name services = (inr (rows, sm), out) ->
  r ∈ rows ->
  1 <= Row.NOO r /\ Row.M r = Row.NOO r
  /\ 0 <= Row.IPR r <= Row.FP r /\ 0 <= Row.OPR r <= Row.CP r
  /\ 1 <= Row.FP r /\ 1 <= Row.CP r
  /\ 0 <= Row.F r <= Row.MF r
  /\ Row.F r <= Row.FP r + Row.CP r.
Proof.
  intros Hcall Hr.
  destruct (row_origin self _ _ _ _ _ _ Hcall Hr) as (svc & Hsvc & Hne & Hrun).
  destruct (run_row self _ _ _ Hrun)
    as (uc & op & Huc & Hop & _ & _ & _ & HNOO & HM & HMF & HF & _ & _
        & HI & HO & HFP & HCP & _).
  pose proof (known_ops_elem self _ _ _ Huc Hop) as Hin.
  pose proof (card_mono _ _ (reads_cover self _ _ Hin)) as Hr1.
  pose proof (card_mono _ _ (writes_cover self _ _ Hin)) as Hw1.
  pose proof (floor1_ge (list_to_set (reads self (use_cases svc)))) as [? ?].
  pose proof (floor1_ge (list_to_set (writes self (use_cases svc)))) as [? ?].
  pose proof (card_list_to_set_le (accesses self (use_cases svc))).
  pose proof (card_nonneg (list_to_set (read op))).
  pose proof (card_nonneg (list_to_set (write op))).
  pose proof (card_nonneg (list_to_set (accesses self (use_cases svc)))).
  assert (HFle : card (list_to_set (accesses self (use_cases svc)))
                 <= card (list_to_set (reads self (use_cases svc)))
                    + card (list_to_set (writes self (use_cases svc)))).
  { rewrite accesses_split. unfold card.
    pose proof (size_union_le (list_to_set (reads self (use_cases svc)))
                              (list_to_set (writes self (use_cases svc)))). lia. }
  rewrite HNOO, HM, HMF, HF, HI, HO, HFP, HCP.
  assert (1 <= len (use_cases svc)).
  { unfold len. destruct (use_cases svc); [done|]. simpl length. lia. }
  lia.
Qed.

(** ** The range of LCOM *)

Lemma of_int_Qc_of_Z (z : Z) : of_int (R:=Qc) z = Qc_of_Z z.
Proof. apply Qc_is_canon. simpl. apply Qred_correct. Qed.

Lemma Qc_ratio_nonneg (a b : Z) :
  0 <= a -> 0 < b -> (0 <= of_int a / of_int b)%Qc.
Proof.
  intros Ha Hb. rewrite !of_int_Qc_of_Z. unfold Qcdiv.
  apply Qcmult_nonneg_nonneg.
  - rewrite <- Z2Qc_inj_0. now apply (proj1 (Z2Qc_inj_le 0 a)).
  - apply Qclt_le_weak, Qcinv_pos. rewrite <- Z2Qc_inj_0.
    now apply (proj1 (Z2Qc_inj_lt 0 b)).
Qed.

Lemma Qc_ratio_le_1 (a b : Z) :
  a <= b -> 0 < b -> (of_int a / of_int b <= 1)%Qc.
Proof.
  intros Hab Hb. rewrite !of_int_Qc_of_Z. unfold Qcdiv.
  assert (Hpos : (0 < Qc_of_Z b)%Qc)
    by (rewrite <- Z2Qc_inj_0; now apply (proj1 (Z2Qc_inj_lt 0 b))).
  rewrite <- (Qcmult_inv_r (Qc_of_Z b)) by (now apply Qclt_not_eq, not_eq_sym in Hpos).
  apply Qcmult_le_mono_nonneg_r.
  - now apply Qclt_le_weak, Qcinv_pos.
  - now apply (proj1 (Z2Qc_inj_le a b)).
Qed.

Lemma Qc_lcom_le_1 (mf m f : Z) : 0 <= mf -> (lcom_of (R:=Qc) mf m f <= 1)%Qc.
Proof.
  intros Hmf. unfold lcom_of. destruct (0 <? m * f) eqn:Hpos.
  - apply Z.ltb_lt in Hpos. cbn [num_sub num_div Qc_PyNum].
    pose proof (Qc_ratio_nonneg mf (m * f) Hmf Hpos) as Hq.
    change (of_int (R:=Qc) 1) with 1%Qc.
    apply Qcle_minus_iff. ring_simplify. exact Hq.
  - change (of_int (R:=Qc) 0) with 0%Qc. discriminate.
Qed.

Lemma Qc_lcom_nonneg (mf m f : Z) : mf <= m * f -> (0 <= lcom_of (R:=Qc) mf m f)%Qc.
Proof.
  intros Hmf. unfold lcom_of. destruct (0 <? m * f) eqn:Hpos.
  - apply Z.ltb_lt in Hpos. cbn [num_sub num_div Qc_PyNum].
    pose proof (Qc_ratio_le_1 mf (m * f) Hmf Hpos) as Hq.
    change (of_int (R:=Qc) 1) with 1%Qc.
    apply Qcle_minus_iff in Hq. unfold Qcminus. exact Hq.
  - apply Qcle_refl.
Qed.

Lemma length_known_ops_le (self : calculator) (ucs : list string) :
  len (known_ops self ucs) <= len ucs.
Proof.
  unfold len. induction ucs as [|uc ucs IH]; [done|].
  destruct (operations self !! uc) as [op|] eqn:Huc.
  - destruct (known_cons_Some self uc ucs op Huc) as (_ & _ & ->).
    simpl length. lia.
  - destruct (known_cons_None self uc ucs Huc) as (_ & _ & ->).
    simpl length. lia.
Qed.

Lemma no_repeats_known_ops (self : calculator) (ucs : list string) :
  no_repeats self ucs ->
  Forall (fun op => NoDup (read op ++ write op)) (known_ops self ucs).
Proof.
  intros Hnr. apply Forall_forall. intros op Hop.
  unfold known_ops in Hop. apply list_elem_of_omap in Hop as (uc & Huc & Hop).
  unfold no_repeats in Hnr. rewrite Forall_forall in Hnr. exact (Hnr uc Huc op Hop).
Qed.

Lemma accesses_bounded (attrs : gset string) (ops : list operation) :
  Forall (fun op => NoDup (read op ++ write op)
                    /\ forall x, x ∈ read op ++ write op -> x ∈ attrs) ops ->
  len (flat_map (fun op => read op ++ write op) ops) <= len ops * card attrs.
Proof.
  induction 1 as [|op ops [Hnd Hin] _ IH]; [done|].
  cbn [flat_map]. rewrite len_app.
  assert (Hle : len (read op ++ write op) <= card attrs).
  { unfold len. rewrite <- (size_list_to_set (C:=gset string)) by exact Hnd.
    apply card_mono. intros x Hx. apply Hin. now apply elem_of_list_to_set in Hx. }
  unfold len in *. simpl length. lia.
Qed.

Lemma no_repeats_mf (self : calculator) (ucs : list string) :
  no_repeats self ucs ->
  len (accesses self ucs) <= len ucs * card (list_to_set (accesses self ucs)).
Proof.
  intros Hnr.
  pose proof (length_known_ops_le self ucs) as Hk.
  pose proof (card_nonneg (list_to_set (accesses self ucs))) as Hc.
  assert (Hb : len (accesses self ucs)
               <= len (known_ops self ucs) * card (list_to_set (accesses self ucs))).
  { unfold accesses at 1. apply accesses_bounded.
    pose proof (no_repeats_known_ops self ucs Hnr) as Hall.
    rewrite Forall_forall in Hall. apply Forall_forall. intros op Hop.
    split; [now apply Hall|]. intros x Hx. apply elem_of_list_to_set.
    unfold accesses. apply list_elem_of_In, in_flat_map. exists op.
    split; now apply list_elem_of_In. }
  nia.
Qed.

(** X3 ([calculate_scheme_metrics], the range of LCOM).  Every record
    belongs to a service of the scheme and has [MF >= 0]; when no known use
    case of that service names an attribute twice among its reads and
    writes, [MF <= M * F].  In exact arithmetic [LCOM <= 1] on every record,
    and [LCOM >= 0] on every record with [MF <= M * F]. *)
Theorem lcom_range :
  (forall (R : Type) (HR : PyNum R) (self : calculator) (scheme_name : string)
          (services : list service) rows sm out (r : Row.t R),
      calculate_scheme_metrics self scheme_name services = (inr (rows, sm), out) ->
      r ∈ rows ->
      exists svc,
        svc ∈ services /\ Row.Service r = name svc
        /\ 0 <= Row.MF r
        /\ (no_repeats self (use_cases svc) -> Row.MF r <= Row.M r * Row.F r))
  /\ (forall (self : calculator) (scheme_name : string) (services : list service)
             rows sm out (r : Row.t Qc),
         calculate_scheme_metrics self scheme_name services = (inr (rows, sm), out) ->
         r ∈ rows ->
         (Row.LCOM r <= 1)%Qc
         /\ (Row.MF r <= Row.M r * Row.F r -> (0 <= Row.LCOM r)%Qc)).
Proof.
  split.
  - intros R HR self scheme_name services rows sm out r Hcall Hr.
    destruct (row_origin self _ _ _ _ _ _ Hcall Hr) as (svc & Hsvc & _ & Hrun).
    destruct (run_row self _ _ _ Hrun)
      as (uc & op & _ & _ & _ & Hname & _ & _ & HM & HMF & HF & _).
    exists svc. split; [exact Hsvc|]. split; [exact Hname|].
    rewrite HM, HMF, HF. split; [unfold len; lia|].
    apply no_repeats_mf.
  - intros self scheme_name services rows sm out r Hcall Hr.
    destruct (row_origin self _ _ _ _ _ _ Hcall Hr) as (svc & Hsvc & _ & Hrun).
    destruct (run_row self _ _ _ Hrun)
      as (uc & op & _ & _ & _ & _ & _ & _ & _ & HMF & _ & HL & _).
    rewrite HL. split.
    + apply Qc_lcom_le_1. rewrite HMF. unfold len; lia.
    + apply Qc_lcom_nonneg.
Qed.

(** ** The range of DGS, FGS and SGM in exact arithmetic *)

Lemma Qc_fold_shift (l : list Qc) (acc : Qc) :
  fold_left Qcplus l acc = (acc + fold_left Qcplus l 0)%Qc.
Proof.
  revert acc. induction l as [|x l IH]; intros acc; simpl.
  - ring.
  - rewrite (IH (acc + x)%Qc), (IH (0 + x)%Qc). ring.
Qed.

Lemma Qc_pysum_nil : pysum (R:=Qc) [] = 0%Qc.
Proof. reflexivity. Qed.

Lemma Qc_pysum_cons (x : Qc) (l : list Qc) : pysum (x :: l) = (x + pysum l)%Qc.
Proof.
  unfold pysum. cbn [fold_left num_add Qc_PyNum of_int].
  change (Q2Qc (inject_Z 0)) with 0%Qc.
  rewrite Qc_fold_shift. ring.
Qed.


(** A sum of shares, each scaled by a factor between 0 and 1, lies between 0
    and the sum of the shares. *)
Lemma Qc_scaled_sum {A} (scale share : A -> Qc) (l : list A) :
  Forall (fun a => (0 <= scale a <= 1)%Qc /\ (0 <= share a)%Qc) l ->
  (0 <= pysum (map (fun a => scale a * share a)%Qc l) <= pysum (map share l))%Qc.
Proof.
  induction 1 as [|a l [[Hs0 Hs1] Hf] _ [IH0 IH1]]; cbn [map].
  - split; apply Qcle_refl.
  - rewrite !Qc_pysum_cons. split.
    + apply Qcplus_nonneg_nonneg; [now apply Qcmult_nonneg_nonneg | exact IH0].
    + apply Qcplus_le_compat; [|exact IH1].
      rewrite <- (Qcmult_1_l (share a)) at 2.
      now apply Qcmult_le_mono_nonneg_r.
Qed.

Lemma Qc_pymin_nonneg (x : Qc) : (0 <= x)%Qc -> (0 <= pymin (of_int 1) x)%Qc.
Proof.
  intros Hx. unfold pymin. cbn [num_ltb Qc_PyNum].
  destruct (x ?= of_int 1)%Qc; [discriminate | exact Hx | discriminate].
Qed.

Lemma Qc_dgs_nonneg (ipr opr fp cp : Z) :
  0 <= ipr -> 0 <= opr -> (0 <= dgs_of (R:=Qc) ipr opr fp cp)%Qc.
Proof.
  intros Hi Ho. unfold dgs_of. apply Qc_pymin_nonneg.
  cbn [num_add num_div Qc_PyNum].
  apply Qcplus_nonneg_nonneg; apply Qc_ratio_nonneg; lia.
Qed.

Lemma Qc_fgs_nonneg (ot w : Z) : 0 <= ot -> (0 <= fgs_value (R:=Qc) ot w)%Qc.
Proof.
  intros Hot. rewrite Qc_fgs_value. destruct (0 <? w) eqn:Hw.
  - apply Z.ltb_lt in Hw. now apply Qc_ratio_nonneg.
  - apply Qcle_refl.
Qed.

Section WeightFacts.
Variable self : calculator.

Lemma op_weight_nonneg uc : weights_nonneg self -> 0 <= op_weight self uc.
Proof.
  intros Hw. unfold op_weight.
  destruct (op_weights self !! default "Read"%string (op_type_map self !! uc))
    as [w|] eqn:Hlook; simpl; [|lia].
  exact (Hw _ _ Hlook).
Qed.

Lemma zsum_nonneg (l : list Z) : Forall (fun z => 0 <= z) l -> 0 <= zsum l.
Proof. induction 1 as [|z l Hz _ IH]; unfold zsum in *; simpl; lia. Qed.

Lemma Qc_fgs_total_le (w : Z) (ots : list Z) :
  Forall (fun z => 0 <= z) ots -> w = zsum ots ->
  (pysum (map (fun ot => fgs_value (R:=Qc) ot w) ots) <= 1)%Qc.
Proof.
  intros Hots Hw.
  rewrite (map_ext _ (fun ot => if 0 <? w then (of_int ot / of_int w)%num else of_int 0))
    by (intros ot; apply Qc_fgs_value).
  destruct (0 <? w) eqn:Hpos.
  - apply Z.ltb_lt in Hpos. rewrite Qc_shares, <- Hw.
    rewrite Qc_div_same by (apply Qc_of_int_nonzero; lia). apply Qcle_refl.
  - clear. induction ots as [|ot ots IH]; [discriminate|].
    cbn [map]. rewrite Qc_pysum_cons. change (of_int (R:=Qc) 0) with 0%Qc.
    rewrite Qcplus_0_l. exact IH.
Qed.

Lemma Qc_detail_dgs p uc op :
  (0 <= Detail.DGS (detail_of (R:=Qc) self p uc op) <= 1)%Qc.
Proof.
  cbn [detail_of Detail.DGS]. split; [|apply Qc_dgs_le].
  apply Qc_dgs_nonneg; apply card_nonneg.
Qed.

(** The SGM of a service lies between 0 and 1 when no weight is negative. *)
Lemma Qc_run_sgm_range scheme_name svc :
  weights_nonneg self ->
  (0 <= run_sgm (run_service (R:=Qc) self scheme_name svc) <= 1)%Qc.
Proof.
  intros Hw. rewrite run_service_ok by apply Qc_service_raised.
  cbn [run_sgm]. unfold service_graded.
  rewrite map_map. cbn [graded_of Graded.SGM_Operation].
  set (ucs := use_cases svc). set (w := service_weight_of self ucs).
  set (ds := details self (service_params self ucs) ucs).
  assert (Hds : Forall (fun d => (0 <= Detail.DGS d <= 1)%Qc
                                 /\ (0 <= fgs_value (R:=Qc) (Detail.OT d) w)%Qc) ds).
  { apply Forall_forall. intros d Hd.
    apply elem_of_details in Hd as (uc & op & _ & _ & ->).
    split; [apply Qc_detail_dgs|]. apply Qc_fgs_nonneg.
    cbn [detail_of Detail.OT]. now apply op_weight_nonneg. }
  destruct (Qc_scaled_sum Detail.DGS (fun d => fgs_value (Detail.OT d) w) ds Hds)
    as [H0 H1].
  split; [exact H0|]. eapply Qcle_trans; [exact H1|].
  rewrite <- (map_map Detail.OT (fun ot => fgs_value ot w)).
  apply Qc_fgs_total_le.
  - subst ds. rewrite details_OT. apply Forall_forall. intros z Hz.
    apply list_elem_of_fmap in Hz as (uc & -> & _). now apply op_weight_nonneg.
  - subst ds w. rewrite details_OT. reflexivity.
Qed.

End WeightFacts.

Lemma zsum_elem_le (l : list Z) (z : Z) :
  Forall (fun x => 0 <= x) l -> z ∈ l -> z <= zsum l.
Proof.
  induction 1 as [|x l Hx Hl IH]; intros Hz.
  - now apply elem_of_nil in Hz.
  - pose proof (zsum_nonneg l Hl) as Hs. unfold zsum in *. cbn [foldr].
    apply elem_of_cons in Hz as [->|Hz]; [lia|]. specialize (IH Hz). lia.
Qed.

Lemma Qc_fgs_le_1 (ot w : Z) : ot <= w -> (fgs_value (R:=Qc) ot w <= 1)%Qc.
Proof.
  intros Hle. rewrite Qc_fgs_value. destruct (0 <? w) eqn:Hw.
  - apply Z.ltb_lt in Hw. now apply Qc_ratio_le_1.
  - discriminate.
Qed.

Lemma uneven_float :
  exists rows sm,
    calculate_scheme_metrics (R:=float) Uneven.calc "S" [Uneven.Orders]
    = (inr (rows, sm), [])
    /\ length rows = 4%nat
    /\ Forall (fun r => Row.DGS r = 1%float
                         /\ Row.SGM r = 0x1.0000000000001p+0%float) rows
    /\ map Row.OT rows = [2; 4; 3; 1]
    /\ SchemeMetrics.ASGM sm = 0x1.0000000000001p+0%float.
Proof.
  eexists _, _. split; [vm_compute; reflexivity|].
  split; [reflexivity|].
  split; [repeat (constructor; [split; reflexivity|]); constructor|].
  split; reflexivity.
Qed.

(** X4 ([calculate_scheme_metrics], the range of the granularity
    scores).  Of the records of a call that returned: in any arithmetic,
    [0 <= OT <= O] when no weight of the table is negative.  In exact
    arithmetic [DGS >= 0], and when no weight of the table is negative
    [0 <= FGS <= 1], [0 <= SGM_Operation <= FGS] and [0 <= SGM <= 1].  In
    binary64, which is what the code emits, [DGS <= 1] on every record,
    whereas SGM is not bounded by 1: four operations of DGS 1 and weights
    2, 4, 3, 1 give the SGM 1 + 2^-52 on each of their records. *)
Theorem granularity_range :
  (forall (R : Type) (HR : PyNum R) (self : calculator) (scheme_name : string)
          (services : list service) rows sm out (r : Row.t R),
      calculate_scheme_metrics (R:=R) self scheme_name services
      = (inr (rows, sm), out) ->
      r ∈ rows ->
      map_Forall (fun _ w => 0 <= w) (op_weights self) ->
      0 <= Row.OT r <= Row.O r)
  /\ (forall (self : calculator) (scheme_name : string)
             (services : list service) rows sm out (r : Row.t Qc),
      calculate_scheme_metrics (R:=Qc) self scheme_name services
      = (inr (rows, sm), out) ->
      r ∈ rows ->
      (0 <= Row.DGS r)%Qc
      /\ (map_Forall (fun _ w => 0 <= w) (op_weights self) ->
          (0 <= Row.FGS r <= 1)%Qc
          /\ (0 <= Row.SGM_Operation r <= Row.FGS r)%Qc
          /\ (0 <= Row.SGM r <= 1)%Qc))
  /\ (forall (self : calculator) (scheme_name : string)
             (services : list service) rows sm out (r : Row.t float),
      calculate_scheme_metrics (R:=float) self scheme_name services
      = (inr (rows, sm), out) ->
      r ∈ rows ->
      (Row.DGS r <=? 1)%float = true)
  /\ (exists rows sm,
        calculate_scheme_metrics (R:=float) Uneven.calc "S" [Uneven.Orders]
        = (inr (rows, sm), [])
        /\ length rows = 4%nat
        /\ Forall (fun r => Row.DGS r = 1%float
                             /\ (1 <? Row.SGM r)%float = true) rows).
Proof.
  assert (Hint : forall (R : Type) (HR : PyNum R) (self : calculator)
                        (scheme_name : string) (services : list service)
                        rows sm out (r : Row.t R),
             calculate_scheme_metrics (R:=R) self scheme_name services
             = (inr (rows, sm), out) ->
             r ∈ rows ->
             map_Forall (fun _ w => 0 <= w) (op_weights self) ->
             0 <= Row.OT r <= Row.O r).
  { intros R HR self scheme_name services rows sm out r Hcall Hr Hw.
    destruct (row_origin self _ _ _ _ _ _ Hcall Hr) as (svc & Hsvc & _ & Hrun).
    destruct (run_row self _ _ _ Hrun)
      as (uc & op & Huc & Hop & _ & _ & _ & _ & _ & _ & _ & _ & _
          & _ & _ & _ & _ & _ & HOT & HW & _).
    rewrite HOT, HW. split; [now apply op_weight_nonneg|].
    unfold service_weight_of. apply zsum_elem_le.
    - apply Forall_forall. intros z Hz.
      apply list_elem_of_fmap in Hz as (uc' & -> & _). now apply op_weight_nonneg.
    - apply list_elem_of_fmap. exists uc. split; [done|].
      unfold known. apply list_elem_of_filter. split; [|exact Huc].
      rewrite Hop. eauto. }
  split; [exact Hint|]. split; [|split].
  - intros self scheme_name services rows sm out r Hcall Hr.
    destruct (row_origin self _ _ _ _ _ _ Hcall Hr) as (svc & Hsvc & _ & Hrun).
    destruct (run_row self _ _ _ Hrun)
      as (uc & op & Huc & Hop & _ & _ & _ & _ & _ & _ & _ & _ & _
          & HI & HO & _ & _ & HD & HOT & HW & HFGS & HSO & HSGM).
    assert (HD0 : (0 <= Row.DGS r)%Qc).
    { rewrite HD. apply Qc_dgs_nonneg; [rewrite HI | rewrite HO]; apply card_nonneg. }
    split; [exact HD0|]. intros Hw.
    destruct (Hint Qc _ self _ _ _ _ _ r Hcall Hr Hw) as [Hot Hle].
    assert (HF : Row.FGS r = fgs_value (Row.OT r) (Row.O r))
      by (unfold fgs_value; now rewrite HFGS).
    assert (HF0 : (0 <= Row.FGS r)%Qc) by (rewrite HF; now apply Qc_fgs_nonneg).
    split; [split; [exact HF0 | rewrite HF; now apply Qc_fgs_le_1]|].
    split.
    + rewrite HSO. cbn [num_mul Qc_PyNum]. split.
      * now apply Qcmult_nonneg_nonneg.
      * rewrite <- (Qcmult_1_l (Row.FGS r)) at 2.
        apply Qcmult_le_mono_nonneg_r; [exact HF0|]. rewrite HD. apply Qc_dgs_le.
    + rewrite HSGM. now apply Qc_run_sgm_range.
  - intros self scheme_name services rows sm out r Hcall Hr.
    destruct (row_origin self _ _ _ _ _ _ Hcall Hr) as (svc & Hsvc & _ & Hrun).
    destruct (run_row self _ _ _ Hrun)
      as (uc & op & _ & _ & _ & _ & _ & _ & _ & _ & _ & _ & _
          & _ & _ & _ & _ & HD & _).
    rewrite HD. apply float_dgs_le.
  - destruct uneven_float as (rows & sm & Hcall & Hlen & Hrows & _).
    exists rows, sm. split; [exact Hcall|]. split; [exact Hlen|].
    eapply Forall_impl; [exact Hrows|]. intros r [HD HS].
    split; [exact HD|]. rewrite HS. reflexivity.
Qed.

(** ** The range of the scheme averages in exact arithmetic *)

Lemma Qc_pysum_nonneg (l : list Qc) : Forall (fun x => (0 <= x)%Qc) l -> (0 <= pysum l)%Qc.
Proof.
  induction 1 as [|x l Hx _ IH]; [apply Qcle_refl|].
  rewrite Qc_pysum_cons. now apply Qcplus_nonneg_nonneg.
Qed.

Lemma Qc_pysum_le_len (l : list Qc) :
  Forall (fun x => (x <= 1)%Qc) l -> (pysum l <= of_int (len l))%Qc.
Proof.
  induction 1 as [|x l Hx _ IH]; [apply Qcle_refl|].
  rewrite Qc_pysum_cons.
  replace (len (x :: l)) with (1 + len l) by (unfold len; simpl length; lia).
  rewrite Qc_of_int_add. change (of_int (R:=Qc) 1) with 1%Qc.
  now apply Qcplus_le_compat.
Qed.

Lemma Qc_of_int_le (a b : Z) : a <= b -> (of_int a <= of_int b)%Qc.
Proof. intros Hab. rewrite !of_int_Qc_of_Z. now apply (proj1 (Z2Qc_inj_le a b)). Qed.

Lemma Qc_of_int_pos (n : Z) : 0 < n -> (0 < of_int n)%Qc.
Proof.
  intros Hn. rewrite of_int_Qc_of_Z, <- Z2Qc_inj_0.
  now apply (proj1 (Z2Qc_inj_lt 0 n)).
Qed.

Lemma Qc_average_nonneg (s : Qc) (n : Z) :
  (0 <= s)%Qc -> 0 < n -> (0 <= s / of_int n)%Qc.
Proof.
  intros Hs Hn. unfold Qcdiv. apply Qcmult_nonneg_nonneg; [exact Hs|].
  now apply Qclt_le_weak, Qcinv_pos, Qc_of_int_pos.
Qed.

Lemma Qc_average_le_1 (s : Qc) (k n : Z) :
  (s <= of_int k)%Qc -> k <= n -> 0 < n -> (s / of_int n <= 1)%Qc.
Proof.
  intros Hs Hk Hn. pose proof (Qc_of_int_pos n Hn) as Hpos. unfold Qcdiv.
  rewrite <- (Qcmult_inv_r (of_int n)) by (now apply Qclt_not_eq, not_eq_sym in Hpos).
  apply Qcmult_le_mono_nonneg_r; [now apply Qclt_le_weak, Qcinv_pos|].
  eapply Qcle_trans; [exact Hs|]. now apply Qc_of_int_le.
Qed.

Lemma len_processed_le (services : list service) :
  len (processed services) <= len services.
Proof.
  unfold len, processed. pose proof (length_filter (fun svc => use_cases svc ≠ []) services).
  lia.
Qed.

(** X5 ([calculate_scheme_metrics], the range of the averages).  In
    exact arithmetic a scheme with services returns [ALCOM <= 1]; [ALCOM >= 0]
    when no known use case of any service names an attribute twice, and
    [0 <= ASGM <= 1] when no weight of the table is negative.  In binary64,
    which is what the code emits, ASGM is not bounded by 1: the scheme of
    one service with four operations of DGS 1 and weights 2, 4, 3, 1 has
    the ASGM 1 + 2^-52. *)
Theorem averages_range :
  (forall (self : calculator) (scheme_name : string) (services : list service),
      services ≠ [] ->
      exists rows sm out,
        calculate_scheme_metrics (R:=Qc) self scheme_name services
        = (inr (rows, sm), out)
        /\ (SchemeMetrics.ALCOM sm <= 1)%Qc
        /\ (Forall (fun svc => no_repeats self (use_cases svc)) services ->
            (0 <= SchemeMetrics.ALCOM sm)%Qc)
        /\ (map_Forall (fun _ w => 0 <= w) (op_weights self) ->
            (0 <= SchemeMetrics.ASGM sm <= 1)%Qc))
  /\ (exists rows sm,
        calculate_scheme_metrics (R:=float) Uneven.calc "S" [Uneven.Orders]
        = (inr (rows, sm), [])
        /\ map_Forall (fun _ w => 0 <= w) (op_weights Uneven.calc)
        /\ (1 <? SchemeMetrics.ASGM sm)%float = true).
Proof.
  split.
  - intros self scheme_name services Hne. eexists _, _, _.
    split; [apply calculate_scheme_metrics_eq; [exact Hne|apply Qc_scheme_raised]|].
    cbn [SchemeMetrics.ALCOM SchemeMetrics.ASGM num_div Qc_PyNum].
    assert (Hn : 0 < len services) by (apply Z.ltb_lt; now apply len_pos).
    assert (Hk : forall (f : service_run (R:=Qc) -> Qc),
               len (map f (runs self scheme_name services)) <= len services).
    { intros f. unfold len, runs. rewrite !length_map.
      pose proof (len_processed_le services). unfold len in *. lia. }
    assert (Hlcom : forall svc,
               run_lcom (run_service (R:=Qc) self scheme_name svc)
               = lcom_of (len (accesses self (use_cases svc))) (len (use_cases svc))
                         (card (list_to_set (accesses self (use_cases svc)))))
      by (intros svc; apply run_lcom_eq).
    split; [|split].
    + eapply Qc_average_le_1; [apply Qc_pysum_le_len | apply Hk | exact Hn].
      apply Forall_forall. intros x Hx. unfold runs in Hx. rewrite map_map in Hx.
      apply list_elem_of_fmap in Hx as (svc & -> & _). rewrite Hlcom.
      apply Qc_lcom_le_1. unfold len; lia.
    + intros Hnr. apply Qc_average_nonneg; [|exact Hn].
      apply Qc_pysum_nonneg, Forall_forall. intros x Hx.
      unfold runs in Hx. rewrite map_map in Hx.
      apply list_elem_of_fmap in Hx as (svc & -> & Hsvc).
      unfold processed in Hsvc. apply list_elem_of_filter in Hsvc as [_ Hsvc].
      rewrite Forall_forall in Hnr. rewrite Hlcom.
      apply Qc_lcom_nonneg, no_repeats_mf. now apply Hnr.
    + intros Hw.
      assert (Hall : Forall (fun x => (0 <= x <= 1)%Qc)
                            (map run_sgm (runs (R:=Qc) self scheme_name services))).
      { apply Forall_forall. intros x Hx. unfold runs in Hx. rewrite map_map in Hx.
        apply list_elem_of_fmap in Hx as (svc & -> & _). now apply Qc_run_sgm_range. }
      split.
      * apply Qc_average_nonneg; [|exact Hn].
        apply Qc_pysum_nonneg. eapply Forall_impl; [exact Hall|]. now intros x [? _].
      * eapply Qc_average_le_1; [apply Qc_pysum_le_len | apply Hk | exact Hn].
        eapply Forall_impl; [exact Hall|]. now intros x [_ ?].
  - destruct uneven_float as (rows & sm & Hcall & _ & _ & _ & Hasgm).
    exists rows, sm. split; [exact Hcall|].
    split; [|rewrite Hasgm; reflexivity].
    intros k w Hk. change (op_weights Uneven.calc) with default_op_weights in Hk.
    unfold default_op_weights in Hk.
    repeat (apply lookup_insert_Some in Hk as [[_ <-]|[_ Hk]]; [lia|]).
    now rewrite lookup_empty in Hk.
Qed.

(** ** The order of the use cases *)

Lemma zsum_perm (l l' : list Z) : l ≡ₚ l' -> zsum l = zsum l'.
Proof. induction 1; unfold zsum in *; simpl; lia. Qed.

Lemma Qc_pysum_perm (l l' : list Qc) : l ≡ₚ l' -> pysum l = pysum l'.
Proof.
  induction 1 as [|x l l' _ IH|x y l|l l' l'' _ IH1 _ IH2].
  - reflexivity.
  - rewrite !Qc_pysum_cons. now rewrite IH.
  - rewrite !Qc_pysum_cons. ring.
  - now rewrite IH1.
Qed.

Section OrderFacts.
Context {R : Type} `{PyNum R}.
Variable self : calculator.

Lemma known_ops_perm ucs ucs' : ucs ≡ₚ ucs' -> known_ops self ucs ≡ₚ known_ops self ucs'.
Proof. intros Hp. unfold known_ops. now rewrite Hp. Qed.

Lemma accesses_perm ucs ucs' : ucs ≡ₚ ucs' -> accesses self ucs ≡ₚ accesses self ucs'.
Proof. intros Hp. unfold accesses. now apply Permutation_flat_map, known_ops_perm. Qed.

Lemma reads_perm ucs ucs' : ucs ≡ₚ ucs' -> reads self ucs ≡ₚ reads self ucs'.
Proof. intros Hp. unfold reads. now apply Permutation_flat_map, known_ops_perm. Qed.

Lemma writes_perm ucs ucs' : ucs ≡ₚ ucs' -> writes self ucs ≡ₚ writes self ucs'.
Proof. intros Hp. unfold writes. now apply Permutation_flat_map, known_ops_perm. Qed.

Lemma service_weight_perm ucs ucs' :
  ucs ≡ₚ ucs' -> service_weight_of self ucs = service_weight_of self ucs'.
Proof.
  intros Hp. unfold service_weight_of, known. apply zsum_perm.
  apply Permutation_map. now rewrite Hp.
Qed.

Lemma details_params p p' ucs :
  read_params p = read_params p' -> write_params p = write_params p' ->
  details (R:=R) self p ucs = details self p' ucs.
Proof.
  intros Hr Hw. unfold details, detail_of. now rewrite Hr, Hw.
Qed.

Lemma details_perm ucs ucs' :
  ucs ≡ₚ ucs' ->
  details (R:=R) self (service_params self ucs) ucs
  ≡ₚ details self (service_params self ucs') ucs'.
Proof.
  intros Hp.
  rewrite (details_params (service_params self ucs) (service_params self ucs')).
  - unfold details. now rewrite Hp.
  - rewrite !service_read_params. apply list_to_set_perm_L. now apply reads_perm.
  - rewrite !service_write_params. apply list_to_set_perm_L. now apply writes_perm.
Qed.

Lemma counts_perm ucs ucs' :
  ucs ≡ₚ ucs' ->
  len ucs' = len ucs
  /\ len (accesses self ucs') = len (accesses self ucs)
  /\ (list_to_set (accesses self ucs') : gset string) = list_to_set (accesses self ucs).
Proof.
  intros Hp. unfold len.
  rewrite (Permutation_length Hp), (Permutation_length (accesses_perm _ _ Hp)).
  now rewrite (list_to_set_perm_L (C:=gset string) _ _ (accesses_perm _ _ Hp)).
Qed.

Lemma service_raised_perm ucs ucs' :
  ucs ≡ₚ ucs' ->
  service_raised (R:=R) self ucs = None -> service_raised (R:=R) self ucs' = None.
Proof.
  intros Hp. unfold service_raised. rewrite !head_omap_None.
  rewrite <- (service_weight_perm _ _ Hp). unfold known. now rewrite Hp.
Qed.

Lemma run_rows_perm scheme_name svc svc' :
  use_cases svc ≡ₚ use_cases svc' ->
  run_rows (run_service (R:=R) self scheme_name svc')
  ≡ₚ map (retag (name svc') (run_sgm (run_service self scheme_name svc')))
         (run_rows (run_service self scheme_name svc)).
Proof.
  intros Hp.
  destruct (service_raised (R:=R) self (use_cases svc)) as [e|] eqn:Hs.
  - destruct (service_raised (R:=R) self (use_cases svc')) as [e'|] eqn:Hs'.
    + rewrite !run_service_eq, Hs, Hs'. reflexivity.
    + symmetry in Hp. rewrite (service_raised_perm _ _ Hp Hs') in Hs.
      discriminate Hs.
  - pose proof (service_raised_perm _ _ Hp Hs) as Hs'.
    rewrite !run_service_ok by assumption. cbn [run_rows run_sgm].
    destruct (counts_perm _ _ Hp) as (-> & -> & ->).
    unfold service_graded. rewrite <- (service_weight_perm _ _ Hp).
    rewrite !map_map. cbn [retag emit Graded.detail graded_of].
    apply Permutation_map. symmetry. now apply details_perm.
Qed.

Lemma run_lcom_perm scheme_name svc svc' :
  use_cases svc ≡ₚ use_cases svc' ->
  run_lcom (run_service (R:=R) self scheme_name svc')
  = run_lcom (run_service self scheme_name svc)
  /\ run_noo (run_service (R:=R) self scheme_name svc')
     = run_noo (run_service self scheme_name svc).
Proof.
  intros Hp. rewrite !run_lcom_eq.
  destruct (counts_perm _ _ Hp) as (Hlen & -> & ->). rewrite Hlen.
  split; [reflexivity|]. rewrite !run_service_eq.
  destruct (service_raised _ (use_cases svc)), (service_raised _ (use_cases svc'));
    exact Hlen.
Qed.

End OrderFacts.

(** X6 ([calculate_scheme_metrics], order of the use cases).  Listing
    the use cases of a service in another order changes neither its NOO nor
    its LCOM, and gives the same records in another order, up to the
    service name and the service-level SGM they carry; in exact arithmetic
    the SGM is the same too. *)
Theorem use_case_order :
  (forall (R : Type) (HR : PyNum R) (self : calculator) (scheme_name : string)
          (svc svc' : service),
      use_cases svc ≡ₚ use_cases svc' ->
      let run := run_service (R:=R) self scheme_name svc in
      let run' := run_service (R:=R) self scheme_name svc' in
      run_noo run' = run_noo run
      /\ run_lcom run' = run_lcom run
      /\ run_rows run' ≡ₚ map (retag (name svc') (run_sgm run')) (run_rows run))
  /\ (forall (self : calculator) (scheme_name : string) (svc svc' : service),
         use_cases svc ≡ₚ use_cases svc' ->
         run_sgm (run_service (R:=Qc) self scheme_name svc')
         = run_sgm (run_service (R:=Qc) self scheme_name svc)).
Proof.
  split.
  - intros R HR self scheme_name svc svc' Hp run run'.
    destruct (run_lcom_perm self scheme_name svc svc' Hp) as [Hl Hn].
    split; [exact Hn|]. split; [exact Hl|]. now apply run_rows_perm.
  - intros self scheme_name svc svc' Hp.
    rewrite !run_service_ok by apply Qc_service_raised. cbn [run_sgm].
    apply Qc_pysum_perm. unfold service_graded.
    rewrite <- (service_weight_perm self _ _ Hp).
    do 2 apply Permutation_map. symmetry. now apply details_perm.
Qed.

(** ** The batch, scheme by scheme *)

Section BatchMore.
Context {R : Type} `{PyNum R}.
Variable self : calculator.

Lemma calculate_metrics_collections :
  (calculate_metrics (R:=R) self).1
  = (flat_map (returned_rows self) (schemes self),
     flat_map (returned_summary self) (schemes self)).
Proof.
  destruct (schemes self) as [|item items] eqn:Hs.
  - unfold calculate_metrics. now rewrite Hs.
  - rewrite calculate_metrics_eq by now rewrite Hs. now rewrite Hs.
Qed.

Lemma calculate_scheme_metrics_schemes l scheme_name services :
  calculate_scheme_metrics (R:=R) (with_schemes self l) scheme_name services
  = calculate_scheme_metrics self scheme_name services.
Proof. reflexivity. Qed.

Lemma returning_iff item :
  returning (R:=R) self item
  <-> exists rows sm out,
        calculate_scheme_metrics (R:=R) self item.1 item.2 = (inr (rows, sm), out).
Proof.
  unfold returning. split.
  - intros [Hne Hok]. eexists _, _, _. now apply calculate_scheme_metrics_eq.
  - intros (rows & sm & out & Hcall). split.
    + now apply calculate_scheme_metrics_inv in Hcall as (Hne & _).
    + exact (returned_not_raised self _ _ _ _ _ Hcall).
Qed.

Lemma returned_summary_name item :
  map Summary.Scheme (returned_summary (R:=R) self item)
  = if decide (returning (R:=R) self item) then [item.1] else [].
Proof.
  unfold returned_summary.
  destruct (decide (returning (R:=R) self item)) as [Hret|Hret].
  - apply returning_iff in Hret as (rows & sm & out & Hcall). now rewrite Hcall.
  - destruct (calculate_scheme_metrics self item.1 item.2)
      as [[e|[rows sm]] out] eqn:Hcall; [reflexivity|].
    destruct Hret. apply returning_iff. now exists rows, sm, out.
Qed.

End BatchMore.

(** X7 ([calculate_metrics], splitting the batch).  Over a scheme
    dictionary made of two parts the rows are those of the first part
    followed by those of the second, and so are the summary rows; the
    output too when neither part is empty. *)
Theorem batch_splits (R : Type) (HR : PyNum R) (self : calculator)
    (first second : list (string * list service)) :
  let whole := calculate_metrics (R:=R) (with_schemes self (first ++ second)) in
  let head := calculate_metrics (R:=R) (with_schemes self first) in
  let tail := calculate_metrics (R:=R) (with_schemes self second) in
  whole.1.1 = head.1.1 ++ tail.1.1
  /\ whole.1.2 = head.1.2 ++ tail.1.2
  /\ (first ≠ [] -> second ≠ [] -> whole.2 = head.2 ++ tail.2).
Proof.
  intros whole head tail. subst whole head tail.
  pose proof (calculate_metrics_collections (R:=R) (with_schemes self (first ++ second))) as Hw.
  pose proof (calculate_metrics_collections (R:=R) (with_schemes self first)) as Hh.
  pose proof (calculate_metrics_collections (R:=R) (with_schemes self second)) as Ht.
  cbn [schemes with_schemes] in Hw, Hh, Ht.
  split; [|split].
  - rewrite Hw, Hh, Ht. cbn [fst]. now rewrite flat_map_app.
  - rewrite Hw, Hh, Ht. cbn [snd]. now rewrite flat_map_app.
  - intros H1 H2. rewrite !calculate_metrics_eq.
    + cbn [snd schemes with_schemes]. now rewrite flat_map_app.
    + exact H2.
    + exact H1.
    + cbn [schemes with_schemes]. now destruct first.
Qed.

(** X8 ([calculate_metrics], the schemes of the summary).  The [Scheme]
    column of the summary lists, in dictionary order, the names of the
    schemes whose call returned, and every detail row carries one of these
    names.  The call on a scheme returns exactly when its service list is
    not empty and no FGS quotient of its services raises. *)
Theorem summary_lists_schemes (R : Type) (HR : PyNum R) (self : calculator) :
  map Summary.Scheme (calculate_metrics (R:=R) self).1.2
  = map fst (filter (returning (R:=R) self) (schemes self))
  /\ (forall r, r ∈ (calculate_metrics (R:=R) self).1.1 ->
                Row.Scheme r ∈ map fst (filter (returning (R:=R) self) (schemes self)))
  /\ (forall scheme_name services,
         (services ≠ [] /\ scheme_raised (R:=R) self services = None)
         <-> exists rows sm out,
               calculate_scheme_metrics (R:=R) self scheme_name services
               = (inr (rows, sm), out)).
Proof.
  rewrite calculate_metrics_collections. cbn [fst snd]. split; [|split].
  - induction (schemes self) as [|item items IH]; [done|].
    cbn [flat_map]. rewrite map_app, IH, returned_summary_name.
    destruct (decide (returning (R:=R) self item)) as [Hret|Hret].
    + now rewrite filter_cons_True by exact Hret.
    + now rewrite filter_cons_False by exact Hret.
  - intros r Hr. apply list_elem_of_In, in_flat_map in Hr as ([scheme_name services] & Hitem & Hr).
    apply list_elem_of_In in Hitem, Hr. unfold returned_rows in Hr. cbn [fst snd] in Hr.
    destruct (calculate_scheme_metrics self scheme_name services)
      as [[e|[rows sm]] out] eqn:Hcall; [now apply elem_of_nil in Hr|].
    destruct (row_origin self _ _ _ _ _ _ Hcall Hr) as (svc & Hsvc & _ & Hrun).
    destruct (run_row self _ _ _ Hrun) as (uc & op & _ & _ & -> & _).
    apply list_elem_of_fmap. exists (scheme_name, services). split; [done|].
    apply list_elem_of_filter. split; [|exact Hitem].
    apply returning_iff. now exists rows, sm, out.
  - intros scheme_name services.
    exact (returning_iff self (scheme_name, services)).
Qed.

(** ** Services without use cases, and unknown names *)

Lemma processed_insert_idle (before after : list service) (idle : service) :
  use_cases idle = [] ->
  processed (before ++ idle :: after) = processed (before ++ after).
Proof.
  intros Hu. unfold processed. rewrite !filter_app.
  now rewrite filter_cons_False by (intros Hn; now apply Hn).
Qed.

(** X9 ([calculate_scheme_metrics], a service without use cases).  When
    the call on a scheme returned, the call on the scheme with one more
    service, of empty use-case list and placed anywhere, returns too: with
    the same records, the same [Max_NOO] and the same sums of LCOM and SGM,
    divided by one more. *)
Theorem idle_service_dilutes (R : Type) (HR : PyNum R) (self : calculator)
    (scheme_name : string) (before after : list service) (idle : service)
    rows sm out :
  use_cases idle = [] ->
  calculate_scheme_metrics (R:=R) self scheme_name (before ++ after)
  = (inr (rows, sm), out) ->
  exists lcoms sgms out',
    SchemeMetrics.ALCOM sm = (lcoms / of_int (len (before ++ after)))%num
    /\ SchemeMetrics.ASGM sm = (sgms / of_int (len (before ++ after)))%num
    /\ calculate_scheme_metrics (R:=R) self scheme_name (before ++ idle :: after)
       = (inr (rows,
               SchemeMetrics.mk (lcoms / of_int (len (before ++ after) + 1))%num
                                (sgms / of_int (len (before ++ after) + 1))%num
                                (SchemeMetrics.Max_NOO sm)),
          out').
Proof.
  intros Hu Hcall.
  pose proof (returned_not_raised self _ _ _ _ _ Hcall) as Hok.
  apply calculate_scheme_metrics_inv in Hcall as (Hne & -> & -> & _).
  eexists _, _, _. split; [reflexivity|]. split; [reflexivity|].
  rewrite calculate_scheme_metrics_eq.
  - unfold runs. rewrite (processed_insert_idle before after idle Hu).
    replace (len (before ++ idle :: after)) with (len (before ++ after) + 1)
      by (unfold len; rewrite !length_app; simpl length; lia).
    reflexivity.
  - now destruct before.
  - unfold scheme_raised in *. rewrite head_omap_None in *.
    apply Forall_app in Hok as [Hb Ha]. apply Forall_app. split; [exact Hb|].
    apply Forall_cons. split; [|exact Ha]. rewrite Hu. apply service_raised_nil.
Qed.

Section StrayFacts.
Context {R : Type} `{PyNum R}.
Variable self : calculator.

Lemma known_insert_unknown before after stray :
  operations self !! stray = None ->
  known self (before ++ stray :: after) = known self (before ++ after)
  /\ known_ops self (before ++ stray :: after) = known_ops self (before ++ after)
  /\ unknown self (before ++ stray :: after)
     = unknown self before ++ stray :: unknown self after.
Proof.
  intros Hs. unfold known, unknown, known_ops.
  rewrite !filter_app, !omap_app.
  destruct (known_cons_None self stray after Hs) as (Hk & Hu & Ho).
  unfold known, unknown, known_ops in Hk, Hu, Ho. now rewrite Hk, Hu, Ho.
Qed.

Lemma details_insert_unknown p before after stray :
  operations self !! stray = None ->
  details (R:=R) self p (before ++ stray :: after) = details self p (before ++ after).
Proof.
  intros Hs. unfold details. rewrite !omap_app. cbn [omap list_omap].
  now rewrite Hs.
Qed.

End StrayFacts.

(** X10 ([calculate_scheme_metrics], a name without entry).  Adding to
    a use-case list a name that has no entry in the operations catalogue
    raises NOO by one and leaves the SGM as it is; the records are the same
    but for [NOO], [M] and the LCOM recomputed with the new [M]; and the
    warning is printed at the place of the name. *)
Theorem unknown_name_inflates (R : Type) (HR : PyNum R) (self : calculator)
    (scheme_name service_name : string) (before after : list string) (stray : string) :
  operations self !! stray = None ->
  let run := run_service (R:=R) self scheme_name
               {| name := service_name; use_cases := before ++ after |} in
  let run' := run_service (R:=R) self scheme_name
                {| name := service_name; use_cases := before ++ stray :: after |} in
  run_noo run' = run_noo run + 1
  /\ run_sgm run' = run_sgm run
  /\ run_rows run' = map (recount (run_noo run + 1)) (run_rows run)
  /\ run_lcom run'
     = lcom_of (len (accesses self (before ++ after))) (run_noo run + 1)
               (card (list_to_set (accesses self (before ++ after))))
  /\ run_log run'
     = map warn_unknown (unknown self before)
       ++ warn_unknown stray :: map warn_unknown (unknown self after).
Proof.
  intros Hs run run'. subst run run'. rewrite !run_service_eq.
  cbn [name use_cases].
  destruct (known_insert_unknown self before after stray Hs) as (Hk & Ho & Hu).
  assert (Hraised : service_raised (R:=R) self (before ++ stray :: after)
                    = service_raised self (before ++ after))
    by (unfold service_raised, service_weight_of; now rewrite Hk).
  rewrite Hraised.
  assert (Hacc : accesses self (before ++ stray :: after) = accesses self (before ++ after))
    by (unfold accesses; now rewrite Ho).
  assert (Hp : service_params self (before ++ stray :: after)
               = service_params self (before ++ after))
    by (unfold service_params; now rewrite Ho).
  assert (Hg : service_graded (R:=R) self (before ++ stray :: after)
               = service_graded self (before ++ after)).
  { unfold service_graded, service_weight_of.
    now rewrite Hk, Hp, details_insert_unknown. }
  assert (Hw : service_weight_of self (before ++ stray :: after)
               = service_weight_of self (before ++ after))
    by (unfold service_weight_of; now rewrite Hk).
  assert (Hlen : len (before ++ stray :: after) = len (before ++ after) + 1)
    by (unfold len; rewrite !length_app; simpl length; lia).
  rewrite Hacc, Hg, Hw, Hlen, Hu.
  destruct (service_raised self (before ++ after));
    cbn [run_noo run_sgm run_rows run_lcom run_log].
  - split; [reflexivity|]. split; [reflexivity|].
    split; [reflexivity|]. split; [reflexivity|now rewrite map_app].
  - split; [reflexivity|]. split; [reflexivity|].
    split; [now rewrite map_map|]. split; [reflexivity|now rewrite map_app].
Qed.

(** ** Operations that access nothing *)

Lemma Qc_zero_ratio (b : Z) : (of_int 0 / of_int b)%Qc = 0%Qc.
Proof. change (of_int (R:=Qc) 0) with 0%Qc. unfold Qcdiv. ring. Qed.

Lemma Qc_dgs_zero (fp cp : Z) : dgs_of (R:=Qc) 0 0 fp cp = 0%Qc.
Proof.
  unfold dgs_of. cbn [num_add num_div Qc_PyNum]. rewrite !Qc_zero_ratio.
  reflexivity.
Qed.

Lemma float_zero_ratio (b : Z) :
  0 < b < 2 ^ 53 -> (of_int 0 / of_int b)%num = 0%float.
Proof.
  intros Hb. destruct (float_of_int_finite b Hb) as (m & e & Hx).
  apply Prim2SF_inj. cbn [num_div float_PyNum of_int].
  rewrite div_spec, Hx. reflexivity.
Qed.

Lemma float_dgs_zero (fp cp : Z) :
  fp < 2 ^ 53 -> cp < 2 ^ 53 -> dgs_of (R:=float) 0 0 fp cp = 0%float.
Proof.
  intros Hfp Hcp. unfold dgs_of. cbn [num_add float_PyNum].
  rewrite !float_zero_ratio by lia. reflexivity.
Qed.

(** X11 ([calculate_scheme_metrics], an operation without accesses).
    The record of a use case whose entry has no reads and no writes has
    [IPR = OPR = 0] and [DGS = 0], hence [SGM_Operation = 0], in exact
    arithmetic; in binary64 it has [DGS = 0.0] as long as [FP] and [CP] are
    below [2^53]. *)
Theorem accessless_operation :
  (forall (self : calculator) (scheme_name : string) (services : list service)
          rows sm out (r : Row.t Qc),
      calculate_scheme_metrics (R:=Qc) self scheme_name services = (inr (rows, sm), out) ->
      r ∈ rows ->
      operations self !! Row.Operation r = Some {| read := []; write := [] |} ->
      Row.IPR r = 0 /\ Row.OPR r = 0 /\ Row.DGS r = 0%Qc /\ Row.SGM_Operation r = 0%Qc)
  /\ (forall (self : calculator) (scheme_name : string) (services : list service)
             rows sm out (r : Row.t float),
         calculate_scheme_metrics (R:=float) self scheme_name services
         = (inr (rows, sm), out) ->
         r ∈ rows ->
         operations self !! Row.Operation r = Some {| read := []; write := [] |} ->
         Row.FP r < 2 ^ 53 -> Row.CP r < 2 ^ 53 ->
         Row.IPR r = 0 /\ Row.OPR r = 0 /\ Row.DGS r = 0%float).
Proof.
  split.
  - intros self scheme_name services rows sm out r Hcall Hr Hop.
    destruct (row_origin self _ _ _ _ _ _ Hcall Hr) as (svc & Hsvc & _ & Hrun).
    destruct (run_row self _ _ _ Hrun)
      as (uc & op & _ & Hop' & _ & _ & Huc & _ & _ & _ & _ & _ & _
          & HI & HO & _ & _ & HD & _ & _ & _ & HSO & _).
    rewrite Huc, Hop' in Hop. injection Hop as ->.
    cbn [read write] in HI, HO. rewrite list_to_set_nil in HI, HO.
    unfold card in HI, HO. rewrite size_empty in HI, HO. cbn in HI, HO.
    assert (HD0 : Row.DGS r = 0%Qc) by (rewrite HD, HI, HO; apply Qc_dgs_zero).
    repeat split; try assumption.
    rewrite HSO, HD0. cbn [num_mul Qc_PyNum]. ring.
  - intros self scheme_name services rows sm out r Hcall Hr Hop Hfp Hcp.
    destruct (row_origin self _ _ _ _ _ _ Hcall Hr) as (svc & Hsvc & _ & Hrun).
    destruct (run_row self _ _ _ Hrun)
      as (uc & op & _ & Hop' & _ & _ & Huc & _ & _ & _ & _ & _ & _
          & HI & HO & _ & _ & HD & _).
    rewrite Huc, Hop' in Hop. injection Hop as ->.
    cbn [read write] in HI, HO. rewrite list_to_set_nil in HI, HO.
    unfold card in HI, HO. rewrite size_empty in HI, HO. cbn in HI, HO.
    repeat split; try assumption.
    rewrite HD, HI, HO. now apply float_dgs_zero.
Qed.

(** * Properties of the loaders and of the export *)

(** ** Attribute identifiers *)

Lemma string_app_nil (t : string) : EmptyString +:+ t = t.
Proof. reflexivity. Qed.

Lemma string_app_cons c (s t : string) :
  String c s +:+ t = String c (s +:+ t).
Proof. reflexivity. Qed.

Lemma qualify_inj_attr (entity : string) : Inj (=) (=) (qualify entity).
Proof.
  intros a1 a2 Heq. unfold qualify in Heq.
  apply String.app_inj in Heq. now apply String.app_inj in Heq.
Qed.

Lemma qualify_inj (n1 n2 a1 a2 : string) :
  dot_free n1 = true -> dot_free n2 = true ->
  qualify n1 a1 = qualify n2 a2 -> n1 = n2 /\ a1 = a2.
Proof.
  unfold qualify. revert n2.
  induction n1 as [|c n1 IH]; intros [|c' n2];
    rewrite ?string_app_nil, ?string_app_cons; cbn [dot_free].
  - intros _ _ [= Heq]. split; [done|exact Heq].
  - intros _ Hd [= <- _]. now rewrite Ascii.eqb_refl in Hd.
  - intros Hd _ [= -> _]. now rewrite Ascii.eqb_refl in Hd.
  - intros Hd1 Hd2 [= -> Heq].
    apply andb_true_iff in Hd1 as [_ Hd1], Hd2 as [_ Hd2].
    destruct (IH n2 Hd1 Hd2 Heq) as [-> ->]. done.
Qed.

(** ** Entities *)

Lemma parse_entity_list_app l1 l2 c0 :
  parse_entity_list (l1 ++ l2) c0
  = match parse_entity_list l1 c0 with
    | inl e => inl e
    | inr c1 => parse_entity_list l2 c1
    end.
Proof.
  revert c0. induction l1 as [|e l1 IH]; intros c0; [done|].
  cbn [app parse_entity_list].
  destruct (EntityDoc.name e), (EntityDoc.nanoentities e); first [apply IH | done].
Qed.

Lemma parse_entity_list_complete l c0 :
  Forall complete l -> exists c, parse_entity_list l c0 = inr c.
Proof.
  intros Hall. revert c0. induction Hall as [|e l [[n Hn] [attrs Ha]] _ IH]; intros c0.
  - now exists c0.
  - cbn [parse_entity_list]. rewrite Hn, Ha. apply IH.
Qed.

Lemma parse_entity_list_incomplete l c0 :
  ¬ Forall complete l ->
  parse_entity_list l c0 = inl (ValueError "Incomplete entity definition").
Proof.
  revert c0. induction l as [|e l IH]; intros c0 Hnot.
  - exfalso. apply Hnot. constructor.
  - cbn [parse_entity_list].
    destruct (EntityDoc.name e) as [n|] eqn:Hn; [|done].
    destruct (EntityDoc.nanoentities e) as [attrs|] eqn:Ha; [|done].
    apply IH. intros Hall. apply Hnot. constructor; [|exact Hall].
    split; [rewrite Hn | rewrite Ha]; eauto.
Qed.

Lemma parse_entity_list_other l c0 c n :
  parse_entity_list l c0 = inr c ->
  Forall (fun e => EntityDoc.name e ≠ Some n) l ->
  c !! n = c0 !! n.
Proof.
  revert c0. induction l as [|e l IH]; intros c0 Hparse Hall.
  - now injection Hparse as ->.
  - cbn [parse_entity_list] in Hparse.
    apply Forall_cons in Hall as [Hne Hall].
    destruct (EntityDoc.name e) as [m|] eqn:Hm; [|done].
    destruct (EntityDoc.nanoentities e) as [attrs|]; [|done].
    rewrite (IH _ Hparse Hall). apply lookup_insert_ne. congruence.
Qed.

Lemma parse_entity_list_last l1 e l2 c0 c n attrs :
  parse_entity_list (l1 ++ e :: l2) c0 = inr c ->
  EntityDoc.name e = Some n -> EntityDoc.nanoentities e = Some attrs ->
  Forall (fun e' => EntityDoc.name e' ≠ Some n) l2 ->
  c !! n = Some (map (qualify n) attrs).
Proof.
  intros Hparse Hn Ha Hall. rewrite parse_entity_list_app in Hparse.
  destruct (parse_entity_list l1 c0) as [err|c1]; [done|].
  cbn [parse_entity_list] in Hparse. rewrite Hn, Ha in Hparse.
  rewrite (parse_entity_list_other _ _ _ _ Hparse Hall).
  apply lookup_insert_eq.
Qed.

Lemma parse_entity_list_source l c0 c n ids :
  parse_entity_list l c0 = inr c ->
  c !! n = Some ids ->
  c0 !! n = Some ids
  \/ exists e attrs, e ∈ l /\ EntityDoc.name e = Some n
                     /\ EntityDoc.nanoentities e = Some attrs
                     /\ ids = map (qualify n) attrs.
Proof.
  revert c0. induction l as [|e l IH]; intros c0 Hparse Hlook.
  - injection Hparse as ->. now left.
  - cbn [parse_entity_list] in Hparse.
    destruct (EntityDoc.name e) as [m|] eqn:Hm; [|done].
    destruct (EntityDoc.nanoentities e) as [attrs|] eqn:Ha; [|done].
    destruct (IH _ Hparse Hlook) as [Hc0|(e' & attrs' & Hin & Hrest)].
    + destruct (decide (m = n)) as [->|Hne].
      * rewrite lookup_insert_eq in Hc0. injection Hc0 as <-.
        right. exists e, attrs. split; [apply list_elem_of_here|done].
      * rewrite lookup_insert_ne in Hc0 by exact Hne. now left.
    + right. exists e', attrs'. split; [now apply list_elem_of_further|exact Hrest].
Qed.

Lemma parse_entity_list_size l c0 c :
  parse_entity_list l c0 = inr c -> (size c <= size c0 + length l)%nat.
Proof.
  revert c0. induction l as [|e l IH]; intros c0 Hparse.
  - injection Hparse as ->. lia.
  - cbn [parse_entity_list] in Hparse.
    destruct (EntityDoc.name e) as [m|]; [|done].
    destruct (EntityDoc.nanoentities e) as [attrs|]; [|done].
    apply IH in Hparse. simpl length.
    pose proof (map_size_insert m (map (qualify m) attrs) c0) as Hs.
    destruct (c0 !! m); unfold id in Hs; lia.
Qed.

(** The last element with a decidable property splits a list. *)
Lemma last_split {A} (P : A -> Prop) `{!forall x, Decision (P x)} (l : list A) :
  Exists P l ->
  exists l1 x l2, l = l1 ++ x :: l2 /\ P x /\ Forall (fun y => ¬ P y) l2.
Proof.
  induction l as [|a l IH]; intros Hex; [now apply Exists_nil in Hex|].
  destruct (decide (Exists P l)) as [Hl|Hl].
  - destruct (IH Hl) as (l1 & x & l2 & -> & Hx & Hrest).
    now exists (a :: l1), x, l2.
  - apply Exists_cons in Hex as [Ha|Hl']; [|done].
    exists [], a, l. repeat split; [exact Ha|].
    now apply not_Exists_Forall.
Qed.

Lemma parse_entity_list_defined l c n :
  Forall complete l ->
  parse_entity_list l ∅ = inr c ->
  is_Some (c !! n) <-> exists e, e ∈ l /\ EntityDoc.name e = Some n.
Proof.
  intros Hall Hparse. split.
  - intros [ids Hids].
    destruct (parse_entity_list_source _ _ _ _ _ Hparse Hids)
      as [Hempty|(e & attrs & Hin & Hn & _)]; [done|]. now exists e.
  - intros (e & Hin & Hn).
    destruct (last_split (fun e => EntityDoc.name e = Some n) l)
      as (l1 & x & l2 & -> & Hx & Hrest).
    { apply Exists_exists. now exists e. }
    assert (Hcx : complete x).
    { rewrite Forall_forall in Hall. apply Hall, elem_of_app. right.
      apply list_elem_of_here. }
    destruct Hcx as [_ [attrs Ha]].
    rewrite (parse_entity_list_last _ _ _ _ _ _ _ Hparse Hx Ha Hrest). eauto.
Qed.

(** X12 ([_parse_entities], errors).  A document without ["entities"]
    raises [ValueError("Missing 'entities' key in entity file")]; a list
    with an entity that lacks ["name"] or ["nanoentities"] raises
    [ValueError("Incomplete entity definition")] whatever the other entities
    are, and nothing is printed in either case; a list of complete entities
    returns a catalogue whose keys are exactly the names in the list, so no
    more keys than entities, and prints the number of keys. *)
Theorem parse_entities_outcome :
  _parse_entities None
  = (inl (ValueError "Missing 'entities' key in entity file"), [])
  /\ (forall l, ¬ Forall complete l ->
        _parse_entities (Some l)
        = (inl (ValueError "Incomplete entity definition"), []))
  /\ (forall l, Forall complete l ->
        exists c,
          _parse_entities (Some l)
          = (inr c, ["Loaded " +:+ pretty (size c) +:+ " entities"])
          /\ (size c <= length l)%nat
          /\ forall n, is_Some (c !! n)
                       <-> exists e, e ∈ l /\ EntityDoc.name e = Some n).
Proof.
  split; [reflexivity|]. split.
  - intros l Hnot. unfold _parse_entities.
    now rewrite (parse_entity_list_incomplete l ∅ Hnot).
  - intros l Hall.
    destruct (parse_entity_list_complete l ∅ Hall) as [c Hc].
    exists c. unfold _parse_entities. rewrite Hc. split; [done|]. split.
    + pose proof (parse_entity_list_size _ _ _ Hc) as Hs.
      rewrite map_size_empty in Hs. lia.
    + intros n. now apply parse_entity_list_defined.
Qed.

(** X13 ([_parse_entities], repeated names).  When the call returns, the
    entry of a name holds the identifiers [name.attr] of the attributes of
    the last entity of the list with that name, in their order; what
    earlier entities of the same name listed leaves no trace. *)
Theorem entity_last_definition_wins l1 e l2 n attrs c log :
  _parse_entities (Some (l1 ++ e :: l2)) = (inr c, log) ->
  EntityDoc.name e = Some n ->
  EntityDoc.nanoentities e = Some attrs ->
  Forall (fun e' => EntityDoc.name e' ≠ Some n) l2 ->
  c !! n = Some (map (qualify n) attrs).
Proof.
  unfold _parse_entities. intros Hcall Hn Ha Hrest.
  destruct (parse_entity_list (l1 ++ e :: l2) ∅) as [err|c'] eqn:Hparse; [done|].
  injection Hcall as <- _.
  exact (parse_entity_list_last _ _ _ _ _ _ _ Hparse Hn Ha Hrest).
Qed.

(** X14 ([_parse_entities], identifiers).  In a returned catalogue every
    entry is the list [name.attr] of some entity of that name; an
    identifier found under two names without a dot forces the names to be
    equal; and when no entity repeats an attribute no entry repeats an
    identifier. *)
Theorem attribute_ids_unique l c log :
  _parse_entities (Some l) = (inr c, log) ->
  (forall n ids, c !! n = Some ids ->
     exists e attrs, e ∈ l /\ EntityDoc.name e = Some n
                     /\ EntityDoc.nanoentities e = Some attrs
                     /\ ids = map (qualify n) attrs)
  /\ (forall n1 n2 ids1 ids2 x,
        c !! n1 = Some ids1 -> c !! n2 = Some ids2 ->
        x ∈ ids1 -> x ∈ ids2 ->
        dot_free n1 = true -> dot_free n2 = true -> n1 = n2)
  /\ (Forall (fun e => forall attrs,
                EntityDoc.nanoentities e = Some attrs -> NoDup attrs) l ->
      forall n ids, c !! n = Some ids -> NoDup ids).
Proof.
  unfold _parse_entities. intros Hcall.
  destruct (parse_entity_list l ∅) as [err|c'] eqn:Hparse; [done|].
  injection Hcall as <- _.
  assert (Hsrc : forall n ids, c' !! n = Some ids ->
     exists e attrs, e ∈ l /\ EntityDoc.name e = Some n
                     /\ EntityDoc.nanoentities e = Some attrs
                     /\ ids = map (qualify n) attrs).
  { intros n ids Hids.
    destruct (parse_entity_list_source _ _ _ _ _ Hparse Hids) as [Hempty|Hsrc];
      [done|exact Hsrc]. }
  split; [exact Hsrc|]. split.
  - intros n1 n2 ids1 ids2 x H1 H2 Hx1 Hx2 Hd1 Hd2.
    destruct (Hsrc _ _ H1) as (_ & attrs1 & _ & _ & _ & ->).
    destruct (Hsrc _ _ H2) as (_ & attrs2 & _ & _ & _ & ->).
    apply list_elem_of_fmap in Hx1 as (a1 & -> & _).
    apply list_elem_of_fmap in Hx2 as (a2 & Heq & _).
    now destruct (qualify_inj _ _ _ _ Hd1 Hd2 Heq).
  - intros Hnodup n ids Hids.
    destruct (Hsrc _ _ Hids) as (e & attrs & Hin & _ & Ha & ->).
    rewrite Forall_forall in Hnodup.
    apply (NoDup_fmap_2 (qualify n)). exact (Hnodup e Hin attrs Ha).
Qed.

(** ** Operations *)

Lemma add_access_read entry access :
  read (add_access entry access) = read entry ++ access_reads access.
Proof.
  unfold add_access, access_reads.
  destruct (AccessDoc.entity_name access) as [entity|]; [|now rewrite app_nil_r].
  destruct (AccessDoc.read_attributes access), (AccessDoc.write_attributes access);
    cbn; now rewrite ?app_nil_r.
Qed.

Lemma add_access_write entry access :
  write (add_access entry access) = write entry ++ access_writes access.
Proof.
  unfold add_access, access_writes.
  destruct (AccessDoc.entity_name access) as [entity|]; [|now rewrite app_nil_r].
  destruct (AccessDoc.read_attributes access), (AccessDoc.write_attributes access);
    cbn; now rewrite ?app_nil_r.
Qed.

Lemma add_access_fold accesses entry :
  fold_left add_access accesses entry
  = {| read := read entry ++ flat_map access_reads accesses;
       write := write entry ++ flat_map access_writes accesses |}.
Proof.
  revert entry. induction accesses as [|access accesses IH]; intros entry.
  - cbn. rewrite !app_nil_r. now destruct entry.
  - cbn [fold_left flat_map]. rewrite IH, add_access_read, add_access_write.
    now rewrite <- !app_assoc.
Qed.

Lemma add_operation_other ops c0 n :
  Forall (fun op => OperationDoc.name op ≠ Some n) ops ->
  fold_left add_operation ops c0 !! n = c0 !! n.
Proof.
  revert c0. induction ops as [|op ops IH]; intros c0 Hall; [done|].
  apply Forall_cons in Hall as [Hne Hall]. cbn [fold_left].
  rewrite (IH _ Hall). unfold add_operation.
  destruct (OperationDoc.name op) as [m|]; [|done].
  apply lookup_insert_ne. congruence.
Qed.

Lemma add_operation_last l1 op l2 c0 n :
  OperationDoc.name op = Some n ->
  Forall (fun op' => OperationDoc.name op' ≠ Some n) l2 ->
  fold_left add_operation (l1 ++ op :: l2) c0 !! n
  = Some {| read := flat_map access_reads
                      (default [] (OperationDoc.database_access op));
            write := flat_map access_writes
                       (default [] (OperationDoc.database_access op)) |}.
Proof.
  intros Hn Hrest. rewrite fold_left_app. cbn [fold_left].
  rewrite (add_operation_other _ _ _ Hrest). unfold add_operation. rewrite Hn.
  rewrite lookup_insert_eq. now rewrite add_access_fold.
Qed.

Lemma add_operation_source ops c0 n :
  is_Some (fold_left add_operation ops c0 !! n) ->
  is_Some (c0 !! n) \/ exists op, op ∈ ops /\ OperationDoc.name op = Some n.
Proof.
  revert c0. induction ops as [|op ops IH]; intros c0 Hsome; [now left|].
  cbn [fold_left] in Hsome. destruct (IH _ Hsome) as [Hc0|(op' & Hin & Hn)].
  - unfold add_operation in Hc0.
    destruct (OperationDoc.name op) as [m|] eqn:Hm; [|now left].
    destruct (decide (m = n)) as [->|Hne].
    + right. exists op. split; [apply list_elem_of_here|done].
    + rewrite lookup_insert_ne in Hc0 by exact Hne. now left.
  - right. exists op'. split; [now apply list_elem_of_further|exact Hn].
Qed.

(** X15 ([load_operations], outcome).  On documents of the shape the
    loader expects (each operation an object, ["database_access"] when
    present a list of objects, the attribute lists lists of strings): a
    missing file raises [FileNotFoundError] and a document without
    ["operations"] raises [ValueError]; when the call returned, the file
    exists and has ["operations"], and the keys of the returned catalogue
    are exactly the names that occur in the list, an operation without
    ["name"] being passed over. *)
Theorem load_operations_outcome ops_file :
  load_operations ops_file None
  = (inl (FileNotFoundError ("Operations file not found: " +:+ ops_file)), [])
  /\ (load_operations ops_file (Some None)).1
     = inl (Raised (ValueError "Missing 'operations' key in operations file"))
  /\ forall file c log,
       load_operations ops_file file = (inr c, log) ->
       exists data_operations,
         file = Some (Some data_operations)
         /\ forall n, is_Some (c !! n)
                      <-> exists op, op ∈ data_operations
                                     /\ OperationDoc.name op = Some n.
Proof.
  split; [reflexivity|]. split; [reflexivity|].
  intros [[data_operations|]|] c log Hcall; try discriminate Hcall.
  injection Hcall as <- _.
  exists data_operations. split; [reflexivity|].
  intros n. split.
  - intros Hsome. destruct (add_operation_source _ _ _ Hsome) as [Hempty|Hop];
      [|exact Hop].
    rewrite lookup_empty in Hempty. now destruct Hempty.
  - intros (op & Hin & Hn).
    destruct (last_split (fun op => OperationDoc.name op = Some n) data_operations)
      as (l1 & x & l2 & -> & Hx & Hrest).
    { apply Exists_exists. now exists op. }
    rewrite (add_operation_last _ _ _ _ _ Hx Hrest). eauto.
Qed.

(** X16 ([load_operations], entries).  The entry of a name is built from
    the last operation of the list with that name alone: its reads are the
    identifiers [entity.attr] of the ["read_attributes"] of its accesses, in
    order and with repetitions, likewise its writes, an access without
    ["entity_name"] adding nothing; earlier operations of the same name
    leave no trace. *)
Theorem operation_last_definition_wins ops_file l1 op l2 n c log :
  load_operations ops_file (Some (Some (l1 ++ op :: l2))) = (inr c, log) ->
  OperationDoc.name op = Some n ->
  Forall (fun op' => OperationDoc.name op' ≠ Some n) l2 ->
  c !! n
  = Some {| read := flat_map access_reads
                      (default [] (OperationDoc.database_access op));
            write := flat_map access_writes
                       (default [] (OperationDoc.database_access op)) |}.
Proof.
  intros Hcall Hn Hrest. injection Hcall as <- _.
  exact (add_operation_last _ _ _ _ _ Hn Hrest).
Qed.

(** ** Schemes *)

Lemma dict_set_keys {V} k (v : V) d :
  map fst (dict_set k v d)
  = if decide (k ∈ map fst d) then map fst d else map fst d ++ [k].
Proof.
  unfold dict_set. destruct (decide (k ∈ map fst d)) as [Hin|Hout].
  - rewrite map_map. apply map_ext_in. intros kv _.
    destruct (decide (kv.1 = k)) as [->|]; done.
  - now rewrite map_app.
Qed.

Lemma dict_set_NoDup {V} k (v : V) d :
  NoDup (map fst d) -> NoDup (map fst (dict_set k v d)).
Proof.
  intros Hd. rewrite dict_set_keys.
  destruct (decide (k ∈ map fst d)) as [Hin|Hout]; [exact Hd|].
  apply NoDup_app. split; [exact Hd|]. split; [|apply NoDup_singleton].
  intros x Hx Hk. apply list_elem_of_singleton in Hk as ->. done.
Qed.

Lemma dict_set_elem {V} k (v : V) d item :
  item ∈ dict_set k v d -> item = (k, v) \/ item ∈ d.
Proof.
  unfold dict_set. destruct (decide (k ∈ map fst d)) as [Hin|Hout].
  - intros Hitem. apply list_elem_of_fmap in Hitem as (kv & -> & Hkv).
    destruct (decide (kv.1 = k)); [now left|now right].
  - intros Hitem. apply elem_of_app in Hitem as [Hd|Hnew]; [now right|].
    apply list_elem_of_singleton in Hnew. now left.
Qed.

Lemma load_file_schemes st f : (load_file st f).1 = set_scheme st.1 f.
Proof.
  unfold load_file, set_scheme, scheme_of.
  destruct (content f) as [data|msg]; [|done].
  now destruct (SchemeDoc.services data).
Qed.

Lemma load_file_fold files st :
  (fold_left load_file files st).1 = fold_left set_scheme files st.1.
Proof.
  revert st. induction files as [|f files IH]; intros st; [done|].
  cbn [fold_left]. now rewrite IH, load_file_schemes.
Qed.

Lemma set_scheme_NoDup files d :
  NoDup (map fst d) -> NoDup (map fst (fold_left set_scheme files d)).
Proof.
  revert d. induction files as [|f files IH]; intros d Hd; [exact Hd|].
  cbn [fold_left]. apply IH. unfold set_scheme.
  destruct (scheme_of f) as [[k v]|]; [now apply dict_set_NoDup|exact Hd].
Qed.

Lemma set_scheme_source files d item :
  item ∈ fold_left set_scheme files d ->
  item ∈ d \/ exists f, f ∈ files /\ scheme_of f = Some item.
Proof.
  revert d. induction files as [|f files IH]; intros d Hitem; [now left|].
  cbn [fold_left] in Hitem. destruct (IH _ Hitem) as [Hd|(f' & Hin & Hf')].
  - unfold set_scheme in Hd. destruct (scheme_of f) as [[k v]|] eqn:Hf.
    + destruct (dict_set_elem _ _ _ _ Hd) as [->|Hd']; [|now left].
      right. exists f. split; [apply list_elem_of_here|exact Hf].
    + now left.
  - right. exists f'. split; [now apply list_elem_of_further|exact Hf'].
Qed.

Lemma set_scheme_distinct files d :
  NoDup (map fst d ++ map fst (omap scheme_of files)) ->
  fold_left set_scheme files d = d ++ omap scheme_of files.
Proof.
  revert d. induction files as [|f files IH]; intros d Hd.
  - cbn. now rewrite app_nil_r.
  - cbn [fold_left omap list_omap] in *. unfold set_scheme at 2.
    destruct (scheme_of f) as [[k v]|]; [|now apply IH].
    cbn [map fst] in Hd.
    assert (Hfresh : k ∉ map fst d).
    { apply NoDup_app in Hd as (_ & Hdisj & _). intros Hk.
      apply (Hdisj k Hk), list_elem_of_here. }
    unfold dict_set. rewrite decide_False by exact Hfresh.
    rewrite IH.
    + now rewrite <- app_assoc.
    + rewrite map_app. cbn [map fst]. now rewrite <- app_assoc.
Qed.

(** X17 ([load_schemes], outcome).  On files that decode, or fail with
    [json.JSONDecodeError], to documents of the shape the loader expects
    (["services"] when present a list of objects, ["useCaseResponsibility"]
    when present an object): a missing directory raises
    [NotADirectoryError]; when the call returned, the directory exists, the
    names of the loaded schemes are pairwise distinct, every loaded scheme
    is what one of the files yields, and when the files that parse and have
    ["services"] have distinct names the result is exactly their schemes in
    file order, so that a malformed file or one without ["services"]
    removes nothing but itself. *)
Theorem load_schemes_outcome scheme_dir :
  load_schemes scheme_dir None
  = (inl (NotADirectoryError ("Schemes directory not found: " +:+ scheme_dir)), [])
  /\ forall dir schemes log,
       load_schemes scheme_dir dir = (inr schemes, log) ->
       exists json_files,
         dir = Some json_files
         /\ NoDup (map fst schemes)
         /\ (forall item, item ∈ schemes ->
               exists f, f ∈ json_files /\ scheme_of f = Some item)
         /\ (NoDup (map fst (omap scheme_of json_files)) ->
             schemes = omap scheme_of json_files).
Proof.
  split; [reflexivity|].
  intros [[|f files]|] schemes log Hcall; try discriminate Hcall.
  - injection Hcall as <- _. exists []. split; [reflexivity|].
    split; [constructor|].
    split; [|done]. intros item Hitem. now apply elem_of_nil in Hitem.
  - unfold load_schemes in Hcall. rewrite load_file_fold in Hcall.
    cbn [fst snd] in Hcall. injection Hcall as <- _.
    change (fold_left set_scheme files (set_scheme [] f))
      with (fold_left set_scheme (f :: files) []).
    exists (f :: files). split; [reflexivity|]. split; [|split].
    + apply set_scheme_NoDup. constructor.
    + intros item Hitem.
      destruct (set_scheme_source _ _ _ Hitem) as [Hnil|Hsrc]; [|exact Hsrc].
      now apply elem_of_nil in Hnil.
    + intros Hnodup. now rewrite set_scheme_distinct.
Qed.

(** ** From a scheme document to its metrics *)

Lemma service_of_idle data svcs :
  SchemeDoc.useCaseResponsibility data = None ->
  Forall (fun svc => use_cases svc = []) (omap (service_of data) svcs).
Proof.
  intros Hnone. apply Forall_forall. intros svc Hin.
  apply list_elem_of_omap in Hin as (doc & _ & Hsvc).
  unfold service_of in Hsvc. rewrite Hnone in Hsvc.
  destruct (ServiceDoc.name doc); [|done]. now injection Hsvc as <-.
Qed.

Lemma processed_idle services :
  Forall (fun svc => use_cases svc = []) services -> processed services = [].
Proof.
  induction 1 as [|svc services Hu _ IH]; [done|].
  unfold processed. rewrite filter_cons_False by (intros Hn; now apply Hn).
  exact IH.
Qed.

Lemma service_log_idle self services :
  Forall (fun svc => use_cases svc = []) services ->
  flat_map (service_log self) services
  = map (fun svc => warn_no_use_cases (name svc)) services.
Proof.
  induction 1 as [|svc services Hu _ IH]; [done|].
  cbn [flat_map map]. rewrite IH. unfold service_log. now rewrite Hu.
Qed.

Lemma scheme_raised_idle {R} `{PyNum R} self services :
  Forall (fun svc => use_cases svc = []) services ->
  scheme_raised (R:=R) self services = None.
Proof.
  intros Hidle. unfold scheme_raised. apply head_omap_None.
  eapply Forall_impl; [exact Hidle|]. intros svc Hu. now rewrite Hu.
Qed.

(** X18 ([load_schemes] into [calculate_scheme_metrics]).  A scheme
    document with ["services"] but without ["useCaseResponsibility"] loads
    as its named services, each with an empty use-case list.  The scheme
    raises [ValueError] when no service is named; otherwise it returns no
    record, both averages as [0 / len(services)], [Max_NOO = 0], and prints
    one warning per service. *)
Theorem scheme_without_responsibilities {R} `{PyNum R} (self : calculator)
    (f : scheme_file) data data_services :
  content f = Parsed data ->
  SchemeDoc.services data = Some data_services ->
  SchemeDoc.useCaseResponsibility data = None ->
  exists services,
    scheme_of f = Some (stem f, services)
    /\ map name services = omap ServiceDoc.name data_services
    /\ (services = [] ->
        calculate_scheme_metrics (R:=R) self (stem f) services
        = (inl (ValueError "No services defined for this scheme"), []))
    /\ (services ≠ [] ->
        calculate_scheme_metrics (R:=R) self (stem f) services
        = (inr ([], SchemeMetrics.mk (of_int 0 / of_int (len services))%num
                                     (of_int 0 / of_int (len services))%num 0),
           map (fun svc => warn_no_use_cases (name svc)) services)).
Proof.
  intros Hcontent Hservices Hnone.
  exists (omap (service_of data) data_services).
  split; [unfold scheme_of; now rewrite Hcontent, Hservices|]. split.
  - clear Hservices. induction data_services as [|doc docs IH]; [done|].
    cbn [omap list_omap]. unfold service_of at 1.
    destruct (ServiceDoc.name doc); [|exact IH]. cbn [map name]. now rewrite IH.
  - pose proof (service_of_idle data data_services Hnone) as Hidle.
    split; [now intros ->|]. intros Hne.
    rewrite calculate_scheme_metrics_eq
      by (try exact Hne; now apply scheme_raised_idle).
    unfold runs.
    rewrite (processed_idle _ Hidle), (service_log_idle _ _ Hidle). reflexivity.
Qed.

(** ** Construction *)

Lemma load_schemes_returns scheme_dir json_files :
  exists schemes log,
    load_schemes scheme_dir (Some json_files) = (inr schemes, log).
Proof. destruct json_files; now eexists _, _. Qed.

Lemma app_tail3 {A} (l1 l2 l3 : list A) x :
  l1 ++ l2 ++ l3 ++ [x] = (l1 ++ l2 ++ l3) ++ [x].
Proof. now rewrite !app_assoc. Qed.

Lemma init_cases fs config_path :
  (exists e log,
     init fs config_path
     = (inl e, log ++ ["Initialization failed: " +:+ load_str e]))
  \/ (exists cfg ef opf sd el ops json_files ec sl log,
        config_at fs config_path = Some cfg
        /\ ConfigDoc.entities_file cfg = Some ef
        /\ ConfigDoc.operations_file cfg = Some opf
        /\ ConfigDoc.schemes_dir cfg = Some sd
        /\ entities_at fs ef = Some (Some el)
        /\ operations_at fs opf = Some (Some ops)
        /\ schemes_at fs sd = Some json_files
        /\ parse_entity_list el ∅ = inr ec
        /\ (load_schemes sd (Some json_files)).1 = inr sl
        /\ init fs config_path
           = (inr {| entities := ec;
                     operations := fold_left add_operation ops ∅;
                     op_type_map := default ∅ (ConfigDoc.op_type_map cfg);
                     op_weights :=
                       default default_op_weights (ConfigDoc.op_weights cfg);
                     schemes := sl |},
              log ++ ["Configuration loaded successfully!"])).
Proof.
  unfold init, load_config.
  destruct (config_at fs config_path) as [cfg|] eqn:Hcfg;
    [|left; eexists _, []; reflexivity].
  destruct (ConfigDoc.entities_file cfg) as [ef|] eqn:Hef;
    [|left; eexists _, []; reflexivity].
  destruct (ConfigDoc.operations_file cfg) as [opf|] eqn:Hopf;
    [|left; eexists _, []; reflexivity].
  destruct (ConfigDoc.schemes_dir cfg) as [sd|] eqn:Hsd;
    [|left; eexists _, []; reflexivity].
  rewrite Hef, Hopf, Hsd. change (default EmptyString (Some ef)) with ef.
  change (default EmptyString (Some opf)) with opf. change (default EmptyString (Some sd)) with sd.
  unfold load_entities.
  destruct (entities_at fs ef) as [[el|]|] eqn:Hel;
    [|left; eexists _, _; reflexivity|left; eexists _, _; reflexivity].
  unfold _parse_entities.
  destruct (parse_entity_list el ∅) as [err|ec] eqn:Hec;
    [left; eexists _, _; reflexivity|].
  unfold load_operations.
  destruct (operations_at fs opf) as [[ops|]|] eqn:Hops;
    [|left; eexists _, _; reflexivity|left; eexists _, _; reflexivity].
  destruct (schemes_at fs sd) as [json_files|] eqn:Hfiles;
    [|left; eexists _, _; reflexivity].
  right. exists cfg, ef, opf, sd, el, ops, json_files, ec.
  destruct (load_schemes_returns sd json_files) as (sl & log3 & Hsl).
  rewrite Hsl. eexists sl, _.
  repeat (split; [first [eassumption|reflexivity]|]).
  apply (f_equal (pair _)), app_tail3.
Qed.

Lemma init_loadable fs config_path cfg ef opf sd el ops json_files :
  config_at fs config_path = Some cfg ->
  ConfigDoc.entities_file cfg = Some ef ->
  ConfigDoc.operations_file cfg = Some opf ->
  ConfigDoc.schemes_dir cfg = Some sd ->
  entities_at fs ef = Some (Some el) -> Forall complete el ->
  operations_at fs opf = Some (Some ops) ->
  schemes_at fs sd = Some json_files ->
  exists self log, init fs config_path = (inr self, log).
Proof.
  intros Hcfg Hef Hopf Hsd Hel Hall Hops Hfiles.
  destruct (parse_entity_list_complete el ∅ Hall) as [ec Hec].
  destruct (load_schemes_returns sd json_files) as (sl & log3 & Hsl).
  unfold init, load_config. rewrite Hcfg, Hef, Hopf, Hsd.
  rewrite Hef, Hopf, Hsd. change (default EmptyString (Some ef)) with ef.
  change (default EmptyString (Some opf)) with opf. change (default EmptyString (Some sd)) with sd.
  unfold load_entities, _parse_entities, load_operations.
  rewrite Hel, Hec, Hops, Hfiles, Hsl. now eexists _, _.
Qed.

Lemma default_weight_range (op_type : string) :
  1 <= default 1 (default_op_weights !! op_type) <= 4.
Proof.
  unfold default_op_weights.
  repeat match goal with
         | |- context [<[?k := _]> _ !! op_type] =>
             destruct (decide (k = op_type)) as [->|];
             [rewrite lookup_insert_eq; cbn; lia
             |rewrite lookup_insert_ne by assumption]
         end.
  rewrite lookup_empty. cbn. lia.
Qed.

(** X19 ([__init__], outcome).  The constructor returns an instance
    exactly when the configuration file exists and has its three required
    keys, the entity file exists, has ["entities"] and only complete
    entities, the operations file exists and has ["operations"], and the
    schemes directory exists; nothing about the scheme files or the
    operations can make it fail.  The last line printed is the failure
    message of the exception raised, or the success message. *)
Theorem init_outcome fs config_path :
  ((exists self, (init fs config_path).1 = inr self)
   <-> exists cfg ef opf sd el ops json_files,
         config_at fs config_path = Some cfg
         /\ ConfigDoc.entities_file cfg = Some ef
         /\ ConfigDoc.operations_file cfg = Some opf
         /\ ConfigDoc.schemes_dir cfg = Some sd
         /\ entities_at fs ef = Some (Some el) /\ Forall complete el
         /\ operations_at fs opf = Some (Some ops)
         /\ schemes_at fs sd = Some json_files)
  /\ (forall e, (init fs config_path).1 = inl e ->
        last (init fs config_path).2
        = Some ("Initialization failed: " +:+ load_str e))
  /\ (forall self, (init fs config_path).1 = inr self ->
        last (init fs config_path).2
        = Some "Configuration loaded successfully!").
Proof.
  destruct (init_cases fs config_path)
    as [(e & log & Hinit)
       |(cfg & ef & opf & sd & el & ops & json_files & ec & sl & log
         & Hcfg & Hef & Hopf & Hsd & Hel & Hops & Hfiles & Hec & _ & Hinit)].
  - split; [split|split].
    + intros [self Hself]. now rewrite Hinit in Hself.
    + intros (cfg & ef & opf & sd & el & ops & json_files
              & Hcfg & Hef & Hopf & Hsd & Hel & Hall & Hops & Hfiles).
      destruct (init_loadable _ _ _ _ _ _ _ _ _ Hcfg Hef Hopf Hsd Hel Hall
                  Hops Hfiles) as (self & log' & Hok).
      rewrite Hok in Hinit. discriminate Hinit.
    + intros e' He'. rewrite Hinit in He' |- *. cbn [fst snd] in *.
      injection He' as <-. apply last_snoc.
    + intros self Hself. now rewrite Hinit in Hself.
  - split; [split|split].
    + intros _. exists cfg, ef, opf, sd, el, ops, json_files.
      repeat (split; [assumption|]). split; [|done].
      destruct (decide (Forall complete el)) as [Hall|Hnot]; [exact Hall|].
      rewrite (parse_entity_list_incomplete el ∅ Hnot) in Hec. discriminate Hec.
    + intros _. rewrite Hinit. eauto.
    + intros e He. now rewrite Hinit in He.
    + intros self _. rewrite Hinit. apply last_snoc.
Qed.

(** X20 ([__init__], weights).  Without ["op_weights"] in the
    configuration every use case weighs between 1 and 4; a configured
    table replaces the four defaults as a whole, so that a use case whose
    type is missing from it weighs 1; and without ["op_type_map"] all use
    cases weigh the same, the weight of ["Read"]. *)
Theorem init_weights fs config_path self log cfg :
  init fs config_path = (inr self, log) ->
  config_at fs config_path = Some cfg ->
  (ConfigDoc.op_weights cfg = None -> forall uc, 1 <= op_weight self uc <= 4)
  /\ (forall table uc op_type,
        ConfigDoc.op_weights cfg = Some table ->
        op_type_map self !! uc = Some op_type -> table !! op_type = None ->
        op_weight self uc = 1)
  /\ (ConfigDoc.op_type_map cfg = None ->
      forall uc, op_weight self uc = default 1 (op_weights self !! "Read")).
Proof.
  intros Hinit Hcfg.
  destruct (init_cases fs config_path)
    as [(e & log' & Hfail)
       |(cfg' & ef & opf & sd & el & ops & json_files & ec & sl & log'
         & Hcfg' & _ & _ & _ & _ & _ & _ & _ & _ & Hok)].
  { rewrite Hfail in Hinit. discriminate Hinit. }
  rewrite Hok in Hinit. injection Hinit as <- _.
  rewrite Hcfg in Hcfg'. injection Hcfg' as <-.
  unfold op_weight. cbn [op_weights op_type_map]. split; [|split].
  - intros -> uc. apply default_weight_range.
  - intros table uc op_type -> Htype Hnone. rewrite Htype. cbn [default].
    cbn. now rewrite Hnone.
  - intros -> uc. cbn [default]. now rewrite lookup_empty.
Qed.

(** ** Export *)

Section ExportFacts.
Context {R : Type} `{PyNum R}.
Variable sys : os.
Variable self : calculator.
Variable output_file : string.

Lemma no_known_rows :
  Forall (fun item : string * list service =>
            Forall (fun svc =>
                      Forall (fun uc => operations self !! uc = None)
                             (use_cases svc)) item.2) (schemes self) ->
  (calculate_metrics (R:=R) self).1.1 = [].
Proof.
  intros Hall. rewrite calculate_metrics_collections. cbn [fst].
  induction Hall as [|[scheme_name services] items Hitem _ IH]; [done|].
  cbn [flat_map]. rewrite IH, app_nil_r. unfold returned_rows. cbn [fst snd] in *.
  destruct (calculate_scheme_metrics self scheme_name services)
    as [[e|[rows sm]] out] eqn:Hcall; [done|].
  apply calculate_scheme_metrics_inv in Hcall as (_ & -> & _ & _). unfold runs.
  induction Hitem as [|svc services Hsvc _ IHs]; [done|].
  unfold processed. destruct (decide (use_cases svc = [])) as [Hu|Hu].
  - rewrite filter_cons_False by (intros Hn; now apply Hn). exact IHs.
  - rewrite filter_cons_True by exact Hu. cbn [map flat_map].
    unfold processed in IHs. rewrite IHs, app_nil_r.
    apply (map_eq_nil (fun r => (Row.Scheme r, Row.Service r, Row.Operation r))).
    destruct (known_all_unknown self _ Hsvc) as (Hk & _).
    rewrite rows_keys by (unfold service_raised; now rewrite Hk).
    now rewrite Hk.
Qed.

Lemma not_write_in_prints (log : list string) (a : action R) :
  a ∈ map Printed log -> exists line, a = Printed line.
Proof. intros Ha. apply list_elem_of_fmap in Ha as (line & -> & _). eauto. Qed.

End ExportFacts.

Lemma output_names_differ (base_name ext : string) :
  base_name +:+ "_detailed" +:+ ext ≠ base_name +:+ "_summary" +:+ ext.
Proof. intros Heq. apply String.app_inj in Heq. discriminate Heq. Qed.

(** X21 ([export_to_excel], nothing to export).  When no use case of any
    scheme has an entry in the operations catalogue the call prints the
    output of [calculate_metrics] and the warning, returns [(None, None)],
    and neither creates a directory nor writes a workbook, whether or not
    there are summary rows. *)
Theorem export_nothing_without_rows {R} `{PyNum R} (sys : os) (self : calculator)
    (output_file : string) :
  Forall (fun item : string * list service =>
            Forall (fun svc =>
                      Forall (fun uc => operations self !! uc = None)
                             (use_cases svc)) item.2) (schemes self) ->
  export_to_excel (R:=R) sys self output_file
  = (None, map Printed (calculate_metrics (R:=R) self).2
           ++ [Printed "Warning: No data to export"]).
Proof.
  intros Hall. pose proof (no_known_rows self Hall) as Hrows.
  unfold export_to_excel.
  destruct (calculate_metrics self) as [[rows summary] log].
  cbn [fst snd] in *. subst rows. reflexivity.
Qed.

(** X22 ([export_to_excel], success).  The call returns two paths exactly
    when there are detail rows and summary rows, the output directory
    exists or can be created, and both workbooks can be written; the paths
    are the output file's name with [_detailed] and [_summary] put before
    its extension, they differ, and the last things done are writing all
    detail rows to the first and all summary rows to the second, in that
    order. *)
Theorem export_success {R} `{PyNum R} (sys : os) (self : calculator)
    (output_file : string) :
  let rows := (calculate_metrics (R:=R) self).1.1 in
  let summary := (calculate_metrics (R:=R) self).1.2 in
  let output_dir :=
    if decide (dirname sys output_file = EmptyString) then "."%string
    else dirname sys output_file in
  let detailed_output :=
    (splitext sys output_file).1 +:+ "_detailed" +:+ (splitext sys output_file).2 in
  let summary_output :=
    (splitext sys output_file).1 +:+ "_summary" +:+ (splitext sys output_file).2 in
  ((exists paths, (export_to_excel (R:=R) sys self output_file).1 = Some paths)
   <-> rows ≠ [] /\ summary ≠ []
       /\ (path_exists sys output_dir = true
           \/ makedirs_raises sys output_dir = None)
       /\ writer_raises sys detailed_output = None
       /\ writer_raises sys summary_output = None)
  /\ (forall paths,
        (export_to_excel (R:=R) sys self output_file).1 = Some paths ->
        paths = (detailed_output, summary_output)
        /\ detailed_output ≠ summary_output
        /\ exists before,
             (export_to_excel (R:=R) sys self output_file).2
             = before
               ++ [DetailedWritten detailed_output rows;
                   Printed ("Detailed analysis exported to " +:+ detailed_output);
                   SummaryWritten summary_output summary;
                   Printed ("Scheme summary exported to " +:+ summary_output)]).
Proof.
  intros rows summary output_dir detailed_output summary_output.
  subst rows summary output_dir detailed_output summary_output.
  unfold export_to_excel.
  destruct (calculate_metrics self) as [[rows summary] log]. cbn [fst snd].
  destruct (splitext sys output_file) as [base_name ext]. cbn [fst snd].
  set (output_dir := if decide (dirname sys output_file = EmptyString) then "."%string
                     else dirname sys output_file).
  destruct (bool_decide (rows = [])) eqn:Hrows; cbn [orb].
  { apply bool_decide_eq_true in Hrows. split; [|done].
    split; [now intros [paths Hp]|]. now intros (Hne & _). }
  apply bool_decide_eq_false in Hrows.
  destruct (bool_decide (summary = [])) eqn:Hsummary.
  { apply bool_decide_eq_true in Hsummary. split; [|done].
    split; [now intros [paths Hp]|]. now intros (_ & Hne & _). }
  apply bool_decide_eq_false in Hsummary.
  destruct (path_exists sys output_dir) eqn:Hexists;
    [|destruct (makedirs_raises sys output_dir) as [msg|] eqn:Hmake];
    (destruct (writer_raises sys (base_name +:+ "_detailed" +:+ ext))
       as [msg1|] eqn:Hw1;
     [|destruct (writer_raises sys (base_name +:+ "_summary" +:+ ext))
         as [msg2|] eqn:Hw2]);
    cbn [fst snd];
    (split;
     [split;
      [intros [paths Hp]; first [discriminate Hp | tauto]
      |intros (_ & _ & Hdir & Hd & Hs);
       first [discriminate Hd | discriminate Hs
             | destruct Hdir as [Hdir|Hdir]; discriminate Hdir | eauto]]
     |intros paths Hp;
      first [discriminate Hp
            |injection Hp as <-; split; [reflexivity|];
             split; [apply output_names_differ|];
             eexists; rewrite <- app_assoc; reflexivity]]).
Qed.

(** X23 ([export_to_excel], failure).  A call that returns [(None, None)]
    has written no summary workbook; it may have written the detailed one:
    when the first workbook can be written and the second cannot, the
    detail rows are written, the failure is printed and [(None, None)] is
    returned. *)
Theorem export_not_atomic {R} `{PyNum R} (sys : os) (self : calculator)
    (output_file : string) :
  let rows := (calculate_metrics (R:=R) self).1.1 in
  let summary := (calculate_metrics (R:=R) self).1.2 in
  let log := (calculate_metrics (R:=R) self).2 in
  let output_dir :=
    if decide (dirname sys output_file = EmptyString) then "."%string
    else dirname sys output_file in
  let detailed_output :=
    (splitext sys output_file).1 +:+ "_detailed" +:+ (splitext sys output_file).2 in
  let summary_output :=
    (splitext sys output_file).1 +:+ "_summary" +:+ (splitext sys output_file).2 in
  ((export_to_excel (R:=R) sys self output_file).1 = None ->
   forall path frame,
     SummaryWritten path frame ∉ (export_to_excel (R:=R) sys self output_file).2)
  /\ (rows ≠ [] -> summary ≠ [] ->
      path_exists sys output_dir = true ->
      writer_raises sys detailed_output = None ->
      forall msg, writer_raises sys summary_output = Some msg ->
      export_to_excel (R:=R) sys self output_file
      = (None,
         map Printed log
         ++ [DetailedWritten detailed_output rows;
             Printed ("Detailed analysis exported to " +:+ detailed_output);
             Printed ("Excel export failed: " +:+ msg)])).
Proof.
  intros rows summary log output_dir detailed_output summary_output.
  subst rows summary log output_dir detailed_output summary_output.
  unfold export_to_excel.
  destruct (calculate_metrics self) as [[rows summary] log]. cbn [fst snd].
  destruct (splitext sys output_file) as [base_name ext]. cbn [fst snd].
  set (output_dir := if decide (dirname sys output_file = EmptyString) then "."%string
                     else dirname sys output_file).
  split.
  - assert (Hprints : forall path frame,
              SummaryWritten (R:=R) path frame ∉ map Printed log).
    { intros path frame Hin. apply not_write_in_prints in Hin as [line Hin].
      discriminate Hin. }
    destruct (bool_decide (rows = []) || bool_decide (summary = []));
      [|destruct (path_exists sys output_dir);
        [|destruct (makedirs_raises sys output_dir)];
        (destruct (writer_raises sys (base_name +:+ "_detailed" +:+ ext));
         [|destruct (writer_raises sys (base_name +:+ "_summary" +:+ ext))])];
      cbn [fst snd]; intros Hnone path frame Hin; try discriminate Hnone;
      repeat (apply elem_of_app in Hin as [Hin|Hin]);
      try (now apply Hprints in Hin);
      repeat (apply elem_of_cons in Hin as [Hin|Hin]; [discriminate Hin|]);
      now apply elem_of_nil in Hin.
  - intros Hrows Hsummary Hexists Hw1 msg Hw2.
    rewrite !bool_decide_false by assumption. cbn [orb].
    rewrite Hexists, Hw1, Hw2. now rewrite <- app_assoc.
Qed.

(** ** The examples, computed *)

Lemma ping_float :
  calculate_scheme_metrics (R:=float) Ping.calc "S" [Ping.Health]
  = (inr (Ping.expected_rows, Ping.expected_metrics), []).
Proof. vm_compute. reflexivity. Qed.

Lemma ping_Qc :
  calculate_scheme_metrics (R:=Qc) Ping.calc "S" [Ping.Health]
  = (inr (Ping.expected_rows, Ping.expected_metrics), []).
Proof. vm_compute. qc_fields. Qed.

Lemma disk_loads :
  init Documents.disk "config.yaml" = (inr (Scenario.calc "S"), Documents.printed).
Proof. vm_compute. reflexivity. Qed.

Lemma weighted_disk_loads :
  init (Documents.disk_with Documents.weighted_config) "config.yaml"
  = (inr Documents.weighted_calc, Documents.printed).
Proof. vm_compute. reflexivity. Qed.

Lemma untyped_disk_loads :
  init (Documents.disk_with Documents.untyped_config) "config.yaml"
  = (inr Documents.untyped_calc, Documents.printed).
Proof. vm_compute. reflexivity. Qed.

Lemma entity_docs_parse :
  _parse_entities (Some (Documents.stale_entity :: Documents.entity_docs))
  = (inr Scenario.order_entities, ["Loaded 1 entities"%string]).
Proof. vm_compute. reflexivity. Qed.

Lemma operation_docs_load :
  load_operations "operations.yaml" (Some (Some Documents.operation_docs))
  = (inr Scenario.order_operations,
     ["Loading operations file: operations.yaml"; "Loaded 2 operations"]%string).
Proof. vm_compute. reflexivity. Qed.

Lemma default_weights_nonneg : map_Forall (fun _ w => 0 <= w) default_op_weights.
Proof.
  intros op_type w Hw. pose proof (default_weight_range op_type) as Hrange.
  rewrite Hw in Hrange. cbn in Hrange. lia.
Qed.

Lemma scenario_no_repeats :
  no_repeats (Scenario.calc "S") (use_cases Scenario.OrderService).
Proof.
  unfold no_repeats. repeat constructor; intros op Hop; vm_compute in Hop;
    injection Hop as <-; apply (bool_decide_unpack _); vm_compute; exact I.
Qed.

(** ** Instances *)

Lemma ghost_float :
  exists sm out,
    calculate_scheme_metrics (R:=float) Ghost.calc "S" [Ghost.Orders]
    = (inr ([Ghost.row], sm), out).
Proof. eexists _, _. vm_compute. reflexivity. Qed.

(** The service [CreateOrder, Ghost] yields the one record of [CreateOrder]. *)
Lemma detail_table_keys_witness :
  exists sm out,
    calculate_scheme_metrics (R:=float) Ghost.calc "S" [Ghost.Orders]
    = (inr ([Ghost.row], sm), out)
    /\ map (fun r => (Row.Scheme r, Row.Service r, Row.Operation r)) [Ghost.row]
       = [("S", "Orders", "CreateOrder")]%string.
Proof.
  destruct ghost_float as (sm & out & Hcall).
  exists sm, out. split; [exact Hcall|].
  rewrite (detail_table_keys float _ Ghost.calc "S" [Ghost.Orders] _ _ _ Hcall).
  reflexivity.
Defined.

(** The counts of the two records of the order scenario. *)
Lemma row_counts_bounded_witness :
  Forall (fun r : Row.t float =>
            1 <= Row.NOO r /\ Row.M r = Row.NOO r
            /\ 0 <= Row.IPR r <= Row.FP r /\ 0 <= Row.OPR r <= Row.CP r
            /\ 1 <= Row.FP r /\ 1 <= Row.CP r
            /\ 0 <= Row.F r <= Row.MF r
            /\ Row.F r <= Row.FP r + Row.CP r)
         (Scenario.expected_rows "S").
Proof.
  apply Forall_forall. intros r Hr.
  exact (row_counts_bounded float _ _ _ _ _ _ _ r scenario_float Hr).
Defined.

(** On the order scenario [MF] lies between 0 and [M * F], and LCOM between 0 and 1. *)
Lemma lcom_range_witness :
  Forall (fun r : Row.t float => 0 <= Row.MF r <= Row.M r * Row.F r)
         (Scenario.expected_rows "S")
  /\ Forall (fun r : Row.t Qc => (0 <= Row.LCOM r <= 1)%Qc)
            (Scenario.expected_rows "S").
Proof.
  split; apply Forall_forall; intros r Hr.
  - destruct (proj1 lcom_range float _ _ _ _ _ _ _ r scenario_float Hr)
      as (svc & Hsvc & _ & Hmf & Hbound).
    split; [exact Hmf|]. apply Hbound.
    apply list_elem_of_singleton in Hsvc as ->. exact scenario_no_repeats.
  - destruct (proj2 lcom_range _ _ _ _ _ _ r scenario_Qc Hr) as [Hle Hge].
    split; [|exact Hle]. apply Hge.
    apply list_elem_of_In in Hr. destruct Hr as [<-|[<-|[]]]; cbn; lia.
Defined.

(** The scores of the order scenario under the default weights, in exact
    arithmetic and in binary64. *)
Lemma granularity_range_witness :
  Forall (fun r : Row.t Qc =>
            0 <= Row.OT r <= Row.O r
            /\ (0 <= Row.DGS r)%Qc
            /\ (0 <= Row.FGS r <= 1)%Qc
            /\ (0 <= Row.SGM_Operation r <= Row.FGS r)%Qc
            /\ (0 <= Row.SGM r <= 1)%Qc)
         (Scenario.expected_rows "S")
  /\ Forall (fun r : Row.t float =>
               0 <= Row.OT r <= Row.O r /\ (Row.DGS r <=? 1)%float = true)
            (Scenario.expected_rows "S").
Proof.
  destruct granularity_range as (Hint & Hexact & Hfloat & _).
  split; apply Forall_forall; intros r Hr.
  - split; [exact (Hint Qc _ _ _ _ _ _ _ r scenario_Qc Hr default_weights_nonneg)|].
    destruct (Hexact _ _ _ _ _ _ r scenario_Qc Hr) as [Hdgs Hrest].
    split; [exact Hdgs|]. exact (Hrest default_weights_nonneg).
  - split; [exact (Hint float _ _ _ _ _ _ _ r scenario_float Hr default_weights_nonneg)|].
    exact (Hfloat _ _ _ _ _ _ r scenario_float Hr).
Defined.

(** The averages of the order scenario lie between 0 and 1. *)
Lemma averages_range_witness :
  exists rows sm out,
    calculate_scheme_metrics (R:=Qc) (Scenario.calc "S") "S" [Scenario.OrderService]
    = (inr (rows, sm), out)
    /\ (0 <= SchemeMetrics.ALCOM sm <= 1)%Qc
    /\ (0 <= SchemeMetrics.ASGM sm <= 1)%Qc.
Proof.
  destruct (proj1 averages_range (Scenario.calc "S") "S" [Scenario.OrderService])
    as (rows & sm & out & Hcall & Hle & Hge & Hsgm); [discriminate|].
  exists rows, sm, out. split; [exact Hcall|]. split.
  - split; [|exact Hle]. apply Hge.
    constructor; [exact scenario_no_repeats|constructor].
  - exact (Hsgm default_weights_nonneg).
Defined.

(** The order service with its two use cases swapped. *)
Lemma use_case_order_witness :
  let swapped := {| name := "Swapped"; use_cases := ["GetOrder"; "CreateOrder"]%string |} in
  let run := run_service (R:=float) (Scenario.calc "S") "S" Scenario.OrderService in
  let run' := run_service (R:=float) (Scenario.calc "S") "S" swapped in
  (run_noo run' = run_noo run
   /\ run_lcom run' = run_lcom run
   /\ run_rows run' ≡ₚ map (retag "Swapped" (run_sgm run')) (run_rows run))
  /\ run_sgm (run_service (R:=Qc) (Scenario.calc "S") "S" swapped)
     = run_sgm (run_service (R:=Qc) (Scenario.calc "S") "S" Scenario.OrderService).
Proof.
  intros swapped run run'. split.
  - exact (proj1 use_case_order float _ (Scenario.calc "S") "S"
             Scenario.OrderService swapped (perm_swap _ _ _)).
  - exact (proj2 use_case_order (Scenario.calc "S") "S"
             Scenario.OrderService swapped (perm_swap _ _ _)).
Defined.

(** The batch of a scheme without services and the order scheme. *)
Lemma batch_splits_witness :
  let whole := calculate_metrics (R:=float)
                 (with_schemes Mixed.calc
                    ([("Empty"%string, [])] ++ [("S"%string, [Scenario.OrderService])])) in
  let head := calculate_metrics (R:=float)
                (with_schemes Mixed.calc [("Empty"%string, [])]) in
  let tail := calculate_metrics (R:=float)
                (with_schemes Mixed.calc [("S"%string, [Scenario.OrderService])]) in
  whole.1.1 = head.1.1 ++ tail.1.1
  /\ whole.1.2 = head.1.2 ++ tail.1.2
  /\ whole.2 = head.2 ++ tail.2.
Proof.
  intros whole head tail.
  destruct (batch_splits float _ Mixed.calc [("Empty"%string, [])]
              [("S"%string, [Scenario.OrderService])]) as (Hrows & Hsummary & Hlog).
  split; [exact Hrows|]. split; [exact Hsummary|]. apply Hlog; discriminate.
Defined.

(** Of the two schemes of that batch only [S] is in the summary and on the
    rows; of the two schemes with the weights 2^1024 and 1 - 2^1024, only
    [T], the one that does not raise. *)
Lemma summary_lists_schemes_witness :
  (map Summary.Scheme (calculate_metrics (R:=float) Mixed.calc).1.2 = ["S"%string]
   /\ Forall (fun r => Row.Scheme r ∈ ["S"%string])
             (calculate_metrics (R:=float) Mixed.calc).1.1)
  /\ map Summary.Scheme (calculate_metrics (R:=float) Huge.calc).1.2 = ["T"%string]
  /\ exists rows sm out,
       calculate_scheme_metrics (R:=float) Huge.calc "T" [Huge.Reader]
       = (inr (rows, sm), out).
Proof.
  split; [split|split].
  - rewrite (proj1 (summary_lists_schemes float _ Mixed.calc)).
    vm_compute. reflexivity.
  - apply Forall_forall. intros r Hr.
    apply (proj1 (proj2 (summary_lists_schemes float _ Mixed.calc))) in Hr.
    revert Hr. vm_compute. exact (fun H => H).
  - rewrite (proj1 (summary_lists_schemes float _ Huge.calc)).
    vm_compute. reflexivity.
  - apply (proj2 (proj2 (summary_lists_schemes float _ Huge.calc)) "T"%string).
    split; [discriminate|]. vm_compute. reflexivity.
Defined.

(** The order scheme, and the same with a service without use cases. *)
Lemma idle_service_dilutes_witness :
  exists lcoms sgms out',
    (lcoms / of_int 1)%num = 0%float
    /\ (sgms / of_int 1)%num = 1%float
    /\ calculate_scheme_metrics (R:=float) (Scenario.calc "S") "S"
         [Scenario.OrderService; {| name := "Idle"; use_cases := [] |}]
       = (inr (Scenario.expected_rows "S",
               SchemeMetrics.mk (lcoms / of_int 2)%num (sgms / of_int 2)%num 2),
          out').
Proof.
  destruct (idle_service_dilutes float _ (Scenario.calc "S") "S"
              [Scenario.OrderService] [] {| name := "Idle"; use_cases := [] |}
              _ _ _ eq_refl scenario_float)
    as (lcoms & sgms & out' & Hl & Hs & Hcall).
  exists lcoms, sgms, out'. split; [symmetry; exact Hl|].
  split; [symmetry; exact Hs|]. exact Hcall.
Defined.

(** The order service with [Ghost] put between its two use cases. *)
Lemma unknown_name_inflates_witness :
  let run := run_service (R:=float) (Scenario.calc "S") "S" Scenario.OrderService in
  let run' := run_service (R:=float) (Scenario.calc "S") "S"
                {| name := "OrderService";
                   use_cases := ["CreateOrder"; "Ghost"; "GetOrder"]%string |} in
  run_noo run' = run_noo run + 1
  /\ run_sgm run' = run_sgm run
  /\ run_rows run' = map (recount (run_noo run + 1)) (run_rows run)
  /\ run_log run' = [warn_unknown "Ghost"].
Proof.
  intros run run'.
  destruct (unknown_name_inflates float _ (Scenario.calc "S") "S" "OrderService"
              ["CreateOrder"%string] ["GetOrder"%string] "Ghost" eq_refl)
    as (Hnoo & Hsgm & Hrows & _ & Hlog).
  split; [exact Hnoo|]. split; [exact Hsgm|]. split; [exact Hrows|].
  refine (eq_trans Hlog _). vm_compute. reflexivity.
Defined.

(** The record of [Ping], in both arithmetics. *)
Lemma accessless_operation_witness :
  Forall (fun r : Row.t Qc =>
            Row.IPR r = 0 /\ Row.OPR r = 0 /\ Row.DGS r = 0%Qc
            /\ Row.SGM_Operation r = 0%Qc) Ping.expected_rows
  /\ Forall (fun r : Row.t float =>
               Row.IPR r = 0 /\ Row.OPR r = 0 /\ Row.DGS r = 0%float)
            Ping.expected_rows.
Proof.
  split; apply Forall_forall; intros r Hr.
  - apply (proj1 accessless_operation _ _ _ _ _ _ r ping_Qc Hr).
    apply list_elem_of_singleton in Hr as ->. reflexivity.
  - apply list_elem_of_singleton in Hr as ->.
    apply (proj2 accessless_operation _ _ _ _ _ _ _ ping_float);
      [apply list_elem_of_here|reflexivity|reflexivity|reflexivity].
Defined.

(** An entity without attributes is refused; the order entity is accepted. *)
Lemma parse_entities_outcome_witness :
  _parse_entities (Some [Documents.partial_entity])
  = (inl (ValueError "Incomplete entity definition"), [])
  /\ exists c,
       _parse_entities (Some Documents.entity_docs)
       = (inr c, ["Loaded " +:+ pretty (size c) +:+ " entities"])
       /\ (size c <= 1)%nat
       /\ forall n, is_Some (c !! n)
                    <-> exists e, e ∈ Documents.entity_docs
                                  /\ EntityDoc.name e = Some n.
Proof.
  split.
  - apply (proj1 (proj2 parse_entities_outcome)). intros Hall.
    apply Forall_cons in Hall as [[_ [attrs Hattrs]] _]. discriminate Hattrs.
  - apply (proj2 (proj2 parse_entities_outcome) Documents.entity_docs).
    repeat constructor; eexists; reflexivity.
Defined.

(** Of two definitions of [Order] the second one is kept. *)
Lemma entity_last_definition_wins_witness :
  Scenario.order_entities !! "Order"%string
  = Some ["Order.id"; "Order.status"]%string.
Proof.
  exact (entity_last_definition_wins [Documents.stale_entity]
           {| EntityDoc.name := Some "Order"%string;
              EntityDoc.nanoentities := Some ["id"; "status"]%string |}
           [] "Order" ["id"; "status"]%string _ _
           entity_docs_parse eq_refl eq_refl (Forall_nil_2 _)).
Defined.

(** The identifiers of [Order] come from its entity and are distinct. *)
Lemma attribute_ids_unique_witness :
  (forall n ids, Scenario.order_entities !! n = Some ids ->
     exists e attrs,
       e ∈ Documents.stale_entity :: Documents.entity_docs
       /\ EntityDoc.name e = Some n
       /\ EntityDoc.nanoentities e = Some attrs
       /\ ids = map (qualify n) attrs)
  /\ NoDup ["Order.id"; "Order.status"]%string.
Proof.
  destruct (attribute_ids_unique _ _ _ entity_docs_parse)
    as (Hsource & _ & Hnodup).
  split; [exact Hsource|].
  apply (Hnodup ltac:(repeat constructor; intros attrs [= <-];
                      apply (bool_decide_unpack _); vm_compute; exact I)
                "Order"%string).
  reflexivity.
Defined.

(** The four operation documents, one of them without name, load. *)
Lemma load_operations_outcome_witness :
  (load_operations "operations.yaml" (Some (Some Documents.operation_docs))).1
  = inr Scenario.order_operations
  /\ forall n, is_Some (Scenario.order_operations !! n)
               <-> exists op, op ∈ Documents.operation_docs
                              /\ OperationDoc.name op = Some n.
Proof.
  split; [rewrite operation_docs_load; reflexivity|].
  destruct (proj2 (proj2 (load_operations_outcome "operations.yaml"))
              _ _ _ operation_docs_load) as (data_operations & Hfile & Hkeys).
  injection Hfile as <-. exact Hkeys.
Defined.

(** Of two definitions of [GetOrder] the second one is kept. *)
Lemma operation_last_definition_wins_witness :
  Scenario.order_operations !! "GetOrder"%string
  = Some {| read := ["Order.id"; "Order.status"]%string; write := [] |}.
Proof.
  exact (operation_last_definition_wins "operations.yaml"
           [Documents.stale_get_order; Documents.create_order; Documents.nameless]
           Documents.get_order [] "GetOrder" _ _
           operation_docs_load eq_refl (Forall_nil_2 _)).
Defined.

(** Of the three files of the directory only the order scheme is loaded. *)
Lemma load_schemes_outcome_witness :
  exists schemes log,
    load_schemes "schemes" (Some Documents.scheme_files) = (inr schemes, log)
    /\ NoDup (map fst schemes)
    /\ schemes = [("S"%string, [Scenario.OrderService])].
Proof.
  destruct (load_schemes_returns "schemes" Documents.scheme_files)
    as (schemes & log & Hcall).
  destruct (proj2 (load_schemes_outcome "schemes") _ _ _ Hcall)
    as (json_files & Hdir & Hnodup & _ & Hexact).
  injection Hdir as <-.
  exists schemes, log. split; [exact Hcall|]. split; [exact Hnodup|].
  apply Hexact. apply NoDup_singleton.
Defined.

(** The scheme that only names its services: no record, two warnings. *)
Lemma scheme_without_responsibilities_witness :
  exists services,
    scheme_of Documents.bare_file = Some ("bare"%string, services)
    /\ map name services = ["Orders"; "Billing"]%string
    /\ calculate_scheme_metrics (R:=float) (Scenario.calc "S") "bare" services
       = (inr ([], SchemeMetrics.mk (of_int 0 / of_int (len services))%num
                                    (of_int 0 / of_int (len services))%num 0),
          map (fun svc => warn_no_use_cases (name svc)) services).
Proof.
  destruct (scheme_without_responsibilities (R:=float) (Scenario.calc "S")
              Documents.bare_file Documents.bare_scheme _ eq_refl eq_refl eq_refl)
    as (services & Hscheme & Hnames & _ & Hrun).
  exists services. split; [exact Hscheme|]. split; [exact Hnames|].
  apply Hrun. intros ->. discriminate Hnames.
Defined.

(** The constructor succeeds on the example files. *)
Lemma init_outcome_witness :
  (exists self, (init Documents.disk "config.yaml").1 = inr self)
  /\ last (init Documents.disk "config.yaml").2
     = Some "Configuration loaded successfully!"%string.
Proof.
  destruct (init_outcome Documents.disk "config.yaml") as (Hiff & _ & Hlast).
  assert (Hself : exists self, (init Documents.disk "config.yaml").1 = inr self).
  { apply Hiff.
    exists Documents.config, "entities.json"%string, "operations.yaml"%string,
      "schemes"%string, Documents.entity_docs, Documents.operation_docs,
      Documents.scheme_files.
    repeat (split; [reflexivity|]).
    split; [repeat constructor; eexists; reflexivity|]. split; reflexivity. }
  split; [exact Hself|]. destruct Hself as [self Hself]. exact (Hlast self Hself).
Defined.

(** The example configuration has no weight table: weights from 1 to 4.
    Under the table that has Create only, [GetOrder], a Read, weighs 1 and
    [CreateOrder] 10.  Without type map every use case weighs the 7 of a
    Read. *)
Lemma init_weights_witness :
  (forall uc, 1 <= op_weight (Scenario.calc "S") uc <= 4)
  /\ (op_weight Documents.weighted_calc "GetOrder" = 1
      /\ op_weight Documents.weighted_calc "CreateOrder" = 10)
  /\ (forall uc, op_weight Documents.untyped_calc uc = 7).
Proof.
  split; [|split].
  - destruct (init_weights Documents.disk "config.yaml" _ _ Documents.config
                disk_loads eq_refl) as (Hrange & _ & _).
    exact (Hrange eq_refl).
  - destruct (init_weights (Documents.disk_with Documents.weighted_config)
                "config.yaml" _ _ Documents.weighted_config
                weighted_disk_loads eq_refl) as (_ & Htable & _).
    split; [|reflexivity].
    exact (Htable _ "GetOrder"%string "Read"%string eq_refl eq_refl eq_refl).
  - destruct (init_weights (Documents.disk_with Documents.untyped_config)
                "config.yaml" _ _ Documents.untyped_config
                untyped_disk_loads eq_refl) as (_ & _ & Hsame).
    intros uc. rewrite (Hsame eq_refl uc). reflexivity.
Defined.

(** No use case of the scheme is known: nothing is written, although there is a summary row. *)
Lemma export_nothing_without_rows_witness :
  export_to_excel (R:=float) Documents.plain_os Unknowns.calc
    "results/microservices_metrics.xlsx"
  = (None, map Printed (calculate_metrics (R:=float) Unknowns.calc).2
           ++ [Printed "Warning: No data to export"])
  /\ (calculate_metrics (R:=float) Unknowns.calc).1.2 ≠ [].
Proof.
  split; [|vm_compute; discriminate].
  apply export_nothing_without_rows. repeat constructor.
Defined.

(** The order scenario is exported to the two workbooks. *)
Lemma export_success_witness :
  exists paths,
    (export_to_excel (R:=float) Documents.plain_os (Scenario.calc "S")
       "results/microservices_metrics.xlsx").1 = Some paths
    /\ paths = ("results/microservices_metrics_detailed.xlsx",
                "results/microservices_metrics_summary.xlsx")%string.
Proof.
  destruct (export_success (R:=float) Documents.plain_os (Scenario.calc "S")
              "results/microservices_metrics.xlsx") as [Hiff Hpaths].
  destruct (proj2 Hiff) as [paths Hp].
  { split; [vm_compute; discriminate|]. split; [vm_compute; discriminate|].
    split; [now left|]. split; reflexivity. }
  exists paths. split; [exact Hp|]. exact (proj1 (Hpaths paths Hp)).
Defined.

(** The summary workbook cannot be written: the detailed one is, and nothing is returned. *)
Lemma export_not_atomic_witness :
  exists done,
    export_to_excel (R:=float) Documents.locked_os (Scenario.calc "S")
      "results/microservices_metrics.xlsx"
    = (None, done)
    /\ last done = Some (Printed "Excel export failed: [Errno 13] Permission denied")
    /\ (forall path frame, SummaryWritten path frame ∉ done)
    /\ exists frame,
         DetailedWritten "results/microservices_metrics_detailed.xlsx" frame ∈ done.
Proof.
  pose proof (export_not_atomic (R:=float) Documents.locked_os (Scenario.calc "S")
                "results/microservices_metrics.xlsx") as [Hnone Hpartial].
  cbv zeta in Hnone, Hpartial.
  specialize (Hpartial ltac:(vm_compute; discriminate) ltac:(vm_compute; discriminate)
                eq_refl eq_refl _ eq_refl).
  rewrite Hpartial in Hnone. cbn [fst snd] in Hnone.
  eexists. split; [exact Hpartial|]. split; [|split].
  - rewrite last_app. reflexivity.
  - exact (Hnone eq_refl).
  - eexists. apply elem_of_app. right. apply list_elem_of_here.
Defined.
